(* ===== verification/_CoqProject ===== *)
-Q . S2P
Prelude.v
GoStr.v
Regex.v
Numerals.v
GoErr.v
Util.v
Instance.v
Params.v
Csi.v
Driver.v
Service.v
Controller.v
CloudSpec.v
ControllerSpec.v
ManagerSpec.v
Network.v
NetworkSpec.v
Sha256.v
Json.v
JsonSpec.v
FS.v
Node.v
NodeHost.v
NodeFrame.v
NodeSpec.v
Umount.v
Upcall.v
UpcallSpec.v
Kmod.v
KmodSpec.v
UpcallInstall.v
UpcallInstallSpec.v
Metrics.v
Label.v
LabelSpec.v
LabelRun.v
SharedCloud.v
Server.v
ServerSpec.v
UpcallServe.v
Auth.v
Main.v
MainSpec.v
NodeTree.v
NodeSteps.v
NodePool.v
NodeLocks.v
NodeBook.v
NodeRelease.v
NodeCycle.v
NodeRepeat.v
NodeRuns.v
EndToEnd.v
Concurrency.v
