(* ===== verification/Prelude.v ===== *)
(** * The Lustre CSI driver: a verification development

    The repository is a Container Storage Interface driver for Google Cloud Managed Lustre, in Go.  A
    controller creates, deletes and expands Lustre instances in the cloud for Kubernetes volumes; a node
    server mounts them for pods; an init container loads the Lustre modules into the node's kernel; an
    upcall server runs, in the driver's container, the commands that the kernel's client asks the host for;
    a label controller marks the instances the driver manages.  This development translates these parts
    from the source into executable definitions and proves what makes them correct.

    ** The parts and the files

    Foundations
    - Prelude.v: Go's [(value, error)] pairs ([result]), the state and error monad [M], the frame predicate
      [keeps] with its hints and tactics, postconditions ([post]), [int64] arithmetic ([i64]), Go's map iteration ([MapRange]: some
      permutation of the entries), and the tactics the files share.
    - GoStr.v, Regex.v, Numerals.v: packages strings, strconv, unicode for bytes; regular expressions by backtracking
      with Go's leftmost-first matches; decimal numerals.
    - GoErr.v: gRPC codes, error values with their wrapping, pkg/common/errors.go, and the translation of
      cloud errors in pkg/cloud_provider/lustre/lustre.go.
    - Json.v, JsonSpec.v: encoding/json, both ways.  Sha256.v: crypto/sha256 and [computeHash].
    - FS.v: the calls of packages os and path/filepath on a tree of files, with a schedule of faults.

    The controller
    - Util.v (pkg/util), Params.v (pkg/csi_driver/utils.go), Csi.v (the CSI messages), Instance.v (instances, their names
      and IDs, the conversions in lustre.go and volume.go), Driver.v (lustre_driver.go, identity.go).
    - Service.v: the interface [LustreService] with its laws, and its two implementations, [Manager] (lustreServiceManager,
      on a REST client) and [Fake] (fake.go).  Controller.v: controller.go, on any [LustreService].
    - CloudSpec.v, ControllerSpec.v: their theorems.  ManagerSpec.v: deletion and updates down to the REST client.  SharedCloud.v:
      handlers that others interrupt at every call of the service.
    - Label.v, LabelSpec.v: pkg/labelcontroller.  LabelRun.v: its manager's queue as a step relation, in which anybody may change
      the cloud.
    - Concurrency.v: the handlers of a server as a step relation over the volume locks.

    The node
    - Network.v, NetworkSpec.v: pkg/network.  Node.v: node.go and unmount.go, on any [Mounter] and [Netlinker].  Umount.v: the umount
      command of unmount.go over processes that may hang, and how long a call takes.
    - NodeFrame.v: what all node handlers are made of.  NodeSpec.v, NodeTree.v: their theorems.  NodeHost.v: a node in memory
      with the laws of the interfaces.
    - NodeSteps.v: what one call does to references, tokens and global mounts.  NodePool.v: every handler as a program of single calls,
      which runs as the handler of Node.v does ([programs_run_as_handlers]), a pool that steps such programs in any
      order, and what holds all the time.  NodeLocks.v: the locks of target paths in the pool.  NodeBook.v: a specification of the references
      of pods that knows no files and no mounts, which the pool implements.
    - NodeRelease.v, NodeCycle.v: what an unpublication gives back.  NodeRepeat.v: requests that are made again.  NodeRuns.v:
      where the bookkeeping goes wrong.
    - Kmod.v, KmodSpec.v: pkg/kmod_installer and cmd/kmod_installer.
    - Upcall.v, UpcallSpec.v: the handling of a connection in pkg/upcall and cmd/lustre-host-proxy.  UpcallServe.v: the life of the
      server.  UpcallInstall.v, UpcallInstallSpec.v: pkg/upcall/installer.go.

    The program
    - Server.v, ServerSpec.v: server.go, [ParseEndpoint] and [Run].  Metrics.v: pkg/metrics.  Auth.v: pkg/cloud_provider/auth.
    - Main.v, MainSpec.v: cmd/csi_driver/main.go, pkg/k8sclient, pkg/cloud_provider/metadata, cloud.go.
    - EndToEnd.v: the controller's volume at the node.

    ** State and operations

    A server is a record: [controllerState] has the locks, the service's state and the random source, [nodeState]
    the locks, the files and the rest of the node, [kmodState] the files and the host, [host] files, links and commands.
    A handler is a computation [M state goerr response]; Go's early returns are its branches, deferred calls
    are wrappers ([defer_Release], [defer_remove]), a loop is a fixpoint over its list.  What the code calls and the repository
    does not hold is a type class: the REST client, netlink, the metadata server, the cluster, commands, mounts, the upcall's
    socket, sockets to listen on, HTTP, controller-runtime's manager.  Theorems are stated for every instance, or for those
    with the documented laws that the class [...Laws] beside it names, and each class a theorem is about has an instance in
    memory on which witnesses run.

    ** What is shown

    - Creation and deletion: CreateVolume is idempotent, also while others work on the service between its calls, reports
      what it was asked for, never sends a second creation after a failed one, and gives new instances the requested labels
      and a name unused in the region; the search for a name ends.  Deletion touches the named instance only, and success means
      that it is gone from the cloud.  Expansion never shrinks, and loses no labels that the label controller writes meanwhile.
      Volume IDs identify instances.  The manager refines the service's contract.
    - Locks: every handler of both servers returns the locks it took; under any interleaving no two handlers hold a key.
    - The node: staging and publishing leave the mounts, references and tokens they should, under all I/O faults where the
      theorem says so; unpublishing spares other pods; the unmount escalates in order and ends in time though every umount hangs; the
      token file is replaced atomically; the files stay a tree; repeating what is done succeeds and changes nothing, and a
      repeated publication brings the pod its new token.  The bookkeeping of IAM volumes refines its specification: however the
      calls of a node interleave, a pod keeps its reference until it or its volume is worked on again, and a key that a pod refers to
      keeps its token, and its mount unless that was corrupted and could not be restored; the last pod's unpublication gives both back,
      and undoes the publication.  No two handlers work on a target at a time.  A volume that the controller creates is what the pod finds
      at its target.  NodeRuns.v shows in which situations the bookkeeping of IAM volumes fails.
    - The program: which services run where, how endpoints are read, that the program never stops waiting, what its metrics
      show, how tokens are used again.
    - The network: routing tables are found again, interfaces are of the right network.
    - The kernel module installer: what it runs, where module arguments end up, that no temporary directory
      stays, that it touches no node that has the modules, and that the driver later finds the interfaces the installer configured.
    - Upcalls: only whitelisted commands run, in an environment the host cannot take over; proxy and server
      together are the command; the proxy connects if it can; the socket is root's, every connection is answered once, and the
      server ends when it is told to.
    - The label controller: a label is set once, not on the driver's own instances, and reconciles fail in the listed cases only;
      volumes that have left the queue are labelled, but those whose instance somebody else changed since.

    ** Bounds and fuel

    Go's [int64] and [int] are integers with [i64] after each operation that can overflow.  A star of a
    regular expression goes round at most once for each character that remains, since every round must consume one.
    [Json.parse_document] takes two for each character and two more, and [Unmarshal_fuel] shows that it never runs out.  The
    search for a free name takes one round more than the random source has numbers, every round draws five, and
    [unique_name_found] shows that this suffices.  Patterns of files ([glob_regex]) and versions take the length of their
    text, of which every step uses a character, and [valid_utf8] one round for each byte.  The retries of the proxy and of the node getter and the limit
    of a request (1 MiB) are those of the code.

    ** Simplifications

    - Text is bytes: case mapping, character classes and [%q] treat ASCII as Go does and leave other bytes alone; the
      round trips through JSON are stated for ASCII strings.
    - An error's value stands for what the code can observe of it: its text, wrapping and codes.  The text of the request in
      messages of the cloud's list calls is left out.  A value that accompanies an error is dropped where callers ignore it.
    - The random source is a list of numbers and then the end of file.  Iterators are a list and perhaps an error.
    - The filesystem has no symbolic links but in UpcallInstall.v, and no contents of mounted filesystems; a failing call may have been
      served in part as the schedule says ([fault_progress]).
    - Waiting for a process or for a context, whichever ends first, is one call ([Wait_until]); the time of umounts (Umount.v) is that of
      starts, waits and looks at mount points.  The deadlines and the cancellation of other calls are left out, and so is logging.
    - A call of the service is one step for the others (SharedCloud.v), also one that waits for an operation of the cloud.
    - In step relations a connection of the upcall server ([step_handle]; the code runs a goroutine for each), a reconcile, the set-up
      of routes ([set_up_multi_nic]), and a section of a node handler under the lock of an IAM key are one step; such a section may
      also find its lock held by another handler, with the result that the code gives then.
    - Of a mount table it is relied on ([GlobalMountLaws]) that a call on one path leaves mounts at other paths alone, and that
      a look at a mounted global path reports it, or fails as it does at a corrupted mount; the code then unmounts it, and where it cannot mount it
      again the theorems name the key as lost ([losses]).
    - The proxy's connection ([server_ipc]) is one that is accepted and whose answer is read without error; the deadlines of
      cmd/lustre-host-proxy are left out, and the retries of the dialling are a model of their own.  The life of the upcall server
      ([upcall_step]) starts after its socket has its mode: the moment between Listen and Chmod is outside, and the
      rest of the node leaves the file of the socket alone.
    - In a URL the syntax of a host ([Url.Authority]) is a parameter, since it differs between releases of Go.  A [time.Time] is a number of nanoseconds.
    - A metric's order and help text are left out; the pattern of the metrics' path is a parameter.
    - os/exec removes duplicate variables from an environment; [variable] in UpcallSpec.v is what a program then sees.
    - A node that is found is not nil (k8sclient, network, kmod_installer check for it).

    ** Not modelled

    - Serving itself: the HTTP server of the metrics, gRPC's and HTTP's connections; the clients behind the interfaces (netlink, REST,
      the metadata server, the cluster, mounts), of which the repository has only calls; [extractFakeMounter], which searches the
      mounter by reflection for what tests put there ([execUmount] takes the result as an argument).
    - test/: programs that create clusters and run tests. *)
From stdpp Require Export base tactics option list gmap strings pretty sorting.
From Stdlib Require Export ZArith Lia Ascii.

#[global] Open Scope Z_scope.

(** ** Results: Go's [(value, error)] pairs

    A Go function that returns [(A, error)] with exactly one of the two
    meaningful is a [result E A]. *)
Inductive result (E A : Type) : Type :=
| Ok (a : A)
| Err (e : E).
Arguments Ok {E A} a.
Arguments Err {E A} e.

#[export] Instance result_ret {E} : MRet (result E) := λ A a, Ok a.
#[export] Instance result_bind {E} : MBind (result E) := λ A B f m,
  match m with Ok a => f a | Err e => Err e end.
#[export] Instance result_fmap {E} : FMap (result E) := λ A B f m,
  match m with Ok a => Ok (f a) | Err e => Err e end.

#[export] Instance result_eq_dec {E A} `{EqDecision E, EqDecision A} : EqDecision (result E A).
Proof. solve_decision. Defined.

Definition is_ok {E A} (r : result E A) : bool :=
  match r with Ok _ => true | Err _ => false end.

(** The error of a result, Go's second return value. *)
Definition error_of {E A} (r : result E A) : option E :=
  match r with Ok _ => None | Err e => Some e end.

(** [map_err] rewrites the error of a result and leaves its value alone. *)
Definition map_err {E E' A} (f : E → E') (r : result E A) : result E' A :=
  match r with Ok a => Ok a | Err e => Err (f e) end.

Lemma is_ok_true {E A} (r : result E A) : is_ok r = true ↔ ∃ a, r = Ok a.
Proof. destruct r; naive_solver. Qed.

Lemma bind_ok {E A B} (m : result E A) (f : A → result E B) b :
  m ≫= f = Ok b ↔ ∃ a, m = Ok a ∧ f a = Ok b.
Proof. destruct m; cbn; naive_solver. Qed.

Lemma map_err_ok {E E' A} (f : E → E') (r : result E A) a :
  map_err f r = Ok a ↔ r = Ok a.
Proof. destruct r; cbn; naive_solver. Qed.

(** ** The state-and-error monad

    A handler or a service call reads and changes a state [S] and returns a
    result.  [attempt] gives the caller the result to inspect, as
    [x, err := f()] does; the plain bind is the code's
    [if err != nil { return nil, err }]. *)
Definition M (S E A : Type) : Type := S → result E A * S.

#[export] Instance M_ret {S E} : MRet (M S E) := λ A a s, (Ok a, s).
#[export] Instance M_bind {S E} : MBind (M S E) := λ A B f m s,
  match m s with
  | (Ok a, s') => f a s'
  | (Err e, s') => (Err e, s')
  end.

Definition fail {S E A} (e : E) : M S E A := λ s, (Err e, s).
Definition lift {S E A} (r : result E A) : M S E A := λ s, (r, s).
Definition attempt {S E E' A} (m : M S E A) : M S E' (result E A) := λ s,
  let '(r, s') := m s in (Ok r, s').
Definition gets {S E A} (f : S → A) : M S E A := λ s, (Ok (f s), s).
Definition modify {S E} (f : S → S) : M S E () := λ s, (Ok (), f s).

Definition result_in {S E A} (m : M S E A) (s : S) : result E A := (m s).1.
Definition state_after {S E A} (m : M S E A) (s : S) : S := (m s).2.

Lemma run_pair {S E A} (m : M S E A) s : m s = (result_in m s, state_after m s).
Proof. unfold result_in, state_after. by destruct (m s). Qed.

(** A run by the result it has; nothing of the state has to be computed for it. *)
Lemma run_state {S E A} (m : M S E A) s r : result_in m s = r → m s = (r, state_after m s).
Proof. unfold result_in, state_after. by destruct (m s) as [r' s']; intros <-. Qed.

Lemma bind_unfold {S E A B} (m : M S E A) (f : A → M S E B) s :
  (m ≫= f) s = match m s with (Ok a, s') => f a s' | (Err e, s') => (Err e, s') end.
Proof. done. Qed.

(** A composite that succeeds, step by step. *)
Lemma bind_inv {S E A B} (m : M S E A) (f : A → M S E B) s b s' :
  (m ≫= f) s = (Ok b, s') → ∃ a s1, m s = (Ok a, s1) ∧ f a s1 = (Ok b, s').
Proof. rewrite bind_unfold. destruct (m s) as [[a|] s1]; [eauto|done]. Qed.

Lemma attempt_inv {S E E' A} (m : M S E A) s r s' :
  (attempt m : M S E' (result E A)) s = (Ok r, s') → m s = (r, s').
Proof. unfold attempt. destruct (m s). congruence. Qed.

(** ** Frames: what a computation leaves alone

    [keeps P m] says that [m] relates every state to the state it ends in by
    [P].  For a preorder [P] the composite of two such computations is one,
    which is how the lock discipline of a handler is proved: one lemma per
    primitive, and the [keeps] hints put them together. *)
Definition keeps {S E A} (P : relation S) (m : M S E A) : Prop :=
  ∀ s, P s (state_after m s).

Create HintDb keeps.

Section keeps.
Context {S E : Type} (P : relation S) `{!PreOrder P}.

Lemma keeps_ret {A} (a : A) : keeps P (mret a : M S E A).
Proof. intros s. cbn. reflexivity. Qed.

Lemma keeps_fail {A} (e : E) : keeps P (fail e : M S E A).
Proof. intros s. cbn. reflexivity. Qed.

Lemma keeps_lift {A} (r : result E A) : keeps P (lift r).
Proof. intros s. cbn. reflexivity. Qed.

Lemma keeps_gets {A} (f : S → A) : keeps P (gets f : M S E A).
Proof. intros s. cbn. reflexivity. Qed.

Lemma keeps_attempt {E' A} (m : M S E A) :
  keeps P m → keeps P (attempt m : M S E' (result E A)).
Proof.
  intros H s. specialize (H s). unfold state_after, attempt in *.
  by destruct (m s).
Qed.

Lemma keeps_bind {A B} (m : M S E A) (f : A → M S E B) :
  keeps P m → (∀ a, keeps P (f a)) → keeps P (m ≫= f).
Proof.
  intros Hm Hf s. specialize (Hm s). unfold state_after in *.
  rewrite bind_unfold. destruct (m s) as [[a|e] s']; cbn in *; [|done].
  etransitivity; [exact Hm|]. apply Hf.
Qed.

Lemma keeps_modify (f : S → S) : (∀ s, P s (f s)) → keeps P (modify f : M S E ()).
Proof. intros H s. apply H. Qed.
End keeps.

#[export] Hint Resolve keeps_ret keeps_fail keeps_lift keeps_gets keeps_attempt : keeps.
#[export] Hint Resolve keeps_bind : keeps.

(** Walk a computation written with the combinators above, splitting on every
    branch, and leave only the primitives that no hint covers. *)
Ltac keeps_step :=
  lazymatch goal with
  | |- keeps _ (mbind _ _) => eapply keeps_bind; [try typeclasses eauto| |intros ?]
  | |- keeps _ (mret _) => apply keeps_ret; typeclasses eauto
  | |- keeps _ (fail _) => apply keeps_fail; typeclasses eauto
  | |- keeps _ (lift _) => apply keeps_lift; typeclasses eauto
  | |- keeps _ (gets _) => apply keeps_gets; typeclasses eauto
  | |- keeps _ (attempt _) => apply keeps_attempt
  | |- keeps _ (match ?x with _ => _ end) => destruct x
  | |- keeps _ (let '(_, _) := ?x in _) => destruct x
  end.
Ltac keeps_tac := repeat keeps_step; eauto with keeps.

(** ** Postconditions

    [post I P m Q]: from a state with [P], [m] ends in its result and a state with [Q], or fails in a state
    with [I], the invariant that an error must leave as well. *)
Definition post {S E A} (I P : S → Prop) (m : M S E A) (Q : A → S → Prop) : Prop :=
  ∀ s, P s → match m s with (Ok a, s') => Q a s' | (Err _, s') => I s' end.

Section post.
Context {S E : Type} (I : S → Prop).

Lemma post_ret {A} (a : A) (P : S → Prop) : post I P (mret a : M S E A) (λ b s, b = a ∧ P s).
Proof. by intros s Hs. Qed.

Lemma post_fail {A} (e : E) (P : S → Prop) (Q : A → S → Prop) : (∀ s, P s → I s) → post I P (fail e) Q.
Proof. intros HP s Hs. by apply HP. Qed.

Lemma post_bind {A B} (P : S → Prop) (m : M S E A) R (f : A → M S E B) Q :
  post I P m R → (∀ a, post I (R a) (f a) Q) → post I P (m ≫= f) Q.
Proof. intros Hm Hf s Hs. specialize (Hm s Hs). rewrite bind_unfold. destruct (m s) as [[a|e] s']; [by apply Hf|done]. Qed.

Lemma post_attempt {E' A} (P : S → Prop) (m : M S E A) Q :
  post I P m Q →
  post I P (attempt m : M S E' (result E A)) (λ r s, match r with Ok a => Q a s | Err _ => I s end).
Proof. intros Hm s Hs. specialize (Hm s Hs). unfold attempt. by destruct (m s) as [[a|e] s']. Qed.

Lemma post_weaken {A} (P P' : S → Prop) (m : M S E A) Q Q' :
  post I P m Q → (∀ s, P' s → P s) → (∀ a s, Q a s → Q' a s) → post I P' m Q'.
Proof. intros Hm HP HQ s Hs. specialize (Hm s (HP s Hs)). destruct (m s) as [[a|e] s']; auto. Qed.

(** What a computation keeps is a postcondition. *)
Lemma post_keeps {A} (R : relation S) (P P' : S → Prop) (m : M S E A) :
  keeps R m → (∀ s s', P s → R s s' → P' s' ∧ I s') → post I P m (λ _, P').
Proof.
  intros Hm HR s Hs. specialize (HR _ _ Hs (Hm s)). unfold state_after in HR.
  destruct (m s) as [[a|e] s']; tauto.
Qed.

Lemma post_after {A} (P : S → Prop) (m : M S E A) s : post I P m (λ _, I) → P s → I (state_after m s).
Proof. intros Hm Hs. specialize (Hm s Hs). unfold state_after. by destruct (m s) as [[a|e] s']. Qed.
End post.

(** ** Machine integers

    Go's [int64] (and [int], on the 64-bit platforms the driver is built for)
    wraps around modulo [2^64]. *)
Definition i64 (z : Z) : Z := (z + 2^63) `mod` 2^64 - 2^63.

Definition in_i64 (z : Z) : Prop := - 2^63 ≤ z < 2^63.

#[export] Instance in_i64_dec z : Decision (in_i64 z).
Proof. unfold in_i64. apply _. Defined.

Lemma i64_id z : in_i64 z → i64 z = z.
Proof. unfold in_i64, i64. intros. rewrite Z.mod_small; lia. Qed.

Lemma i64_range z : in_i64 (i64 z).
Proof.
  unfold in_i64, i64. pose proof (Z.mod_pos_bound (z + 2^63) (2^64)). lia.
Qed.

(** ** Tactics *)

(** Split the outermost [match] or [if] of the goal or of a hypothesis. *)
Ltac split_match :=
  match goal with
  | |- context [match ?x with _ => _ end] => destruct x eqn:?
  | H : context [match ?x with _ => _ end] |- _ => destruct x eqn:?
  end.

(** The goal [m s = (r, state_after m s)] by computing the result alone. *)
Ltac runs m s r :=
  let Hrun := fresh "Hrun" in
  pose proof (run_state m s r) as Hrun; apply Hrun; vm_compute; reflexivity.

(** Prove a decidable closed fact by running its decision procedure. *)
Ltac decided :=
  lazymatch goal with
  | |- ?P => refine (bool_decide_eq_true_1 P _); vm_compute; reflexivity
  end.

(** ** Go maps

    A [for k, v := range m] loop visits the entries in an order the runtime
    picks.  A [MapRange] is one such choice; what is proved about a loop holds
    for every choice. *)
Class MapRange : Type := {
  range : gmap string string → list (string * string);
  range_perm m : range m ≡ₚ map_to_list m;
}.

(** One order, to run the definitions with. *)
Definition map_range_default : MapRange :=
  {| range := map_to_list; range_perm m := Permutation_refl _ |}.

Section map_range.
Context `{MapRange}.
Implicit Types m : gmap string string.

Lemma elem_of_range m k v : (k, v) ∈ range m ↔ m !! k = Some v.
Proof. by rewrite range_perm, elem_of_map_to_list. Qed.

Lemma range_NoDup_fst m : NoDup (range m).*1.
Proof. rewrite range_perm. apply NoDup_fst_map_to_list. Qed.

Lemma range_list_to_map m : list_to_map (range m) = m.
Proof.
  apply map_eq. intros k. apply option_eq. intros v.
  rewrite <-elem_of_list_to_map by apply range_NoDup_fst. apply elem_of_range.
Qed.
End map_range.
