(* ===== verification/GoStr.v ===== *)
(** * Go strings

    The functions of Go's [strings], [strconv] and [fmt] packages that the
    driver uses, on byte strings ([String.string]).  Case mapping, white space
    and character classes are those of ASCII: on text whose bytes are all below
    128 (names, labels, paths and addresses here are) the functions agree with
    Go's; Go also knows the letters of the rest of Unicode. *)
From S2P Require Import Prelude.

Local Open Scope string_scope.
Local Open Scope Z_scope.

(** ** Characters and concatenation *)

Definition ascii_val (a : ascii) : Z := Z.of_N (N_of_ascii a).

Definition is_lower (a : ascii) : bool := bool_decide (97 ≤ ascii_val a ≤ 122).
Definition is_upper (a : ascii) : bool := bool_decide (65 ≤ ascii_val a ≤ 90).
Definition is_digit (a : ascii) : bool := bool_decide (48 ≤ ascii_val a ≤ 57).

Definition lower_char (a : ascii) : ascii :=
  if is_upper a then ascii_of_N (N_of_ascii a + 32) else a.

Definition slen (s : string) : Z := Z.of_nat (String.length s).

Fixpoint string_map (f : ascii → ascii) (s : string) : string :=
  match s with
  | "" => ""
  | String a s' => String (f a) (string_map f s')
  end.

(** [strings.ToLower], [strings.EqualFold] *)
Definition to_lower (s : string) : string := string_map lower_char s.
Definition equal_fold (s t : string) : bool := bool_decide (to_lower s = to_lower t).

(** [has_char c s]: the byte [c] occurs in [s]. *)
Fixpoint has_char (c : ascii) (s : string) : bool :=
  match s with
  | "" => false
  | String a s' => bool_decide (a = c) || has_char c s'
  end.

(** [strings.ContainsAny(s, chars)] *)
Fixpoint contains_any (s chars : string) : bool :=
  match s with
  | "" => false
  | String a s' => has_char a chars || contains_any s' chars
  end.

(** [strings.HasPrefix(s, p)], [strings.HasSuffix(s, p)], [strings.Contains(s, sub)] *)
Definition has_prefix (s p : string) : bool := String.prefix p s.

Fixpoint has_suffix (s p : string) : bool :=
  bool_decide (s = p) ||
  match s with "" => false | String _ s' => has_suffix s' p end.

Fixpoint contains (s sub : string) : bool :=
  has_prefix s sub ||
  match s with "" => false | String _ s' => contains s' sub end.

(** Slices [s[:n]] and [s[n:]]; the callers' indices are in range. *)
Fixpoint str_take (n : nat) (s : string) : string :=
  match n, s with
  | S n', String a s' => String a (str_take n' s')
  | _, _ => ""
  end.

Fixpoint str_drop (n : nat) (s : string) : string :=
  match n, s with
  | S n', String _ s' => str_drop n' s'
  | _, _ => s
  end.

(** [strings.TrimPrefix], [strings.TrimSuffix] *)
Definition trim_prefix (s p : string) : string :=
  if has_prefix s p then str_drop (String.length p) s else s.
Definition trim_suffix (s p : string) : string :=
  if has_suffix s p then str_take (String.length s - String.length p) s else s.

(** [strings.TrimSpace] *)
Fixpoint trim_left (s : string) : string :=
  match s with
  | "" => ""
  | String a s' => if Ascii.is_space a then trim_left s' else s
  end.

Fixpoint trim_right (s : string) : string :=
  match s with
  | "" => ""
  | String a s' =>
      let t := trim_right s' in
      if Ascii.is_space a && bool_decide (t = "") then "" else String a t
  end.

Definition trim_space (s : string) : string := trim_right (trim_left s).

(** [strings.Index(s, c)] and [strings.LastIndex(s, c)] for a one-byte [c]; [None] is Go's [-1]. *)
Fixpoint index (c : ascii) (s : string) : option nat :=
  match s with
  | "" => None
  | String a s' => if decide (a = c) then Some 0%nat else S <$> index c s'
  end.

Fixpoint last_index (c : ascii) (s : string) : option nat :=
  match s with
  | "" => None
  | String a s' =>
      match last_index c s' with
      | Some n => Some (S n)
      | None => if decide (a = c) then Some 0%nat else None
      end
  end.

(** [strings.ReplaceAll(s, c, "")] and [strings.ReplaceAll(s, c, d)] for one-byte [c] and [d]. *)
Fixpoint remove_char (c : ascii) (s : string) : string :=
  match s with
  | "" => ""
  | String a s' => if decide (a = c) then remove_char c s' else String a (remove_char c s')
  end.

Definition replace_char (c d : ascii) (s : string) : string :=
  string_map (λ a, if decide (a = c) then d else a) s.

(** [strings.Split(s, c)] for a one-byte separator, and [strings.Join]. *)
Fixpoint split (c : ascii) (s : string) : list string :=
  match s with
  | "" => [""]
  | String a s' =>
      if decide (a = c) then "" :: split c s'
      else match split c s' with
           | p :: ps => String a p :: ps
           | [] => [String a ""]
           end
  end.

Fixpoint join (sep : string) (l : list string) : string :=
  match l with
  | [] => ""
  | [p] => p
  | p :: ps => p +:+ sep +:+ join sep ps
  end.

(** [strings.SplitN(s, c, 2)] *)
Definition split2 (c : ascii) (s : string) : list string :=
  match index c s with
  | None => [s]
  | Some n => [str_take n s; str_drop (S n) s]
  end.

(** ** Numbers: [strconv.Itoa], [strconv.Atoi]/[strconv.ParseInt(s, 10, 64)], [strconv.ParseBool] *)

Definition itoa (z : Z) : string := pretty z.

Fixpoint parse_digits (acc : Z) (s : string) : option Z :=
  match s with
  | "" => Some acc
  | String a s' =>
      if is_digit a then parse_digits (acc * 10 + (ascii_val a - 48)) s' else None
  end.

Definition parse_uint (s : string) : option Z :=
  match s with "" => None | _ => parse_digits 0 s end.

Definition atoi (s : string) : option Z :=
  let z := match s with
           | String "-" s' => Z.opp <$> parse_uint s'
           | String "+" s' => parse_uint s'
           | _ => parse_uint s
           end in
  match z with
  | Some n => if decide (in_i64 n) then Some n else None
  | None => None
  end.

Definition parse_bool (s : string) : option bool :=
  if decide (s ∈ ["1"; "t"; "T"; "TRUE"; "true"; "True"]) then Some true
  else if decide (s ∈ ["0"; "f"; "F"; "FALSE"; "false"; "False"]) then Some false
  else None.

(** ** Formatting: the verbs [%q], [%v] of a slice, [%v] of a map, [%v] of a bool *)

Definition hex_digit (n : N) : ascii :=
  if (n <? 10)%N then ascii_of_N (48 + n) else ascii_of_N (87 + n).

(** The value of a hexadecimal digit. *)
Definition hex_value (a : ascii) : option Z :=
  let n := ascii_val a in
  if is_digit a then Some (n - 48)
  else if decide (97 ≤ n ≤ 102) then Some (n - 87)
  else if decide (65 ≤ n ≤ 70) then Some (n - 55)
  else None.

Definition quote_char (a : ascii) : string :=
  let n := N_of_ascii a in
  if (n =? 34)%N then "\" +:+ String a "" else
  if (n =? 92)%N then "\\" else
  if (n =? 7)%N then "\a" else if (n =? 8)%N then "\b" else
  if (n =? 12)%N then "\f" else if (n =? 10)%N then "\n" else
  if (n =? 13)%N then "\r" else if (n =? 9)%N then "\t" else
  if (n =? 11)%N then "\v" else
  if (n <? 32)%N || (n =? 127)%N
  then "\x" +:+ String (hex_digit (n / 16)) (String (hex_digit (n mod 16)) "")
  else String a "".

Fixpoint quote_body (s : string) : string :=
  match s with "" => "" | String a s' => quote_char a +:+ quote_body s' end.

Definition newline : string := String (ascii_of_N 10) "".
Definition dquote : string := String (ascii_of_N 34) "".
Definition quote (s : string) : string := dquote +:+ quote_body s +:+ dquote.

Definition fmt_slice (l : list string) : string := "[" +:+ join " " l +:+ "]".

Definition fmt_map (m : gmap string string) : string :=
  "map[" +:+
  join " " (map (λ p, p.1 +:+ ":" +:+ p.2)
                (merge_sort (λ p q : string * string, String.le p.1 q.1) (map_to_list m)))
  +:+ "]".

Definition fmt_bool (b : bool) : string := if b then "true" else "false".

(** ** Lemmas: concatenation *)

Lemma app_nil_l_str (s : string) : "" +:+ s = s.
Proof. done. Qed.

Lemma app_cons_str a (s t : string) : String a s +:+ t = String a (s +:+ t).
Proof. done. Qed.

Lemma app_nil_r_str (s : string) : s +:+ "" = s.
Proof. induction s as [|a s IH]; [done|]. by rewrite app_cons_str, IH. Qed.

Lemma app_char_str c (s : string) : String c "" +:+ s = String c s.
Proof. done. Qed.

Lemma app_assoc_str (s t u : string) : s +:+ (t +:+ u) = (s +:+ t) +:+ u.
Proof. induction s as [|a s IH]; [done|]. by rewrite !app_cons_str, IH. Qed.

Lemma length_app_str (s t : string) :
  String.length (s +:+ t) = (String.length s + String.length t)%nat.
Proof. induction s as [|a s IH]; [done|]. rewrite app_cons_str. cbn. by rewrite IH. Qed.

Lemma app_mid_str (s t u : string) c : (s +:+ String c t) +:+ u = s +:+ String c (t +:+ u).
Proof. by rewrite <-app_assoc_str, app_cons_str. Qed.

Lemma app_inv_r_str (s t u : string) : s +:+ u = t +:+ u → s = t.
Proof.
  revert t. induction s as [|a s IH]; intros [|b t] E; [done|..].
  - apply (f_equal String.length) in E. rewrite !length_app_str in E. cbn in E. lia.
  - apply (f_equal String.length) in E. rewrite !length_app_str in E. cbn in E. lia.
  - rewrite !app_cons_str in E. injection E as -> E. f_equal. by apply IH.
Qed.

Lemma slen_app s t : slen (s +:+ t) = slen s + slen t.
Proof. unfold slen. rewrite length_app_str. lia. Qed.

Lemma slen_nonneg s : 0 ≤ slen s.
Proof. unfold slen. lia. Qed.

Create HintDb gostr.
#[export] Hint Rewrite app_nil_l_str app_nil_r_str app_cons_str : gostr.

Lemma take_app_length s t : str_take (String.length s) (s +:+ t) = s.
Proof. induction s as [|a s IH]; [by destruct t|]. rewrite app_cons_str. cbn. by rewrite IH. Qed.

Lemma drop_app_length s t : str_drop (String.length s) (s +:+ t) = t.
Proof. induction s as [|a s IH]; [done|]. rewrite app_cons_str. exact IH. Qed.

Lemma take_drop_str n s : str_take n s +:+ str_drop n s = s.
Proof.
  revert s. induction n as [|n IH]; intros [|a s]; try done.
  cbn. by rewrite app_cons_str, IH.
Qed.

(** ** Lemmas: characters *)

Lemma has_char_app c s t : has_char c (s +:+ t) = has_char c s || has_char c t.
Proof.
  induction s as [|a s IH]; [done|]. rewrite app_cons_str. cbn. rewrite IH. by rewrite orb_assoc.
Qed.
#[export] Hint Rewrite has_char_app : gostr.

Lemma has_char_string_map c f s :
  (∀ a, f a ≠ c) → has_char c (string_map f s) = false.
Proof. intros Hf. induction s as [|a s IH]; cbn; [done|]. by rewrite bool_decide_false, IH. Qed.

Lemma has_char_remove c d s :
  has_char c (remove_char d s) = if decide (c = d) then false else has_char c s.
Proof.
  induction s as [|a s IH]; cbn; [by case_decide|].
  repeat (case_decide || case_bool_decide || simplify_eq/= || rewrite IH); done.
Qed.

Lemma remove_char_idemp c s : remove_char c (remove_char c s) = remove_char c s.
Proof. induction s as [|a s IH]; cbn; [done|]. case_decide; cbn; rewrite ?IH; [done|by rewrite decide_False]. Qed.

Lemma remove_char_id c s : has_char c s = false → remove_char c s = s.
Proof.
  induction s as [|a s IH]; cbn; [done|]. intros [Ha Hs]%orb_false_iff.
  apply bool_decide_eq_false in Ha. by rewrite decide_False, IH.
Qed.

Lemma lower_char_idemp a : lower_char (lower_char a) = lower_char a.
Proof. destruct a as [[] [] [] [] [] [] [] []]; reflexivity. Qed.

Lemma to_lower_idemp s : to_lower (to_lower s) = to_lower s.
Proof. unfold to_lower. induction s as [|a s IH]; cbn; [done|]. by rewrite IH, lower_char_idemp. Qed.

Lemma to_lower_app s t : to_lower (s +:+ t) = to_lower s +:+ to_lower t.
Proof. unfold to_lower. induction s as [|a s IH]; [done|]. rewrite !app_cons_str. cbn. by rewrite IH, app_cons_str. Qed.

Lemma length_to_lower s : String.length (to_lower s) = String.length s.
Proof. unfold to_lower. induction s as [|a s IH]; cbn; [done|]. by rewrite IH. Qed.

(** ** Lemmas: prefixes and substrings *)

Lemma has_prefix_spec s p : has_prefix s p = true ↔ ∃ t, s = p +:+ t.
Proof.
  unfold has_prefix. revert s. induction p as [|a p IH]; intros s; cbn.
  { split; [intros _; by exists s|]. by destruct s. }
  destruct s as [|b s]; cbn.
  { split; [done|]. intros [t Ht]. discriminate. }
  destruct (ascii_dec a b) as [->|Hne].
  - rewrite IH. split; intros [t Ht]; exists t.
    + by rewrite Ht.
    + rewrite app_cons_str in Ht. by injection Ht.
  - split; [done|]. intros [t Ht]. rewrite app_cons_str in Ht. by injection Ht as ->.
Qed.

Lemma has_prefix_app s t : has_prefix (s +:+ t) s = true.
Proof. apply has_prefix_spec. by exists t. Qed.

Lemma contains_spec s sub : contains s sub = true ↔ ∃ u v, s = u +:+ sub +:+ v.
Proof.
  induction s as [|a s IH]; cbn -[has_prefix]; rewrite orb_true_iff, has_prefix_spec.
  - split.
    + intros [[t Ht]|?]; [|done]. by exists "", t.
    + intros (u & v & H). left. destruct u; [|discriminate]. by exists v.
  - rewrite IH. split.
    + intros [[t Ht]|(u & v & ->)].
      * by exists "", t.
      * exists (String a u), v. done.
    + intros ([|b u] & v & H); [left; by exists v|].
      right. rewrite app_cons_str in H. injection H as -> ->. by exists u, v.
Qed.

Lemma contains_app_l s sub t : contains s sub = true → contains (s +:+ t) sub = true.
Proof.
  rewrite !contains_spec. intros (u & v & ->). exists u, (v +:+ t).
  by rewrite <-!app_assoc_str.
Qed.

(** ** Lemmas: index, split, join *)

Lemma index_None c s : index c s = None ↔ has_char c s = false.
Proof.
  induction s as [|a s IH]; cbn; [done|].
  case_decide; [by rewrite bool_decide_true|].
  rewrite bool_decide_false by done. cbn. rewrite fmap_None. exact IH.
Qed.

Lemma index_app c s t :
  has_char c s = false → index c (s +:+ String c t) = Some (String.length s).
Proof.
  induction s as [|a s IH]; [rewrite app_nil_l_str; cbn; by rewrite decide_True|].
  rewrite app_cons_str. cbn. intros [Ha Hs]%orb_false_iff.
  apply bool_decide_eq_false in Ha. by rewrite decide_False, IH.
Qed.

Lemma index_Some c s n :
  index c s = Some n →
  s = str_take n s +:+ String c (str_drop (S n) s) ∧ has_char c (str_take n s) = false.
Proof.
  revert n. induction s as [|a s IH]; intros n; cbn; [done|].
  case_decide as Hd; [intros [= <-]; by subst|].
  rewrite fmap_Some. intros (m & Hm & ->). destruct (IH _ Hm) as [Hs Hc].
  split.
  - cbn. rewrite app_cons_str. f_equal. exact Hs.
  - cbn. rewrite Hc. by rewrite bool_decide_false.
Qed.

Lemma last_index_None c s : last_index c s = None ↔ has_char c s = false.
Proof.
  induction s as [|a s IH]; cbn; [done|]. rewrite orb_false_iff, bool_decide_eq_false, <-IH.
  destruct (last_index c s); [naive_solver|]. case_decide; naive_solver.
Qed.

Lemma last_index_Some c s n :
  last_index c s = Some n →
  s = str_take n s +:+ String c (str_drop (S n) s) ∧ has_char c (str_drop (S n) s) = false.
Proof.
  revert n. induction s as [|a s IH]; intros n; cbn [last_index]; [done|].
  destruct (last_index c s) as [m|] eqn:E.
  - intros [= <-]. destruct (IH m eq_refl) as [E1 E2]. cbn [str_take str_drop]. rewrite app_cons_str.
    split; [by f_equal|done].
  - apply last_index_None in E. case_decide as Ha; [|done]. intros [= <-]. subst a.
    assert (str_drop 0 s = s) as H0 by by destruct s.
    change (str_drop 1 (String c s)) with (str_drop 0 s). rewrite H0. split; [done|done].
Qed.

Lemma last_index_app c s t : has_char c t = false → last_index c (s +:+ String c t) = Some (String.length s).
Proof.
  intros Ht. induction s as [|a s IH].
  - rewrite app_nil_l_str. cbn. apply last_index_None in Ht. rewrite Ht. by rewrite decide_True.
  - rewrite app_cons_str. cbn. by rewrite IH.
Qed.

Lemma split_nonempty c s : split c s ≠ [].
Proof. induction s as [|a s IH]; cbn; [done|]. case_decide; [done|]. by destruct (split c s). Qed.

Lemma split_no_char c s : Forall (λ p, has_char c p = false) (split c s).
Proof.
  induction s as [|a s IH]; cbn; [by repeat constructor|].
  case_decide as Hd; [by constructor|].
  destruct (split c s) as [|p ps]; inversion_clear IH as [|? ? Hp Hps].
  - constructor; [|done]. cbn. by rewrite bool_decide_false.
  - constructor; [|done]. cbn. by rewrite bool_decide_false.
Qed.

Lemma join_cons sep p q ps : join sep (p :: q :: ps) = p +:+ sep +:+ join sep (q :: ps).
Proof. done. Qed.

Lemma join_split c s : join (String c "") (split c s) = s.
Proof.
  induction s as [|a s IH]; cbn; [done|].
  pose proof (split_nonempty c s).
  case_decide as Hd.
  - subst a. destruct (split c s) as [|p ps] eqn:E; [done|]. rewrite join_cons, IH. done.
  - destruct (split c s) as [|p ps] eqn:E; [done|].
    destruct ps as [|q ps]; [cbn in *; by rewrite IH|].
    rewrite join_cons in *. rewrite app_cons_str. by rewrite IH.
Qed.

Lemma split_no_sep c s : has_char c s = false → split c s = [s].
Proof.
  induction s as [|a s IH]; cbn; [done|]. intros [Ha Hs]%orb_false_iff.
  apply bool_decide_eq_false in Ha. rewrite decide_False by done. by rewrite IH.
Qed.

Lemma split_app_sep c s t :
  has_char c s = false → split c (s +:+ String c t) = s :: split c t.
Proof.
  induction s as [|a s IH]; [rewrite app_nil_l_str; cbn; by rewrite decide_True|].
  rewrite app_cons_str. cbn. intros [Ha Hs]%orb_false_iff.
  apply bool_decide_eq_false in Ha. rewrite decide_False by done. by rewrite IH.
Qed.

Lemma split_join c l :
  l ≠ [] → Forall (λ p, has_char c p = false) l → split c (join (String c "") l) = l.
Proof.
  induction l as [|p [|q l] IH]; [done|..]; intros _ Hl; inversion_clear Hl as [|? ? Hp Hps].
  - cbn. by apply split_no_sep.
  - rewrite join_cons, app_char_str, split_app_sep by done. by rewrite IH.
Qed.

(** [split] is determined by its two defining facts. *)
Lemma split_spec c s l :
  split c s = l ↔
  l ≠ [] ∧ Forall (λ p, has_char c p = false) l ∧ s = join (String c "") l.
Proof.
  split.
  - intros <-. split_and!; [apply split_nonempty|apply split_no_char|by rewrite join_split].
  - intros (Hne & Hl & ->). by apply split_join.
Qed.

Lemma has_char_join c d l :
  c ≠ d → has_char c (join (String d "") l) = existsb (has_char c) l.
Proof.
  intros Hcd. induction l as [|p [|q l] IH]; [done|cbn; by rewrite orb_false_r|].
  rewrite join_cons, !has_char_app, IH. cbn. rewrite bool_decide_false by done. done.
Qed.

(** ** Lemmas: numbers *)

Lemma itoa_inj z z' : itoa z = itoa z' → z = z'.
Proof. apply (inj pretty). Qed.
