(* ===== verification/Regex.v ===== *)
(** * Go regular expressions

    The fragment of Go's [regexp] that the driver's patterns use: byte classes,
    sequence, alternation, greedy repetition, capture groups and the two
    anchors.  [exec] is a backtracking matcher that tries the alternatives in
    Go's leftmost-first order, so the captures are those [FindStringSubmatch]
    returns; [rmatch] is the declarative relation it is sound and complete for. *)
From S2P Require Import Prelude GoStr.

Local Open Scope string_scope.
Local Open Scope Z_scope.

Inductive regex : Type :=
| RClass (p : ascii → bool)
| REps
| RSeq (r1 r2 : regex)
| RAlt (r1 r2 : regex)
| RStar (r : regex)
| RGroup (n : nat) (r : regex)
| RBol
| REol.

(** A position of the subject, whether it is the start, and the captures so far. *)
Record mstate := MState {
  at_start : bool;
  rest : string;
  caps : gmap nat string;
}.

Definition advance (st : mstate) : mstate :=
  match rest st with
  | "" => st
  | String _ s => MState false s (caps st)
  end.

Definition capture (n : nat) (st st' : mstate) : mstate :=
  MState (at_start st') (rest st')
    (<[n := str_take (String.length (rest st) - String.length (rest st')) (rest st)]> (caps st')).

Definition remaining (st : mstate) : nat := String.length (rest st).

Fixpoint exec {A} (r : regex) (st : mstate) (k : mstate → option A) {struct r} : option A :=
  match r with
  | RClass p =>
      match rest st with
      | "" => None
      | String a _ => if p a then k (advance st) else None
      end
  | REps => k st
  | RSeq r1 r2 => exec r1 st (λ st', exec r2 st' k)
  | RAlt r1 r2 =>
      match exec r1 st k with Some x => Some x | None => exec r2 st k end
  | RStar r' =>
      (fix loop (n : nat) (st : mstate) : option A :=
         match n with
         | O => k st
         | S n' =>
             match exec r' st (λ st', if decide (remaining st' < remaining st)%nat
                                      then loop n' st' else None) with
             | Some x => Some x
             | None => k st
             end
         end) (remaining st) st
  | RGroup n r' => exec r' st (λ st', k (capture n st st'))
  | RBol => if at_start st then k st else None
  | REol => match rest st with "" => k st | _ => None end
  end.

(** ** Derived forms *)

Definition RPlus (r : regex) : regex := RSeq r (RStar r).
Definition ROpt (r : regex) : regex := RAlt r REps.

Fixpoint RLit (w : string) : regex :=
  match w with
  | "" => REps
  | String a w' => RSeq (RClass (λ b, bool_decide (b = a))) (RLit w')
  end.

(** [r{0,n}] *)
Fixpoint RUpTo (n : nat) (r : regex) : regex :=
  match n with
  | O => REps
  | S n' => ROpt (RSeq r (RUpTo n' r))
  end.

(** [^r$] *)
Definition RAnchored (r : regex) : regex := RSeq RBol (RSeq r REol).

(** ** Searching: [MatchString] and [FindStringSubmatch] *)

Fixpoint search (r : regex) (bol : bool) (s : string) : option (gmap nat string) :=
  match exec r (MState bol s ∅) (λ st, Some (caps st)) with
  | Some c => Some c
  | None => match s with "" => None | String _ s' => search r false s' end
  end.

Definition find_submatch (r : regex) (s : string) : option (gmap nat string) := search r true s.
Definition match_string (r : regex) (s : string) : bool := bool_decide (is_Some (find_submatch r s)).

(** The text of group [n] of a match; a group that did not take part is "". *)
Definition group (n : nat) (c : gmap nat string) : string := default "" (c !! n).

(** ** The declarative relation *)

Inductive rmatch : regex → mstate → mstate → Prop :=
| rm_class p st a s : rest st = String a s → p a = true → rmatch (RClass p) st (advance st)
| rm_eps st : rmatch REps st st
| rm_seq r1 r2 st st1 st2 : rmatch r1 st st1 → rmatch r2 st1 st2 → rmatch (RSeq r1 r2) st st2
| rm_alt_l r1 r2 st st' : rmatch r1 st st' → rmatch (RAlt r1 r2) st st'
| rm_alt_r r1 r2 st st' : rmatch r2 st st' → rmatch (RAlt r1 r2) st st'
| rm_star_nil r st : rmatch (RStar r) st st
| rm_star_cons r st st1 st2 :
    rmatch r st st1 → (remaining st1 < remaining st)%nat →
    rmatch (RStar r) st1 st2 → rmatch (RStar r) st st2
| rm_group n r st st' : rmatch r st st' → rmatch (RGroup n r) st (capture n st st')
| rm_bol st : at_start st = true → rmatch RBol st st
| rm_eol st : rest st = "" → rmatch REol st st.

#[export] Hint Constructors rmatch : regex.

(** The loop of [RStar], with its own name for the proofs. *)
Section star_loop.
Context {A : Type} (e : mstate → (mstate → option A) → option A) (k : mstate → option A).

Fixpoint star_loop (n : nat) (st : mstate) : option A :=
  match n with
  | O => k st
  | S n' =>
      match e st (λ st', if decide (remaining st' < remaining st)%nat
                         then star_loop n' st' else None) with
      | Some x => Some x
      | None => k st
      end
  end.
End star_loop.

Lemma exec_star {A} r st (k : mstate → option A) :
  exec (RStar r) st k = star_loop (exec r) k (remaining st) st.
Proof. reflexivity. Qed.

Lemma exec_sound {A} r st (k : mstate → option A) x :
  exec r st k = Some x → ∃ st', rmatch r st st' ∧ k st' = Some x.
Proof.
  revert A st k x. induction r as [p| |r1 IH1 r2 IH2|r1 IH1 r2 IH2|r IH|n r IH| |];
    intros A st k x Hx.
  - cbn in Hx. repeat case_match; [done|eauto with regex|done].
  - eauto with regex.
  - cbn in Hx. apply IH1 in Hx as (st1 & H1 & Hx). apply IH2 in Hx as (st2 & H2 & Hx).
    eauto with regex.
  - cbn in Hx. destruct (exec r1 st k) as [y|] eqn:E.
    + apply IH1 in E as (st' & ? & ?). simplify_eq. eauto with regex.
    + apply IH2 in Hx as (st' & ? & ?). eauto with regex.
  - rewrite exec_star in Hx. revert Hx. generalize (remaining st) as n. intros n.
    revert st. induction n as [|n IHn]; intros st; cbn; [eauto with regex|].
    destruct (exec r st _) as [y|] eqn:E; [|eauto with regex]. intros [= ->].
    apply IH in E as (st1 & H1 & Hk). case_decide; [|done].
    apply IHn in Hk as (st2 & ? & ?). eauto with regex.
  - cbn in Hx. apply IH in Hx as (st' & ? & ?). eauto with regex.
  - cbn in Hx. case_match; [eauto with regex|done].
  - cbn in Hx. case_match; [eauto with regex|done].
Qed.

Lemma exec_complete {A} r st st' (k : mstate → option A) :
  rmatch r st st' → is_Some (k st') → is_Some (exec r st k).
Proof.
  revert A st st' k. induction r as [p| |r1 IH1 r2 IH2|r1 IH1 r2 IH2|r IH|n r IH| |];
    intros A st st' k Hm Hk.
  - inversion Hm as [? ? a s Hr Hp| | | | | | | | |]; subst. cbn. by rewrite Hr, Hp.
  - by inversion Hm; subst.
  - inversion Hm; subst. cbn. eauto.
  - cbn. destruct (exec r1 st k) eqn:E; [done|].
    inversion Hm as [| | |? ? ? ? H1|? ? ? ? H2| | | | |]; subst; [|by eapply IH2].
    destruct (IH1 _ _ _ _ H1 Hk). congruence.
  - rewrite exec_star.
    assert (∀ n, (remaining st ≤ n)%nat → is_Some (star_loop (exec r) k n st)) as Hl; [|by apply Hl].
    remember (RStar r) as rs eqn:Ers. intros n. revert n.
    induction Hm as [| | | | |r' st0|r' st0 st1 st2 H1 _ Hlt H2 IHm| | |];
      simplify_eq; intros n Hn.
    + destruct n as [|n]; cbn; [done|]. by case_match.
    + destruct n as [|n]; [lia|]. cbn.
      match goal with |- is_Some (match exec r st0 ?f with _ => _ end) =>
        destruct (IH _ st0 st1 f H1) as [y ->]; [|by eauto] end.
      rewrite decide_True by lia. apply IHm; [done|done|lia].
  - inversion Hm; subst. cbn. eauto.
  - inversion Hm as [| | | | | | | |? Ha|]; subst. cbn. by rewrite Ha.
  - inversion Hm as [| | | | | | | | |? Ha]; subst. cbn. by rewrite Ha.
Qed.

(** ** What the derived forms match

    [eat w st st'] says that going from [st] to [st'] consumes exactly [w]. *)
Fixpoint all_chars (p : ascii → bool) (s : string) : bool :=
  match s with "" => true | String a s' => p a && all_chars p s' end.

Definition eat (w : string) (st st' : mstate) : Prop :=
  rest st = w +:+ rest st' ∧ caps st' = caps st ∧
  at_start st' = at_start st && bool_decide (w = "").

Lemma eat_nil st st' : eat "" st st' ↔ st' = st.
Proof.
  unfold eat. destruct st, st'; cbn. rewrite app_nil_l_str, andb_true_r.
  split; [intros (-> & -> & ->); done|by intros [= -> -> ->]].
Qed.

Lemma eat_app w1 w2 st st1 st2 : eat w1 st st1 → eat w2 st1 st2 → eat (w1 +:+ w2) st st2.
Proof.
  unfold eat. intros (H1 & H2 & H3) (H4 & H5 & H6). split_and!.
  - by rewrite H1, H4, app_assoc_str.
  - congruence.
  - rewrite H6, H3. destruct w1; [by rewrite app_nil_l_str, andb_true_r|].
    rewrite app_cons_str, !(bool_decide_false (String _ _ = "")) by done. by rewrite !andb_false_r.
Qed.

Lemma all_chars_app p s t : all_chars p (s +:+ t) = all_chars p s && all_chars p t.
Proof. induction s as [|a s IH]; [done|]. rewrite app_cons_str. cbn. by rewrite IH, andb_assoc. Qed.

Lemma all_chars_not_char c s :
  all_chars (λ a, bool_decide (a ≠ c)) s = true ↔ has_char c s = false.
Proof.
  induction s as [|a s IH]; cbn; [done|].
  rewrite andb_true_iff, orb_false_iff, IH, bool_decide_eq_true, bool_decide_eq_false. done.
Qed.

Lemma rmatch_class p st st' :
  rmatch (RClass p) st st' ↔ ∃ a, p a = true ∧ eat (String a "") st st'.
Proof.
  split.
  - intros H. inversion H as [? ? a s Hr Hp| | | | | | | | |]; subst. exists a. split; [done|].
    unfold eat, advance. rewrite Hr. cbn. rewrite andb_false_r. done.
  - intros (a & Hp & Hr & Hc & Hb).
    replace st' with (advance st); [by econstructor|].
    unfold advance. rewrite Hr, app_char_str. destruct st'; cbn in *.
    rewrite andb_false_r in Hb. by subst.
Qed.

Lemma rmatch_class_star p st st' :
  rmatch (RStar (RClass p)) st st' ↔ ∃ w, all_chars p w = true ∧ eat w st st'.
Proof.
  split.
  - intros H. remember (RStar (RClass p)) as r eqn:E.
    induction H as [| | | | |r' st0|r' st0 st1 st2 H1 _ Hlt H2 IH| | |]; simplify_eq.
    + exists "". split; [done|by apply eat_nil].
    + destruct IH as (w & Hw & He); [done|].
      apply rmatch_class in H1 as (a & Ha & Hea).
      exists (String a w). split; [cbn; by rewrite Ha|].
      rewrite <-app_char_str. by eapply eat_app.
  - intros (w & Hw & He). revert st He.
    induction w as [|a w IH]; intros st He.
    { apply eat_nil in He as ->. constructor. }
    cbn in Hw. apply andb_true_iff in Hw as [Ha Hw].
    destruct He as (Hr & Hc & Hb).
    rewrite app_cons_str in Hr.
    assert (rmatch (RClass p) st (advance st)) as Hadv by (by econstructor).
    eapply rm_star_cons; [exact Hadv|..].
    + unfold remaining, advance. rewrite Hr. cbn. lia.
    + apply IH; [done|]. unfold eat, advance. rewrite Hr. cbn.
      split_and!; [done|done|]. rewrite Hb. by rewrite andb_false_r.
Qed.

Lemma rmatch_class_plus p st st' :
  rmatch (RPlus (RClass p)) st st' ↔ ∃ w, w ≠ "" ∧ all_chars p w = true ∧ eat w st st'.
Proof.
  split.
  - intros H. inversion H as [| |? ? ? st1 ? H1 H2| | | | | | |]; subst.
    apply rmatch_class in H1 as (a & Ha & Hea).
    apply rmatch_class_star in H2 as (w & Hw & Hew).
    exists (String a w). split_and!; [done|cbn; by rewrite Ha|].
    rewrite <-app_char_str. by eapply eat_app.
  - intros ([|a w] & Hne & Hw & He); [done|].
    cbn in Hw. apply andb_true_iff in Hw as [Ha Hw].
    destruct He as (Hr & Hc & Hb). rewrite app_cons_str in Hr.
    eapply (rm_seq _ _ st (advance st)); [by econstructor|].
    apply rmatch_class_star. exists w. split; [done|].
    unfold eat, advance. rewrite Hr. cbn. split_and!; [done..|]. by rewrite Hb, andb_false_r.
Qed.

Lemma rmatch_lit w st st' : rmatch (RLit w) st st' ↔ eat w st st'.
Proof.
  revert st. induction w as [|a w IH]; intros st; cbn [RLit].
  { rewrite eat_nil. split; [by inversion 1|intros ->; constructor]. }
  split.
  - intros H. inversion H as [| |? ? ? st1 ? H1 H2| | | | | | |]; subst.
    apply rmatch_class in H1 as (b & Hb & Heb). apply bool_decide_eq_true in Hb as ->.
    apply IH in H2. rewrite <-app_char_str. by eapply eat_app.
  - intros (Hr & Hc & Hb). rewrite app_cons_str in Hr.
    eapply (rm_seq _ _ st (advance st)); [econstructor; [done|by apply bool_decide_eq_true]|].
    apply IH. unfold eat, advance. rewrite Hr. cbn. split_and!; [done..|]. by rewrite Hb, andb_false_r.
Qed.

Lemma rmatch_seq r1 r2 st st' :
  rmatch (RSeq r1 r2) st st' ↔ ∃ st1, rmatch r1 st st1 ∧ rmatch r2 st1 st'.
Proof. split; [by inversion 1; eauto|intros (? & ? & ?); eauto with regex]. Qed.

Lemma rmatch_alt r1 r2 st st' :
  rmatch (RAlt r1 r2) st st' ↔ rmatch r1 st st' ∨ rmatch r2 st st'.
Proof. split; [by inversion 1; eauto|intros [?|?]; eauto with regex]. Qed.

Lemma rmatch_group n r st st' :
  rmatch (RGroup n r) st st' ↔ ∃ st1, rmatch r st st1 ∧ st' = capture n st st1.
Proof. split; [by inversion 1; eauto|intros (? & ? & ->); eauto with regex]. Qed.

Lemma rmatch_bol st st' : rmatch RBol st st' ↔ at_start st = true ∧ st' = st.
Proof. split; [by inversion 1|intros [? ->]; eauto with regex]. Qed.

Lemma rmatch_eol st st' : rmatch REol st st' ↔ rest st = "" ∧ st' = st.
Proof. split; [by inversion 1|intros [? ->]; eauto with regex]. Qed.

(** A group around a form that eats [w] captures [w]. *)
Lemma capture_eat n w st st1 :
  eat w st st1 → capture n st st1 = MState (at_start st1) (rest st1) (<[n := w]> (caps st)).
Proof.
  intros (Hr & Hc & _). unfold capture. rewrite Hr, Hc. do 3 f_equal.
  rewrite length_app_str.
  replace (String.length w + String.length (rest st1) - String.length (rest st1))%nat
    with (String.length w) by lia.
  apply take_app_length.
Qed.

(** A group around a non-empty run of a class. *)
Lemma rmatch_group_plus n p st st' :
  rmatch (RGroup n (RPlus (RClass p))) st st' ↔
  ∃ w, w ≠ "" ∧ all_chars p w = true ∧ rest st = w +:+ rest st' ∧ at_start st' = false ∧
       caps st' = <[n := w]> (caps st).
Proof.
  rewrite rmatch_group. split.
  - intros (st1 & Hm & ->). apply rmatch_class_plus in Hm as (w & Hne & Hw & He).
    rewrite (capture_eat _ _ _ _ He). destruct He as (Hr & Hc & Hb). cbn.
    exists w. split_and!; [done..| |done]. by rewrite Hb, bool_decide_false, andb_false_r.
  - intros (w & Hne & Hw & Hr & Hb & Hc).
    assert (eat w st (MState (at_start st') (rest st') (caps st))) as He.
    { unfold eat; cbn. rewrite bool_decide_false, andb_false_r by done. done. }
    eexists. split; [apply rmatch_class_plus; eauto|].
    rewrite (capture_eat _ _ _ _ He). destruct st'; cbn in *. by subst.
Qed.

(** ** Searching *)

Lemma search_sound r bol s c :
  search r bol s = Some c →
  ∃ u v st', s = u +:+ v ∧ rmatch r (MState (bol && bool_decide (u = "")) v ∅) st' ∧ c = caps st'.
Proof.
  revert bol. induction s as [|a s IH]; intros bol; cbn;
    destruct (exec r _ _) as [c'|] eqn:E; [|done| |]; intros Hc; simplify_eq.
  1,2: apply exec_sound in E as (st' & Hm & [= <-]);
    eexists "", _, st'; rewrite andb_true_r; split; [|done]; symmetry; apply app_nil_l_str.
  apply IH in Hc as (u & v & st' & -> & Hm & ->).
  exists (String a u), v, st'. by rewrite andb_false_r.
Qed.

Lemma search_complete r bol u v st' :
  rmatch r (MState (bol && bool_decide (u = "")) v ∅) st' → is_Some (search r bol (u +:+ v)).
Proof.
  revert bol. induction u as [|a u IH]; intros bol Hm.
  - rewrite app_nil_l_str. rewrite andb_true_r in Hm.
    eapply (exec_complete _ _ _ (λ st, Some (caps st))) in Hm; [|done].
    destruct Hm as [c Hc]. destruct v; cbn; by rewrite Hc.
  - rewrite app_cons_str. cbn. case_match; [done|]. apply IH.
    by rewrite andb_false_r in Hm.
Qed.

Lemma find_submatch_sound r s c :
  find_submatch r s = Some c →
  ∃ u v st', s = u +:+ v ∧ rmatch r (MState (bool_decide (u = "")) v ∅) st' ∧ c = caps st'.
Proof. apply search_sound. Qed.

Lemma find_submatch_anchored r s c :
  find_submatch (RAnchored r) s = Some c →
  ∃ st', rmatch r (MState true s ∅) st' ∧ rest st' = "" ∧ c = caps st'.
Proof.
  intros (u & v & st' & -> & Hm & ->)%find_submatch_sound.
  apply rmatch_seq in Hm as (st1 & Hb & Hm). apply rmatch_bol in Hb as [Hu ->].
  cbn in Hu. apply bool_decide_eq_true in Hu as ->.
  apply rmatch_seq in Hm as (st2 & Hm & He). apply rmatch_eol in He as [He ->].
  rewrite app_nil_l_str. eauto.
Qed.

Lemma find_submatch_anchored_complete r s st' :
  rmatch r (MState true s ∅) st' → rest st' = "" → is_Some (find_submatch (RAnchored r) s).
Proof.
  intros Hm He. rewrite <-(app_nil_l_str s). eapply search_complete. cbn.
  apply rmatch_seq. eexists. split; [by apply rmatch_bol|].
  apply rmatch_seq. eexists. split; [exact Hm|]. by apply rmatch_eol.
Qed.

Lemma match_string_anchored r s :
  match_string (RAnchored r) s = true ↔ ∃ st', rmatch r (MState true s ∅) st' ∧ rest st' = "".
Proof.
  unfold match_string. rewrite bool_decide_eq_true. split.
  - intros [c Hc]. apply find_submatch_anchored in Hc as (st' & ? & ? & ?). eauto.
  - intros (st' & Hm & He). by eapply find_submatch_anchored_complete.
Qed.

Lemma match_string_spec r s :
  match_string r s = true ↔
  ∃ u v st', s = u +:+ v ∧ rmatch r (MState (bool_decide (u = "")) v ∅) st'.
Proof.
  unfold match_string. rewrite bool_decide_eq_true. split.
  - intros [c (u & v & st' & ? & ? & ?)%find_submatch_sound]. eauto.
  - intros (u & v & st' & -> & Hm). by eapply search_complete.
Qed.

(** An anchored class repetition is a test of every byte. *)
Lemma match_string_class_star p s :
  match_string (RAnchored (RStar (RClass p))) s = all_chars p s.
Proof.
  apply eq_true_iff_eq. rewrite match_string_anchored. split.
  - intros (st' & Hm & He). apply rmatch_class_star in Hm as (w & Hw & Hr & _).
    cbn in Hr. rewrite He, app_nil_r_str in Hr. by subst.
  - intros Hs. exists (MState (bool_decide (s = "")) "" ∅). split; [|done].
    apply rmatch_class_star. exists s. split; [done|]. unfold eat; cbn.
    by rewrite app_nil_r_str.
Qed.
