(* ===== verification/Numerals.v ===== *)
(** * Numerals: what [strconv.Itoa] prints and [strconv.Atoi] reads *)
From S2P Require Import Prelude GoStr Regex.

Local Open Scope string_scope.
Local Open Scope Z_scope.

Lemma digit_char (n : N) : (n < 10)%N →
  is_digit (pretty_N_char n) = true ∧ ascii_val (pretty_N_char n) - 48 = Z.of_N n ∧ (pretty_N_char n = "0"%char → n = 0%N).
Proof.
  intros Hn. assert (n ∈ (N.of_nat <$> seq 0 10)) as Hin.
  { apply list_elem_of_fmap. exists (N.to_nat n). rewrite N2Nat.id. split; [done|]. apply elem_of_seq. lia. }
  clear Hn. revert Hin. revert n. apply Forall_forall. repeat (constructor; [by vm_compute|]). constructor.
Qed.

Lemma parse_digits_pretty (x : N) s : parse_digits 0 (pretty_N_go x s) = parse_digits (Z.of_N x) s.
Proof.
  revert s. induction (N.lt_wf_0 x) as [x _ IH]; intros s.
  destruct (decide (x = 0%N)) as [->|Hx]; [by rewrite pretty_N_go_0|].
  rewrite pretty_N_go_step by lia. rewrite IH by (apply N.div_lt; lia). cbn [parse_digits].
  destruct (digit_char (x mod 10)) as (-> & -> & _); [by apply N.mod_lt|].
  f_equal. rewrite N2Z.inj_div, N2Z.inj_mod. pose proof (Z.div_mod (Z.of_N x) 10). lia.
Qed.

(** What [itoa] prints: digits, with a zero at the start only for zero. *)
Lemma pretty_go_shape (x : N) s : (0 < x)%N → ∃ c t, pretty_N_go x s = String c (t +:+ s) ∧
  is_digit c = true ∧ c ≠ "0"%char ∧ all_chars is_digit t = true.
Proof.
  revert s. induction (N.lt_wf_0 x) as [x _ IH]; intros s Hx. rewrite pretty_N_go_step by lia.
  destruct (digit_char (x mod 10)) as (Hd & _ & Hz); [by apply N.mod_lt|].
  destruct (decide (x / 10 = 0)%N) as [E|E].
  - rewrite E, pretty_N_go_0. exists (pretty_N_char (x mod 10)), "". split_and!; [done|done| |done].
    intros Hc%Hz. pose proof (N.div_mod x 10 ltac:(done)) as Hdm. rewrite E, Hc in Hdm. lia.
  - destruct (IH (x / 10)%N) with (s := String (pretty_N_char (x mod 10)) s) as (c & t & -> & Hc & H0 & Ht);
      [apply N.div_lt; lia|by apply N.neq_0_lt_0|].
    exists c, (t +:+ String (pretty_N_char (x mod 10)) ""). split_and!; [|done|done|].
    + by rewrite <-app_assoc_str, app_char_str.
    + rewrite all_chars_app, Ht. cbn. by rewrite Hd.
Qed.

Lemma itoa_shape z : 0 ≤ z → itoa z = "0" ∧ z = 0 ∨ ∃ c t, itoa z = String c t ∧ is_digit c = true ∧ c ≠ "0"%char ∧ all_chars is_digit t = true.
Proof.
  intros Hz. unfold itoa. destruct z as [|p|p]; [by left| |lia]. right.
  destruct (pretty_go_shape (Npos p) "") as (c & t & E & ?); [lia|]. rewrite app_nil_r_str in E.
  exists c, t. split; [|done]. exact E.
Qed.

Lemma parse_uint_itoa z : 0 ≤ z → parse_uint (itoa z) = Some z.
Proof.
  intros Hz. destruct (itoa_shape z Hz) as [[-> ->]|(c & t & E & _)]; [done|]. unfold parse_uint. rewrite E, <-E.
  unfold itoa. destruct z as [|p|p]; [done| |lia]. change (pretty (Z.pos p)) with (pretty_N_go (Npos p) ""). by rewrite parse_digits_pretty.
Qed.

Lemma itoa_neg p : itoa (Z.neg p) = "-" +:+ itoa (Z.pos p).
Proof. done. Qed.

Lemma atoi_itoa z : in_i64 z → atoi (itoa z) = Some z.
Proof.
  intros Hz. unfold atoi.
  assert (match itoa z with String "-" s' => Z.opp <$> parse_uint s' | String "+" s' => parse_uint s' | _ => parse_uint (itoa z) end = Some z) as ->.
  { destruct (decide (0 ≤ z)) as [H0|H0].
    - pose proof (parse_uint_itoa z H0) as Hp. destruct (itoa_shape z H0) as [[-> ->]|(c & t & E & Hc & _)]; [done|].
      rewrite E in *. destruct c as [[] [] [] [] [] [] [] []]; done.
    - destruct z as [|p|p]; [lia|lia|]. rewrite itoa_neg. change ("-" +:+ itoa (Z.pos p)) with (String "-" (itoa (Z.pos p))).
      cbn -[itoa]. by rewrite parse_uint_itoa by lia. }
  by rewrite decide_True.
Qed.
