(* ===== verification/GoErr.v ===== *)
(** * Errors: gRPC status codes and the translation of cloud errors

    Go error values as a tree with the wrapping the driver's libraries produce,
    [errors.As] as a walk along that wrapping, the temporary errors of
    pkg/common/errors.go, and the translation of an error to a gRPC status of
    pkg/cloud_provider/lustre/lustre.go ([StatusError], [codeForError]). *)
From S2P Require Import Prelude GoStr.

Local Open Scope string_scope.
Local Open Scope Z_scope.

(** ** gRPC codes (google.golang.org/grpc/codes) *)
Inductive grpc_code : Type :=
| OK | Canceled | Unknown | InvalidArgument | DeadlineExceeded | NotFound
| AlreadyExists | PermissionDenied | ResourceExhausted | FailedPrecondition
| Aborted | OutOfRange | Unimplemented | Internal | Unavailable | DataLoss
| Unauthenticated
| OtherCode (n : Z).

#[export] Instance grpc_code_eq_dec : EqDecision grpc_code.
Proof. solve_decision. Defined.

Definition canonical_codes : list grpc_code :=
  [OK; Canceled; Unknown; InvalidArgument; DeadlineExceeded; NotFound; AlreadyExists;
   PermissionDenied; ResourceExhausted; FailedPrecondition; Aborted; OutOfRange;
   Unimplemented; Internal; Unavailable; DataLoss; Unauthenticated].

(** [codes.Code(n)] for an [int32] [n]: the conversion to [uint32] wraps around. *)
Definition code_of_int32 (n : Z) : grpc_code :=
  default (OtherCode (n `mod` 2^32)) (canonical_codes !! Z.to_nat (n `mod` 2^32)).

Definition code_string (c : grpc_code) : string :=
  match c with
  | OK => "OK" | Canceled => "Canceled" | Unknown => "Unknown"
  | InvalidArgument => "InvalidArgument" | DeadlineExceeded => "DeadlineExceeded"
  | NotFound => "NotFound" | AlreadyExists => "AlreadyExists"
  | PermissionDenied => "PermissionDenied" | ResourceExhausted => "ResourceExhausted"
  | FailedPrecondition => "FailedPrecondition" | Aborted => "Aborted"
  | OutOfRange => "OutOfRange" | Unimplemented => "Unimplemented"
  | Internal => "Internal" | Unavailable => "Unavailable" | DataLoss => "DataLoss"
  | Unauthenticated => "Unauthenticated"
  | OtherCode n => "Code(" +:+ itoa n +:+ ")"
  end.

(** ** Error values

    - [ErrText]: [errors.New], and [fmt.Errorf] without a [%w] verb;
    - [ErrPath]: an [*os.PathError] with its error number;
    - [ErrWrap]: [fmt.Errorf] with a [%w] verb, [msg] being the whole text;
    - [ErrGoogle]: a [*googleapi.Error] with its HTTP code, text and wrapped error;
    - [ErrAPI]: gax's [*apierror.APIError], with the code of the HTTP error and
      the gRPC status it holds, when it holds them;
    - [ErrStatus]: the error of a gRPC status;
    - [ErrTemporary]: pkg/common's [*TemporaryError]. *)
Inductive errno : Type :=
| ENOENT | EEXIST | ENOTEMPTY | ENOTDIR | EISDIR
| ENOTCONN | ESTALE | EIO | EACCES | EHOSTDOWN | EWOULDBLOCK | ENODEV
| Errno (n : Z).

#[export] Instance errno_eq_dec : EqDecision errno.
Proof. solve_decision. Defined.

Inductive goerr : Type :=
| ErrText (msg : string)
| ErrPath (op path : string) (en : errno)
| ErrWrap (msg : string) (inner : goerr)
| ErrGoogle (code : Z) (msg : string) (inner : option goerr)
| ErrAPI (http : option Z) (status : option grpc_code) (msg : string) (inner : goerr)
| ErrStatus (code : grpc_code) (msg : string)
| ErrTemporary (err : option goerr) (code : grpc_code).

Definition errno_text (en : errno) : string :=
  match en with
  | ENOENT => "no such file or directory" | EEXIST => "file exists"
  | ENOTEMPTY => "directory not empty" | ENOTDIR => "not a directory"
  | EISDIR => "is a directory" | ENOTCONN => "transport endpoint is not connected"
  | ESTALE => "stale NFS file handle" | EIO => "input/output error"
  | EACCES => "permission denied" | EHOSTDOWN => "host is down"
  | EWOULDBLOCK => "resource temporarily unavailable" | ENODEV => "no such device"
  | Errno n => "errno " +:+ itoa n
  end.

(** [err.Error()].  A [TemporaryError] around a nil error has no text: calling
    its [Error] method panics. *)
Fixpoint error_text (e : goerr) : string :=
  match e with
  | ErrText msg => msg
  | ErrPath op path en => op +:+ " " +:+ path +:+ ": " +:+ errno_text en
  | ErrWrap msg _ => msg
  | ErrGoogle _ msg _ => msg
  | ErrAPI _ _ msg _ => msg
  | ErrStatus c msg => "rpc error: code = " +:+ code_string c +:+ " desc = " +:+ msg
  | ErrTemporary (Some e') _ => error_text e'
  | ErrTemporary None _ => ""
  end.

(** The error of a call, wrapped: [fmt.Errorf("msg: %w", err)]. *)
Definition wrap {S A} (msg : string) (m : M S goerr A) : M S goerr A := λ s,
  let '(r, s') := m s in
  (map_err (λ err, ErrWrap (msg +:+ ": " +:+ error_text err) err) r, s').

(** [errors.As]: the first error along the wrapping that [f] accepts. *)
Fixpoint errors_as {A} (f : goerr → option A) (e : goerr) : option A :=
  match f e with
  | Some x => Some x
  | None =>
      match e with
      | ErrWrap _ e' => errors_as f e'
      | ErrGoogle _ _ (Some e') => errors_as f e'
      | ErrAPI _ _ _ e' => errors_as f e'
      | ErrTemporary (Some e') _ => errors_as f e'
      | _ => None
      end
  end.

Definition as_googleapi (e : goerr) : option Z :=
  match e with ErrGoogle c _ _ => Some c | _ => None end.
Definition as_apierror (e : goerr) : option (option Z) :=
  match e with ErrAPI h _ _ _ => Some h | _ => None end.
Definition as_temporary (e : goerr) : option goerr :=
  match e with ErrTemporary _ _ => Some e | _ => None end.

(** [os.IsNotExist], [os.IsExist]: they look at the error itself only. *)
Definition is_not_exist (e : goerr) : bool :=
  match e with ErrPath _ _ ENOENT => true | _ => false end.
Definition is_exist (e : goerr) : bool :=
  match e with ErrPath _ _ (EEXIST | ENOTEMPTY) => true | _ => false end.

(** ** pkg/common/errors.go *)
Module Common.
Definition NewTemporaryError (code : grpc_code) (err : option goerr) : goerr :=
  ErrTemporary err code.

(** [TemporaryError.GRPCStatus], the code of the status. *)
Definition GRPCStatus (err : option goerr) (code : grpc_code) : grpc_code :=
  match err with None => OK | Some _ => code end.

Definition Unwrap (err : option goerr) : option goerr := err.

Definition Error (err : option goerr) : string :=
  match err with Some e => error_text e | None => "" end.
End Common.

(** ** gRPC's status package *)

(** The [GRPCStatus] method of an error: [None] when it has none, [Some None]
    when it returns a nil status. *)
Definition grpc_status_of (e : goerr) : option (option grpc_code) :=
  match e with
  | ErrStatus c _ => Some (Some c)
  | ErrAPI _ st _ _ => Some st
  | ErrTemporary err c => Some (Some (Common.GRPCStatus err c))
  | _ => None
  end.

(** [status.FromError(err)]: the code of the status when [ok] is true. *)
Definition status_from_error (e : goerr) : option grpc_code :=
  match errors_as grpc_status_of e with
  | Some (Some c) => Some c
  | _ => None
  end.

(** [status.Error(c, msg)] is nil for [codes.OK]. *)
Definition status_error (c : grpc_code) (msg : string) : option goerr :=
  if decide (c = OK) then None else Some (ErrStatus c msg).

(** The code a gRPC client sees for the error a handler returns. *)
Definition code_of (e : goerr) : grpc_code := default Unknown (status_from_error e).

(** ** pkg/cloud_provider/lustre/lustre.go *)
Module LustreErr.

Definition StatusBadRequest : Z := 400.
Definition StatusForbidden : Z := 403.
Definition StatusNotFound : Z := 404.
Definition StatusTooManyRequests : Z := 429.

Definition userErrorCodeMap : gmap Z grpc_code :=
  list_to_map [(StatusForbidden, PermissionDenied); (StatusBadRequest, InvalidArgument);
               (StatusTooManyRequests, ResourceExhausted); (StatusNotFound, NotFound)].

Definition IsNotFoundErr (err : goerr) : bool :=
  match errors_as as_googleapi err with
  | None => false
  | Some code => bool_decide (code = StatusNotFound)
  end.

Definition IsPermissionDeniedErr (err : goerr) : bool :=
  match errors_as as_googleapi err with
  | None => false
  | Some code => bool_decide (code = StatusForbidden)
  end.

Definition containsUserErrStr (err : option goerr) : option grpc_code :=
  match err with
  | None => None
  | Some err =>
      if contains (error_text err) "PERMISSION_DENIED" then Some PermissionDenied else
      if contains (error_text err) "RESOURCE_EXHAUSTED" then Some ResourceExhausted else
      if contains (error_text err) "INVALID_ARGUMENT" then Some InvalidArgument else
      if contains (error_text err) "NOT_FOUND" then Some NotFound else
      None
  end.

Definition isUserOperationError (err : goerr) : option grpc_code :=
  match errors_as as_googleapi err with
  | None => containsUserErrStr (Some err)
  | Some _ => None
  end.

Definition isContextError (err : option goerr) : option grpc_code :=
  match err with
  | None => None
  | Some err =>
      let errStr := error_text err in
      if contains errStr "context deadline exceeded" then Some DeadlineExceeded else
      if contains errStr "context canceled" then Some Canceled else
      None
  end.

Definition existingErrorCode (err : option goerr) : option grpc_code :=
  match err with
  | None => None
  | Some err =>
      match
        match errors_as as_temporary err with
        | Some _ => status_from_error err
        | None => None
        end
      with
      | Some c => Some c
      | None =>
          match errors_as as_googleapi err with
          | None => status_from_error err
          | Some _ => None
          end
      end
  end.

Definition isGoogleAPIError (err : goerr) : option grpc_code :=
  match errors_as as_googleapi err with
  | None => None
  | Some googleErrCode =>
      let sourceCode :=
        match errors_as as_apierror err with
        | Some http => default (-1) http     (* APIError.HTTPCode *)
        | None => googleErrCode
        end in
      userErrorCodeMap !! sourceCode
  end.

Definition codeForError (err : option goerr) : option grpc_code :=
  match err with
  | None => None
  | Some e =>
      match existingErrorCode err with Some c => Some c | None =>
      match isUserOperationError e with Some c => Some c | None =>
      match isContextError err with Some c => Some c | None =>
      match isGoogleAPIError e with Some c => Some c | None =>
      Some Internal
      end end end end
  end.

Definition StatusError (err : option goerr) : option goerr :=
  match err with
  | None => None
  | Some e => status_error (default Internal (codeForError err)) (error_text e)
  end.

(** *** Properties *)

(** [codeForError] dereferences safely in [StatusError]: an error always has a code. *)
Lemma codeForError_Some e : is_Some (codeForError (Some e)).
Proof. unfold codeForError. repeat case_match; eauto. Qed.

Lemma existingErrorCode_google e c :
  errors_as as_googleapi e = Some c → errors_as as_temporary e = None →
  existingErrorCode (Some e) = None.
Proof. intros Hg Ht. unfold existingErrorCode. by rewrite Ht, Hg. Qed.

Lemma isUserOperationError_google e c :
  errors_as as_googleapi e = Some c → isUserOperationError e = None.
Proof. intros Hg. unfold isUserOperationError. by rewrite Hg. Qed.

Lemma isContextError_None e :
  contains (error_text e) "context deadline exceeded" = false →
  contains (error_text e) "context canceled" = false →
  isContextError (Some e) = None.
Proof. intros H1 H2. unfold isContextError. by rewrite H1, H2. Qed.

Lemma isGoogleAPIError_google e c :
  errors_as as_googleapi e = Some c → errors_as as_apierror e = None →
  isGoogleAPIError e = userErrorCodeMap !! c.
Proof. intros Hg Ha. unfold isGoogleAPIError. by rewrite Hg, Ha. Qed.
End LustreErr.
