(* ===== verification/Util.v ===== *)
(** * pkg/util: labels, volume IDs, zones, volume locks *)
From S2P Require Import Prelude GoStr Regex GoErr.

Local Open Scope string_scope.
Local Open Scope Z_scope.

(** ** util.go *)

Definition Gib : Z := 1024 * 1024 * 1024.
Definition Tib : Z := 1024 * Gib.
Definition Pib : Z := 1024 * Tib.

Definition label_char (a : ascii) : bool :=
  is_lower a || is_digit a || bool_decide (a = "_"%char) || bool_decide (a = "-"%char).

(** [^\p{Ll}[\p{Ll}0-9_-]{0,62}$] and [^[\p{Ll}0-9_-]{0,63}$] *)
Definition regexKey : regex :=
  RAnchored (RSeq (RClass is_lower) (RUpTo 62 (RClass label_char))).
Definition regexValue : regex := RAnchored (RUpTo 63 (RClass label_char)).

Definition maxNumberOfLabels : nat := 64.

Definition checkLabelKeyFn (key : string) : result goerr () :=
  if negb (match_string regexKey key) then
    Err (ErrText ("label value " +:+ quote key +:+ " is invalid (should start with lowercase letter / lowercase letter, digit, _ and - chars are allowed / 1-63 characters"))
  else Ok ().

Definition checkLabelValueFn (value : string) : result goerr () :=
  if negb (match_string regexValue value) then
    Err (ErrText ("label value " +:+ quote value +:+ " is invalid (lowercase letter, digit, _ and - chars are allowed / 0-63 characters"))
  else Ok ().

(** The loop over the [key=value] strings. *)
Fixpoint convertLabels (labels : string) (keyValueStrings : list string)
    (labelsMap : gmap string string) : result goerr (gmap string string) :=
  match keyValueStrings with
  | [] => Ok labelsMap
  | keyValue :: rest =>
      match split "=" keyValue with
      | [k; v] =>
          let key := trim_space k in
          match checkLabelKeyFn key with
          | Err err => Err err
          | Ok _ =>
              let value := trim_space v in
              match checkLabelValueFn value with
              | Err err => Err err
              | Ok _ => convertLabels labels rest (<[key := value]> labelsMap)
              end
          end
      | _ => Err (ErrText ("labels " +:+ quote labels +:+ " are invalid, correct format: 'key1=value1,key2=value2'"))
      end
  end.

Definition ConvertLabelsStringToMap (labels : string) : result goerr (gmap string string) :=
  if decide (labels = "") then Ok ∅ else
  labelsMap ← convertLabels labels (split "," labels) ∅;
  if decide (maxNumberOfLabels < size labelsMap)%nat then
    Err (ErrText ("more than " +:+ itoa (Z.of_nat maxNumberOfLabels) +:+
                  " labels is not allowed, given: " +:+ itoa (Z.of_nat (size labelsMap))))
  else Ok labelsMap.

Definition volume_id_error (id : string) : goerr :=
  ErrText ("invalid volume ID " +:+ quote id +:+ ": expected format PROJECT_ID/LOCATION/INSTANCE_NAME").

Definition ParseVolumeID (id : string) : result goerr (string * string * string) :=
  let realID :=
    match index ":" id with
    | Some colonIndex => str_take colonIndex id
    | None => id
    end in
  match split "/" realID with
  | [project; location; instanceName] =>
      if decide (project = "" ∨ location = "" ∨ instanceName = "") then Err (volume_id_error id)
      else Ok (project, location, instanceName)
  | _ => Err (volume_id_error id)
  end.

Definition GetRegionFromZone (location : string) : result goerr string :=
  if decide (location = "") then
    Err (ErrText "failed to parse location: location must be provided")
  else
    let tokens := split "-" location in
    if decide (length tokens ≠ 3%nat) then
      Err (ErrText ("failed to parse location " +:+ location +:+ ": not a valid zone"))
    else Ok (join "-" (take 2 tokens)).

Definition BytesToGib (bytes : Z) : Z := Z.quot bytes Gib.

(** ** volume_lock.go

    [TryAcquire] and [Release] hold the mutex for their whole body, so each is
    one atomic step on the set of the volume IDs with an ongoing operation. *)
Module VolumeLocks.
Abbreviation t := (gset string).

Definition NewVolumeLocks : t := ∅.

Definition TryAcquire (volumeID : string) (locks : t) : bool * t :=
  if decide (volumeID ∈ locks) then (false, locks)
  else (true, {[volumeID]} ∪ locks).

Definition Release (volumeID : string) (locks : t) : t := locks ∖ {[volumeID]}.
End VolumeLocks.

Definition VolumeOperationAlreadyExistsFmt (key : string) : string :=
  "An operation with the given volume key " +:+ key +:+ " already exists".

(** ** Labels *)

(** The keys and the values the label rules admit. *)
Definition valid_label_key (k : string) : Prop :=
  ∃ a s, k = String a s ∧ is_lower a = true ∧ all_chars label_char s = true ∧ slen s ≤ 62.
Definition valid_label_value (v : string) : Prop :=
  all_chars label_char v = true ∧ slen v ≤ 63.

Lemma rmatch_class_upto n p st st' :
  rmatch (RUpTo n (RClass p)) st st' ↔
  ∃ w, all_chars p w = true ∧ (String.length w ≤ n)%nat ∧ eat w st st'.
Proof.
  revert st. induction n as [|n IH]; intros st; cbn [RUpTo].
  { split.
    - inversion 1; subst. exists "". split_and!; [done|cbn; lia|by apply eat_nil].
    - intros ([|a w] & _ & Hl & He); [apply eat_nil in He as ->; constructor|cbn in Hl; lia]. }
  unfold ROpt. rewrite rmatch_alt, rmatch_seq. split.
  - intros [(st1 & H1 & H2)|H].
    + apply rmatch_class in H1 as (a & Ha & Hea). apply IH in H2 as (w & Hw & Hl & He).
      exists (String a w). split_and!; [cbn; by rewrite Ha|cbn; lia|].
      rewrite <-app_char_str. by eapply eat_app.
    + inversion H; subst. exists "". split_and!; [done|cbn; lia|by apply eat_nil].
  - intros ([|a w] & Hw & Hl & He).
    + right. apply eat_nil in He as ->. constructor.
    + left. cbn in Hw, Hl. apply andb_true_iff in Hw as [Ha Hw].
      destruct He as (Hr & Hc & Hb). rewrite app_cons_str in Hr.
      exists (advance st). split; [by econstructor|].
      apply IH. exists w. split_and!; [done|lia|].
      unfold eat, advance. rewrite Hr. cbn. split_and!; [done..|]. by rewrite Hb, andb_false_r.
Qed.

Lemma regexKey_spec k : match_string regexKey k = true ↔ valid_label_key k.
Proof.
  unfold regexKey. rewrite match_string_anchored. split.
  - intros (st' & Hm & He). apply rmatch_seq in Hm as (st1 & H1 & H2).
    apply rmatch_class in H1 as (a & Ha & Hr1 & _).
    apply rmatch_class_upto in H2 as (w & Hw & Hl & Hr2 & _).
    cbn in Hr1. rewrite Hr2, He, app_nil_r_str, app_char_str in Hr1.
    exists a, w. unfold slen. split_and!; [done..|lia].
  - intros (a & s & -> & Ha & Hs & Hl). unfold slen in Hl.
    exists (MState false "" ∅). split; [|done].
    apply rmatch_seq. exists (MState false s ∅). split.
    + apply rmatch_class. exists a. split; [done|]. unfold eat; cbn. done.
    + apply rmatch_class_upto. exists s. split_and!; [done|lia|].
      unfold eat; cbn. by rewrite app_nil_r_str.
Qed.

Lemma regexValue_spec v : match_string regexValue v = true ↔ valid_label_value v.
Proof.
  unfold regexValue. rewrite match_string_anchored. split.
  - intros (st' & Hm & He). apply rmatch_class_upto in Hm as (w & Hw & Hl & Hr & _).
    cbn in Hr. rewrite He, app_nil_r_str in Hr. subst. unfold valid_label_value, slen.
    split; [done|lia].
  - intros [Hv Hl]. unfold slen in Hl. exists (MState (bool_decide (v = "")) "" ∅). split; [|done].
    apply rmatch_class_upto. exists v. split_and!; [done|lia|].
    unfold eat; cbn. by rewrite app_nil_r_str.
Qed.

Lemma convertLabels_valid labels kvs m m' :
  convertLabels labels kvs m = Ok m' →
  map_Forall (λ k v, valid_label_key k ∧ valid_label_value v) m →
  map_Forall (λ k v, valid_label_key k ∧ valid_label_value v) m'.
Proof.
  revert m. induction kvs as [|kv kvs IH]; intros m; cbn; [by intros [= ->]|].
  destruct (split "=" kv) as [|k [|v [|? ?]]]; try done.
  unfold checkLabelKeyFn, checkLabelValueFn.
  destruct (match_string regexKey _) eqn:Hk; cbn; [|done].
  destruct (match_string regexValue _) eqn:Hv; cbn; [|done].
  intros Hc Hm. apply (IH _ Hc). apply map_Forall_insert_2; [|done].
  by rewrite <-regexKey_spec, <-regexValue_spec.
Qed.

(** What a labels parameter turns into: at most 64 labels, every one within the rules. *)
Lemma ConvertLabels_valid labels m :
  ConvertLabelsStringToMap labels = Ok m →
  (size m ≤ maxNumberOfLabels)%nat ∧
  map_Forall (λ k v, valid_label_key k ∧ valid_label_value v) m.
Proof.
  unfold ConvertLabelsStringToMap. case_decide as Hl.
  { intros [= <-]. split; [rewrite map_size_empty; unfold maxNumberOfLabels; lia|].
    apply map_Forall_empty. }
  rewrite bind_ok. intros (m' & Hc & H). case_decide; [done|]. injection H as ->.
  split; [lia|]. eapply convertLabels_valid; [exact Hc|]. apply map_Forall_empty.
Qed.

(** ** Volume IDs *)

(** A component of a volume ID. *)
Definition id_part (s : string) : Prop :=
  s ≠ "" ∧ has_char "/" s = false ∧ has_char ":" s = false.

#[export] Instance id_part_dec s : Decision (id_part s).
Proof. unfold id_part. apply _. Defined.

Definition volume_id (project location name : string) : string :=
  join "/" [project; location; name].

Lemma volume_id_no_colon p l n :
  id_part p → id_part l → id_part n → has_char ":" (volume_id p l n) = false.
Proof.
  intros (_ & _ & Hp) (_ & _ & Hl) (_ & _ & Hn). unfold volume_id.
  rewrite has_char_join by done. cbn. by rewrite Hp, Hl, Hn.
Qed.

Lemma ParseVolumeID_volume_id p l n :
  id_part p → id_part l → id_part n → ParseVolumeID (volume_id p l n) = Ok (p, l, n).
Proof.
  intros Hp Hl Hn. unfold ParseVolumeID.
  rewrite (proj2 (index_None _ _)) by (by apply volume_id_no_colon).
  destruct Hp as (Hp & Hps & _), Hl as (Hl & Hls & _), Hn as (Hn & Hns & _).
  unfold volume_id. rewrite split_join by (done || by repeat constructor).
  rewrite decide_False; [done|naive_solver].
Qed.

Lemma ParseVolumeID_suffix p l n suffix :
  id_part p → id_part l → id_part n →
  ParseVolumeID (volume_id p l n +:+ ":" +:+ suffix) = Ok (p, l, n).
Proof.
  intros Hp Hl Hn. pose proof (volume_id_no_colon _ _ _ Hp Hl Hn) as Hc.
  rewrite <-(ParseVolumeID_volume_id _ _ _ Hp Hl Hn).
  unfold ParseVolumeID.
  rewrite (proj2 (index_None _ _) Hc), app_char_str, index_app, take_app_length by done.
  destruct Hp as (Hp & Hps & _), Hl as (Hl & Hls & _), Hn as (Hn & Hns & _).
  unfold volume_id. rewrite split_join by (done || by repeat constructor).
  rewrite !decide_False; naive_solver.
Qed.

Lemma ParseVolumeID_inv id p l n :
  ParseVolumeID id = Ok (p, l, n) →
  id_part p ∧ id_part l ∧ id_part n ∧
  (id = volume_id p l n ∨ ∃ suffix, id = volume_id p l n +:+ ":" +:+ suffix).
Proof.
  unfold ParseVolumeID.
  set (realID := match index ":" id with Some n => _ | None => _ end).
  assert (has_char ":" realID = false ∧
          (id = realID ∨ ∃ suffix, id = realID +:+ ":" +:+ suffix)) as [Hc Hid].
  { subst realID. destruct (index ":" id) as [m|] eqn:E.
    - apply index_Some in E as [Hs Hc]. split; [done|]. right. eexists. by rewrite app_char_str.
    - apply index_None in E. auto. }
  clearbody realID. destruct (split "/" realID) as [|p' [|l' [|n' [|? ?]]]] eqn:E; try done.
  case_decide as Hd; [done|]. intros [= -> -> ->].
  apply split_spec in E as (_ & Hf & ->).
  assert (has_char ":" p = false ∧ has_char ":" l = false ∧ has_char ":" n = false)
    as (Hpc & Hlc & Hnc).
  { rewrite has_char_join in Hc by done. cbn in Hc. rewrite !orb_false_iff in Hc. naive_solver. }
  rewrite !Forall_cons in Hf. unfold id_part. naive_solver.
Qed.

(** ** Zones *)

Lemma GetRegionFromZone_spec zone region :
  GetRegionFromZone zone = Ok region ↔
  ∃ a b c, zone = join "-" [a; b; c] ∧ region = join "-" [a; b] ∧
    has_char "-" a = false ∧ has_char "-" b = false ∧ has_char "-" c = false.
Proof.
  unfold GetRegionFromZone. split.
  - case_decide; [done|]. destruct (split "-" zone) as [|a [|b [|c [|d l]]]] eqn:E; try done.
    rewrite decide_False by (cbn; lia). intros [= <-].
    apply split_spec in E as (_ & Hf & ->). rewrite !Forall_cons in Hf.
    exists a, b, c. naive_solver.
  - intros (a & b & c & -> & -> & Ha & Hb & Hc).
    rewrite decide_False by (by destruct a).
    rewrite split_join by (done || by repeat constructor).
    by rewrite decide_False by (cbn; lia).
Qed.

(** ** Sizes *)

Lemma BytesToGib_floor bytes :
  0 ≤ bytes → BytesToGib bytes * Gib ≤ bytes < (BytesToGib bytes + 1) * Gib.
Proof.
  intros H. unfold BytesToGib. rewrite Z.quot_div_nonneg by (unfold Gib; lia).
  pose proof (Z.div_mod bytes Gib). pose proof (Z.mod_pos_bound bytes Gib).
  unfold Gib in *. lia.
Qed.
