(* ===== verification/Instance.v ===== *)
(** * Lustre instances, their names and volume IDs

    pkg/csi_driver/volume.go, and the data and naming functions of
    pkg/cloud_provider/lustre/lustre.go. *)
From S2P Require Import Prelude GoStr Regex GoErr Util.

Local Open Scope string_scope.
Local Open Scope Z_scope.

(** ** Data *)

Record ServiceInstance : Type := MkServiceInstance {
  Project : string;
  Location : string;
  Name : string;
  Filesystem : string;
  Network : string;
  IP : string;
  Description : string;
  State : string;
  Labels : gmap string string;
  CapacityGib : Z;
  GkeSupportEnabled : bool;
  PerUnitStorageThroughput : Z;
  MountPoint : string;
}.

#[export] Instance ServiceInstance_eq_dec : EqDecision ServiceInstance.
Proof. solve_decision. Defined.

(** Assignments to one field of an instance. *)
Definition set_Labels (v : gmap string string) (i : ServiceInstance) : ServiceInstance :=
  MkServiceInstance (Project i) (Location i) (Name i) (Filesystem i) (Network i) (IP i)
    (Description i) (State i) v (CapacityGib i) (GkeSupportEnabled i)
    (PerUnitStorageThroughput i) (MountPoint i).
Definition set_Filesystem (v : string) (i : ServiceInstance) : ServiceInstance :=
  MkServiceInstance (Project i) (Location i) (Name i) v (Network i) (IP i)
    (Description i) (State i) (Labels i) (CapacityGib i) (GkeSupportEnabled i)
    (PerUnitStorageThroughput i) (MountPoint i).
Definition set_CapacityGib (v : Z) (i : ServiceInstance) : ServiceInstance :=
  MkServiceInstance (Project i) (Location i) (Name i) (Filesystem i) (Network i) (IP i)
    (Description i) (State i) (Labels i) v (GkeSupportEnabled i)
    (PerUnitStorageThroughput i) (MountPoint i).

(** An instance of which only the identity is known. *)
Definition instance_ref (project location name : string) : ServiceInstance :=
  MkServiceInstance project location name "" "" "" "" "" ∅ 0 false 0 "".

Record ListFilter : Type := MkListFilter {
  FilterProject : string;
  FilterLocation : string;
}.

(** The messages of the Lustre API (cloud.google.com/go/lustre/apiv1/lustrepb). *)
Module lustrepb.
Inductive Instance_State : Type :=
| STATE_UNSPECIFIED | ACTIVE | CREATING | DELETING | UPGRADING
| REPAIRING | STOPPED | UPDATING | SUSPENDED
| OtherState (n : Z).

Definition State_String (s : Instance_State) : string :=
  match s with
  | STATE_UNSPECIFIED => "STATE_UNSPECIFIED" | ACTIVE => "ACTIVE"
  | CREATING => "CREATING" | DELETING => "DELETING" | UPGRADING => "UPGRADING"
  | REPAIRING => "REPAIRING" | STOPPED => "STOPPED" | UPDATING => "UPDATING"
  | SUSPENDED => "SUSPENDED" | OtherState n => itoa n
  end.

Record Instance : Type := MkInstance {
  Name : string;
  Network : string;
  Description : string;
  State : Instance_State;
  Labels : gmap string string;
  CapacityGib : Z;
  Filesystem : string;
  GkeSupportEnabled : bool;
  PerUnitStorageThroughput : Z;
  MountPoint : string;
}.
End lustrepb.

(** ** volume.go *)

Definition volumeIDToInstance (volumeID : string) : result goerr ServiceInstance :=
  '(projectID, location, instanceName) ← ParseVolumeID volumeID;
  Ok (instance_ref projectID location instanceName).

Definition instanceToVolumeID (instance : ServiceInstance) : string :=
  Project instance +:+ "/" +:+ Location instance +:+ "/" +:+ Name instance.

(** ** lustre.go *)

Definition instanceFullName (instance : ServiceInstance) : string :=
  "projects/" +:+ Project instance +:+ "/locations/" +:+ Location instance +:+
  "/instances/" +:+ Name instance.

Definition not_slash (a : ascii) : bool := bool_decide (a ≠ "/"%char).

(** [^projects/([^/]+)/locations/([^/]+)/instances/([^/]+)$] *)
Definition instanceFullNameRegex : regex :=
  let part n := RGroup n (RPlus (RClass not_slash)) in
  RAnchored (RSeq (RLit "projects/") (RSeq (part 1%nat)
            (RSeq (RLit "/locations/") (RSeq (part 2%nat)
            (RSeq (RLit "/instances/") (part 3%nat)))))).

Definition parseInstanceFullName (fullName : string) : result goerr (string * string * string) :=
  match find_submatch instanceFullNameRegex fullName with
  | None => Err (ErrText ("failed to parse instance full name " +:+ fullName))
  | Some substrings => Ok (group 1 substrings, group 2 substrings, group 3 substrings)
  end.

Definition parseInstanceIP (instanceMountpoint : string) : result goerr string :=
  if decide (instanceMountpoint = "") then Ok "" else
  match split "@" instanceMountpoint with
  | ip :: _ :: _ => Ok ip
  | _ => Err (ErrText ("invalid instanceMountpoint " +:+ instanceMountpoint))
  end.

Definition cloudInstanceToServiceInstance (instance : lustrepb.Instance) : result goerr ServiceInstance :=
  '(project, location, name) ← parseInstanceFullName (lustrepb.Name instance);
  ip ← parseInstanceIP (lustrepb.MountPoint instance);
  Ok {| Name := name;
        Location := location;
        Project := project;
        Network := lustrepb.Network instance;
        Description := lustrepb.Description instance;
        State := lustrepb.State_String (lustrepb.State instance);
        Labels := lustrepb.Labels instance;
        CapacityGib := lustrepb.CapacityGib instance;
        Filesystem := lustrepb.Filesystem instance;
        IP := ip;
        GkeSupportEnabled := false;
        PerUnitStorageThroughput := lustrepb.PerUnitStorageThroughput instance;
        MountPoint := lustrepb.MountPoint instance |}.

Definition mismatch (field expected got : string) : string :=
  field +:+ ": expected " +:+ quote expected +:+ ", got " +:+ quote got.

Definition CompareInstances (a b : ServiceInstance) : option goerr :=
  let mismatches :=
    ((if decide (Name a ≠ Name b) then [mismatch "instance name" (Name a) (Name b)] else []) ++
    (if decide (Project a ≠ Project b) then [mismatch "instance project" (Project a) (Project b)] else []) ++
    (if decide (Location a ≠ Location b) then [mismatch "instance location" (Location a) (Location b)] else []) ++
    (if decide (CapacityGib a ≠ CapacityGib b)
     then ["instance size: expected " +:+ itoa (CapacityGib a) +:+ " GiB, got " +:+ itoa (CapacityGib b) +:+ " GiB"] else []) ++
    (if decide (Network a ≠ Network b) then [mismatch "network name" (Network a) (Network b)] else []))%list in
  if decide (0 < length mismatches)%nat
  then Some (ErrText ("instance " +:+ Name a +:+ " already exists but doesn't match expected: " +:+ fmt_slice mismatches))
  else None.

(** ** Lemmas *)

Lemma instanceToVolumeID_volume_id i :
  instanceToVolumeID i = volume_id (Project i) (Location i) (Name i).
Proof. done. Qed.

(** An instance whose identity is a volume ID. *)
Definition identified (i : ServiceInstance) : Prop :=
  id_part (Project i) ∧ id_part (Location i) ∧ id_part (Name i).

#[export] Instance identified_dec i : Decision (identified i).
Proof. unfold identified. apply _. Defined.

Lemma volumeIDToInstance_roundtrip i :
  identified i →
  volumeIDToInstance (instanceToVolumeID i) = Ok (instance_ref (Project i) (Location i) (Name i)).
Proof.
  intros (Hp & Hl & Hn). unfold volumeIDToInstance.
  by rewrite instanceToVolumeID_volume_id, ParseVolumeID_volume_id.
Qed.

Lemma volumeIDToInstance_inv id i :
  volumeIDToInstance id = Ok i → identified i ∧ i = instance_ref (Project i) (Location i) (Name i).
Proof.
  unfold volumeIDToInstance. rewrite bind_ok. intros ([[p l] n] & Hp & [= <-]).
  by apply ParseVolumeID_inv in Hp as (? & ? & ? & _).
Qed.

Lemma CompareInstances_None a b :
  CompareInstances a b = None ↔
  Name a = Name b ∧ Project a = Project b ∧ Location a = Location b ∧
  CapacityGib a = CapacityGib b ∧ Network a = Network b.
Proof.
  unfold CompareInstances. case_decide as Hd.
  - split; [done|]. intros (H1 & H2 & H3 & H4 & H5).
    rewrite !decide_False in Hd by naive_solver. cbn in Hd. lia.
  - split; [|done]. intros _.
    rewrite !length_app in Hd. repeat case_decide; cbn in Hd; try lia; naive_solver.
Qed.

Lemma parseInstanceIP_spec mp ip :
  parseInstanceIP mp = Ok ip ↔
  (mp = "" ∧ ip = "") ∨ (has_char "@" ip = false ∧ ∃ fs, mp = ip +:+ "@" +:+ fs).
Proof.
  unfold parseInstanceIP. case_decide as Hd.
  { subst. split; [intros [= <-]; auto|]. intros [[_ ->]|[_ [fs H]]]; [done|].
    by destruct ip. }
  split.
  - destruct (split "@" mp) as [|a [|b l]] eqn:E; try done. intros [= <-]. right.
    apply split_spec in E as (_ & Hf & ->). inversion_clear Hf. split; [done|].
    rewrite join_cons. eauto.
  - intros [[-> _]|[Hc [fs ->]]]; [done|]. by rewrite app_char_str, split_app_sep;
      [destruct (split "@" fs) eqn:E; [by apply split_nonempty in E|]|].
Qed.

(** A component of a resource name. *)
Definition name_part (s : string) : Prop := s ≠ "" ∧ has_char "/" s = false.

#[export] Instance name_part_dec s : Decision (name_part s).
Proof. unfold name_part. apply _. Defined.

Lemma id_part_name_part s : id_part s → name_part s.
Proof. unfold id_part, name_part. naive_solver. Qed.

Lemma rmatch_part n st st' :
  rmatch (RGroup n (RPlus (RClass not_slash))) st st' ↔
  ∃ w, name_part w ∧ rest st = w +:+ rest st' ∧ at_start st' = false ∧
       caps st' = <[n := w]> (caps st).
Proof.
  rewrite rmatch_group_plus. unfold name_part. setoid_rewrite <-all_chars_not_char. naive_solver.
Qed.

(** What the regular expression finds is a full name, by its parts. *)
Lemma full_name_sound full c :
  find_submatch instanceFullNameRegex full = Some c →
  name_part (group 1 c) ∧ name_part (group 2 c) ∧ name_part (group 3 c) ∧
  full = instanceFullName (instance_ref (group 1 c) (group 2 c) (group 3 c)).
Proof.
  intros (st & Hm & He & ->)%find_submatch_anchored.
  repeat (apply rmatch_seq in Hm as (? & ?Hs & Hm)).
  rewrite rmatch_lit in Hs, Hs1, Hs3. rewrite rmatch_part in Hs0, Hs2, Hm.
  destruct Hs as (R0 & C0 & _), Hs1 as (R2 & C2 & _), Hs3 as (R4 & C4 & _).
  destruct Hs0 as (p & Hp & R1 & _ & C1), Hs2 as (l & Hl & R3 & _ & C3), Hm as (n & Hn & R5 & _ & C5).
  assert (group 1 (caps st) = p) as -> by (unfold group; rewrite C5, C4, C3, C2, C1; by simplify_map_eq).
  assert (group 2 (caps st) = l) as -> by (unfold group; rewrite C5, C4, C3; by simplify_map_eq).
  assert (group 3 (caps st) = n) as -> by (unfold group; rewrite C5; by simplify_map_eq).
  split_and!; [done..|]. cbn in R0. rewrite R0, R1, R2, R3, R4, R5, He, app_nil_r_str. reflexivity.
Qed.

Lemma full_name_complete p l n :
  name_part p → name_part l → name_part n →
  is_Some (find_submatch instanceFullNameRegex (instanceFullName (instance_ref p l n))).
Proof.
  intros Hp Hl Hn. eapply (find_submatch_anchored_complete _ _
    (MState false "" (<[3%nat:=n]> (<[2%nat:=l]> (<[1%nat:=p]> ∅))))); [|done].
  assert (∀ w t bol cs, w ≠ "" →
    rmatch (RLit w) (MState bol (w +:+ t) cs) (MState false t cs)) as Hlit.
  { intros w t bol cs Hw. apply rmatch_lit. unfold eat; cbn.
    by rewrite bool_decide_false, andb_false_r. }
  assert (∀ k w t bol cs, name_part w →
    rmatch (RGroup k (RPlus (RClass not_slash))) (MState bol (w +:+ t) cs)
      (MState false t (<[k := w]> cs))) as Hpart.
  { intros k w t bol cs Hw. apply rmatch_part. by exists w. }
  eapply rm_seq; [by apply (Hlit "projects/")|]. eapply rm_seq; [by apply Hpart|].
  eapply rm_seq; [by apply (Hlit "/locations/")|]. eapply rm_seq; [by apply Hpart|].
  eapply rm_seq; [by apply (Hlit "/instances/")|]. rewrite <-(app_nil_r_str n) at 1. by apply Hpart.
Qed.

Lemma full_name_parts p l n p' l' n' :
  name_part p → name_part l → name_part n → name_part p' → name_part l' → name_part n' →
  instanceFullName (instance_ref p l n) = instanceFullName (instance_ref p' l' n') → p = p' ∧ l = l' ∧ n = n'.
Proof.
  intros [? ?] [? ?] [? ?] [? ?] [? ?] [? ?] E.
  assert (∀ p l n, instanceFullName (instance_ref p l n) =
    join "/" ["projects"; p; "locations"; l; "instances"; n]) as Hj by reflexivity.
  rewrite !Hj in E. apply (f_equal (split "/")) in E.
  rewrite !split_join in E by (done || by repeat constructor). naive_solver.
Qed.

Lemma parseInstanceFullName_spec full p l n :
  parseInstanceFullName full = Ok (p, l, n) ↔
  name_part p ∧ name_part l ∧ name_part n ∧ full = instanceFullName (instance_ref p l n).
Proof.
  unfold parseInstanceFullName. split.
  - destruct (find_submatch _ _) as [c|] eqn:E; [|done]. intros [= <- <- <-]. by apply full_name_sound.
  - intros (Hp & Hl & Hn & ->). destruct (full_name_complete p l n Hp Hl Hn) as [c Hc]. rewrite Hc.
    apply full_name_sound in Hc as (Hp' & Hl' & Hn' & E).
    by destruct (full_name_parts _ _ _ _ _ _ Hp Hl Hn Hp' Hl' Hn' E) as (-> & -> & ->).
Qed.
