(* ===== verification/Params.v ===== *)
(** * Keys of the request maps: pkg/csi_driver/utils.go

    StorageClass parameters and volume contexts arrive as maps whose keys are
    written in several styles; [normalizeKeys] brings them to one style and
    refuses unknown and clashing keys. *)
From S2P Require Import Prelude GoStr GoErr.

Local Open Scope string_scope.
Local Open Scope Z_scope.

(** ** Key names (controller.go) *)

Definition csiPrefixKubernetesStorage := "csi.storage.k8s.io".
Definition storagePrefixKubernetes := "storage.kubernetes.io".

Definition keyPVCName := "csi.storage.k8s.io/pvc/name".
Definition keyPVCNamespace := "csi.storage.k8s.io/pvc/namespace".
Definition keyPVName := "csi.storage.k8s.io/pv/name".

Definition keyDescription := "description".
Definition keyLabels := "labels".
Definition keyNetwork := "network".
Definition keyPerUnitStorageThroughput := "perunitstoragethroughput".
Definition keyFilesystem := "filesystem".

Definition keyInstanceIP := "ip".
Definition keyMountPoint := "mountpoint".
Definition keyIAMAccessControlEnabled := "iam_access_control_enabled".

Definition paramKeys : list string :=
  [keyDescription; keyLabels; keyNetwork; keyFilesystem; keyPerUnitStorageThroughput].

Definition volumeAttributes : list string :=
  [keyInstanceIP; keyFilesystem; keyMountPoint; keyIAMAccessControlEnabled].

(** ** Normalization *)

Definition normalize (input : string) : string :=
  let normalized := remove_char "-" input in
  let normalized := remove_char "_" normalized in
  to_lower normalized.
#[global] Arguments normalize : simpl never.

Definition isK8sKey (normalizedKey : string) : bool :=
  has_prefix normalizedKey csiPrefixKubernetesStorage
  || has_prefix normalizedKey storagePrefixKubernetes.

(** The [range] loop of [normalizeKeys]. *)
Fixpoint normalizeKeys_loop (supported : gset string) (input : list (string * string))
    (processed : gmap string string) (unsupported duplicate : list string)
    : gmap string string * list string * list string :=
  match input with
  | [] => (processed, unsupported, duplicate)
  | (inputKey, inputVal) :: input' =>
      let normalizedKey := normalize inputKey in
      let unsupported :=
        if bool_decide (normalizedKey ∉ supported) && negb (isK8sKey normalizedKey)
        then (unsupported ++ [inputKey])%list else unsupported in
      let duplicate :=
        if decide (is_Some (processed !! normalizedKey))
        then (duplicate ++ [inputKey])%list else duplicate in
      normalizeKeys_loop supported input' (<[normalizedKey := inputVal]> processed)
        unsupported duplicate
  end.

Section normalize.
Context `{MapRange}.

Definition normalizeKeys (input : gmap string string) (supported : gset string)
    : result goerr (gmap string string) :=
  let '(processed, unsupported, duplicate) :=
    normalizeKeys_loop supported (range input) ∅ [] [] in
  if decide (0 < length unsupported)%nat then
    Err (ErrText ("unsupported keys: " +:+ fmt_slice unsupported))
  else if decide (0 < length duplicate)%nat then
    Err (ErrText ("duplicate keys: " +:+ fmt_slice duplicate))
  else Ok processed.

Definition normalizeVolumeContext (input : gmap string string) : result goerr (gmap string string) :=
  let supported := list_to_set (normalize <$> volumeAttributes) in
  map_err (λ err, ErrWrap ("failed to process volume context: " +:+ error_text err) err)
    (normalizeKeys input supported).

Definition normalizeParams (input : gmap string string) : result goerr (gmap string string) :=
  let supported := list_to_set (normalize <$> paramKeys) in
  map_err (λ err, ErrWrap ("failed to process parameters: " +:+ error_text err) err)
    (normalizeKeys input supported).
End normalize.

(** ** Lemmas *)

Lemma has_char_to_lower_sep c s :
  c = "-"%char ∨ c = "_"%char → has_char c (to_lower s) = has_char c s.
Proof.
  intros Hc. unfold to_lower. induction s as [|a s IH]; cbn; [done|]. rewrite IH. f_equal.
  apply bool_decide_ext.
  destruct Hc as [-> | ->]; destruct a as [[] [] [] [] [] [] [] []]; vm_compute;
    split; intros E; (reflexivity || discriminate E || exact E).
Qed.

Lemma normalize_no_sep s :
  has_char "-" (normalize s) = false ∧ has_char "_" (normalize s) = false.
Proof.
  unfold normalize. rewrite !has_char_to_lower_sep by auto. by rewrite !has_char_remove.
Qed.

Lemma normalize_idemp s : normalize (normalize s) = normalize s.
Proof.
  destruct (normalize_no_sep s) as [H1 H2]. unfold normalize at 1.
  rewrite !remove_char_id; [|done|by rewrite remove_char_id].
  unfold normalize. apply to_lower_idemp.
Qed.

(** The keys [normalizeKeys] lets through. *)
Definition key_allowed (supported : gset string) (k : string) : Prop :=
  normalize k ∈ supported ∨ isK8sKey (normalize k) = true.

Lemma loop_unsupported supported l m u d m' u' d' :
  normalizeKeys_loop supported l m u d = (m', u', d') →
  (u' = [] ↔ u = [] ∧ Forall (λ p, key_allowed supported p.1) l).
Proof.
  revert m u d. induction l as [|[k v] l IH]; intros m u d; cbn.
  { intros [= -> -> ->]. by rewrite Forall_nil; naive_solver. }
  intros ->%IH. rewrite Forall_cons. cbn [fst].
  assert (key_allowed supported k ↔
    bool_decide (normalize k ∉ supported) && negb (isK8sKey (normalize k)) = false) as ->.
  { unfold key_allowed. case_bool_decide as Hk; destruct (isK8sKey (normalize k)); cbn;
      try apply dec_stable in Hk; naive_solver. }
  destruct (_ && _); [|tauto]. destruct u; naive_solver.
Qed.

Lemma loop_duplicate supported l m u d m' u' d' :
  normalizeKeys_loop supported l m u d = (m', u', d') →
  (d' = [] ↔ d = [] ∧ NoDup (normalize <$> l.*1) ∧ Forall (λ k, m !! k = None) (normalize <$> l.*1)).
Proof.
  revert m u d. induction l as [|[k v] l IH]; intros m u d; cbn.
  { intros [= -> -> ->]. rewrite Forall_nil. split; [|naive_solver]. intros ->. by repeat constructor. }
  intros ->%IH. rewrite NoDup_cons, !Forall_forall.
  setoid_rewrite lookup_insert_None. setoid_rewrite elem_of_cons.
  case_decide as Hd.
  - split; [intros [? _]; by destruct d|]. intros (_ & _ & Hm).
    rewrite Hm in Hd by auto. by destruct Hd.
  - rewrite <-eq_None_not_Some in Hd. split.
    + intros (-> & Hnd & Hx). split_and!; [done| |done|].
      * intros Hin. by destruct (Hx _ Hin).
      * intros x [->|Hin]; [done|]. by destruct (Hx _ Hin).
    + intros (-> & [Hk Hnd] & Hx). split_and!; [done..|]. intros x Hin.
      split; [auto|]. intros Heq. by rewrite Heq in Hk.
Qed.

Lemma loop_processed supported l m u d m' u' d' :
  normalizeKeys_loop supported l m u d = (m', u', d') →
  NoDup (normalize <$> l.*1) → ∀ nk v,
  m' !! nk = Some v ↔
  (∃ k, normalize k = nk ∧ (k, v) ∈ l) ∨ (nk ∉ normalize <$> l.*1) ∧ m !! nk = Some v.
Proof.
  revert m u d. induction l as [|[k v] l IH]; intros m u d; cbn.
  { intros [= -> -> ->] _ nk v. split; [intros; right; split; [apply not_elem_of_nil|done]|].
    intros [(k & _ & Hk)|[_ ?]]; [by apply elem_of_nil in Hk|done]. }
  intros Hl [Hk Hnd]%NoDup_cons nk w. rewrite (IH _ _ _ Hl Hnd nk w).
  rewrite not_elem_of_cons. setoid_rewrite elem_of_cons.
  destruct (decide (normalize k = nk)) as [<-|Hne].
  - rewrite lookup_insert_eq. split; [|intros [(k' & Hk' & [?|?])|?]]; simplify_eq.
    + intros [(k' & ? & ?)|[_ [= <-]]]; left; eauto.
    + auto.
    + eauto.
    + naive_solver.
  - rewrite lookup_insert_ne by done. naive_solver.
Qed.

Lemma normalizeKeys_spec `{MapRange} input supported m :
  normalizeKeys input supported = Ok m ↔
  (∀ k v, input !! k = Some v → key_allowed supported k) ∧
  (∀ k1 k2 v1 v2, input !! k1 = Some v1 → input !! k2 = Some v2 →
     normalize k1 = normalize k2 → k1 = k2) ∧
  (∀ nk v, m !! nk = Some v ↔ ∃ k, normalize k = nk ∧ input !! k = Some v).
Proof.
  unfold normalizeKeys. destruct (normalizeKeys_loop _ _ _ _ _) as [[m' u'] d'] eqn:El.
  pose proof (loop_unsupported _ _ _ _ _ _ _ _ El) as Hu.
  pose proof (loop_duplicate _ _ _ _ _ _ _ _ El) as Hd.
  pose proof (loop_processed _ _ _ _ _ _ _ _ El) as Hp.
  assert (Forall (λ p, key_allowed supported p.1) (range input) ↔
    ∀ k v, input !! k = Some v → key_allowed supported k) as Hallow.
  { rewrite Forall_forall. setoid_rewrite <-elem_of_range. split.
    - intros Hf k v Hk. exact (Hf _ Hk).
    - intros Hf [k v] Hk. exact (Hf _ _ Hk). }
  assert (NoDup (normalize <$> (range input).*1) ↔
    ∀ k1 k2 v1 v2, input !! k1 = Some v1 → input !! k2 = Some v2 →
     normalize k1 = normalize k2 → k1 = k2) as Hnd.
  { setoid_rewrite <-elem_of_range. split.
    - intros Hnd k1 k2 v1 v2 H1 H2 Heq.
      apply list_elem_of_lookup in H1 as [i Hi], H2 as [j Hj].
      assert (i = j) as ->; [|congruence].
      eapply (NoDup_lookup _ i j (normalize k1) Hnd); rewrite !list_lookup_fmap.
      + by rewrite Hi.
      + rewrite Hj. cbn. by rewrite Heq.
    - intros Hinj. apply NoDup_fmap_2_strong; [|apply range_NoDup_fst].
      intros k1 k2 Hk1 Hk2.
      apply list_elem_of_fmap in Hk1 as ([? v1] & -> & ?), Hk2 as ([? v2] & -> & ?). eauto. }
  assert (Forall (λ k, (∅ : gmap string string) !! k = None) (normalize <$> (range input).*1)) as Hem.
  { apply Forall_forall. intros. apply lookup_empty. }
  rewrite Hallow in Hu. rewrite Hnd in Hd.
  setoid_rewrite elem_of_range in Hp. rewrite Hnd in Hp.
  assert (∀ nk v, ¬ (∅ : gmap string string) !! nk = Some v) as Hne
    by (intros; by rewrite lookup_empty).
  case_decide as Hlu; [|case_decide as Hld].
  - split; [done|]. intros (Ha & _ & _). destruct u'; [cbn in Hlu; lia|]. naive_solver.
  - split; [done|]. intros (_ & Hi & _). destruct d'; [cbn in Hld; lia|]. naive_solver.
  - destruct u'; [|cbn in Hlu; lia]. destruct d'; [|cbn in Hld; lia].
    destruct Hu as [Hu _], Hd as [Hd _]. destruct (Hu eq_refl) as [_ Ha].
    destruct (Hd eq_refl) as (_ & Hi & _). split.
    + intros [= <-]. split_and!; [done..|]. intros nk v. rewrite (Hp Hi). naive_solver.
    + intros (_ & _ & Hm). f_equal. apply map_eq. intros nk. apply option_eq. intros v.
      rewrite (Hp Hi), Hm. naive_solver.
Qed.

Lemma normalizeVolumeContext_lookup `{MapRange} input vc key v :
  normalizeVolumeContext input = Ok vc →
  vc !! normalize key = Some v ↔ ∃ k, normalize k = normalize key ∧ input !! k = Some v.
Proof.
  unfold normalizeVolumeContext. rewrite map_err_ok, normalizeKeys_spec.
  intros (_ & _ & Hm). apply Hm.
Qed.
