(* ===== verification/Csi.v ===== *)
(** * CSI messages

    The part of the Container Storage Interface messages
    (github.com/container-storage-interface/spec) that the driver reads and
    writes.  A message field that may be nil is an [option]. *)
From S2P Require Import Prelude GoStr GoErr.

Local Open Scope string_scope.
Local Open Scope Z_scope.

(** ** Volume capabilities *)
Inductive AccessMode : Type :=
| UNKNOWN_MODE | SINGLE_NODE_WRITER | SINGLE_NODE_READER_ONLY | MULTI_NODE_READER_ONLY
| MULTI_NODE_SINGLE_WRITER | MULTI_NODE_MULTI_WRITER
| SINGLE_NODE_SINGLE_WRITER | SINGLE_NODE_MULTI_WRITER
| OtherMode (n : Z).

#[export] Instance AccessMode_eq_dec : EqDecision AccessMode.
Proof. solve_decision. Defined.

Definition mode_code (m : AccessMode) : nat + Z :=
  match m with
  | UNKNOWN_MODE => inl 0%nat | SINGLE_NODE_WRITER => inl 1%nat
  | SINGLE_NODE_READER_ONLY => inl 2%nat | MULTI_NODE_READER_ONLY => inl 3%nat
  | MULTI_NODE_SINGLE_WRITER => inl 4%nat | MULTI_NODE_MULTI_WRITER => inl 5%nat
  | SINGLE_NODE_SINGLE_WRITER => inl 6%nat | SINGLE_NODE_MULTI_WRITER => inl 7%nat
  | OtherMode n => inr n
  end.

Definition mode_of_code (c : nat + Z) : AccessMode :=
  match c with
  | inl 0%nat => UNKNOWN_MODE | inl 1%nat => SINGLE_NODE_WRITER
  | inl 2%nat => SINGLE_NODE_READER_ONLY | inl 3%nat => MULTI_NODE_READER_ONLY
  | inl 4%nat => MULTI_NODE_SINGLE_WRITER | inl 5%nat => MULTI_NODE_MULTI_WRITER
  | inl 6%nat => SINGLE_NODE_SINGLE_WRITER | inl 7%nat => SINGLE_NODE_MULTI_WRITER
  | inl _ => UNKNOWN_MODE
  | inr n => OtherMode n
  end.

#[export] Instance AccessMode_countable : Countable AccessMode.
Proof. refine (inj_countable' mode_code mode_of_code _). by intros []. Defined.

Definition mode_string (m : AccessMode) : string :=
  match m with
  | UNKNOWN_MODE => "UNKNOWN" | SINGLE_NODE_WRITER => "SINGLE_NODE_WRITER"
  | SINGLE_NODE_READER_ONLY => "SINGLE_NODE_READER_ONLY"
  | MULTI_NODE_READER_ONLY => "MULTI_NODE_READER_ONLY"
  | MULTI_NODE_SINGLE_WRITER => "MULTI_NODE_SINGLE_WRITER"
  | MULTI_NODE_MULTI_WRITER => "MULTI_NODE_MULTI_WRITER"
  | SINGLE_NODE_SINGLE_WRITER => "SINGLE_NODE_SINGLE_WRITER"
  | SINGLE_NODE_MULTI_WRITER => "SINGLE_NODE_MULTI_WRITER"
  | OtherMode n => itoa n
  end.

Record MountVolume : Type := {
  MountFlags : list string;
  VolumeMountGroup : string;
}.

(** The [access_type] oneof; its mount alternative holds a pointer. *)
Inductive AccessType : Type :=
| BlockAccess
| MountAccess (m : option MountVolume).

Record VolumeCapability : Type := {
  GetAccessMode : option AccessMode;
  GetAccessType : option AccessType;
}.

(** [VolumeCapability.GetMount()] *)
Definition GetMount (c : VolumeCapability) : option MountVolume :=
  match GetAccessType c with
  | Some (MountAccess m) => m
  | _ => None
  end.

(** ** Volumes *)
Record CapacityRange : Type := {
  RequiredBytes : Z;
  LimitBytes : Z;
}.

(** A topology; [Segments] is nil or a map. *)
Record Topology : Type := { GetSegments : option (gmap string string) }.

Record TopologyRequirement : Type := {
  Requisite : list Topology;
  Preferred : list Topology;
}.

Record Volume : Type := {
  VolumeId : string;
  CapacityBytes : Z;
  VolumeContext : gmap string string;
}.

(** ** Service capabilities *)
Inductive ControllerServiceCapability_RPC_Type : Type :=
| CREATE_DELETE_VOLUME | PUBLISH_UNPUBLISH_VOLUME | LIST_VOLUMES | GET_CAPACITY
| CREATE_DELETE_SNAPSHOT | LIST_SNAPSHOTS | CLONE_VOLUME | PUBLISH_READONLY
| EXPAND_VOLUME | LIST_VOLUMES_PUBLISHED_NODES | VOLUME_CONDITION | GET_VOLUME
| SINGLE_NODE_MULTI_WRITER_CAP | MODIFY_VOLUME.

Inductive NodeServiceCapability_RPC_Type : Type :=
| STAGE_UNSTAGE_VOLUME | GET_VOLUME_STATS | EXPAND_VOLUME_NODE | VOLUME_CONDITION_NODE
| SINGLE_NODE_MULTI_WRITER_NODE | VOLUME_MOUNT_GROUP.

Inductive PluginCapability : Type :=
| CONTROLLER_SERVICE | VOLUME_ACCESSIBILITY_CONSTRAINTS
| VOLUME_EXPANSION_ONLINE | VOLUME_EXPANSION_OFFLINE.

#[export] Instance ctrl_cap_eq_dec : EqDecision ControllerServiceCapability_RPC_Type.
Proof. solve_decision. Defined.
#[export] Instance node_cap_eq_dec : EqDecision NodeServiceCapability_RPC_Type.
Proof. solve_decision. Defined.
#[export] Instance plugin_cap_eq_dec : EqDecision PluginCapability.
Proof. solve_decision. Defined.
