(* ===== verification/Driver.v ===== *)
(** * The driver object: pkg/csi_driver/lustre_driver.go, identity.go, *_unimpl.go *)
From S2P Require Import Prelude GoStr GoErr Csi.

Local Open Scope string_scope.
Local Open Scope Z_scope.

Definition DefaultName : string := "lustre.csi.storage.gke.io".

(** ** Metadata service (pkg/cloud_provider/metadata/metadata.go) *)
Record NetworkInterface : Type := MkNetworkInterface {
  NicNetwork : string;
  Mac : string;
}.

(** What the metadata server said when the driver started. *)
Record MetadataService : Type := MkMetadataService {
  zone : string;
  project : string;
  nics : list NetworkInterface;
}.

Definition GetZone (manager : MetadataService) : string := zone manager.
Definition GetProject (manager : MetadataService) : string := project manager.
Definition GetNetworkInterfaces (manager : MetadataService) : result goerr (list NetworkInterface) :=
  Ok (nics manager).

(** ** The driver *)
Record LustreDriverConfig : Type := MkConfig {
  ConfigName : string;
  ConfigVersion : string;
  NodeID : string;
  RunController : bool;
  RunNode : bool;
  Metadata : MetadataService;
  EnableLegacyLustrePort : bool;
  AdditionalNics : list string;
}.

(** [has_ns] and [has_cs] say whether the node and controller servers were set up. *)
Record LustreDriver : Type := MkDriver {
  config : LustreDriverConfig;
  vcap : gset AccessMode;
  cscap : list ControllerServiceCapability_RPC_Type;
  nscap : list NodeServiceCapability_RPC_Type;
  has_ns : bool;
  has_cs : bool;
}.

Definition addVolumeCapabilityAccessModes (vc : list AccessMode) (driver : LustreDriver) : LustreDriver :=
  MkDriver (config driver) (foldl (λ m c, {[c]} ∪ m) (vcap driver) vc)
    (cscap driver) (nscap driver) (has_ns driver) (has_cs driver).

Definition addControllerServiceCapabilities (cl : list ControllerServiceCapability_RPC_Type)
    (driver : LustreDriver) : LustreDriver :=
  MkDriver (config driver) (vcap driver) cl (nscap driver) (has_ns driver) (has_cs driver).

Definition addNodeServiceCapabilities (nl : list NodeServiceCapability_RPC_Type)
    (driver : LustreDriver) : LustreDriver :=
  MkDriver (config driver) (vcap driver) (cscap driver) nl (has_ns driver) (has_cs driver).

Definition set_ns (driver : LustreDriver) : LustreDriver :=
  MkDriver (config driver) (vcap driver) (cscap driver) (nscap driver) true (has_cs driver).
Definition set_cs (driver : LustreDriver) : LustreDriver :=
  MkDriver (config driver) (vcap driver) (cscap driver) (nscap driver) (has_ns driver) true.

Definition NewLustreDriver (config : LustreDriverConfig) : result goerr LustreDriver :=
  if decide (ConfigName config = "") then Err (ErrText "driver name missing") else
  if decide (ConfigVersion config = "") then Err (ErrText "driver version missing") else
  if negb (RunController config) && negb (RunNode config) then
    Err (ErrText "must run at least one controller or node service") else
  let driver := MkDriver config ∅ [] [] false false in
  let vcam := [SINGLE_NODE_WRITER; SINGLE_NODE_READER_ONLY; MULTI_NODE_READER_ONLY;
               MULTI_NODE_SINGLE_WRITER; MULTI_NODE_MULTI_WRITER] in
  let driver := addVolumeCapabilityAccessModes vcam driver in
  let driver :=
    if RunNode config then
      let nscap := [STAGE_UNSTAGE_VOLUME; VOLUME_MOUNT_GROUP; GET_VOLUME_STATS] in
      addNodeServiceCapabilities nscap (set_ns driver)
    else driver in
  let driver :=
    if RunController config then
      let csc := [CREATE_DELETE_VOLUME; EXPAND_VOLUME] in
      set_cs (addControllerServiceCapabilities csc driver)
    else driver in
  Ok driver.

Section validate.
Context (driver : LustreDriver).

Definition validateVolumeCapability (c : option VolumeCapability) : result goerr () :=
  match c with
  | None => Err (ErrText "volume capability must be provided")
  | Some c =>
      match GetAccessMode c with
      | None => Err (ErrText "volume capability access mode not set")
      | Some accessMode =>
          if decide (accessMode ∉ vcap driver) then
            Err (ErrText ("driver does not support access mode: " +:+ mode_string accessMode))
          else
            match GetAccessType c with
            | None => Err (ErrText "volume capability access type not set")
            | Some _ =>
                match GetMount c with
                | None => Err (ErrText "driver only supports mount access type volume capability")
                | Some _ => Ok ()
                end
            end
      end
  end.

Fixpoint validateVolumeCapabilities_loop (caps : list (option VolumeCapability)) : result goerr () :=
  match caps with
  | [] => Ok ()
  | c :: caps' =>
      match validateVolumeCapability c with
      | Err err => Err err
      | Ok _ => validateVolumeCapabilities_loop caps'
      end
  end.

Definition validateVolumeCapabilities (caps : list (option VolumeCapability)) : result goerr () :=
  if decide (length caps = 0%nat) then Err (ErrText "volume capabilities must be provided")
  else validateVolumeCapabilities_loop caps.
End validate.

(** ** identity.go *)
Record GetPluginInfoResponse : Type := {
  PluginName : string;
  VendorVersion : string;
}.

Definition GetPluginInfo (driver : LustreDriver) : GetPluginInfoResponse :=
  {| PluginName := ConfigName (config driver); VendorVersion := ConfigVersion (config driver) |}.

Definition GetPluginCapabilities : list PluginCapability :=
  [CONTROLLER_SERVICE; VOLUME_EXPANSION_ONLINE; VOLUME_EXPANSION_OFFLINE;
   VOLUME_ACCESSIBILITY_CONSTRAINTS].

(** ** controller_unimpl.go, node_unimpl.go *)
Inductive UnsupportedRPC : Type :=
| ControllerPublishVolume | ControllerUnpublishVolume | CreateSnapshot | DeleteSnapshot
| ListSnapshots | ListVolumes | GetCapacity | ControllerGetVolume | ControllerModifyVolume
| NodeExpandVolume.

Definition unsupported_message (rpc : UnsupportedRPC) : string :=
  match rpc with
  | ControllerPublishVolume => "ControllerPublishVolume unsupported"
  | ControllerUnpublishVolume => "ControllerUnpublishVolume unsupported"
  | CreateSnapshot => "CreateSnapshot unsupported"
  | DeleteSnapshot => "DeleteSnapshot unsupported"
  | ListSnapshots => "ListSnapshots unsupported"
  | ListVolumes => "ListVolumes unsupported"
  | GetCapacity => "GetCapacity unsupported"
  | ControllerGetVolume => "ControllerGetVolume unsupported"
  | ControllerModifyVolume => "ControllerModifyVolume unsupported"
  | NodeExpandVolume => "NodeUnStageVolume unsupported"
  end.

Definition unsupported (rpc : UnsupportedRPC) : option goerr :=
  status_error Unimplemented (unsupported_message rpc).

(** ** ControllerGetCapabilities, NodeGetCapabilities, NodeGetInfo *)
Definition ControllerGetCapabilities (driver : LustreDriver) := cscap driver.
Definition NodeGetCapabilities (driver : LustreDriver) := nscap driver.

Definition TopologyKeyZone : string := "topology.gke.io/zone".

Record NodeGetInfoResponse : Type := {
  NodeId : string;
  AccessibleTopology : Topology;
}.

Definition NodeGetInfo (driver : LustreDriver) : NodeGetInfoResponse :=
  {| NodeId := NodeID (config driver);
     AccessibleTopology :=
       {| GetSegments := Some {[TopologyKeyZone := GetZone (Metadata (config driver))]} |} |}.

(** ** Lemmas *)

(** The capabilities the driver serves: a mount volume in one of its access modes. *)
Definition capability_ok (driver : LustreDriver) (c : option VolumeCapability) : Prop :=
  ∃ vc mode m, c = Some vc ∧ GetAccessMode vc = Some mode ∧ mode ∈ vcap driver ∧ GetMount vc = Some m.

Lemma validateVolumeCapability_ok driver c :
  validateVolumeCapability driver c = Ok () ↔ capability_ok driver c.
Proof.
  unfold validateVolumeCapability, capability_ok. destruct c as [c|]; [|naive_solver].
  destruct (GetAccessMode c) as [mode|] eqn:Em; [|naive_solver].
  case_decide as Hd; [naive_solver|].
  destruct (GetAccessType c) as [t|] eqn:Et.
  - destruct (GetMount c) as [m|] eqn:Eg; naive_solver.
  - split; [done|]. intros (vc & ? & m & [= <-] & _ & _ & Hm). unfold GetMount in Hm.
    by rewrite Et in Hm.
Qed.

Lemma validateVolumeCapabilities_ok driver caps :
  validateVolumeCapabilities driver caps = Ok () ↔ caps ≠ [] ∧ Forall (capability_ok driver) caps.
Proof.
  unfold validateVolumeCapabilities. case_decide as Hl.
  { apply nil_length_inv in Hl as ->. naive_solver. }
  assert (caps ≠ []) as Hne by (by intros ->).
  assert (validateVolumeCapabilities_loop driver caps = Ok () ↔ Forall (capability_ok driver) caps)
    as ->; [|tauto].
  clear. induction caps as [|c caps IH]; cbn; [by rewrite Forall_nil|].
  rewrite Forall_cons, <-validateVolumeCapability_ok, <-IH.
  destruct (validateVolumeCapability driver c) as [[]|]; naive_solver.
Qed.
