(* ===== verification/Service.v ===== *)
(** * The Lustre service: pkg/cloud_provider/lustre

    [LustreService] is the [Service] interface of lustre.go: the controllers'
    definitions are written against it.  It has the two implementations the
    code has: [lustreServiceManager], on top of the generated REST client, and
    [fakeServiceManager] of fake.go, the in-memory one the driver's tests run
    against. *)
From S2P Require Import Prelude GoStr Regex GoErr Util Instance.

Local Open Scope string_scope.
Local Open Scope list_scope.
Local Open Scope Z_scope.

(** ** Long-running operations (google.golang.org/.../longrunningpb) *)
Record OperationMetadata : Type := MkOperationMetadata {
  Verb : string;
  Target : string;
}.

(** [GetMetadata] is the metadata as [anypb.UnmarshalTo] decodes it into an
    [OperationMetadata]: an error for the metadata of other kinds of operations.
    [GetError] is the code and the message of a failed operation. *)
Record Operation : Type := MkOperation {
  OpName : string;
  GetMetadata : result goerr OperationMetadata;
  GetDone : bool;
  GetError : option (Z * string);
}.

(** ** The [Service] interface *)
Class LustreService (S : Type) : Type := {
  CreateInstance : ServiceInstance → M S goerr ServiceInstance;
  DeleteInstance : ServiceInstance → M S goerr ();
  ResizeInstance : ServiceInstance → M S goerr ServiceInstance;
  UpdateInstance : ServiceInstance → M S goerr ();
  GetInstance : ServiceInstance → M S goerr ServiceInstance;
  ListInstance : ListFilter → M S goerr (list ServiceInstance);
  GetCreateInstanceOp : ServiceInstance → M S goerr (option Operation);
  ListLocations : ListFilter → M S goerr (list string);
  IsOperationInProgress : ServiceInstance → string → M S goerr bool;
}.

(** Two instances with the same identity. *)
Definition same_identity (i j : ServiceInstance) : Prop :=
  Project i = Project j ∧ Location i = Location j ∧ Name i = Name j.

(** What the controllers rely on: reads are repeatable, a created instance is the
    one asked for, and it can be read back. *)
Class LustreServiceLaws (S : Type) `{LustreService S} : Prop := {
  get_repeatable i s j s' :
    GetInstance i s = (Ok j, s') → GetInstance i s' = (Ok j, s');
  get_by_identity i i' s :
    same_identity i i' → GetInstance i s = GetInstance i' s;
  create_as_requested i s j s' :
    identified i → CreateInstance i s = (Ok j, s') →
    same_identity i j ∧ CapacityGib j = CapacityGib i ∧ Network j = Network i ∧
    State j = lustrepb.State_String lustrepb.ACTIVE;
  create_get i s j s' :
    CreateInstance i s = (Ok j, s') → GetInstance i s' = (Ok j, s');
}.

(** ** cloud.go *)
Record Cloud : Type := MkCloud {
  CloudProject : string;
  CloudZone : string;
}.

(** ** The REST client (cloud.google.com/go/lustre/apiv1)

    The calls the manager makes, on the state [S] of the cloud.  A call that
    starts a long-running operation returns its handle; waiting for it is a call
    of its own.  An iterator is the list of what its [Next] returns before it is
    done, or before it fails. *)
Record CreateInstanceRequest : Type := MkCreateInstanceRequest {
  Parent : string;
  InstanceId : string;
  CreateReqInstance : lustrepb.Instance;
}.
Record UpdateInstanceRequest : Type := MkUpdateInstanceRequest {
  UpdateMask : list string;
  UpdateReqInstance : lustrepb.Instance;
}.
Record ListOperationsRequest : Type := MkListOperationsRequest {
  ListOpsName : string;
  ListOpsFilter : string;
}.

Record iterator (A : Type) : Type := MkIterator {
  items : list A;
  iter_err : option goerr;
}.
Arguments MkIterator {A} _ _.
Arguments items {A} _.
Arguments iter_err {A} _.

Class LustreClient (S : Type) : Type := {
  op_handle : Type;
  client_CreateInstance : CreateInstanceRequest → M S goerr op_handle;
  client_DeleteInstance : string → M S goerr op_handle;
  client_UpdateInstance : UpdateInstanceRequest → M S goerr op_handle;
  client_GetInstance : string → M S goerr (option lustrepb.Instance);
  client_ListInstances : string → M S goerr (iterator lustrepb.Instance);
  client_ListLocations : string → M S goerr (iterator string);
  client_ListOperations : ListOperationsRequest → M S goerr (iterator Operation);
  wait_instance : op_handle → M S goerr lustrepb.Instance;
  wait_empty : op_handle → M S goerr ();
}.

(** Documented behaviour of the API: reading an instance is repeatable; a creation
    that completes yields an active instance with the requested parent, ID,
    capacity and network, which can then be read by its name. *)
Class LustreClientLaws (S : Type) `{LustreClient S} : Prop := {
  client_get_repeatable n s r s' :
    client_GetInstance n s = (Ok r, s') → client_GetInstance n s' = (Ok r, s');
  client_create_as_requested req s op s1 r s2 :
    client_CreateInstance req s = (Ok op, s1) → wait_instance op s1 = (Ok r, s2) →
    lustrepb.Name r = Parent req +:+ "/instances/" +:+ InstanceId req ∧
    lustrepb.CapacityGib r = lustrepb.CapacityGib (CreateReqInstance req) ∧
    lustrepb.Network r = lustrepb.Network (CreateReqInstance req) ∧
    lustrepb.State r = lustrepb.ACTIVE ∧
    client_GetInstance (lustrepb.Name r) s2 = (Ok (Some r), s2);
}.

(** ** [lustreServiceManager] *)
Module Manager.

(** Endpoint URLs and names. *)
Definition endpointMap : gmap string string :=
  list_to_map [("autopush", "autopush-lustre.sandbox.googleapis.com");
               ("staging", "staging-lustre.sandbox.googleapis.com");
               ("prod", "lustre.googleapis.com")].

(** [NewLustreService] up to the construction of the client: the address. *)
Definition service_address (endpoint : string) : result goerr string :=
  match endpointMap !! endpoint with
  | None => Err (ErrText ("invalid lustre API endpoint " +:+ quote endpoint +:+
                          ". Supported endpoints are autopush, staging, or prod"))
  | Some address => Ok address
  end.

Definition parent (project location : string) : string :=
  "projects/" +:+ project +:+ "/locations/" +:+ location.

(** An API instance with the given name, labels and capacity only. *)
Definition partial_instance (name : string) (labels : gmap string string) (capacity : Z)
    : lustrepb.Instance :=
  lustrepb.MkInstance name "" "" lustrepb.STATE_UNSPECIFIED labels capacity "" false 0 "".

Definition create_request (instance : ServiceInstance) : CreateInstanceRequest :=
  {| Parent := parent (Project instance) (Location instance);
     InstanceId := Name instance;
     CreateReqInstance :=
       {| lustrepb.Name := "";
          lustrepb.State := lustrepb.STATE_UNSPECIFIED;
          lustrepb.MountPoint := "";
          lustrepb.Network := Network instance;
          lustrepb.Description := Description instance;
          lustrepb.Labels := Labels instance;
          lustrepb.CapacityGib := CapacityGib instance;
          lustrepb.Filesystem := Filesystem instance;
          lustrepb.GkeSupportEnabled := GkeSupportEnabled instance;
          lustrepb.PerUnitStorageThroughput := PerUnitStorageThroughput instance |} |}.

Definition operations_request (instance : ServiceInstance) : ListOperationsRequest :=
  {| ListOpsName := parent (Project instance) (Location instance);
     ListOpsFilter := "metadata.apiVersion=" +:+ dquote +:+ "v1" +:+ dquote |}.

(** The loop of [ListInstance]. *)
Fixpoint convert_all (instances : list lustrepb.Instance) : result goerr (list ServiceInstance) :=
  match instances with
  | [] => Ok []
  | i :: rest =>
      match cloudInstanceToServiceInstance i with
      | Err e => Err e
      | Ok si => si' ← convert_all rest; Ok (si :: si')
      end
  end.

(** The loop of [GetCreateInstanceOp]: the first creation of the instance. *)
Fixpoint find_create_op (instance : ServiceInstance) (ops : list Operation) : option Operation :=
  match ops with
  | [] => None
  | op :: rest =>
      match GetMetadata op with
      | Err _ => find_create_op instance rest
      | Ok metaData =>
          if decide (to_lower (Verb metaData) = "create" ∧
                     Target metaData = instanceFullName instance)
          then Some op
          else find_create_op instance rest
      end
  end.

(** The loop of [IsOperationInProgress]. *)
Fixpoint find_in_progress (instance : ServiceInstance) (verb : string) (ops : list Operation) : bool :=
  match ops with
  | [] => false
  | op :: rest =>
      match GetMetadata op with
      | Err _ => find_in_progress instance verb rest
      | Ok metaData =>
          if bool_decide (Target metaData = instanceFullName instance)
             && equal_fold (Verb metaData) verb && negb (GetDone op)
          then true
          else find_in_progress instance verb rest
      end
  end.

Section manager.
Context {S : Type} `{LustreClient S}.

Definition CreateInstance (instance : ServiceInstance) : M S goerr ServiceInstance :=
  op ← client_CreateInstance (create_request instance);
  resp ← wait_instance op;
  lift (cloudInstanceToServiceInstance resp).

Definition DeleteInstance (instance : ServiceInstance) : M S goerr () :=
  let instanceFullName := instanceFullName instance in
  r ← attempt (client_DeleteInstance instanceFullName);
  match r with
  | Err err =>
      if LustreErr.IsNotFoundErr err then mret ()
      else fail (ErrWrap ("failed to delete lustre instance " +:+ quote instanceFullName +:+
                          ": " +:+ error_text err) err)
  | Ok op => wait_empty op
  end.

Definition ListInstance (filter : ListFilter) : M S goerr (list ServiceInstance) :=
  it ← client_ListInstances (parent (FilterProject filter) (FilterLocation filter));
  instances ← lift (convert_all (items it));
  match iter_err it with
  | Some err => fail (ErrWrap ("ListInstances failed for request: " +:+ error_text err) err)
  | None => mret instances
  end.

Definition ListLocations (filter : ListFilter) : M S goerr (list string) :=
  it ← client_ListLocations ("projects/" +:+ FilterProject filter);
  match iter_err it with
  | Some err => fail (ErrWrap ("ListLocations failed for request: " +:+ error_text err) err)
  | None => mret (items it)
  end.

Definition GetInstance (instance : ServiceInstance) : M S goerr ServiceInstance :=
  let instanceFullName := instanceFullName instance in
  resp ← client_GetInstance instanceFullName;
  match resp with
  | Some resp => lift (cloudInstanceToServiceInstance resp)
  | None => fail (ErrText ("failed to get instance " +:+ quote instanceFullName +:+ ": empty response"))
  end.

Definition GetCreateInstanceOp (instance : ServiceInstance) : M S goerr (option Operation) :=
  it ← client_ListOperations (operations_request instance);
  match find_create_op instance (items it) with
  | Some op => mret (Some op)
  | None =>
      match iter_err it with
      | Some err => fail (ErrWrap ("ListOperations failed for request: " +:+ error_text err) err)
      | None => mret None
      end
  end.

Definition IsOperationInProgress (instance : ServiceInstance) (verb : string) : M S goerr bool :=
  it ← client_ListOperations (operations_request instance);
  if find_in_progress instance verb (items it) then mret true
  else
    match iter_err it with
    | Some err => fail (ErrWrap ("ListOperations failed for request: " +:+ error_text err) err)
    | None => mret false
    end.

Definition UpdateInstance (instance : ServiceInstance) : M S goerr () :=
  op ← client_UpdateInstance
         {| UpdateMask := ["labels"];
            UpdateReqInstance := partial_instance (instanceFullName instance) (Labels instance) 0 |};
  _ ← wait_instance op;
  mret ().

Definition ResizeInstance (instance : ServiceInstance) : M S goerr ServiceInstance :=
  op ← client_UpdateInstance
         {| UpdateMask := ["capacity_gib"];
            UpdateReqInstance := partial_instance (instanceFullName instance) ∅ (CapacityGib instance) |};
  resp ← wait_instance op;
  lift (cloudInstanceToServiceInstance resp).

Definition service : LustreService S := {|
  Service.CreateInstance := CreateInstance;
  Service.DeleteInstance := DeleteInstance;
  Service.ResizeInstance := ResizeInstance;
  Service.UpdateInstance := UpdateInstance;
  Service.GetInstance := GetInstance;
  Service.ListInstance := ListInstance;
  Service.GetCreateInstanceOp := GetCreateInstanceOp;
  Service.ListLocations := ListLocations;
  Service.IsOperationInProgress := IsOperationInProgress;
|}.
End manager.
End Manager.

(** ** [fakeServiceManager] (fake.go)

    The state is the map of the created instances, by name.  [GetInstance] and
    [CreateInstance] hand out the stored pointers; the callers that write
    through one ([ControllerExpandVolume], [Reconcile]) store the same object
    back at once with [ResizeInstance] or [UpdateInstance]. *)
Module Fake.
Definition activeState := "ACTIVE".
Definition creatingState := "CREATING".
Definition unknownState := "STATE_UNSPECIFIED".
Definition defaultIP := "127.0.0.1".
Definition project := "test-project".
Definition zone := "us-central1-a".
Definition network := "projects/test-project/global/networks/default".
Definition minCapGiB : Z := 9000.

Abbreviation t := (gmap string ServiceInstance).

(** [&googleapi.Error{Code: 404}] *)
Definition not_found : goerr :=
  ErrGoogle 404 "googleapi: got HTTP response code 404 with body: " None.

Definition CreateInstance (obj : ServiceInstance) : M t goerr ServiceInstance := λ sm,
  let instance :=
    {| Project := Project obj;
       Location := Location obj;
       Name := Name obj;
       Filesystem := Filesystem obj;
       Network := Network obj;
       IP := defaultIP;
       Description := Description obj;
       State := activeState;
       Labels := Labels obj;
       CapacityGib := CapacityGib obj;
       GkeSupportEnabled := false;
       PerUnitStorageThroughput := PerUnitStorageThroughput obj;
       MountPoint := MountPoint obj |} in
  (Ok instance, <[Name obj := instance]> sm).

Definition ResizeInstance (obj : ServiceInstance) : M t goerr ServiceInstance := λ sm,
  match sm !! Name obj with
  | None => (Err not_found, sm)
  | Some instance =>
      let instance := set_CapacityGib (CapacityGib obj) instance in
      (Ok instance, <[Name obj := instance]> sm)
  end.

Definition UpdateInstance (obj : ServiceInstance) : M t goerr () := λ sm,
  match sm !! Name obj with
  | None => (Err not_found, sm)
  | Some instance => (Ok (), <[Name obj := set_Labels (Labels obj) instance]> sm)
  end.

Definition DeleteInstance (_ : ServiceInstance) : M t goerr () := mret ().

Definition GetInstance (obj : ServiceInstance) : M t goerr ServiceInstance := λ sm,
  match sm !! Name obj with
  | Some instance => (Ok instance, sm)
  | None => (Err not_found, sm)
  end.

Definition ListInstance (_ : ListFilter) : M t goerr (list ServiceInstance) := λ sm,
  (Ok (map_to_list sm).*2, sm).

Definition GetCreateInstanceOp (_ : ServiceInstance) : M t goerr (option Operation) := mret None.

Definition ListLocations (_ : ListFilter) : M t goerr (list string) := mret [].

Definition IsOperationInProgress (instance : ServiceInstance) (verb : string) : M t goerr bool :=
  if decide (Name instance = "updating-instance" ∧ verb = "update") then mret true
  else mret false.

Definition service : LustreService t := {|
  Service.CreateInstance := CreateInstance;
  Service.DeleteInstance := DeleteInstance;
  Service.ResizeInstance := ResizeInstance;
  Service.UpdateInstance := UpdateInstance;
  Service.GetInstance := GetInstance;
  Service.ListInstance := ListInstance;
  Service.GetCreateInstanceOp := GetCreateInstanceOp;
  Service.ListLocations := ListLocations;
  Service.IsOperationInProgress := IsOperationInProgress;
|}.

Definition existing (name fs ip state : string) : ServiceInstance :=
  {| Project := project; Location := zone; Name := name; Filesystem := fs;
     Network := network; IP := ip; Description := ""; State := state; Labels := ∅;
     CapacityGib := minCapGiB; GkeSupportEnabled := false;
     PerUnitStorageThroughput := 1000; MountPoint := ip +:+ "@tcp:/" +:+ fs |}.

Definition existingInstances : t :=
  list_to_map
    [("existing-instance", existing "existing-instance" "existing" "192.168.1.1" activeState);
     ("creating-instance", existing "creating-instance" "creating" "192.168.1.2" creatingState);
     ("unknown-instance", existing "unknown-instance" "unknown" "192.168.1.3" unknownState);
     ("updating-instance", existing "updating-instance" "updating" "192.168.1.4" activeState)].

Definition NewFakeCloud : t * Cloud :=
  (existingInstances, {| CloudProject := project; CloudZone := zone |}).

#[export] Instance laws : @LustreServiceLaws t service.
Proof.
  constructor; cbn; unfold GetInstance, CreateInstance.
  - intros i s j s'. destruct (s !! Name i) eqn:E; [|done]. intros [= <- <-]. by rewrite E.
  - intros i i' s (_ & _ & ->). done.
  - intros i s j s' _ [= <- <-]. done.
  - intros i s j s' [= <- <-]. by rewrite lookup_insert_eq.
Qed.
End Fake.

(** ** Lemmas about the manager *)

Lemma find_create_op_spec instance ops op :
  Manager.find_create_op instance ops = Some op ↔
  ∃ ops1 ops2 md, ops = ops1 ++ op :: ops2 ∧
    GetMetadata op = Ok md ∧ to_lower (Verb md) = "create" ∧ Target md = instanceFullName instance ∧
    Forall (λ o, ¬ ∃ md, GetMetadata o = Ok md ∧ to_lower (Verb md) = "create" ∧
                         Target md = instanceFullName instance) ops1.
Proof.
  induction ops as [|o ops IH]; cbn.
  { split; [done|]. intros ([|? ?] & ? & ? & ? & _); discriminate. }
  assert (Manager.find_create_op instance (o :: ops) = Some op ↔
    (∃ md, o = op ∧ GetMetadata o = Ok md ∧ to_lower (Verb md) = "create" ∧
           Target md = instanceFullName instance) ∨
    (¬ ∃ md, GetMetadata o = Ok md ∧ to_lower (Verb md) = "create" ∧
             Target md = instanceFullName instance) ∧
    Manager.find_create_op instance ops = Some op) as ->.
  { cbn. destruct (GetMetadata o) as [md|] eqn:E; [case_decide|]; naive_solver. }
  rewrite IH. split.
  - intros [(md & -> & ?)|(Hn & ops1 & ops2 & md & -> & ?)].
    + exists [], ops, md. naive_solver.
    + exists (o :: ops1), ops2, md. rewrite Forall_cons. naive_solver.
  - intros ([|o' ops1] & ops2 & md & Heq & Hmd & Hv & Ht & Hf); injection Heq as -> ->.
    + left. eauto.
    + inversion_clear Hf as [|? ? Hn Hf']. right. split; [exact Hn|].
      exists ops1, ops2, md. done.
Qed.

Lemma find_in_progress_spec instance verb ops :
  Manager.find_in_progress instance verb ops = true ↔
  ∃ op md, op ∈ ops ∧ GetMetadata op = Ok md ∧ Target md = instanceFullName instance ∧
    to_lower (Verb md) = to_lower verb ∧ GetDone op = false.
Proof.
  induction ops as [|o ops IH]; cbn.
  { split; [done|]. intros (? & ? & []%elem_of_nil & _). }
  setoid_rewrite elem_of_cons. unfold equal_fold.
  destruct (GetMetadata o) as [md|] eqn:E.
  - destruct (bool_decide _ && bool_decide _ && negb _) eqn:Eb.
    + rewrite !andb_true_iff, !bool_decide_eq_true, negb_true_iff in Eb.
      destruct Eb as [[? ?] ?]. split; [intros _; exists o, md; auto|done].
    + rewrite IH. split; [intros (op & md' & ? & ?); eauto|].
      intros (op & md' & [->|Hin] & Hmd & Ht & Hv & Hd); [|eauto 10].
      rewrite E in Hmd. injection Hmd as <-. exfalso.
      rewrite !bool_decide_true in Eb by done. by rewrite Hd in Eb.
  - rewrite IH. split; [intros (op & md' & ? & ?); eauto|].
    intros (op & md' & [->|Hin] & Hmd & ?); [congruence|eauto].
Qed.

Lemma instanceFullName_inj i j :
  identified i → name_part (Project j) → name_part (Location j) → name_part (Name j) →
  instanceFullName i = instanceFullName j → same_identity i j.
Proof.
  intros (Hp & Hl & Hn) Hp' Hl' Hn' E.
  assert (parseInstanceFullName (instanceFullName i) = Ok (Project i, Location i, Name i)) as H1.
  { apply parseInstanceFullName_spec. auto using id_part_name_part. }
  assert (parseInstanceFullName (instanceFullName j) = Ok (Project j, Location j, Name j)) as H2.
  { by apply parseInstanceFullName_spec. }
  rewrite E, H2 in H1. injection H1. unfold same_identity. auto.
Qed.

Lemma cloudInstance_ok r j :
  cloudInstanceToServiceInstance r = Ok j →
  name_part (Project j) ∧ name_part (Location j) ∧ name_part (Name j) ∧
  lustrepb.Name r = instanceFullName j ∧ CapacityGib j = lustrepb.CapacityGib r ∧
  Network j = lustrepb.Network r ∧ State j = lustrepb.State_String (lustrepb.State r).
Proof.
  unfold cloudInstanceToServiceInstance. rewrite bind_ok. intros ([[p l] n] & Hp & H).
  apply bind_ok in H as (ip & _ & [= <-]).
  apply parseInstanceFullName_spec in Hp as (? & ? & ? & ->). done.
Qed.

#[export] Instance manager_laws {S} `{LustreClientLaws S} : @LustreServiceLaws S Manager.service.
Proof.
  constructor; cbn; unfold Manager.GetInstance, Manager.CreateInstance.
  - intros i s j s'. rewrite !bind_unfold.
    destruct (client_GetInstance _ s) as [[r|] s1] eqn:E; [|done].
    intros Hr. assert (s1 = s') as <- by (unfold lift, fail in Hr; destruct r; congruence).
    rewrite (client_get_repeatable _ _ _ _ E). done.
  - intros i i' s (E1 & E2 & E3).
    assert (instanceFullName i = instanceFullName i') as ->; [|done].
    unfold instanceFullName. by rewrite E1, E2, E3.
  - intros i s j s' Hi. rewrite bind_unfold.
    destruct (client_CreateInstance _ s) as [[op|] s1] eqn:E1; [|done]. rewrite bind_unfold.
    destruct (wait_instance op s1) as [[r|] s2] eqn:E2; [|done].
    intros [= Hj <-].
    destruct (client_create_as_requested _ _ _ _ _ _ E1 E2) as (Hn & Hc & Hw & Hs & _).
    apply cloudInstance_ok in Hj as (? & ? & ? & Hn' & -> & -> & ->).
    rewrite Hc, Hw, Hs. split_and!; [|done..]. apply instanceFullName_inj; [done..|].
    rewrite <-Hn', Hn. cbn. unfold instanceFullName, Manager.parent. by rewrite <-!app_assoc_str.
  - intros i s j s'. rewrite bind_unfold.
    destruct (client_CreateInstance _ s) as [[op|] s1] eqn:E1; [|done]. rewrite bind_unfold.
    destruct (wait_instance op s1) as [[r|] s2] eqn:E2; [|done]. intros [= Hj <-].
    destruct (client_create_as_requested _ _ _ _ _ _ E1 E2) as (Hn & _ & _ & _ & Hg).
    assert (lustrepb.Name r = instanceFullName i) as Hi.
    { rewrite Hn. cbn. unfold instanceFullName, Manager.parent. by rewrite <-!app_assoc_str. }
    rewrite bind_unfold, <-Hi, Hg. cbn. unfold lift. by rewrite Hj.
Qed.
