(* ===== verification/Controller.v ===== *)
(** * The controller server: pkg/csi_driver/controller.go

    Volume provisioning.  The server's state is its set of volume locks, the
    Lustre service it calls, and the random source it draws filesystem names
    from; every handler is a computation over that state. *)
From S2P Require Import Prelude GoStr Regex GoErr Util Instance Params Csi Driver Service.

Local Open Scope string_scope.
Local Open Scope list_scope.
Local Open Scope Z_scope.

(** ** Constants *)
Definition tagKeyCreatedForClaimNamespace := "kubernetes_io_created-for_pvc_namespace".
Definition tagKeyCreatedForClaimName := "kubernetes_io_created-for_pvc_name".
Definition tagKeyCreatedForVolumeName := "kubernetes_io_created-for_pv_name".
Definition tagKeyCreatedBy := "storage_gke_io_created-by".

Definition MinVolumeSizeBytes : Z := 9000 * Gib.
Definition defaultNetwork := "default".
Definition fsnamePrefix := "lfs".

(** ** Capacity *)
Definition getRequestCapacity (capRange : option CapacityRange) : result goerr Z :=
  match capRange with
  | None => Ok MinVolumeSizeBytes
  | Some capRange =>
      let rBytes := RequiredBytes capRange in
      let rSet := bool_decide (rBytes > 0) in
      let lBytes := LimitBytes capRange in
      let lSet := bool_decide (lBytes > 0) in
      if lSet && rSet && bool_decide (lBytes < rBytes) then
        Err (ErrText ("limit bytes " +:+ itoa lBytes +:+ " is less than required bytes " +:+ itoa rBytes))
      else if lSet && bool_decide (lBytes < MinVolumeSizeBytes) then
        Err (ErrText ("limit bytes " +:+ itoa lBytes +:+ " is less than minimum volume size: " +:+ itoa MinVolumeSizeBytes))
      else if rSet then Ok rBytes
      else Ok MinVolumeSizeBytes
  end.

(** The size in bytes of an instance, in an [int64]. *)
Definition size_bytes (i : ServiceInstance) : Z := i64 (CapacityGib i * Gib).

(** ** Topology *)
Section topology.
Context `{MapRange}.

(** The loop of [getZoneFromSegment]: the zone found, or the unknown key. *)
Fixpoint segment_loop (zone : string) (seg : list (string * string)) : result goerr string :=
  match seg with
  | [] => Ok zone
  | (k, v) :: seg' =>
      if decide (k = TopologyKeyZone) then segment_loop v seg'
      else Err (ErrText ("topology segment has unknown key " +:+ k))
  end.

Definition getZoneFromSegment (seg : gmap string string) : result goerr string :=
  zone ← segment_loop "" (range seg);
  if decide (slen zone = 0) then
    Err (ErrText ("topology specified but could not find zone in segment: " +:+ fmt_map seg))
  else Ok zone.

Fixpoint getZonesFromTopology (topList : list Topology) : result goerr (list string) :=
  match topList with
  | [] => Ok []
  | top :: topList' =>
      match GetSegments top with
      | None => Err (ErrText "topologies specified but no segments")
      | Some seg =>
          match getZoneFromSegment seg with
          | Err err => Err (ErrWrap ("could not get zone from topology: " +:+ error_text err) err)
          | Ok zone => zones ← getZonesFromTopology topList'; Ok (zone :: zones)
          end
      end
  end.

Definition pickZoneFromTopology (top : TopologyRequirement) : result goerr string :=
  match getZonesFromTopology (Requisite top) with
  | Err err => Err (ErrWrap ("could not get zones from requisite topology: " +:+ error_text err) err)
  | Ok reqZones =>
      match getZonesFromTopology (Preferred top) with
      | Err err => Err (ErrWrap ("could not get zones from preferred topology: " +:+ error_text err) err)
      | Ok prefZones =>
          match prefZones, reqZones with
          | [], [] => Err (ErrText "both requisite and preferred topology list empty")
          | z :: _, _ => Ok z
          | [], z :: _ => Ok z
          end
      end
  end.

Definition pickZone (cloud : Cloud) (top : option TopologyRequirement) : result goerr string :=
  match top with
  | None => Ok (CloudZone cloud)
  | Some top => pickZoneFromTopology top
  end.
End topology.

(** ** The new instance *)

(** [projects/([^/]+)/global/networks/([^/]+)] *)
Definition networkFullNamePattern : regex :=
  RSeq (RLit "projects/") (RSeq (RGroup 1 (RPlus (RClass not_slash)))
  (RSeq (RLit "/global/networks/") (RGroup 2 (RPlus (RClass not_slash))))).

Definition alnum (a : ascii) : bool := is_lower a || is_digit a.
Definition alnum_dash (a : ascii) : bool := bool_decide (a = "-"%char) || alnum a.

(** [^[a-z]([-a-z0-9]*[a-z0-9])?$] *)
Definition networkNamePattern : regex :=
  RAnchored (RSeq (RClass is_lower)
    (ROpt (RGroup 1 (RSeq (RStar (RClass alnum_dash)) (RClass alnum))))).

Definition network_name (project network : string) : string :=
  "projects/" +:+ project +:+ "/global/networks/" +:+ network.

Definition networkFullName (project : string) (params : gmap string string) : string :=
  match params !! keyNetwork with
  | None => network_name project defaultNetwork
  | Some v =>
      if match_string networkFullNamePattern v then v
      else if match_string networkNamePattern v then network_name project v
      else network_name project defaultNetwork
  end.

Definition description (params : gmap string string) : string :=
  match params !! keyDescription with
  | None => ""
  | Some v => if decide (slen v > 2048) then str_take 2048 v else v
  end.

Definition perUnitStorageThroughput (params : gmap string string) : result goerr Z :=
  match params !! keyPerUnitStorageThroughput with
  | None => Err (ErrText "parameter 'perUnitStorageThroughput' is required; supported values are 1000, 500, 250, or 125")
  | Some v =>
      if decide (v ≠ "1000" ∧ v ≠ "500" ∧ v ≠ "250" ∧ v ≠ "125") then
        Err (ErrText ("invalid perUnitStorageThroughput " +:+ v +:+ ", must be 1000, 500, 250 or 125"))
      else
        match atoi v with
        | None => Err (ErrText ("failed to parse perUnitStorageThroughput " +:+ v))
        | Some n => Ok n
        end
  end.

Definition prepareNewInstance `{MapRange} (driver : LustreDriver) (cloud : Cloud)
    (name : string) (capBytes : Z) (params : gmap string string)
    (top : option TopologyRequirement) : result goerr ServiceInstance :=
  match pickZone cloud top with
  | Err err => Err (ErrWrap ("invalid topology: " +:+ error_text err) err)
  | Ok location =>
      throughput ← perUnitStorageThroughput params;
      Ok {| Name := name;
            Project := CloudProject cloud;
            Location := location;
            CapacityGib := Z.quot capBytes Gib;
            Network := networkFullName (CloudProject cloud) params;
            GkeSupportEnabled := EnableLegacyLustrePort (config driver);
            Description := description params;
            Filesystem := default "" (params !! keyFilesystem);
            PerUnitStorageThroughput := throughput;
            IP := ""; State := ""; Labels := ∅; MountPoint := "" |}
  end.

(** ** Labels *)
Section labels.
Context `{MapRange}.

Fixpoint mergeLabels_loop (scLabels : list (string * string)) (result : gmap string string)
    : Prelude.result goerr (gmap string string) :=
  match scLabels with
  | [] => Ok result
  | (k, v) :: scLabels' =>
      if decide (is_Some (result !! k)) then
        Err (ErrText ("StorageClass labels cannot contain metadata label key " +:+ k))
      else mergeLabels_loop scLabels' (<[k := v]> result)
  end.

Definition mergeLabels (scLabels metadataLabels : gmap string string)
    : result goerr (gmap string string) :=
  mergeLabels_loop (range scLabels) (foldl (λ m p, <[p.1 := p.2]> m) ∅ (range metadataLabels)).

(** The loop of [extractLabels] over the parameters. *)
Fixpoint extractLabels_loop (parameters : list (string * string))
    (labels scLabels : gmap string string)
    : result goerr (gmap string string * gmap string string) :=
  match parameters with
  | [] => Ok (labels, scLabels)
  | (k, v) :: parameters' =>
      let k := to_lower k in
      if decide (k = keyPVCName) then
        extractLabels_loop parameters' (<[tagKeyCreatedForClaimName := v]> labels) scLabels
      else if decide (k = keyPVCNamespace) then
        extractLabels_loop parameters' (<[tagKeyCreatedForClaimNamespace := v]> labels) scLabels
      else if decide (k = keyPVName) then
        extractLabels_loop parameters' (<[tagKeyCreatedForVolumeName := v]> labels) scLabels
      else if decide (k = keyLabels) then
        match ConvertLabelsStringToMap v with
        | Err err =>
            Err (ErrWrap ("parameters contain invalid labels parameter: " +:+ error_text err) err)
        | Ok m => extractLabels_loop parameters' labels m
        end
      else extractLabels_loop parameters' labels scLabels
  end.

Definition extractLabels (parameters : gmap string string) (driverName : string)
    : result goerr (gmap string string) :=
  '(labels, scLabels) ← extractLabels_loop (range parameters) ∅ ∅;
  let labels := <[tagKeyCreatedBy := replace_char "." "_" driverName]> labels in
  mergeLabels scLabels labels.
End labels.

(** ** Filesystem names *)

Definition filterZonesByRegion (locations : list string) (region : string) : list string :=
  omap (λ location,
    match GetRegionFromZone location with
    | Err _ => None
    | Ok zoneRegion => if decide (zoneRegion = region) then Some location else None
    end) locations.

(** [rand.Reader] is the list of the numbers it has to give before it fails;
    [rand.Int] with bound 10 reduces one below 10. *)
Definition rand_Int10 (reader : list Z) : result goerr Z * list Z :=
  match reader with
  | [] => (Err (ErrText "EOF"), [])
  | n :: reader' => (Ok (n `mod` 10), reader')
  end.

Definition digit_char (n : Z) : ascii := ascii_of_N (48 + Z.to_N n).

(** The loop of [generateRandomID] with [n] characters left. *)
Fixpoint random_digits (n : nat) (reader : list Z) : result goerr string * list Z :=
  match n with
  | O => (Ok "", reader)
  | S n' =>
      match rand_Int10 reader with
      | (Err err, reader') => (Err err, reader')
      | (Ok charIndex, reader') =>
          match random_digits n' reader' with
          | (Err err, reader'') => (Err err, reader'')
          | (Ok id, reader'') => (Ok (String (digit_char charIndex) id), reader'')
          end
      end
  end.

Definition generateRandomID (reader : list Z) : result goerr string * list Z :=
  match random_digits 5 reader with
  | (Err err, reader') => (Err err, reader')
  | (Ok id, reader') => (Ok (fsnamePrefix +:+ id), reader')
  end.

(** The loop of [generateUniqueFilesystemName].  Every round consumes five
    numbers, so one more round than there are numbers is enough fuel. *)
Fixpoint unique_loop (fuel : nat) (existingFSNames : gset string) (reader : list Z)
    : result goerr string * list Z :=
  match fuel with
  | O => (Err (ErrText "EOF"), reader)
  | S fuel' =>
      match generateRandomID reader with
      | (Err err, reader') =>
          (Err (ErrWrap ("failed to generate random lustre fsname: " +:+ error_text err) err), reader')
      | (Ok id, reader') =>
          if decide (id ∉ existingFSNames) then (Ok id, reader')
          else unique_loop fuel' existingFSNames reader'
      end
  end.

(** ** The server *)

Record controllerState (S : Type) : Type := MkControllerState {
  volumeLocks : gset string;
  service : S;
  reader : list Z;
}.
Arguments MkControllerState {S} _ _ _.
Arguments volumeLocks {S} _.
Arguments service {S} _.
Arguments reader {S} _.

Record CreateVolumeRequest : Type := MkCreateVolumeRequest {
  ReqName : string;
  ReqCapacityRange : option CapacityRange;
  ReqVolumeCapabilities : list (option VolumeCapability);
  ReqParameters : gmap string string;
  ReqAccessibility : option TopologyRequirement;
}.

Record ValidateVolumeCapabilitiesRequest : Type := MkValidateRequest {
  ValVolumeId : string;
  ValVolumeContext : gmap string string;
  ValVolumeCapabilities : list (option VolumeCapability);
  ValParameters : gmap string string;
}.

(** The confirmation: the context, capabilities and parameters that hold. *)
Record ValidateVolumeCapabilitiesResponse : Type := MkValidateResponse {
  ConfirmedContext : gmap string string;
  ConfirmedCapabilities : list (option VolumeCapability);
  ConfirmedParameters : gmap string string;
}.

Record ControllerExpandVolumeRequest : Type := MkExpandRequest {
  ExpVolumeId : string;
  ExpCapacityRange : option CapacityRange;
}.

Record ControllerExpandVolumeResponse : Type := MkExpandResponse {
  ExpCapacityBytes : Z;
  NodeExpansionRequired : bool;
}.

Definition instanceToCSIVolume (instance : ServiceInstance) : Volume :=
  {| VolumeId := instanceToVolumeID instance;
     CapacityBytes := size_bytes instance;
     VolumeContext := <[keyInstanceIP := IP instance]> {[keyFilesystem := Filesystem instance]} |}.

(** Returning from a handler with a gRPC status.  [status.Error] gives a nil
    error for [codes.OK]; the response is nil then too. *)
Definition return_err {S A} (err : option goerr) : M S goerr (option A) :=
  match err with Some e => fail e | None => mret None end.
Definition return_status {S A} (c : grpc_code) (msg : string) : M S goerr (option A) :=
  return_err (status_error c msg).

Section controller.
Context {S : Type} `{LustreService S} `{MapRange}.
Context (driver : LustreDriver) (cloud : Cloud).

Abbreviation handler A := (M (controllerState S) goerr A).

(** A call of the service. *)
Definition call {A} (m : M S goerr A) : handler A := λ s,
  let '(r, svc) := m (service s) in (r, MkControllerState (volumeLocks s) svc (reader s)).

Definition TryAcquire (key : string) : handler bool := λ s,
  let '(acquired, locks) := VolumeLocks.TryAcquire key (volumeLocks s) in
  (Ok acquired, MkControllerState locks (service s) (reader s)).

(** [m], and then, whatever came of it, the deferred [Release]. *)
Definition defer_Release {A} (key : string) (m : handler A) : handler A := λ s,
  let '(r, s') := m s in
  (r, MkControllerState (VolumeLocks.Release key (volumeLocks s')) (service s') (reader s')).

(** The guard every handler starts its critical part with. *)
Definition with_lock {A} (key : string) (m : handler (option A)) : handler (option A) :=
  acquired ← TryAcquire key;
  if negb acquired then return_status Aborted (VolumeOperationAlreadyExistsFmt key)
  else defer_Release key m.

(** The names of the filesystems in some zones. *)
Fixpoint existing_names (project : string) (targetZones : list string) (names : gset string)
    : handler (gset string) :=
  match targetZones with
  | [] => mret names
  | zone :: targetZones' =>
      instances ← call (ListInstance (MkListFilter project zone));
      existing_names project targetZones'
        (foldl (λ names inst, {[Filesystem inst]} ∪ names) names instances)
  end.

(** The final loop, on the server's random source. *)
Definition draw_name (existingFSNames : gset string) : handler string := λ s,
  let '(r, reader') := unique_loop (Datatypes.S (length (reader s))) existingFSNames (reader s) in
  (r, MkControllerState (volumeLocks s) (service s) reader').

Definition generateUniqueFilesystemName (instance : ServiceInstance) : handler string :=
  if decide (Filesystem instance ≠ "") then mret (Filesystem instance) else
  targetRegion ← lift (GetRegionFromZone (Location instance));
  allLocations ← call (ListLocations (MkListFilter (Project instance) ""));
  let targetZones := filterZonesByRegion allLocations targetRegion in
  existingFSNames ← existing_names (Project instance) targetZones ∅;
  draw_name existingFSNames.

Definition not_ready (volumeName : string) (instance : ServiceInstance) : string :=
  "Volume " +:+ volumeName +:+ " not ready, current state: " +:+ State instance.

(** The two branches of [CreateVolume] under the lock. *)
Definition create_existing (volumeName : string) (newInstance instance : ServiceInstance)
    : handler (option Volume) :=
  match CompareInstances newInstance instance with
  | Some err => return_status AlreadyExists (error_text err)
  | None =>
      if decide (State instance = lustrepb.State_String lustrepb.CREATING) then
        return_status DeadlineExceeded (not_ready volumeName instance)
      else if decide (State instance ≠ lustrepb.State_String lustrepb.ACTIVE) then
        return_status Unavailable (not_ready volumeName instance)
      else mret (Some (instanceToCSIVolume instance))
  end.

Definition create_new (params : gmap string string) (newInstance : ServiceInstance)
    : handler (option Volume) :=
  op ← attempt (call (GetCreateInstanceOp newInstance));
  match op with
  | Err err => return_err (LustreErr.StatusError (Some err))
  | Ok op =>
      match op ≫= GetError with
      | Some (code, message) => return_status (code_of_int32 code) message
      | None =>
          match extractLabels params (ConfigName (config driver)) with
          | Err err => return_status InvalidArgument (error_text err)
          | Ok labels =>
              let newInstance := set_Labels labels newInstance in
              fsname ← attempt (generateUniqueFilesystemName newInstance);
              match fsname with
              | Err err => return_err (LustreErr.StatusError (Some err))
              | Ok fsname =>
                  let newInstance := set_Filesystem fsname newInstance in
                  instance ← attempt (call (CreateInstance newInstance));
                  match instance with
                  | Err err => return_err (LustreErr.StatusError (Some err))
                  | Ok instance => mret (Some (instanceToCSIVolume instance))
                  end
              end
          end
      end
  end.

(** What [CreateVolume] computes before it takes the lock. *)
Definition create_args (req : CreateVolumeRequest)
    : result goerr (string * gmap string string * ServiceInstance) :=
  let volumeName := to_lower (ReqName req) in
  if decide (slen volumeName = 0) then Err (ErrText "CreateVolume name must be provided") else
  _ ← validateVolumeCapabilities driver (ReqVolumeCapabilities req);
  capBytes ← getRequestCapacity (ReqCapacityRange req);
  params ← normalizeParams (ReqParameters req);
  newInstance ← prepareNewInstance driver cloud volumeName capBytes params (ReqAccessibility req);
  Ok (volumeName, params, newInstance).

Definition CreateVolume (req : CreateVolumeRequest) : handler (option Volume) :=
  match create_args req with
  | Err err => return_status InvalidArgument (error_text err)
  | Ok (volumeName, params, newInstance) =>
      with_lock volumeName (
        r ← attempt (call (GetInstance newInstance));
        match r with
        | Ok instance => create_existing volumeName newInstance instance
        | Err err =>
            if negb (LustreErr.IsNotFoundErr err) then return_err (LustreErr.StatusError (Some err))
            else create_new params newInstance
        end)
  end.

Definition DeleteVolume (volumeID : string) : handler (option ()) :=
  if decide (slen volumeID = 0) then
    return_status InvalidArgument "DeleteVolume volumeID must be provided" else
  match volumeIDToInstance volumeID with
  | Err _ => mret (Some ())
  | Ok instance =>
      with_lock volumeID (
        r ← attempt (call (GetInstance instance));
        match r with
        | Err err =>
            if LustreErr.IsNotFoundErr err then mret (Some ())
            else return_err (LustreErr.StatusError (Some err))
        | Ok instance =>
            if decide (State instance = "DELETING") then
              return_status DeadlineExceeded ("Volume " +:+ volumeID +:+ " is under deletion")
            else
              r ← attempt (call (DeleteInstance instance));
              match r with
              | Err err => return_err (LustreErr.StatusError (Some err))
              | Ok _ => mret (Some ())
              end
        end)
  end.

Definition ControllerExpandVolume (req : ControllerExpandVolumeRequest)
    : handler (option ControllerExpandVolumeResponse) :=
  let volumeID := ExpVolumeId req in
  if decide (slen volumeID = 0) then
    return_status InvalidArgument "ControllerExpandVolume volumeID must be provided" else
  with_lock volumeID (
    match volumeIDToInstance volumeID with
    | Err err => return_status InvalidArgument (error_text err)
    | Ok instance =>
        r ← attempt (call (GetInstance instance));
        match r with
        | Err err => return_err (LustreErr.StatusError (Some err))
        | Ok instance =>
            if decide (State instance ≠ lustrepb.State_String lustrepb.ACTIVE) then
              return_status FailedPrecondition
                ("Instance " +:+ Name instance +:+ " is in " +:+ State instance +:+ " state")
            else
            match getRequestCapacity (ExpCapacityRange req) with
            | Err err => return_status InvalidArgument (error_text err)
            | Ok capBytes =>
                if decide (size_bytes instance >= capBytes) then
                  mret (Some {| ExpCapacityBytes := size_bytes instance;
                                NodeExpansionRequired := false |})
                else
                r ← attempt (call (IsOperationInProgress instance "update"));
                match r with
                | Err err => return_err (LustreErr.StatusError (Some err))
                | Ok true =>
                    return_status DeadlineExceeded
                      ("Expansion for volume " +:+ quote volumeID +:+ " to new capacity " +:+
                       itoa (BytesToGib capBytes) +:+ " GiB is already in progress")
                | Ok false =>
                    let instance := set_CapacityGib (BytesToGib capBytes) instance in
                    r ← attempt (call (ResizeInstance instance));
                    match r with
                    | Err err => return_err (LustreErr.StatusError (Some err))
                    | Ok updatedInstance =>
                        mret (Some {| ExpCapacityBytes := size_bytes updatedInstance;
                                      NodeExpansionRequired := false |})
                    end
                end
            end
        end
    end).

Definition ValidateVolumeCapabilities (req : ValidateVolumeCapabilitiesRequest)
    : handler (option ValidateVolumeCapabilitiesResponse) :=
  let volumeID := ValVolumeId req in
  if decide (slen volumeID = 0) then
    return_status InvalidArgument "ValidateVolumeCapabilities volumeID must be provided" else
  match validateVolumeCapabilities driver (ValVolumeCapabilities req) with
  | Err err => return_status InvalidArgument (error_text err)
  | Ok _ =>
  match normalizeParams (ValParameters req) with
  | Err err => return_status InvalidArgument (error_text err)
  | Ok params =>
  match normalizeVolumeContext (ValVolumeContext req) with
  | Err err => return_status InvalidArgument (error_text err)
  | Ok vc =>
  match volumeIDToInstance volumeID with
  | Err err => return_status NotFound (error_text err)
  | Ok instance =>
      r ← attempt (call (GetInstance instance));
      match r with
      | Err err =>
          if negb (LustreErr.IsNotFoundErr err) then return_status Internal (error_text err)
          else return_status NotFound ("volume " +:+ volumeID +:+ " not found")
      | Ok _ =>
          mret (Some {| ConfirmedContext := vc;
                        ConfirmedCapabilities := ValVolumeCapabilities req;
                        ConfirmedParameters := params |})
      end
  end end end end.
End controller.
