(* ===== verification/CloudSpec.v ===== *)
(** * What the naming, parsing and cloud layers guarantee

    Theorems about Util.v, Instance.v, Params.v, GoErr.v and Service.v. *)
From S2P Require Import Prelude GoStr Regex GoErr Util Instance Params Csi Driver Service.

Local Open Scope string_scope.
Local Open Scope list_scope.
Local Open Scope Z_scope.

(** ** Volume IDs *)

(** The volume IDs that parse are exactly [PROJECT/LOCATION/NAME], with
    three parts that are not empty and hold neither [/] nor [:], alone or followed by a
    [:] and any suffix; and the parts are returned as written. *)
Theorem volume_ids_accepted id p l n :
  ParseVolumeID id = Ok (p, l, n) ↔
  id_part p ∧ id_part l ∧ id_part n ∧
  (id = volume_id p l n ∨ ∃ suffix, id = volume_id p l n +:+ ":" +:+ suffix).
Proof.
  split; [apply ParseVolumeID_inv|].
  intros (? & ? & ? & [-> | [suffix ->]]); [by apply ParseVolumeID_volume_id|by apply ParseVolumeID_suffix].
Qed.

(** Claim C33.  The ID of a volume identifies its instance: it can be parsed back to the instance's
    project, location and name, and two instances have the same ID only if they are the same one. *)
Theorem volume_id_identifies i j :
  identified i → identified j →
  volumeIDToInstance (instanceToVolumeID i) = Ok (instance_ref (Project i) (Location i) (Name i)) ∧
  (instanceToVolumeID i = instanceToVolumeID j ↔ same_identity i j).
Proof.
  intros Hi Hj. split; [by apply volumeIDToInstance_roundtrip|]. split.
  - intros E. apply (f_equal volumeIDToInstance) in E.
    rewrite !volumeIDToInstance_roundtrip in E by done. by injection E.
  - intros (E1 & E2 & E3). unfold instanceToVolumeID. by rewrite E1, E2, E3.
Qed.

Lemma volume_id_identifies_witness :
  volumeIDToInstance "p/us-central1-a/vol" = Ok (instance_ref "p" "us-central1-a" "vol") ∧
  ("p/us-central1-a/vol" = "p/us-central1-b/vol" ↔
   same_identity (instance_ref "p" "us-central1-a" "vol") (instance_ref "p" "us-central1-b" "vol")).
Proof.
  apply (volume_id_identifies (instance_ref "p" "us-central1-a" "vol")
           (instance_ref "p" "us-central1-b" "vol")); decided.
Defined.

(** The full names of the API that parse are exactly those [instanceFullName] prints,
    for a project, location and name that are not empty and hold no slash; parsing inverts
    printing. *)
Theorem full_names_accepted full p l n :
  parseInstanceFullName full = Ok (p, l, n) ↔
  name_part p ∧ name_part l ∧ name_part n ∧ full = instanceFullName (instance_ref p l n).
Proof. apply parseInstanceFullName_spec. Qed.

(** ** Labels *)

(** How a StorageClass writes labels. *)
Definition print_label (p : string * string) : string := p.1 +:+ "=" +:+ p.2.
Definition print_labels (m : gmap string string) : string :=
  join "," (print_label <$> map_to_list m).

Lemma label_chars_no c s :
  label_char c = false → all_chars label_char s = true → has_char c s = false.
Proof.
  intros Hc. induction s as [|a s IH]; cbn; [done|]. intros [Ha Hs]%andb_true_iff.
  rewrite IH by done. rewrite bool_decide_false; [done|]. congruence.
Qed.

Lemma label_char_not_space a : label_char a = true → Ascii.is_space a = false.
Proof. destruct a as [[] [] [] [] [] [] [] []]; vm_compute; congruence. Qed.

Lemma trim_space_label s : all_chars label_char s = true → trim_space s = s.
Proof.
  intros Hs. unfold trim_space.
  assert (trim_left s = s) as ->.
  { destruct s as [|a s]; [done|]. cbn in *. apply andb_true_iff in Hs as [Ha _].
    by rewrite label_char_not_space. }
  induction s as [|a s IH]; cbn in *; [done|]. apply andb_true_iff in Hs as [Ha Hs].
  rewrite IH by done. by rewrite label_char_not_space by done.
Qed.

Lemma valid_key_chars k : valid_label_key k → all_chars label_char k = true.
Proof.
  intros (a & s & -> & Ha & Hs & _). cbn. rewrite Hs. unfold label_char. by rewrite Ha.
Qed.

Lemma convertLabels_step labels k v rest m :
  valid_label_key k → valid_label_value v →
  convertLabels labels (print_label (k, v) :: rest) m = convertLabels labels rest (<[k := v]> m).
Proof.
  intros Hk Hv. pose proof (valid_key_chars k Hk) as Hkc. destruct (Hv) as [Hvc _].
  cbn [convertLabels]. unfold print_label; cbn [fst snd].
  rewrite app_char_str, split_app_sep by (by apply label_chars_no).
  rewrite split_no_sep by (by apply label_chars_no).
  rewrite !trim_space_label by done. unfold checkLabelKeyFn, checkLabelValueFn.
  rewrite (proj2 (regexKey_spec k)), (proj2 (regexValue_spec v)) by done. done.
Qed.

Lemma convertLabels_print labels l m :
  Forall (λ p, valid_label_key p.1 ∧ valid_label_value p.2) l → NoDup l.*1 →
  convertLabels labels (print_label <$> l) m = Ok (list_to_map l ∪ m).
Proof.
  revert m. induction l as [|[k v] l IH]; intros m; [cbn; by rewrite (left_id_L ∅ (∪))|].
  intros [[Hk Hv] Hl]%Forall_cons [Hn Hd]%NoDup_cons. rewrite fmap_cons.
  rewrite convertLabels_step by done. rewrite IH by done. f_equal.
  apply not_elem_of_list_to_map_1 in Hn. cbn in *. rewrite <-insert_union_l. by rewrite insert_union_r.
Qed.

(** Labels: whatever [ConvertLabelsStringToMap] accepts has at most 64 labels that
    all keep the rules (a key is a lower case letter and up to 62 label characters, a
    value up to 63); and every such set of labels can be written down in the
    [key=value,...] form and is read back as it is. *)
Theorem labels_roundtrip m :
  (∃ labels, ConvertLabelsStringToMap labels = Ok m) ↔
  (size m ≤ maxNumberOfLabels)%nat ∧ map_Forall (λ k v, valid_label_key k ∧ valid_label_value v) m.
Proof.
  split; [intros [labels Hl]; by eapply ConvertLabels_valid|]. intros [Hs Hm].
  exists (print_labels m). unfold ConvertLabelsStringToMap.
  destruct (decide (m = ∅)) as [->|Hne].
  { unfold print_labels. by rewrite map_to_list_empty. }
  assert (Forall (λ p, valid_label_key p.1 ∧ valid_label_value p.2) (map_to_list m)) as Hf.
  { apply Forall_forall. intros [k v] Hin%elem_of_map_to_list. by apply Hm. }
  assert (map_to_list m ≠ []) as Hml by (intros E; by apply map_to_list_empty_iff in E).
  rewrite decide_False; last first.
  { unfold print_labels. destruct (map_to_list m) as [|[k v] [|q l]]; [done|..];
      apply Forall_cons in Hf as [[Hk _] _]; cbn in Hk; destruct Hk as (a & s & -> & _); done. }
  unfold print_labels at 2. rewrite split_join; [|by destruct (map_to_list m)|].
  - rewrite convertLabels_print by (done || apply NoDup_fst_map_to_list).
    rewrite list_to_map_to_list, (right_id_L ∅ (∪)). cbn. by rewrite decide_False by lia.
  - apply Forall_fmap. apply (Forall_impl _ _ _ Hf). intros [k v] [Hk [Hv _]]. unfold print_label; cbn in *.
    apply valid_key_chars in Hk. by rewrite !has_char_app, (label_chars_no _ k), (label_chars_no _ v).
Qed.

(** ** Request maps *)

(** The keys of a request map: [normalizeKeys] succeeds exactly when
    every key is, up to case, dashes and underscores, a supported or a
    Kubernetes one and no two keys are the same up to these; then the
    result has every value under its normalized key and nothing else.  So the
    outcome does not depend on the order in which Go walks the map. *)
Theorem normalize_keys_outcome (R1 R2 : MapRange) input supported m :
  (@normalizeKeys R1 input supported = Ok m ↔
   (∀ k v, input !! k = Some v → key_allowed supported k) ∧
   (∀ k1 k2 v1 v2, input !! k1 = Some v1 → input !! k2 = Some v2 →
      normalize k1 = normalize k2 → k1 = k2) ∧
   (∀ nk v, m !! nk = Some v ↔ ∃ k, normalize k = nk ∧ input !! k = Some v)) ∧
  (@normalizeKeys R1 input supported = Ok m ↔ @normalizeKeys R2 input supported = Ok m).
Proof. split; [apply normalizeKeys_spec|]. by rewrite !normalizeKeys_spec. Qed.

Lemma normalize_keys_outcome_example :
  result_in (lift (@normalizeParams map_range_default {["Per-Unit_StorageThroughput" := "1000"]})) () =
  Ok {[keyPerUnitStorageThroughput := "1000"]}.
Proof. vm_compute. reflexivity. Qed.

(** ** Error translation *)

(** The code a client should see for an HTTP error of the API. *)
Definition http_code (http : Z) : grpc_code :=
  if decide (http = 403) then PermissionDenied
  else if decide (http = 400) then InvalidArgument
  else if decide (http = 429) then ResourceExhausted
  else if decide (http = 404) then NotFound
  else Internal.

Lemma userErrorCodeMap_http http :
  default Internal (LustreErr.userErrorCodeMap !! http) = http_code http.
Proof.
  unfold LustreErr.userErrorCodeMap, http_code, LustreErr.StatusForbidden,
    LustreErr.StatusBadRequest, LustreErr.StatusTooManyRequests, LustreErr.StatusNotFound.
  cbn. repeat (rewrite lookup_insert; case_decide; case_decide; try done; try congruence).
Qed.

Lemma http_code_not_OK http : http_code http ≠ OK.
Proof. unfold http_code. repeat case_decide; done. Qed.

(** A failed call of the API (a [googleapi.Error] somewhere along the
    wrapping, with no context error in its text and no code of its own) is reported with the
    code of its HTTP status: 403, 400, 429 and 404 have theirs, all others are internal errors; the
    text is kept. *)
Theorem status_error_of_http e http :
  errors_as as_googleapi e = Some http →
  errors_as as_temporary e = None → errors_as as_apierror e = None →
  contains (error_text e) "context deadline exceeded" = false →
  contains (error_text e) "context canceled" = false →
  LustreErr.StatusError (Some e) = Some (ErrStatus (http_code http) (error_text e)).
Proof.
  intros Hg Ht Ha Hd Hc. unfold LustreErr.StatusError, LustreErr.codeForError.
  rewrite (LustreErr.existingErrorCode_google _ _ Hg Ht),
    (LustreErr.isUserOperationError_google _ _ Hg),
    (LustreErr.isContextError_None _ Hd Hc), (LustreErr.isGoogleAPIError_google _ _ Hg Ha).
  assert (default Internal (match LustreErr.userErrorCodeMap !! http with Some c => Some c | None => Some Internal end)
    = http_code http) as ->.
  { rewrite <-userErrorCodeMap_http. by destruct (LustreErr.userErrorCodeMap !! http). }
  unfold status_error. by rewrite decide_False by apply http_code_not_OK.
Qed.

Lemma status_error_of_http_witness :
  LustreErr.StatusError (Some (ErrWrap "failed: quota" (ErrGoogle 429 "quota" None))) =
  Some (ErrStatus ResourceExhausted "failed: quota").
Proof.
  apply (status_error_of_http (ErrWrap "failed: quota" (ErrGoogle 429 "quota" None)) 429);
    vm_compute; reflexivity.
Defined.

(** A code that an error already carries is kept: a temporary error's code
    wins over whatever it wraps, a gRPC status goes through unchanged, and the
    translation of a translated error has the same code. *)
Theorem status_error_keeps_code :
  (∀ e c, LustreErr.codeForError (Some (ErrTemporary (Some e) c)) = Some c) ∧
  (∀ c msg, LustreErr.codeForError (Some (ErrStatus c msg)) = Some c) ∧
  (∀ e e', LustreErr.StatusError (Some e) = Some e' →
     LustreErr.codeForError (Some e') = LustreErr.codeForError (Some e)).
Proof.
  split_and!; [done..|]. intros e e'. unfold LustreErr.StatusError, status_error.
  destruct (LustreErr.codeForError_Some e) as [c ->]. cbn. case_decide; [done|]. by intros [= <-].
Qed.

(** ** The manager *)

(** Claim C16.  [lustreServiceManager] implements the interface the controllers rely on: with a
    client that behaves as the API documents, reading an instance is repeatable,
    an instance is found by project, location and name alone, and an instance that is created has
    the identity, the size and the network asked for, is active, and reads back
    as it was reported. *)
Theorem manager_implements_service {S} `{LustreClientLaws S} :
  @LustreServiceLaws S Manager.service.
Proof. apply manager_laws. Qed.

(** A client on an in-memory cloud: the instances by full name. *)
Definition mem_create (req : CreateInstanceRequest) : M (gmap string lustrepb.Instance) goerr string := λ s,
  let i := CreateReqInstance req in
  let name := Parent req +:+ "/instances/" +:+ InstanceId req in
  (Ok name, <[name := lustrepb.MkInstance name (lustrepb.Network i) (lustrepb.Description i) lustrepb.ACTIVE
     (lustrepb.Labels i) (lustrepb.CapacityGib i) (lustrepb.Filesystem i) (lustrepb.GkeSupportEnabled i)
     (lustrepb.PerUnitStorageThroughput i) ("10.0.0.2@tcp:/" +:+ lustrepb.Filesystem i)]> s).
Definition mem_get (name : string) : M (gmap string lustrepb.Instance) goerr lustrepb.Instance := λ s,
  match s !! name with
  | Some i => (Ok i, s)
  | None => (Err Fake.not_found, s)
  end.

Definition mem_client : LustreClient (gmap string lustrepb.Instance) := {|
  op_handle := string;
  client_CreateInstance := mem_create;
  client_DeleteInstance name := λ s, (Ok name, delete name s);
  client_UpdateInstance req := mret (lustrepb.Name (UpdateReqInstance req));
  client_GetInstance name := i ← mem_get name; mret (Some i);
  client_ListInstances _ := λ s, (Ok (MkIterator (map_to_list s).*2 None), s);
  client_ListLocations _ := mret (MkIterator [] None);
  client_ListOperations _ := mret (MkIterator [] None);
  wait_instance := mem_get;
  wait_empty _ := mret ();
|}.

Lemma mem_client_laws : @LustreClientLaws _ mem_client.
Proof.
  split; cbn.
  - intros n s r s'. rewrite !bind_unfold. unfold mem_get at 1.
    destruct (s !! n) as [i|] eqn:E; [|done]. intros [= <- <-]. unfold mem_get. by rewrite E.
  - intros req s op s1 r s2 [= <- <-]. unfold mem_get. rewrite lookup_insert_eq. intros [= <- <-].
    cbn. split_and!; try done. rewrite bind_unfold. cbn. by rewrite lookup_insert_eq.
Qed.

Lemma manager_implements_service_witness : @LustreServiceLaws _ (@Manager.service _ mem_client).
Proof. apply (@manager_implements_service _ mem_client mem_client_laws). Defined.

(** The operations of an instance that are under way. *)
Definition op_on (instance : ServiceInstance) (verb : string) (op : Operation) : Prop :=
  ∃ md, GetMetadata op = Ok md ∧ to_lower (Verb md) = to_lower verb ∧
        Target md = instanceFullName instance.

(** Looking operations up: the creation that [GetCreateInstanceOp] finds is the first of the
    listed operations that creates the instance, and [IsOperationInProgress] says
    yes exactly when some listed operation of that verb on the instance is not
    done; a failure of the listing is reported only if the operation sought was not listed before it. *)
Theorem manager_finds_operations {S} `{LustreClient S} instance verb s it s' :
  client_ListOperations (Manager.operations_request instance) s = (Ok it, s') →
  (∀ op, Manager.GetCreateInstanceOp instance s = (Ok (Some op), s') ↔
     ∃ ops1 ops2, items it = ops1 ++ op :: ops2 ∧ op_on instance "create" op ∧
       Forall (λ o, ¬ op_on instance "create" o) ops1) ∧
  (Manager.IsOperationInProgress instance verb s = (Ok true, s') ↔
     ∃ op, op ∈ items it ∧ op_on instance verb op ∧ GetDone op = false) ∧
  (iter_err it = None →
     (∃ r, Manager.GetCreateInstanceOp instance s = (Ok r, s')) ∧
     (∃ b, Manager.IsOperationInProgress instance verb s = (Ok b, s'))).
Proof.
  intros Hl. unfold Manager.GetCreateInstanceOp, Manager.IsOperationInProgress.
  rewrite !bind_unfold, Hl. split_and!.
  - intros op.
    assert (Manager.find_create_op instance (items it) = Some op ↔
      ∃ ops1 ops2, items it = ops1 ++ op :: ops2 ∧ op_on instance "create" op ∧
       Forall (λ o, ¬ op_on instance "create" o) ops1) as <-.
    { rewrite find_create_op_spec. unfold op_on. change (to_lower "create") with "create". naive_solver. }
    destruct (Manager.find_create_op instance (items it)); [|destruct (iter_err it)];
      unfold mret, M_ret, fail; split; intros; simplify_eq; done.
  - assert (Manager.find_in_progress instance verb (items it) = true ↔
      ∃ op, op ∈ items it ∧ op_on instance verb op ∧ GetDone op = false) as <-.
    { rewrite find_in_progress_spec. unfold op_on. naive_solver. }
    destruct (Manager.find_in_progress _ _ _); [|destruct (iter_err it)];
      unfold mret, M_ret, fail; split; intros; simplify_eq; done.
  - intros ->. destruct (Manager.find_create_op _ _), (Manager.find_in_progress _ _ _); cbn; eauto.
Qed.

Lemma manager_finds_operations_witness :
  let i := instance_ref "p" "us-central1-a" "vol" in
  (∃ r, @Manager.GetCreateInstanceOp _ mem_client i ∅ = (Ok r, ∅)) ∧
  (∃ b, @Manager.IsOperationInProgress _ mem_client i "update" ∅ = (Ok b, ∅)).
Proof.
  apply (@manager_finds_operations _ mem_client (instance_ref "p" "us-central1-a" "vol") "update" ∅
           (MkIterator [] None) ∅); vm_compute; reflexivity.
Defined.
