(* ===== verification/ControllerSpec.v ===== *)
(** * What the controller server guarantees

    Theorems about the handlers of Controller.v: the lock discipline, the
    functional behaviour of every handler, and the names and sizes it gives. *)
From S2P Require Import Prelude GoStr Regex GoErr Util Instance Params Csi Driver Service Controller.

Local Open Scope string_scope.
Local Open Scope list_scope.
Local Open Scope Z_scope.

(** ** Running the handlers *)

Lemma attempt_unfold {S E E' A} (m : M S E A) s :
  (attempt m : M S E' (result E A)) s = (let '(r, s') := m s in (Ok r, s')).
Proof. done. Qed.

Lemma return_status_other {S A} c msg (s : S) :
  c ≠ OK → (return_status c msg : M S goerr (option A)) s = (Err (ErrStatus c msg), s).
Proof. intros Hc. unfold return_status, return_err, status_error. by rewrite decide_False. Qed.

Lemma StatusError_code e e' :
  LustreErr.StatusError (Some e) = Some e' →
  ∃ c, LustreErr.codeForError (Some e) = Some c ∧ c ≠ OK ∧ e' = ErrStatus c (error_text e).
Proof.
  unfold LustreErr.StatusError, status_error.
  destruct (LustreErr.codeForError_Some e) as [c Hc]. rewrite Hc. cbn.
  case_decide; [done|]. intros [= <-]. eauto.
Qed.

(** ** Locks *)
Section locks.
Context {S : Type} `{LustreService S} `{MapRange}.
Context (driver : LustreDriver) (cloud : Cloud).

Definition same_locks : relation (controllerState S) := λ s s', volumeLocks s' = volumeLocks s.

#[local] Instance same_locks_preorder : PreOrder same_locks.
Proof. split; [by intros s|]. intros s1 s2 s3. unfold same_locks. congruence. Qed.

Lemma keeps_return_err {A} err : keeps same_locks (return_err err : M _ _ (option A)).
Proof. destruct err; intros s; reflexivity. Qed.

Lemma keeps_return_status {A} c msg : keeps same_locks (return_status c msg : M _ _ (option A)).
Proof. apply keeps_return_err. Qed.

Lemma keeps_call {A} (m : M S goerr A) : keeps same_locks (call m).
Proof. intros s. unfold state_after, call. by destruct (m (service s)). Qed.

Lemma keeps_draw_name ex : keeps same_locks (draw_name (S := S) ex).
Proof. intros s. unfold state_after, draw_name. by destruct (unique_loop _ _ _). Qed.

Lemma keeps_with_lock {A} key (m : M _ _ (option A)) :
  keeps same_locks m → keeps same_locks (with_lock key m).
Proof.
  intros Hm s. unfold state_after, with_lock, TryAcquire, VolumeLocks.TryAcquire.
  rewrite bind_unfold. case_decide as Hin; cbn.
  - by destruct s.
  - unfold defer_Release. set (s1 := MkControllerState _ _ _).
    specialize (Hm s1). unfold state_after, same_locks in Hm.
    destruct (m s1) as [r s2]. unfold same_locks, VolumeLocks.Release. cbn in *.
    rewrite Hm. set_solver.
Qed.

#[local] Hint Resolve keeps_return_err keeps_return_status keeps_call keeps_draw_name : keeps.

Lemma keeps_existing_names project zones names :
  keeps same_locks (existing_names (S := S) project zones names).
Proof.
  revert names. induction zones as [|z zones IH]; intros names; cbn; keeps_tac.
Qed.
#[local] Hint Resolve keeps_existing_names : keeps.

Lemma keeps_generate instance : keeps same_locks (generateUniqueFilesystemName (S := S) instance).
Proof. unfold generateUniqueFilesystemName. keeps_tac. Qed.
#[local] Hint Resolve keeps_generate : keeps.

Lemma keeps_create_new params inst : keeps same_locks (create_new (S := S) driver params inst).
Proof. unfold create_new. keeps_tac. Qed.

Lemma keeps_create_existing name i j : keeps same_locks (create_existing (S := S) name i j).
Proof. unfold create_existing. keeps_tac. Qed.
#[local] Hint Resolve keeps_create_new keeps_create_existing : keeps.

(** Claim C14.  Lock discipline of the controller: whatever the request and whatever
    the service answers, a handler returns with exactly the volume locks it
    found; no path, error or not, leaves a volume locked. *)
Theorem controller_locks_balanced s :
  (∀ req, volumeLocks (state_after (CreateVolume (S := S) driver cloud req) s) = volumeLocks s) ∧
  (∀ id, volumeLocks (state_after (DeleteVolume (S := S) id) s) = volumeLocks s) ∧
  (∀ req, volumeLocks (state_after (ControllerExpandVolume (S := S) req) s) = volumeLocks s) ∧
  (∀ req, volumeLocks (state_after (ValidateVolumeCapabilities (S := S) driver req) s) = volumeLocks s).
Proof.
  split_and!; intros x;
    [set (m := CreateVolume driver cloud x)|set (m := DeleteVolume x)|
     set (m := ControllerExpandVolume x)|set (m := ValidateVolumeCapabilities driver x)];
    enough (keeps same_locks m) as Hm by apply Hm; subst m.
  - unfold CreateVolume. destruct (create_args _ _ _) as [[[name params] inst]|]; [|keeps_tac].
    apply keeps_with_lock. keeps_tac.
  - unfold DeleteVolume. case_decide; [keeps_tac|].
    destruct (volumeIDToInstance x); [|keeps_tac]. apply keeps_with_lock. keeps_tac.
  - unfold ControllerExpandVolume. case_decide; [keeps_tac|].
    apply keeps_with_lock. keeps_tac.
  - unfold ValidateVolumeCapabilities. keeps_tac.
Qed.
End locks.

Section with_lock.
Context {S A : Type} (key : string) (m : M (controllerState S) goerr (option A)).

Lemma with_lock_held s :
  key ∈ volumeLocks s →
  with_lock key m s = (Err (ErrStatus Aborted (VolumeOperationAlreadyExistsFmt key)), s).
Proof.
  intros Hin. unfold with_lock, TryAcquire, VolumeLocks.TryAcquire.
  rewrite bind_unfold, decide_True by done. cbn -[return_status].
  rewrite return_status_other by done. by destruct s.
Qed.

(** The state in which the lock's owner runs. *)
Definition locked (s : controllerState S) : controllerState S :=
  MkControllerState ({[key]} ∪ volumeLocks s) (service s) (reader s).

Lemma with_lock_free s :
  key ∉ volumeLocks s →
  with_lock key m s =
    let '(r, s') := m (locked s) in
    (r, MkControllerState (volumeLocks s' ∖ {[key]}) (service s') (reader s')).
Proof.
  intros Hin. unfold with_lock, TryAcquire, VolumeLocks.TryAcquire.
  rewrite bind_unfold, decide_False by done. done.
Qed.

Lemma with_lock_ok s a s' :
  with_lock key m s = (Ok (Some a), s') →
  key ∉ volumeLocks s ∧ ∃ s1, m (locked s) = (Ok (Some a), s1) ∧
    s' = MkControllerState (volumeLocks s1 ∖ {[key]}) (service s1) (reader s1).
Proof.
  intros Hr. destruct (decide (key ∈ volumeLocks s)) as [Hin|Hin].
  { by rewrite with_lock_held in Hr. }
  rewrite with_lock_free in Hr by done. split; [done|].
  destruct (m (locked s)) as [r s1]. injection Hr as -> <-. eauto.
Qed.
End with_lock.

Lemma return_err_not_some {S A} err (s : S) (a : A) s' :
  (return_err err : M S goerr (option A)) s ≠ (Ok (Some a), s').
Proof. by destruct err. Qed.

Lemma return_status_not_some {S A} c msg (s : S) (a : A) s' :
  (return_status c msg : M S goerr (option A)) s ≠ (Ok (Some a), s').
Proof. apply return_err_not_some. Qed.

(** Close the branches in which a handler returns a status. *)
Ltac status_branch :=
  match goal with
  | H : return_err _ _ = (Ok (Some _), _) |- _ => by apply return_err_not_some in H
  | H : return_status _ _ _ = (Ok (Some _), _) |- _ => by apply return_status_not_some in H
  end.

Lemma bind_attempt_call {S A B} (m : M S goerr A) (f : result goerr A → M (controllerState S) goerr B) s :
  (attempt (call m) ≫= f) s =
    let '(r, svc) := m (service s) in f r (MkControllerState (volumeLocks s) svc (reader s)).
Proof. rewrite bind_unfold, attempt_unfold. unfold call. by destruct (m (service s)). Qed.

(** Split a hypothesis that runs a service call inside a handler. *)
Ltac step_call H r svc E :=
  rewrite bind_attempt_call in H; cbn [service locked] in H;
  lazymatch type of H with
  | (let '(_, _) := ?c in _) = _ => destruct c as [r svc] eqn:E
  end; cbn [volumeLocks service reader locked] in H.

(** ** Sizes *)

(** The request a capacity range makes, and whether it can be met. *)
Definition range_lower (r : CapacityRange) : Z :=
  if decide (RequiredBytes r > 0) then RequiredBytes r else MinVolumeSizeBytes.

Lemma getRequestCapacity_ok r c :
  getRequestCapacity (Some r) = Ok c ↔
  c = range_lower r ∧
  (LimitBytes r > 0 → c ≤ LimitBytes r ∧ MinVolumeSizeBytes ≤ LimitBytes r).
Proof.
  unfold getRequestCapacity, range_lower.
  repeat case_bool_decide; cbn; case_decide; split; try (intros [= <-]); try done;
    try (split; [done|]); try lia; intros [-> ?]; try done; exfalso; lia.
Qed.

Lemma MinVolumeSizeBytes_pos : 0 < MinVolumeSizeBytes.
Proof. by vm_compute. Qed.

Lemma getRequestCapacity_pos r c : getRequestCapacity r = Ok c → 0 < c.
Proof.
  pose proof MinVolumeSizeBytes_pos. destruct r as [r|]; [|by intros [= <-]].
  rewrite getRequestCapacity_ok. unfold range_lower. intros [-> _]. case_decide; lia.
Qed.

(** A size in bytes and the GiB it is rounded down to. *)
Lemma quot_Gib_bounds c :
  0 < c → in_i64 c →
  i64 (Z.quot c Gib * Gib) = Z.quot c Gib * Gib ∧
  Z.quot c Gib * Gib ≤ c < Z.quot c Gib * Gib + Gib.
Proof.
  intros Hc Hi. pose proof (BytesToGib_floor c) as Hf. unfold BytesToGib in Hf.
  assert (Z.quot c Gib * Gib ≤ c < Z.quot c Gib * Gib + Gib) as Hb by (specialize (Hf ltac:(lia)); lia).
  split; [|done]. apply i64_id.
  assert (0 ≤ Z.quot c Gib) by (apply Z.quot_pos; [lia|by vm_compute]).
  assert (0 < Gib) by by vm_compute. unfold in_i64 in *. nia.
Qed.

(** The sizes for which an instance's size in bytes does not overflow. *)
Lemma size_bytes_exact i :
  0 ≤ CapacityGib i < 2^33 → size_bytes i = CapacityGib i * Gib.
Proof. intros H. unfold size_bytes. apply i64_id. unfold in_i64, Gib. lia. Qed.

(** ** CreateVolume *)
Section create.
Context {S : Type} `{LustreServiceLaws S} `{MapRange}.
Context (driver : LustreDriver) (cloud : Cloud).
Implicit Types s : controllerState S.

Lemma create_args_ok req name params inst :
  create_args driver cloud req = Ok (name, params, inst) →
  name = to_lower (ReqName req) ∧ name ≠ "" ∧
  Forall (capability_ok driver) (ReqVolumeCapabilities req) ∧
  normalizeParams (ReqParameters req) = Ok params ∧
  pickZone cloud (ReqAccessibility req) = Ok (Location inst) ∧
  Name inst = name ∧ Project inst = CloudProject cloud ∧
  ∃ c, getRequestCapacity (ReqCapacityRange req) = Ok c ∧ CapacityGib inst = Z.quot c Gib.
Proof.
  unfold create_args. case_decide as Hn; [done|].
  rewrite bind_ok. intros ([] & Hv & Hr). apply validateVolumeCapabilities_ok in Hv as [_ Hv].
  apply bind_ok in Hr as (c & Hc & Hr). apply bind_ok in Hr as (ps & Hp & Hr).
  apply bind_ok in Hr as (i & Hi & [= <- <- <-]).
  unfold prepareNewInstance in Hi. destruct (pickZone _ _) as [z|] eqn:Hz; [|done].
  apply bind_ok in Hi as (t & _ & [= <-]). cbn. split_and!; try done; [|eauto].
  intros Heq. by rewrite Heq in Hn.
Qed.

(** What a successful creation did under its lock. *)
Inductive created (params : gmap string string) (inst : ServiceInstance) s : Volume → controllerState S → Prop :=
| created_existing j svc :
    GetInstance inst (service s) = (Ok j, svc) →
    CompareInstances inst j = None → State j = "ACTIVE" →
    created params inst s (instanceToCSIVolume j) (MkControllerState (volumeLocks s) svc (reader s))
| created_new e svc1 op svc2 labels fs s3 j svc4 :
    GetInstance inst (service s) = (Err e, svc1) → LustreErr.IsNotFoundErr e = true →
    GetCreateInstanceOp inst svc1 = (Ok op, svc2) → op ≫= GetError = None →
    extractLabels params (ConfigName (config driver)) = Ok labels →
    generateUniqueFilesystemName (set_Labels labels inst)
      (MkControllerState (volumeLocks s) svc2 (reader s)) = (Ok fs, s3) →
    CreateInstance (set_Filesystem fs (set_Labels labels inst)) (service s3) = (Ok j, svc4) →
    created params inst s (instanceToCSIVolume j) (MkControllerState (volumeLocks s3) svc4 (reader s3)).

Lemma create_existing_ok name inst j s vol s' :
  create_existing name inst j s = (Ok (Some vol), s') →
  CompareInstances inst j = None ∧ State j = "ACTIVE" ∧ vol = instanceToCSIVolume j ∧ s' = s.
Proof.
  unfold create_existing. destruct (CompareInstances inst j); [intros ?; status_branch|].
  case_decide; [intros ?; status_branch|]. case_decide as Hd; [intros ?; status_branch|].
  intros [= <- <-]. done.
Qed.

Lemma create_new_ok params inst s vol s' e svc0 :
  GetInstance inst svc0 = (Err e, service s) → LustreErr.IsNotFoundErr e = true →
  create_new driver params inst s = (Ok (Some vol), s') →
  created params inst (MkControllerState (volumeLocks s) svc0 (reader s)) vol s'.
Proof.
  intros He Hnf Hc. unfold create_new in Hc.
  step_call Hc r svc2 Eop. destruct r as [op|]; [|status_branch].
  destruct (op ≫= GetError) as [[code msg]|] eqn:Eo; [status_branch|].
  destruct (extractLabels _ _) as [labels|] eqn:El; [|status_branch].
  rewrite bind_unfold, attempt_unfold in Hc.
  destruct (generateUniqueFilesystemName _ _) as [[fs|] s3] eqn:Ef; [|status_branch].
  step_call Hc r svc4 Ec. destruct r as [j|]; [|status_branch].
  injection Hc as <- <-. econstructor; cbn; eauto.
Qed.

Lemma CreateVolume_ok req s vol s' :
  CreateVolume driver cloud req s = (Ok (Some vol), s') →
  ∃ name params inst s1,
    create_args driver cloud req = Ok (name, params, inst) ∧ name ∉ volumeLocks s ∧
    created params inst (locked name s) vol s1 ∧
    s' = MkControllerState (volumeLocks s1 ∖ {[name]}) (service s1) (reader s1).
Proof.
  unfold CreateVolume. destruct (create_args driver cloud req) as [[[name params] inst]|];
    [|intros ?; status_branch].
  intros (Hfree & s1 & Hm & ->)%with_lock_ok. exists name, params, inst, s1.
  split_and!; try done. step_call Hm r svc1 Eg. destruct r as [j|e].
  - apply create_existing_ok in Hm as (? & ? & -> & ->). by eapply (created_existing params inst (locked name s)).
  - destruct (LustreErr.IsNotFoundErr e) eqn:En; cbn in Hm; [|status_branch].
    by eapply (create_new_ok _ _ (MkControllerState _ _ _)) in Hm.
Qed.

Lemma created_identity params inst s vol s' :
  identified inst → created params inst s vol s' →
  ∃ j, vol = instanceToCSIVolume j ∧ same_identity inst j ∧ CapacityGib j = CapacityGib inst ∧
    Network j = Network inst ∧ State j = "ACTIVE" ∧ GetInstance inst (service s') = (Ok j, service s').
Proof.
  intros Hid [j svc Hg Hc Hs|e svc1 op svc2 labels fs s3 j svc4 ? ? ? ? ? ? Hc]; exists j.
  - apply CompareInstances_None in Hc as (? & ? & ? & ? & ?). unfold same_identity.
    split_and!; try done. cbn. by eapply get_repeatable.
  - pose proof Hc as Hr. apply create_as_requested in Hr as (? & ? & ? & ?); [|done].
    split_and!; try done. cbn.
    rewrite (get_by_identity _ (set_Filesystem fs (set_Labels labels inst))) by done.
    by eapply create_get.
Qed.

(** Claim C3.  A volume [CreateVolume] reports carries an ID that identifies, through
    [volumeIDToInstance], the instance in the driver's project with the (lower
    case) name of the request, in the zone the topology picks; and its size is the requested
    capacity rounded down to whole GiB, so it falls short of the request by
    less than one GiB, and does fall short exactly when the request is not a whole number of
    GiB. *)
Theorem create_volume_reports_requested req s vol s' name params inst c :
  CreateVolume driver cloud req s = (Ok (Some vol), s') →
  create_args driver cloud req = Ok (name, params, inst) →
  identified inst → getRequestCapacity (ReqCapacityRange req) = Ok c → in_i64 c →
  ∃ zone, pickZone cloud (ReqAccessibility req) = Ok zone ∧
    volumeIDToInstance (VolumeId vol) =
      Ok (instance_ref (CloudProject cloud) zone (to_lower (ReqName req))) ∧
    CapacityBytes vol ≤ c < CapacityBytes vol + Gib ∧
    (CapacityBytes vol = c ↔ c `mod` Gib = 0).
Proof.
  intros (name' & params' & inst' & s1 & Ha & _ & Hcr & _)%CreateVolume_ok Ha' Hid Hc Hi.
  rewrite Ha' in Ha. injection Ha as <- <- <-.
  apply create_args_ok in Ha' as (-> & _ & _ & _ & Hz & Hn & Hp & c' & Hc' & Hg).
  rewrite Hc in Hc'. injection Hc' as <-.
  apply created_identity in Hcr as (j & -> & (E1 & E2 & E3) & Hcap & _); [|done..].
  exists (Location inst). split; [done|]. split.
  - unfold instanceToCSIVolume; cbn [VolumeId].
    rewrite volumeIDToInstance_roundtrip; [by rewrite <-E1, <-E2, <-E3, Hn, Hp|].
    destruct Hid as (? & ? & ?). unfold identified. by rewrite <-E1, <-E2, <-E3.
  - cbn [CapacityBytes instanceToCSIVolume]. unfold size_bytes. rewrite Hcap, Hg.
    pose proof (getRequestCapacity_pos _ _ Hc).
    destruct (quot_Gib_bounds c) as [-> Hb]; [done..|]. split; [done|].
    assert (0 < Gib) as HG by by vm_compute.
    assert (Z.quot c Gib = c / Gib) as Hq by (apply Z.quot_div_nonneg; lia).
    rewrite Hq. pose proof (Z.div_mod c Gib ltac:(lia)). lia.
Qed.

(** Claim C1.  [CreateVolume] is idempotent: repeating a request that succeeded reports the
    same volume and changes nothing, whether the first call created the
    instance or found it. *)
Theorem create_volume_idempotent req s vol s' name params inst :
  CreateVolume driver cloud req s = (Ok (Some vol), s') →
  create_args driver cloud req = Ok (name, params, inst) → identified inst →
  CreateVolume driver cloud req s' = (Ok (Some vol), s').
Proof.
  intros (name' & params' & inst' & s1 & Ha & Hfree & Hcr & ->)%CreateVolume_ok Ha' Hid.
  rewrite Ha' in Ha. injection Ha as <- <- <-.
  pose proof (created_identity _ _ _ _ _ Hid Hcr) as (j & -> & (E1 & E2 & E3) & Hcap & Hnet & Hst & Hget).
  assert (volumeLocks s1 = {[name]} ∪ volumeLocks s) as Hl.
  { destruct Hcr as [|? ? ? ? ? ? s3 ? ? ? ? ? ? ? Hgen ?]; [done|].
    pose proof (keeps_generate (set_Labels labels inst) (MkControllerState ({[name]} ∪ volumeLocks s) svc2 (reader s))) as Hk.
    unfold same_locks, state_after in Hk. cbn in Hgen. rewrite Hgen in Hk. done. }
  unfold CreateVolume. rewrite Ha'. rewrite with_lock_free; cbn [volumeLocks service reader locked];
    [|rewrite Hl; set_solver].
  rewrite bind_attempt_call. cbn [service locked]. rewrite Hget.
  unfold create_existing.
  assert (CompareInstances inst j = None) as -> by (apply CompareInstances_None; auto).
  rewrite decide_False by (rewrite Hst; done). rewrite decide_False by (rewrite Hst; tauto).
  unfold mret, M_ret. cbn. rewrite Hl. do 2 f_equal. set_solver.
Qed.
End create.

(** ** DeleteVolume, ControllerExpandVolume and the locks they take *)
Section delete_expand.
Context {S : Type} `{LustreService S} `{MapRange}.
Context (driver : LustreDriver) (cloud : Cloud).
Implicit Types s : controllerState S.

(** Claim C31.  After a creation that failed on the cloud side (a stockout, say) the driver does
    not try again: the failed operation's code and message are reported and
    the service is left as the two reads left it, with no [CreateInstance] sent. *)
Theorem create_volume_reports_failed_op req s name params inst e svc1 op svc2 code msg :
  create_args driver cloud req = Ok (name, params, inst) →
  name ∉ volumeLocks s →
  GetInstance inst (service s) = (Err e, svc1) → LustreErr.IsNotFoundErr e = true →
  GetCreateInstanceOp inst svc1 = (Ok (Some op), svc2) →
  GetError op = Some (code, msg) → code_of_int32 code ≠ OK →
  CreateVolume driver cloud req s =
    (Err (ErrStatus (code_of_int32 code) msg), MkControllerState (volumeLocks s) svc2 (reader s)).
Proof.
  intros Ha Hfree Hg Hnf Hop He Hc. unfold CreateVolume. rewrite Ha, with_lock_free by done.
  rewrite bind_attempt_call. cbn [service locked]. rewrite Hg.
  rewrite Hnf. cbn [negb]. unfold create_new.
  rewrite bind_attempt_call. cbn [service]. rewrite Hop.
  cbn [mbind option_bind]. rewrite He, return_status_other by done.
  cbn. do 2 f_equal. set_solver.
Qed.

(** While an operation on a volume is in progress no other operation of the
    same kind starts on it: a create of a locked name, a delete or an expansion of
    a locked volume ID is refused with [Aborted], and neither the service nor
    the locks are touched. *)
Theorem locked_volume_aborts s key :
  key ∈ volumeLocks s →
  (∀ req params inst, create_args driver cloud req = Ok (key, params, inst) →
     CreateVolume driver cloud req s =
       (Err (ErrStatus Aborted (VolumeOperationAlreadyExistsFmt key)), s)) ∧
  (∀ inst, volumeIDToInstance key = Ok inst →
     DeleteVolume key s = (Err (ErrStatus Aborted (VolumeOperationAlreadyExistsFmt key)), s)) ∧
  (∀ range, key ≠ "" → ControllerExpandVolume (MkExpandRequest key range) s =
       (Err (ErrStatus Aborted (VolumeOperationAlreadyExistsFmt key)), s)).
Proof.
  intros Hin. split_and!.
  - intros req params inst Ha. unfold CreateVolume. rewrite Ha. by apply with_lock_held.
  - intros inst Hi. unfold DeleteVolume. case_decide as Hl.
    { destruct key; [|done]. by vm_compute in Hi. }
    rewrite Hi. by apply with_lock_held.
  - intros range Hne. unfold ControllerExpandVolume. cbn [ExpVolumeId].
    rewrite decide_False by (destruct key; done). by apply with_lock_held.
Qed.

(** [DeleteVolume] reports success only when there is nothing left to delete: the
    ID names no instance, or the service does not know the instance, or it
    deleted the instance it returned for that ID, which was not already
    being deleted. *)
Theorem delete_volume_ok id s s' :
  DeleteVolume id s = (Ok (Some ()), s') →
  (∃ e, volumeIDToInstance id = Err e ∧ s' = s) ∨
  ∃ i, volumeIDToInstance id = Ok i ∧
    ((∃ e, GetInstance i (service s) = (Err e, service s') ∧ LustreErr.IsNotFoundErr e = true) ∨
     (∃ j svc, GetInstance i (service s) = (Ok j, svc) ∧ State j ≠ "DELETING" ∧
               DeleteInstance j svc = (Ok (), service s'))).
Proof.
  unfold DeleteVolume. case_decide; [intros ?; status_branch|].
  destruct (volumeIDToInstance id) as [i|e]; [|intros [= <-]; left; eauto].
  intros (Hfree & s1 & Hm & ->)%with_lock_ok. right. exists i. split; [done|].
  step_call Hm r svc Eg. destruct r as [j|e].
  - case_decide as Hd; [status_branch|]. step_call Hm r svc2 Ed.
    destruct r as [[]|]; [|status_branch]. injection Hm as <-. right. cbn. eauto.
  - destruct (LustreErr.IsNotFoundErr e) eqn:En; [|status_branch].
    injection Hm as <-. left. cbn. eauto.
Qed.

(** What a successful expansion did. *)
Definition expanded (s s' : controllerState S) (inst : ServiceInstance) (svc : S) (cap : Z)
    (r : ControllerExpandVolumeResponse) : Prop :=
  (cap ≤ size_bytes inst ∧ ExpCapacityBytes r = size_bytes inst ∧ service s' = svc) ∨
  (size_bytes inst < cap ∧ ∃ svc2 j,
     IsOperationInProgress inst "update" svc = (Ok false, svc2) ∧
     ResizeInstance (set_CapacityGib (BytesToGib cap) inst) svc2 = (Ok j, service s') ∧
     ExpCapacityBytes r = size_bytes j).

Lemma expand_volume_ok req s r s' :
  ControllerExpandVolume req s = (Ok (Some r), s') →
  ∃ i inst svc cap,
    volumeIDToInstance (ExpVolumeId req) = Ok i ∧
    GetInstance i (service s) = (Ok inst, svc) ∧ State inst = "ACTIVE" ∧
    getRequestCapacity (ExpCapacityRange req) = Ok cap ∧
    NodeExpansionRequired r = false ∧ expanded s s' inst svc cap r.
Proof.
  unfold ControllerExpandVolume. case_decide; [intros ?; status_branch|].
  intros (Hfree & s1 & Hm & ->)%with_lock_ok.
  destruct (volumeIDToInstance _) as [i|]; [|status_branch]. exists i.
  step_call Hm r0 svc Eg. destruct r0 as [inst|]; [|status_branch].
  case_decide as Hs; [status_branch|].
  destruct (getRequestCapacity _) as [cap|]; [|status_branch].
  exists inst, svc, cap. split_and!; [done..| |].
  - case_decide; [by injection Hm as <- <-|].
    step_call Hm r1 svc2 Eo. destruct r1 as [[]|]; [status_branch| |status_branch].
    step_call Hm r1 svc3 Er. destruct r1; [|status_branch]. by injection Hm as <- <-.
  - unfold expanded. cbn [service]. case_decide as Hc.
    { injection Hm as <- <-. left. split_and!; [lia|done|done]. }
    right. split; [lia|].
    step_call Hm r1 svc2 Eo. destruct r1 as [[]|]; [status_branch| |status_branch].
    step_call Hm r1 svc3 Er. destruct r1 as [j|]; [|status_branch].
    injection Hm as <- <-. cbn. eauto.
Qed.

(** Claim C15.  An expansion never shrinks an instance and never overtakes an update: a
    successful [ControllerExpandVolume] either leaves alone an active instance that is
    large enough, or, with no update of it in progress, asks the service for
    the requested size in GiB, which is at least the current one. *)
Theorem expand_volume_never_shrinks req s r s' i inst svc cap :
  ControllerExpandVolume req s = (Ok (Some r), s') →
  volumeIDToInstance (ExpVolumeId req) = Ok i →
  GetInstance i (service s) = (Ok inst, svc) → 0 ≤ CapacityGib inst < 2^33 →
  getRequestCapacity (ExpCapacityRange req) = Ok cap →
  State inst = "ACTIVE" ∧
  ((ExpCapacityBytes r = CapacityGib inst * Gib ∧ cap ≤ ExpCapacityBytes r ∧ service s' = svc) ∨
   ∃ svc2 j target, IsOperationInProgress inst "update" svc = (Ok false, svc2) ∧
     CapacityGib inst ≤ target ∧ target * Gib ≤ cap < (target + 1) * Gib ∧
     ResizeInstance (set_CapacityGib target inst) svc2 = (Ok j, service s') ∧
     ExpCapacityBytes r = size_bytes j).
Proof.
  intros (i' & inst' & svc' & cap' & Hi & Hg & Hs & Hc & _ & He)%expand_volume_ok Hi' Hg' Hb Hc'.
  rewrite Hi in Hi'. injection Hi' as ->. rewrite Hg in Hg'. injection Hg' as -> ->.
  rewrite Hc in Hc'. injection Hc' as ->. split; [done|].
  pose proof (getRequestCapacity_pos _ _ Hc). pose proof (BytesToGib_floor cap ltac:(lia)).
  pose proof (size_bytes_exact inst Hb) as Hsz.
  destruct He as [(? & ? & ?)|(? & svc2 & j & ? & ? & ?)]; [left|right].
  - split_and!; [congruence|congruence|done].
  - exists svc2, j, (BytesToGib cap). split_and!; try done; [|lia..].
    rewrite Hsz in *. assert (0 < Gib) by by vm_compute. nia.
Qed.
End delete_expand.

(** ** Filesystem names *)

(** The names the driver makes up: [lfs] and five digits. *)
Definition generated_name (id : string) : Prop :=
  ∃ d, id = fsnamePrefix +:+ d ∧ String.length d = 5%nat ∧ all_chars is_digit d = true.

Lemma digit_char_digit n : 0 ≤ n < 10 → is_digit (digit_char n) = true.
Proof.
  intros Hn. unfold is_digit, digit_char, ascii_val. apply bool_decide_eq_true.
  rewrite N_ascii_embedding by lia. lia.
Qed.

Lemma random_digits_spec n r id r' :
  random_digits n r = (Ok id, r') →
  String.length id = n ∧ all_chars is_digit id = true ∧ length r = (n + length r')%nat.
Proof.
  revert r id r'. induction n as [|n IH]; intros r id r'; cbn.
  { by intros [= <- <-]. }
  destruct r as [|x r]; [done|]. cbn.
  destruct (random_digits n r) as [[d|] r1] eqn:E; [|done]. intros [= <- <-].
  destruct (IH _ _ _ E) as (<- & Hd & Hl). cbn.
  rewrite digit_char_digit by (apply Z.mod_pos_bound; lia).
  split_and!; [done|done|lia].
Qed.

Lemma generateRandomID_spec r id r' :
  generateRandomID r = (Ok id, r') → generated_name id ∧ length r = (5 + length r')%nat.
Proof.
  unfold generateRandomID. destruct (random_digits 5 r) as [[d|] r1] eqn:E; [|done].
  intros [= <- <-]. apply random_digits_spec in E as (? & ? & ?). unfold generated_name. eauto.
Qed.

Lemma unique_name_facts fuel existing r id r' :
  unique_loop fuel existing r = (Ok id, r') → generated_name id ∧ id ∉ existing.
Proof.
  revert r. induction fuel as [|fuel IH]; intros r; cbn; [done|].
  destruct (generateRandomID r) as [[d|] r1] eqn:E; [|done].
  case_decide as Hd; [|apply IH]. intros [= <- <-].
  by apply generateRandomID_spec in E as [Hg _].
Qed.

(** A made-up filesystem name is eight characters, [lfs] and five digits, and is
    none of the existing names. *)
Theorem unique_name_fresh fuel existing r id r' :
  unique_loop fuel existing r = (Ok id, r') →
  generated_name id ∧ slen id = 8 ∧ id ∉ existing.
Proof.
  intros [Hg Hne]%unique_name_facts. split_and!; [done| |done].
  destruct Hg as (d' & -> & Hl & _). unfold slen. by rewrite length_app_str, Hl.
Qed.

(** The name the [n]th round of the loop draws. *)
Definition nth_name (n : nat) (r : list Z) : result goerr string :=
  (generateRandomID (drop (5 * n) r)).1.

Lemma generateRandomID_drop r id r' : generateRandomID r = (Ok id, r') → r' = drop 5 r.
Proof.
  unfold generateRandomID. destruct r as [|a [|b [|c [|d [|e r]]]]]; cbn; try done.
  by intros [= _ <-].
Qed.

(** Claim C32.  The retry loop ends as soon as a free name comes up: if the [n]th draw is the
      first whose name is not taken, the loop returns that name after [n] retries; and
      the fuel it is given (one more than the numbers of the random source) is
      enough for this. *)
Theorem unique_name_found n existing r id :
  nth_name n r = Ok id → id ∉ existing →
  (∀ m, (m < n)%nat → ∃ taken, nth_name m r = Ok taken ∧ taken ∈ existing) →
  unique_loop (S (length r)) existing r = (Ok id, drop (5 * S n) r).
Proof.
  assert (∀ fuel r, (n < fuel)%nat → nth_name n r = Ok id → id ∉ existing →
    (∀ m, (m < n)%nat → ∃ taken, nth_name m r = Ok taken ∧ taken ∈ existing) →
    unique_loop fuel existing r = (Ok id, drop (5 * S n) r)) as Hgen.
  { clear r. induction n as [|n IH]; intros [|fuel] r Hf Hid Hne Ht; try lia; cbn [unique_loop].
    - unfold nth_name in Hid. rewrite drop_0 in Hid.
      destruct (generateRandomID r) as [x r1] eqn:E. cbn in Hid. subst x.
      rewrite decide_True by done. by rewrite (generateRandomID_drop _ _ _ E).
    - destruct (Ht 0%nat) as (t & Hn0 & Hin); [lia|]. unfold nth_name in Hn0. rewrite drop_0 in Hn0.
      destruct (generateRandomID r) as [x r1] eqn:E. cbn in Hn0. subst x.
      rewrite decide_False by tauto.
      rewrite (generateRandomID_drop _ _ _ E).
      assert (∀ m, nth_name m (drop 5 r) = nth_name (S m) r) as Hsh.
      { intros m. unfold nth_name. rewrite drop_drop. do 2 f_equal. f_equal. lia. }
      rewrite (IH fuel (drop 5 r)); [|lia| |done|].
      + rewrite drop_drop. do 2 f_equal. lia.
      + by rewrite Hsh.
      + intros m Hm. rewrite Hsh. apply Ht. lia. }
  intros Hid Hne Ht. apply Hgen; [|done..].
  unfold nth_name in Hid. destruct (generateRandomID (drop (5 * n) r)) as [x r1] eqn:E.
  cbn in Hid. subst x. apply generateRandomID_spec in E as [_ Hl].
  rewrite length_drop in Hl. lia.
Qed.

(** ** Filesystem names over a region *)
Section region.
Context {S : Type} `{LustreService S}.
(** Listing is a read. *)
Hypothesis list_instances_reads : ∀ f svc, state_after (ListInstance f) svc = svc.
Hypothesis list_locations_reads : ∀ f svc, state_after (ListLocations f) svc = svc.
Implicit Types s : controllerState S.

Lemma foldl_names (names : gset string) insts n :
  n ∈ foldl (λ names inst, {[Filesystem inst]} ∪ names) names insts ↔
  n ∈ names ∨ ∃ i, i ∈ insts ∧ Filesystem i = n.
Proof.
  revert names. induction insts as [|i insts IH]; intros names; cbn.
  - split; [auto|]. intros [?|(i & []%elem_of_nil & _)]. done.
  - rewrite IH, elem_of_union, elem_of_singleton. setoid_rewrite elem_of_cons. naive_solver.
Qed.

Lemma existing_names_spec project zones names s ex s' :
  existing_names project zones names s = (Ok ex, s') →
  s' = s ∧ names ⊆ ex ∧
  ∀ zone insts i svc', zone ∈ zones →
    ListInstance (MkListFilter project zone) (service s) = (Ok insts, svc') → i ∈ insts →
    Filesystem i ∈ ex.
Proof.
  revert names s. induction zones as [|z zones IH]; intros names s; cbn.
  { intros [= <- <-]. split_and!; [done..|]. by intros ? ? ? ? []%elem_of_nil. }
  rewrite bind_unfold. unfold call.
  pose proof (list_instances_reads (MkListFilter project z) (service s)) as Hread.
  unfold state_after in Hread.
  destruct (ListInstance (MkListFilter project z) (service s)) as [[insts|] svc] eqn:E; [|done].
  cbn in Hread. subst svc. intros Hr. destruct s as [l svc r]; cbn in *.
  apply IH in Hr as (-> & Hsub & Hall). split_and!; [done|..].
  - intros n Hn. apply Hsub, foldl_names. auto.
  - intros zone insts' i svc' [->|Hin]%elem_of_cons Hl Hi; [|by eapply Hall].
    rewrite E in Hl. injection Hl as <- <-. apply Hsub, foldl_names. eauto.
Qed.

Lemma filterZonesByRegion_elem locations region zone :
  zone ∈ filterZonesByRegion locations region ↔
  zone ∈ locations ∧ GetRegionFromZone zone = Ok region.
Proof.
  unfold filterZonesByRegion. rewrite list_elem_of_omap. split.
  - intros (l & Hin & Hl). destruct (GetRegionFromZone l) eqn:E; [|done].
    case_decide; [|done]. by injection Hl as <-; subst.
  - intros [Hin Hr]. exists zone. rewrite Hr. by rewrite decide_True.
Qed.

(** Claim C13.  A name the driver makes up for a new instance is unique in the instance's
    region: no instance in any zone of the region has a filesystem of that
    name. *)
Theorem generated_name_unique_in_region inst s name s' :
  Filesystem inst = "" →
  generateUniqueFilesystemName inst s = (Ok name, s') →
  generated_name name ∧
  ∃ region, GetRegionFromZone (Location inst) = Ok region ∧
    ∀ locations zone insts i,
      result_in (ListLocations (MkListFilter (Project inst) "")) (service s) = Ok locations →
      zone ∈ locations → GetRegionFromZone zone = Ok region →
      result_in (ListInstance (MkListFilter (Project inst) zone)) (service s) = Ok insts →
      i ∈ insts → Filesystem i ≠ name.
Proof.
  intros Hfs. unfold generateUniqueFilesystemName. rewrite decide_False by tauto.
  rewrite bind_unfold. unfold lift.
  destruct (GetRegionFromZone (Location inst)) as [region|]; [|done].
  rewrite bind_unfold. unfold call.
  pose proof (list_locations_reads (MkListFilter (Project inst) "") (service s)) as Hread.
  unfold state_after in Hread. unfold result_in.
  destruct (ListLocations _ (service s)) as [[locs|] svc]; [|done]. cbn in Hread. subst svc.
  rewrite bind_unfold.
  destruct (existing_names _ _ _ _) as [[ex|] s2] eqn:Ee; [|done].
  apply existing_names_spec in Ee as (-> & _ & Hall). cbn [service] in Hall.
  unfold draw_name. cbn [reader].
  destruct (unique_loop _ ex _) as [[id|] r] eqn:Eu; [|done]. intros [= <- <-].
  pose proof (unique_name_facts _ _ _ _ _ Eu) as [Hg Hne]. split; [done|].
  exists region. split; [done|]. cbn [fst].
  intros locations zone insts i [= <-] Hz Hzr Hl Hi Heq. apply Hne. rewrite <-Heq.
  destruct (ListInstance _ _) as [r' svc'] eqn:El. cbn in Hl. subst r'.
  eapply Hall; [|exact El|done]. by apply filterZonesByRegion_elem.
Qed.
End region.

(** ** Topology *)
Section topology.
Context `{MapRange}.

Lemma segment_loop_ok zone l z :
  segment_loop zone l = Ok z → NoDup l.*1 →
  (l = [] ∧ z = zone) ∨ l = [(TopologyKeyZone, z)].
Proof.
  destruct l as [|[k v] l]; cbn; [intros [= <-]; auto|]. case_decide; [subst k|done].
  destruct l as [|[k' v'] l]; cbn; [intros [= <-]; auto|]. case_decide; [subst k'|done].
  intros _ [Hn _]%NoDup_cons. exfalso. apply Hn. rewrite elem_of_cons. auto.
Qed.

Lemma getZoneFromSegment_spec seg z :
  getZoneFromSegment seg = Ok z ↔ z ≠ "" ∧ seg = {[TopologyKeyZone := z]}.
Proof.
  assert (∀ s, slen s = 0 ↔ s = "") as Hlen by (intros []; [done|unfold slen; cbn; split; [lia|done]]).
  unfold getZoneFromSegment. rewrite bind_ok. split.
  - intros (z' & Hl & Hz). case_decide as Hd; [done|]. injection Hz as ->. rewrite Hlen in Hd.
    split; [done|]. apply segment_loop_ok in Hl as [[_ ->]|Hl]; [done| |apply range_NoDup_fst].
    rewrite <-(range_list_to_map seg), Hl. done.
  - intros [Hz ->]. exists z.
    assert (range {[TopologyKeyZone := z]} = [(TopologyKeyZone, z)]) as ->.
    { apply Permutation_singleton_r. rewrite range_perm. by rewrite map_to_list_singleton. }
    cbn. rewrite decide_True by done. split; [done|]. rewrite decide_False; [done|].
    by rewrite Hlen.
Qed.

(** A topology that names one zone and nothing else. *)
Definition names_zone (top : Topology) (z : string) : Prop :=
  z ≠ "" ∧ GetSegments top = Some {[TopologyKeyZone := z]}.

Lemma getZonesFromTopology_spec tops zones :
  getZonesFromTopology tops = Ok zones ↔ Forall2 names_zone tops zones.
Proof.
  revert zones. induction tops as [|top tops IH]; intros zones; cbn.
  { split; [intros [= <-]; constructor|by inversion 1]. }
  split.
  - destruct (GetSegments top) as [seg|] eqn:Es; [|done].
    destruct (getZoneFromSegment seg) as [z|] eqn:Ez; [|done].
    intros (zs & Hzs & [= <-])%bind_ok. apply getZoneFromSegment_spec in Ez as [Hz ->].
    constructor; [done|by apply IH].
  - inversion 1 as [|? z ? zs [Hz Hs] Hf]; subst. rewrite Hs.
    rewrite (proj2 (getZoneFromSegment_spec _ z)) by done.
    by rewrite (proj2 (IH zs) Hf).
Qed.

(** The zone of a new instance: the first preferred zone if there is one, else
    the first requisite zone; and a topology is accepted only if every entry
    of both lists names exactly one zone and at least one list is not
    empty. *)
Theorem pick_zone_from_topology top z :
  pickZoneFromTopology top = Ok z ↔
  ∃ reqZones prefZones,
    Forall2 names_zone (Requisite top) reqZones ∧ Forall2 names_zone (Preferred top) prefZones ∧
    head (prefZones ++ reqZones) = Some z.
Proof.
  unfold pickZoneFromTopology. setoid_rewrite <-getZonesFromTopology_spec.
  destruct (getZonesFromTopology (Requisite top)) as [req|]; [|naive_solver].
  destruct (getZonesFromTopology (Preferred top)) as [pref|]; [|naive_solver].
  split.
  - intros Hz. exists req, pref. split_and!; [done..|].
    destruct pref, req; cbn; naive_solver.
  - intros (? & ? & [= <-] & [= <-] & Hh). destruct pref, req; cbn in *; naive_solver.
Qed.
End topology.

(** ** Labels *)

(** The driver's own labels: a tag for every piece of Kubernetes metadata among the
    parameters, and the driver's name. *)
Definition tag_from (params : gmap string string) (key tag : string)
    (labels : gmap string string) : gmap string string :=
  match params !! key with Some v => <[tag := v]> labels | None => labels end.
Definition metadata_tags (params labels : gmap string string) : gmap string string :=
  tag_from params keyPVCName tagKeyCreatedForClaimName
  (tag_from params keyPVCNamespace tagKeyCreatedForClaimNamespace
  (tag_from params keyPVName tagKeyCreatedForVolumeName labels)).
Definition metadata_labels (params : gmap string string) (driverName : string) : gmap string string :=
  <[tagKeyCreatedBy := replace_char "." "_" driverName]> (metadata_tags params ∅).

(** The labels the StorageClass asks for. *)
Definition requested_labels (params : gmap string string) : result goerr (gmap string string) :=
  match params !! keyLabels with Some v => ConvertLabelsStringToMap v | None => Ok ∅ end.

Section labels.
Context `{MapRange}.

Lemma foldl_insert l (r : gmap string string) :
  NoDup l.*1 → foldl (λ m p, <[p.1 := p.2]> m) r l = list_to_map l ∪ r.
Proof.
  revert r. induction l as [|[k v] l IH]; intros r; cbn; [by rewrite (left_id_L ∅ (∪))|].
  intros [Hk Hl]%NoDup_cons. rewrite IH by done.
  apply not_elem_of_list_to_map_1 in Hk. rewrite <-insert_union_l. by rewrite insert_union_r.
Qed.

Lemma mergeLabels_loop_ok l r m :
  NoDup l.*1 →
  mergeLabels_loop l r = Ok m ↔ Forall (λ k, r !! k = None) l.*1 ∧ m = list_to_map l ∪ r.
Proof.
  revert r. induction l as [|[k v] l IH]; intros r; cbn.
  { intros _. rewrite (left_id_L ∅ (∪)), Forall_nil. naive_solver. }
  intros [Hk Hl]%NoDup_cons. rewrite Forall_cons. case_decide as Hr.
  { split; [done|]. intros [[Hn _] _]. rewrite Hn in Hr. by destruct Hr. }
  rewrite <-eq_None_not_Some in Hr. rewrite IH by done.
  rewrite <-insert_union_l, insert_union_r by (by apply not_elem_of_list_to_map_1).
  assert (Forall (λ x, <[k:=v]> r !! x = None) l.*1 ↔ Forall (λ x, r !! x = None) l.*1) as ->; [|tauto].
  rewrite !Forall_forall. setoid_rewrite lookup_insert_None. split; [naive_solver|].
  intros Hf x Hx. split; [by apply Hf|]. by intros ->.
Qed.

Lemma mergeLabels_ok sc meta m :
  mergeLabels sc meta = Ok m ↔ sc ##ₘ meta ∧ m = sc ∪ meta.
Proof.
  unfold mergeLabels. rewrite foldl_insert by apply range_NoDup_fst.
  rewrite mergeLabels_loop_ok by apply range_NoDup_fst.
  rewrite !range_list_to_map, (right_id_L ∅ (∪)).
  assert (Forall (λ k, meta !! k = None) (range sc).*1 ↔ sc ##ₘ meta) as ->; [|done].
  rewrite map_disjoint_alt, Forall_forall. split.
  - intros Hf k. destruct (sc !! k) as [v|] eqn:E; [|by left]. right. apply Hf.
    apply list_elem_of_fmap. exists (k, v). split; [done|]. by apply elem_of_range.
  - intros Hd k Hk. apply list_elem_of_fmap in Hk as ([? v] & -> & Hin%elem_of_range). cbn.
    by destruct (Hd s) as [?|?]; [congruence|].
Qed.

(** Walking one entry more. *)
Lemma metadata_tags_insert k v m labels :
  m !! k = None →
  metadata_tags (<[k := v]> m) labels =
    metadata_tags m
      (if decide (k = keyPVCName) then <[tagKeyCreatedForClaimName := v]> labels
       else if decide (k = keyPVCNamespace) then <[tagKeyCreatedForClaimNamespace := v]> labels
       else if decide (k = keyPVName) then <[tagKeyCreatedForVolumeName := v]> labels
       else labels).
Proof.
  intros Hk. unfold metadata_tags, tag_from.
  repeat (case_decide; [subst k; rewrite ?Hk, ?lookup_insert_eq, ?lookup_insert_ne by done;
    repeat case_match; try done;
    rewrite ?(insert_insert_ne _ tagKeyCreatedForClaimName),
      ?(insert_insert_ne _ tagKeyCreatedForClaimNamespace) by done; done|]).
  by rewrite !lookup_insert_ne by done.
Qed.

Lemma extractLabels_loop_eq l labels sc :
  NoDup l.*1 → Forall (λ k, to_lower k = k) l.*1 →
  extractLabels_loop l labels sc =
    match list_to_map (M := gmap string string) l !! keyLabels with
    | None => Ok (metadata_tags (list_to_map l) labels, sc)
    | Some v =>
        match ConvertLabelsStringToMap v with
        | Ok m => Ok (metadata_tags (list_to_map l) labels, m)
        | Err err =>
            Err (ErrWrap ("parameters contain invalid labels parameter: " +:+ error_text err) err)
        end
    end.
Proof.
  revert labels sc. induction l as [|[k v] l IH]; intros labels sc; [done|].
  cbn [extractLabels_loop fmap list_fmap].
  intros [Hk Hl]%NoDup_cons [Hlow Hf]%Forall_cons. cbn [fst] in *.
  apply not_elem_of_list_to_map_1 in Hk. rewrite !Hlow.
  change (list_to_map ((k, v) :: l)) with (<[k := v]> (list_to_map l : gmap string string)).
  rewrite metadata_tags_insert by done.
  repeat (case_decide; [subst k; try (by rewrite IH, lookup_insert_ne by done)|]).
  - rewrite lookup_insert_eq. destruct (ConvertLabelsStringToMap v); [|done].
    by rewrite IH, Hk by done.
  - by rewrite IH, lookup_insert_ne by done.
Qed.

Lemma normalizeParams_lower input params :
  normalizeParams input = Ok params → Forall (λ k, to_lower k = k) (range params).*1.
Proof.
  unfold normalizeParams. rewrite map_err_ok, normalizeKeys_spec. intros (_ & _ & Hm).
  apply Forall_forall. intros k ([? v] & -> & Hin%elem_of_range)%list_elem_of_fmap.
  apply Hm in Hin as (k & <- & _). cbn. unfold normalize. apply to_lower_idemp.
Qed.

Lemma extractLabels_ok input params driverName m :
  normalizeParams input = Ok params →
  extractLabels params driverName = Ok m ↔
  ∃ sc, requested_labels params = Ok sc ∧ sc ##ₘ metadata_labels params driverName ∧
        m = sc ∪ metadata_labels params driverName.
Proof.
  intros Hlow%normalizeParams_lower. unfold extractLabels, requested_labels, metadata_labels.
  rewrite extractLabels_loop_eq, range_list_to_map by (done || apply range_NoDup_fst).
  destruct (params !! keyLabels) as [v|]; [destruct (ConvertLabelsStringToMap v)|];
    cbn -[metadata_tags]; rewrite ?mergeLabels_ok; naive_solver.
Qed.

(** The labels of a new instance: the labels the StorageClass asks for, plus one tag
    for every piece of Kubernetes metadata among the parameters and one that names
    the driver.  The request is refused exactly when the StorageClass's labels
    are malformed or try to set one of the driver's own, and neither the order
    in which the maps are walked nor the writing of the keys matters. *)
Theorem labels_of_new_instance input params driverName m :
  normalizeParams input = Ok params →
  extractLabels params driverName = Ok m ↔
  ∃ sc, requested_labels params = Ok sc ∧ sc ##ₘ metadata_labels params driverName ∧
        m = sc ∪ metadata_labels params driverName.
Proof. apply extractLabels_ok. Qed.

(** The instance's tag for the driver is never the StorageClass's. *)
Lemma created_by_label params driverName :
  metadata_labels params driverName !! tagKeyCreatedBy = Some (replace_char "." "_" driverName).
Proof. unfold metadata_labels. by rewrite lookup_insert_eq. Qed.
End labels.

(** ** An expansion that falls short *)

(** One byte more than the instance has. *)
Definition short_request : ControllerExpandVolumeRequest :=
  {| ExpVolumeId := "test-project/us-central1-a/existing-instance";
     ExpCapacityRange := Some {| RequiredBytes := MinVolumeSizeBytes + 1; LimitBytes := 0 |} |}.

(** An expansion can fall short of what it was asked for: on the fake cloud, one byte more
    than an instance's 9000 GiB is asked for, the expansion succeeds, and the
    volume still has 9000 GiB. *)
Theorem expand_falls_short :
  result_in (@ControllerExpandVolume _ Fake.service short_request)
    (MkControllerState ∅ Fake.existingInstances []) =
  Ok (Some {| ExpCapacityBytes := MinVolumeSizeBytes; NodeExpansionRequired := false |}).
Proof. vm_compute. reflexivity. Qed.

(** ** Witnesses: the theorems at work on the fake cloud *)
#[local] Existing Instance Fake.service.
#[local] Existing Instance Fake.laws.
#[local] Existing Instance map_range_default.

Definition ex_config : LustreDriverConfig :=
  {| ConfigName := DefaultName; ConfigVersion := "v1"; NodeID := "node"; RunController := true;
     RunNode := false; Metadata := MkMetadataService "us-central1-a" "test-project" [];
     EnableLegacyLustrePort := false; AdditionalNics := [] |}.
Definition ex_driver : LustreDriver :=
  match NewLustreDriver ex_config with Ok d => d | Err _ => MkDriver ex_config ∅ [] [] false false end.
Definition ex_cloud : Cloud := Fake.NewFakeCloud.2.
Definition ex_state : controllerState Fake.t :=
  MkControllerState ∅ Fake.NewFakeCloud.1 [1; 2; 3; 4; 5; 6; 7; 8; 9; 10].
Definition ex_topology : TopologyRequirement :=
  {| Requisite := []; Preferred := [{| GetSegments := Some {[TopologyKeyZone := "us-central1-b"]} |}] |}.
Definition ex_request (name : string) : CreateVolumeRequest :=
  {| ReqName := name;
     ReqCapacityRange := Some {| RequiredBytes := 9000 * Gib + 5; LimitBytes := 0 |};
     ReqVolumeCapabilities :=
       [Some {| GetAccessMode := Some MULTI_NODE_MULTI_WRITER;
                GetAccessType := Some (MountAccess (Some {| MountFlags := []; VolumeMountGroup := "" |})) |}];
     ReqParameters := {["perUnitStorageThroughput" := "1000"; "labels" := "a=b"]};
     ReqAccessibility := Some ex_topology |}.

#[local] Abbreviation create := (CreateVolume ex_driver ex_cloud).
Definition ex_args := create_args ex_driver ex_cloud (ex_request "New-Vol").
Definition ex_inst : ServiceInstance :=
  match ex_args with Ok (_, _, i) => i | Err _ => instance_ref "" "" "" end.
Definition ex_params : gmap string string :=
  match ex_args with Ok (_, p, _) => p | Err _ => ∅ end.
Definition ex_volume : Volume :=
  match result_in (create (ex_request "New-Vol")) ex_state with
  | Ok (Some v) => v
  | _ => instanceToCSIVolume ex_inst
  end.
Definition ex_after := state_after (create (ex_request "New-Vol")) ex_state.

Lemma create_volume_idempotent_witness :
  create (ex_request "New-Vol") ex_after = (Ok (Some ex_volume), ex_after).
Proof.
  apply (create_volume_idempotent ex_driver ex_cloud (ex_request "New-Vol") ex_state ex_volume ex_after
           "new-vol" ex_params ex_inst).
  - runs (create (ex_request "New-Vol")) ex_state (@Ok goerr _ (Some ex_volume)).
  - vm_compute; reflexivity.
  - decided.
Defined.

Lemma create_volume_reports_requested_witness :
  ∃ zone, pickZone ex_cloud (Some ex_topology) = Ok zone ∧
    volumeIDToInstance (VolumeId ex_volume) = Ok (instance_ref "test-project" zone "new-vol") ∧
    CapacityBytes ex_volume ≤ 9000 * Gib + 5 < CapacityBytes ex_volume + Gib ∧
    (CapacityBytes ex_volume = 9000 * Gib + 5 ↔ (9000 * Gib + 5) `mod` Gib = 0).
Proof.
  apply (create_volume_reports_requested ex_driver ex_cloud (ex_request "New-Vol") ex_state ex_volume
           ex_after "new-vol" ex_params ex_inst (9000 * Gib + 5)).
  - runs (create (ex_request "New-Vol")) ex_state (@Ok goerr _ (Some ex_volume)).
  - vm_compute; reflexivity.
  - decided.
  - vm_compute. reflexivity.
  - decided.
Defined.

(** An instance whose creation the cloud gave up, with the operation to tell. *)
Definition stockout_op : Operation :=
  {| OpName := "op-1"; GetMetadata := Ok (MkOperationMetadata "create" (instanceFullName ex_inst));
     GetDone := true; GetError := Some (8, "no capacity left") |}.
Definition stockout_service : LustreService Fake.t :=
  {| CreateInstance := @CreateInstance _ Fake.service;
     DeleteInstance := @DeleteInstance _ Fake.service;
     ResizeInstance := @ResizeInstance _ Fake.service;
     UpdateInstance := @UpdateInstance _ Fake.service;
     GetInstance := @GetInstance _ Fake.service;
     ListInstance := @ListInstance _ Fake.service;
     GetCreateInstanceOp _ := mret (Some stockout_op);
     ListLocations := @ListLocations _ Fake.service;
     IsOperationInProgress := @IsOperationInProgress _ Fake.service |}.

Lemma create_volume_reports_failed_op_witness :
  @CreateVolume _ stockout_service _ ex_driver ex_cloud (ex_request "New-Vol") ex_state =
    (Err (ErrStatus ResourceExhausted "no capacity left"), ex_state).
Proof.
  apply (@create_volume_reports_failed_op _ stockout_service _ ex_driver ex_cloud (ex_request "New-Vol")
           ex_state "new-vol" ex_params ex_inst Fake.not_found Fake.existingInstances stockout_op
           Fake.existingInstances 8 "no capacity left"); try reflexivity.
  - decided.
  - vm_compute. discriminate.
Defined.

Definition locked_state (key : string) : controllerState Fake.t :=
  MkControllerState {[key]} Fake.existingInstances [].

Lemma locked_volume_aborts_witness :
  create (ex_request "New-Vol") (locked_state "new-vol") =
    (Err (ErrStatus Aborted (VolumeOperationAlreadyExistsFmt "new-vol")), locked_state "new-vol").
Proof.
  apply (locked_volume_aborts ex_driver ex_cloud (locked_state "new-vol") "new-vol")
    with (params := ex_params) (inst := ex_inst); [|vm_compute; reflexivity].
  decided.
Defined.

Lemma delete_volume_ok_witness :
  (∃ e, volumeIDToInstance "p/l/gone" = Err e ∧ ex_state = ex_state) ∨
  ∃ i, volumeIDToInstance "p/l/gone" = Ok i ∧
    ((∃ e, GetInstance i (service ex_state) = (Err e, service ex_state) ∧ LustreErr.IsNotFoundErr e = true) ∨
     (∃ j svc, GetInstance i (service ex_state) = (Ok j, svc) ∧ State j ≠ "DELETING" ∧
               DeleteInstance j svc = (Ok (), service ex_state))).
Proof. apply (delete_volume_ok "p/l/gone" ex_state ex_state). vm_compute. reflexivity. Defined.

Definition fake_existing : ServiceInstance :=
  Fake.existing "existing-instance" "existing" "192.168.1.1" "ACTIVE".
Definition grow_request : ControllerExpandVolumeRequest :=
  {| ExpVolumeId := "test-project/us-central1-a/existing-instance";
     ExpCapacityRange := Some {| RequiredBytes := 18000 * Gib; LimitBytes := 0 |} |}.
Definition grown := state_after (ControllerExpandVolume grow_request) ex_state.

Lemma expand_volume_never_shrinks_witness :
  State fake_existing = "ACTIVE" ∧
  ((18000 * Gib = 9000 * Gib ∧ 18000 * Gib ≤ 18000 * Gib ∧ service grown = Fake.existingInstances) ∨
   ∃ svc2 j target, IsOperationInProgress fake_existing "update" Fake.existingInstances = (Ok false, svc2) ∧
     9000 ≤ target ∧ target * Gib ≤ 18000 * Gib < (target + 1) * Gib ∧
     ResizeInstance (set_CapacityGib target fake_existing) svc2 = (Ok j, service grown) ∧
     18000 * Gib = size_bytes j).
Proof.
  apply (expand_volume_never_shrinks grow_request ex_state
           {| ExpCapacityBytes := 18000 * Gib; NodeExpansionRequired := false |} grown
           (instance_ref "test-project" "us-central1-a" "existing-instance") fake_existing
           Fake.existingInstances (18000 * Gib)).
  - runs (ControllerExpandVolume grow_request) ex_state
      (@Ok goerr _ (Some {| ExpCapacityBytes := 18000 * Gib; NodeExpansionRequired := false |})).
  - vm_compute; reflexivity.
  - vm_compute; reflexivity.
  - decided.
  - vm_compute; reflexivity.
Defined.

Lemma unique_name_found_witness :
  unique_loop 11 {["lfs12345"]} [1; 2; 3; 4; 5; 16; 7; 8; 9; 10] = (Ok "lfs67890", []).
Proof.
  apply (unique_name_found 1 {["lfs12345"]} [1; 2; 3; 4; 5; 16; 7; 8; 9; 10] "lfs67890").
  - vm_compute. reflexivity.
  - decided.
  - intros m Hm. exists "lfs12345". assert (m = 0%nat) as -> by lia.
    split; [vm_compute; reflexivity|]. by apply elem_of_singleton.
Defined.

(** The fake service with the zones of two regions, and an instance that has the name which is drawn first. *)
Definition zoned_service : LustreService Fake.t := {|
  CreateInstance := Fake.CreateInstance;
  DeleteInstance := Fake.DeleteInstance;
  ResizeInstance := Fake.ResizeInstance;
  UpdateInstance := Fake.UpdateInstance;
  GetInstance := Fake.GetInstance;
  ListInstance := Fake.ListInstance;
  GetCreateInstanceOp := Fake.GetCreateInstanceOp;
  ListLocations := λ _, mret ["us-east1-b"; "us-central1-a"; "us-central1-b"];
  IsOperationInProgress := Fake.IsOperationInProgress;
|}.
Definition taken_instance : ServiceInstance := Fake.existing "taken" "lfs12345" "192.168.1.9" Fake.activeState.
Definition taken_state : controllerState Fake.t :=
  MkControllerState ∅ {["taken" := taken_instance]} [1; 2; 3; 4; 5; 6; 7; 8; 9; 10].

Lemma generated_name_unique_in_region_witness :
  result_in (generateUniqueFilesystemName (H := zoned_service) ex_inst) taken_state = Ok "lfs67890" ∧
  generated_name "lfs67890" ∧ Filesystem taken_instance ≠ "lfs67890".
Proof.
  split; [vm_compute; reflexivity|].
  destruct (@generated_name_unique_in_region _ zoned_service (λ _ _, eq_refl) (λ _ _, eq_refl) ex_inst taken_state
           "lfs67890" (MkControllerState ∅ {["taken" := taken_instance]} [])) as (Hg & region & Hr & Hn);
    [vm_compute; reflexivity..|].
  split; [exact Hg|]. vm_compute in Hr. injection Hr as <-.
  refine (Hn _ "us-central1-b" _ taken_instance eq_refl _ eq_refl eq_refl _); [right; right; left|].
  vm_compute. left.
Defined.

Lemma labels_of_new_instance_witness :
  extractLabels ex_params DefaultName =
    Ok ({["a" := "b"]} ∪ metadata_labels ex_params DefaultName).
Proof.
  apply (labels_of_new_instance (ReqParameters (ex_request "New-Vol")) ex_params DefaultName _);
    [vm_compute; reflexivity|].
  exists {["a" := "b"]}. split_and!; [vm_compute; reflexivity| |reflexivity].
  apply map_disjoint_singleton_l_2. vm_compute. reflexivity.
Defined.
