(* ===== verification/ManagerSpec.v ===== *)
(** * Deletion and updates, down to the REST client

    What handlers do to the instances of the cloud when the service is the manager of lustre.go.  [DeleteVolume] can only touch the
    instance that the volume ID names, and success means that the instance is gone.  The controller expands instances and the
    label controller labels them, each by reading an instance and later writing it back; the writes name
    the one field they change, so no interleaving loses what the other wrote. *)
From S2P Require Import Prelude GoStr Regex GoErr Util Instance Params Csi Driver Service Controller CloudSpec ControllerSpec.

Local Open Scope string_scope.
Local Open Scope list_scope.
Local Open Scope Z_scope.

(** The instance of a full name, as the API shows it. *)
Definition read {S} `{LustreClient S} (n : string) (s : S) : result goerr (option lustrepb.Instance) :=
  (client_GetInstance n s).1.

Definition gone {S} `{LustreClient S} (n : string) (s : S) : Prop :=
  ∃ e, read n s = Err e ∧ LustreErr.IsNotFoundErr e = true.

(** What the API documents: a resource is returned under its name and reading changes nothing; a deletion concerns the instance it is
    asked for only; when its operation completes, or when there is nothing to delete, the instance is not found. *)
Class DeletionLaws (S : Type) `{LustreClient S} : Prop := {
  client_get_named n s r s' : client_GetInstance n s = (Ok (Some r), s') → lustrepb.Name r = n;
  client_get_reads n n' s : read n' (client_GetInstance n s).2 = read n' s;
  client_delete_apart n n' s : n' ≠ n → read n' (client_DeleteInstance n s).2 = read n' s;
  client_delete_wait_apart n n' s op s1 :
    client_DeleteInstance n s = (Ok op, s1) → n' ≠ n → read n' (wait_empty op s1).2 = read n' s1;
  client_delete_gone n s op s1 s2 :
    client_DeleteInstance n s = (Ok op, s1) → wait_empty op s1 = (Ok (), s2) → gone n s2;
  client_delete_unknown n s e s1 :
    client_DeleteInstance n s = (Err e, s1) → LustreErr.IsNotFoundErr e = true → gone n s1;
}.

Section deletion.
Context {S : Type} `{DeletionLaws S}.
#[local] Existing Instance Manager.service.
Implicit Types s : controllerState S.

Lemma conversion_not_found p e : cloudInstanceToServiceInstance p = Err e → LustreErr.IsNotFoundErr e = false.
Proof.
  unfold cloudInstanceToServiceInstance, parseInstanceFullName. destruct (find_submatch _ _); cbn; [|by intros [= <-]].
  unfold parseInstanceIP. case_decide; [done|]. destruct (split "@" _) as [|? [|? ?]]; cbn; (done || by intros [= <-]).
Qed.

(** The manager's calls. *)
Lemma manager_get i (s s' : S) r :
  Manager.GetInstance i s = (r, s') →
  (∀ n, read n s' = read n s) ∧
  match r with
  | Ok j => instanceFullName j = instanceFullName i
  | Err e => LustreErr.IsNotFoundErr e = true → gone (instanceFullName i) s'
  end.
Proof.
  unfold Manager.GetInstance. rewrite bind_unfold.
  pose proof (λ n, client_get_reads (instanceFullName i) n s) as Hr.
  destruct (client_GetInstance (instanceFullName i) s) as [[[p|]|e] s1] eqn:E; cbn in Hr.
  - intros [= <- <-]. split; [exact Hr|]. unfold lift. destruct (cloudInstanceToServiceInstance p) as [j|e] eqn:Ej; cbn.
    + apply cloudInstance_ok in Ej as (_ & _ & _ & <- & _). by eapply client_get_named.
    + intros Hn. exfalso. apply conversion_not_found in Ej. congruence.
  - intros [= <- <-]. split; [exact Hr|done].
  - intros [= <- <-]. split; [exact Hr|]. intros Hn. exists e. split; [|done]. rewrite Hr. unfold read. by rewrite E.
Qed.

Lemma manager_get_gone i (s : S) :
  gone (instanceFullName i) s → ∃ e, (Manager.GetInstance i s).1 = Err e ∧ LustreErr.IsNotFoundErr e = true.
Proof.
  intros (e & He & Hn). exists e. split; [|done]. unfold Manager.GetInstance. rewrite bind_unfold. unfold read in He.
  destruct (client_GetInstance (instanceFullName i) s) as [r s1]. cbn in He. by subst r.
Qed.

Lemma manager_delete j (s s' : S) r :
  Manager.DeleteInstance j s = (r, s') →
  (∀ n, n ≠ instanceFullName j → read n s' = read n s) ∧ (r = Ok () → gone (instanceFullName j) s').
Proof.
  unfold Manager.DeleteInstance. rewrite bind_unfold. unfold attempt.
  pose proof (λ n, client_delete_apart (instanceFullName j) n s) as Ha.
  destruct (client_DeleteInstance (instanceFullName j) s) as [[op|e] s1] eqn:E; cbn [snd] in Ha.
  - intros Hw. split.
    + intros n Hn. pose proof (client_delete_wait_apart _ n _ _ _ E Hn) as Hwa. rewrite Hw in Hwa. cbn in Hwa.
      by rewrite Hwa, Ha.
    + intros ->. by eapply client_delete_gone.
  - destruct (LustreErr.IsNotFoundErr e) eqn:En; intros [= <- <-]; (split; [exact Ha|]); [|done].
    intros _. by eapply client_delete_unknown.
Qed.

Lemma return_err_same {A : Type} err s : ((return_err err : M (controllerState S) goerr (option A)) s).2 = s.
Proof. by destruct err. Qed.

Lemma return_status_same {A : Type} c msg s : ((return_status c msg : M (controllerState S) goerr (option A)) s).2 = s.
Proof. apply return_err_same. Qed.

(** What [DeleteVolume] does to the cloud under the lock. *)
Definition delete_locked (volumeID : string) (instance : ServiceInstance) : M (controllerState S) goerr (option ()) :=
  r ← attempt (call (Manager.GetInstance instance));
  match r with
  | Err err =>
      if LustreErr.IsNotFoundErr err then mret (Some ()) else return_err (LustreErr.StatusError (Some err))
  | Ok instance =>
      if decide (State instance = "DELETING") then
        return_status DeadlineExceeded ("Volume " +:+ volumeID +:+ " is under deletion")
      else
        r ← attempt (call (Manager.DeleteInstance instance));
        match r with
        | Err err => return_err (LustreErr.StatusError (Some err))
        | Ok _ => mret (Some ())
        end
  end.

Lemma delete_locked_effect id i s r s' :
  delete_locked id i s = (r, s') →
  (∀ n, n ≠ instanceFullName i → read n (service s') = read n (service s)) ∧
  (r = Ok (Some ()) → gone (instanceFullName i) (service s')).
Proof.
  unfold delete_locked. intros Hr. step_call Hr r1 svc1 Eg. apply manager_get in Eg as [Hread Eg]. destruct r1 as [j|e].
  - rewrite <-Eg. case_decide as Hd.
    { assert (s' = MkControllerState (volumeLocks s) svc1 (reader s)) as ->.
      { pose proof (return_status_same (A := ()) DeadlineExceeded ("Volume " +:+ id +:+ " is under deletion")
          (MkControllerState (volumeLocks s) svc1 (reader s))) as Hs. by rewrite Hr in Hs. }
      split; [intros n _; apply Hread|]. intros ->. status_branch. }
    step_call Hr r2 svc2 Ed. apply manager_delete in Ed as [Hother Hgone]. destruct r2 as [[]|e].
    + injection Hr as <- <-. cbn. split; [intros n Hn; by rewrite Hother|intros _; by apply Hgone].
    + assert (s' = MkControllerState (volumeLocks s) svc2 (reader s)) as ->.
      { pose proof (return_err_same (A := ()) (LustreErr.StatusError (Some e))
          (MkControllerState (volumeLocks s) svc2 (reader s))) as Hs. by rewrite Hr in Hs. }
      split; [intros n Hn; cbn; by rewrite Hother|]. intros ->. status_branch.
  - destruct (LustreErr.IsNotFoundErr e) eqn:En.
    { injection Hr as <- <-. cbn. split; [intros n _; apply Hread|by intros _; apply Eg]. }
    assert (s' = MkControllerState (volumeLocks s) svc1 (reader s)) as ->.
    { pose proof (return_err_same (A := ()) (LustreErr.StatusError (Some e))
        (MkControllerState (volumeLocks s) svc1 (reader s))) as Hs. by rewrite Hr in Hs. }
    split; [intros n _; apply Hread|]. intros ->. status_branch.
Qed.

(** Claim C5.  Deletion is safe and final.  Whatever [DeleteVolume] reports, it leaves every instance alone but the one that the
    volume ID names; if it reports success that instance is gone from the cloud; and a repetition then succeeds
    and changes nothing. *)
Theorem delete_volume_deletes id i s r s' :
  volumeIDToInstance id = Ok i → DeleteVolume id s = (r, s') →
  (∀ n, n ≠ instanceFullName i → read n (service s') = read n (service s)) ∧
  (r = Ok (Some ()) →
     gone (instanceFullName i) (service s') ∧
     ∃ s'', DeleteVolume id s' = (Ok (Some ()), s'') ∧ ∀ n, read n (service s'') = read n (service s')).
Proof.
  intros Hi. unfold DeleteVolume. case_decide as Hl.
  { intros Hr. pose proof (return_status_same (A := ()) InvalidArgument "DeleteVolume volumeID must be provided" s) as Hs.
    rewrite Hr in Hs. cbn in Hs. subst s'. split; [done|]. intros ->. status_branch. }
  rewrite Hi. intros Hr. destruct (decide (id ∈ volumeLocks s)) as [Hin|Hin].
  { rewrite with_lock_held in Hr by done. injection Hr as <- <-. by split. }
  rewrite with_lock_free in Hr by done.
  match type of Hr with context [?m (locked id s)] => change m with (delete_locked id i) in Hr end.
  destruct (delete_locked id i (locked id s)) as [r0 s1] eqn:E. apply delete_locked_effect in E as [Hother Hgone].
  injection Hr as <- <-. cbn. split; [exact Hother|]. intros ->. specialize (Hgone eq_refl). split; [exact Hgone|].
  set (s2 := MkControllerState _ _ _).
  rewrite with_lock_free by (cbn; set_solver). rewrite bind_attempt_call. cbn [service locked].
  destruct (manager_get_gone _ _ Hgone) as (e & He & Hn). change (service s2) with (service s1).
  change (GetInstance i (service s1)) with (Manager.GetInstance i (service s1)).
  destruct (Manager.GetInstance i (service s1)) as [r1 svc1] eqn:Eg. cbn in He. subst r1.
  apply manager_get in Eg as [Hread _]. rewrite Hn. eexists. split; [reflexivity|]. exact Hread.
Qed.
End deletion.

(** ** Updates *)

(** [old] with the fields of the mask from [new]; the driver's masks name labels and capacity only. *)
Definition masked (mask : list string) (new old : lustrepb.Instance) : lustrepb.Instance :=
  lustrepb.MkInstance (lustrepb.Name old) (lustrepb.Network old) (lustrepb.Description old) (lustrepb.State old)
    (if decide ("labels" ∈ mask) then lustrepb.Labels new else lustrepb.Labels old)
    (if decide ("capacity_gib" ∈ mask) then lustrepb.CapacityGib new else lustrepb.CapacityGib old)
    (lustrepb.Filesystem old) (lustrepb.GkeSupportEnabled old) (lustrepb.PerUnitStorageThroughput old)
    (lustrepb.MountPoint old).

(** What the API documents of an update that completes: it changes the fields of the mask, of the instance it names, and the result
    is what can be read then. *)
Class UpdateLaws (S : Type) `{LustreClient S} : Prop := {
  client_update_masked req s op s1 r s2 old :
    client_UpdateInstance req s = (Ok op, s1) → wait_instance op s1 = (Ok r, s2) →
    read (lustrepb.Name (UpdateReqInstance req)) s = Ok (Some old) →
    r = masked (UpdateMask req) (UpdateReqInstance req) old ∧
    read (lustrepb.Name (UpdateReqInstance req)) s2 = Ok (Some r);
  client_update_apart req s op s1 r s2 n :
    client_UpdateInstance req s = (Ok op, s1) → wait_instance op s1 = (Ok r, s2) →
    n ≠ lustrepb.Name (UpdateReqInstance req) → read n s2 = read n s;
}.

(** *** Writes, each with an instance that was read some time before *)
Inductive change : Type :=
| Resizes (instance : ServiceInstance)
| Relabels (instance : ServiceInstance).

Definition changed (c : change) : ServiceInstance := match c with Resizes i | Relabels i => i end.

Definition size_after (cs : list change) (size : Z) : Z :=
  foldl (λ size c, match c with Resizes i => CapacityGib i | Relabels _ => size end) size cs.
Definition labels_after (cs : list change) (labels : gmap string string) : gmap string string :=
  foldl (λ labels c, match c with Relabels i => Labels i | Resizes _ => labels end) labels cs.

(** An instance with another size and other labels. *)
Definition with_changes (size : Z) (labels : gmap string string) (p : lustrepb.Instance) : lustrepb.Instance :=
  masked ["labels"; "capacity_gib"] (Manager.partial_instance "" labels size) p.

Section updates.
Context {S : Type} `{UpdateLaws S}.

Definition write (c : change) : M S goerr () :=
  match c with
  | Resizes i => _ ← Manager.ResizeInstance i; mret ()
  | Relabels i => Manager.UpdateInstance i
  end.

Fixpoint writes (cs : list change) : M S goerr () :=
  match cs with [] => mret () | c :: rest => _ ← write c; writes rest end.

Lemma write_ok c (s s' : S) :
  write c s = (Ok (), s') →
  (∀ p, read (instanceFullName (changed c)) s = Ok (Some p) →
    read (instanceFullName (changed c)) s' =
      Ok (Some (with_changes (size_after [c] (lustrepb.CapacityGib p)) (labels_after [c] (lustrepb.Labels p)) p))) ∧
  (∀ n, n ≠ instanceFullName (changed c) → read n s' = read n s).
Proof.
  destruct c as [i|i]; cbn [write changed]; unfold Manager.ResizeInstance, Manager.UpdateInstance; intros Hr.
  - apply bind_inv in Hr as (j & s0 & Hr & [= <-]). apply bind_inv in Hr as (op & s1 & Hu & Hr).
    apply bind_inv in Hr as (r & s2 & Hw & [= _ <-]). split.
    + intros p Hp. destruct (client_update_masked _ _ _ _ _ _ p Hu Hw Hp) as [-> Hq]. exact Hq.
    + intros n Hn. by apply (client_update_apart _ _ _ _ _ _ n Hu Hw).
  - apply bind_inv in Hr as (op & s1 & Hu & Hr). apply bind_inv in Hr as (r & s2 & Hw & [= <-]). split.
    + intros p Hp. destruct (client_update_masked _ _ _ _ _ _ p Hu Hw Hp) as [-> Hq]. exact Hq.
    + intros n Hn. by apply (client_update_apart _ _ _ _ _ _ n Hu Hw).
Qed.

(** Claim C17.  No update is lost.  After any sequence of completed expansions and labellings of an instance, each with an instance as
    old as it may be, the cloud's instance has the size of the last expansion and the labels of the last labelling, and
    is otherwise as before; the other instances are untouched. *)
Theorem no_lost_update n cs (s s' : S) p :
  Forall (λ c, instanceFullName (changed c) = n) cs →
  writes cs s = (Ok (), s') → read n s = Ok (Some p) →
  read n s' = Ok (Some (with_changes (size_after cs (lustrepb.CapacityGib p)) (labels_after cs (lustrepb.Labels p)) p)) ∧
  ∀ n', n' ≠ n → read n' s' = read n' s.
Proof.
  intros Hcs. revert s p. induction Hcs as [|c cs Hc Hcs IH]; intros s p Hr Hp; cbn [writes] in Hr.
  - injection Hr as <-. split; [|done]. rewrite Hp. by destruct p.
  - apply bind_inv in Hr as ([] & s1 & Hw & Hr). apply write_ok in Hw as [Hw Ha]. rewrite Hc in Hw, Ha.
    destruct (IH s1 _ Hr (Hw p Hp)) as [Hq Hother]. split; [by rewrite Hq|].
    intros n' Hn'. by rewrite Hother, Ha.
Qed.
End updates.

(** ** On a cloud in memory, which shows instances under their names *)
Definition named (n : string) (i : lustrepb.Instance) : lustrepb.Instance :=
  lustrepb.MkInstance n (lustrepb.Network i) (lustrepb.Description i) (lustrepb.State i)
     (lustrepb.Labels i) (lustrepb.CapacityGib i) (lustrepb.Filesystem i) (lustrepb.GkeSupportEnabled i)
     (lustrepb.PerUnitStorageThroughput i) (lustrepb.MountPoint i).

#[local] Instance named_client : LustreClient (gmap string lustrepb.Instance) := {|
  op_handle := string;
  client_CreateInstance := mem_create;
  client_DeleteInstance name := λ s,
    match s !! name with Some _ => (Ok name, delete name s) | None => (Err Fake.not_found, s) end;
  client_UpdateInstance req := λ s,
    let name := lustrepb.Name (UpdateReqInstance req) in
    match s !! name with
    | Some i => (Ok name, <[name := masked (UpdateMask req) (UpdateReqInstance req) i]> s)
    | None => (Err Fake.not_found, s)
    end;
  client_GetInstance name := i ← mem_get name; mret (Some (named name i));
  client_ListInstances _ := λ s, (Ok (MkIterator (map_to_list s).*2 None), s);
  client_ListLocations _ := mret (MkIterator [] None);
  client_ListOperations _ := mret (MkIterator [] None);
  wait_instance name := i ← mem_get name; mret (named name i);
  wait_empty _ := mret ();
|}.
#[local] Existing Instance Manager.service.

Lemma named_read n (s : gmap string lustrepb.Instance) :
  client_GetInstance n s = (match s !! n with Some i => Ok (Some (named n i)) | None => Err Fake.not_found end, s).
Proof. cbn. rewrite bind_unfold. unfold mem_get. by destruct (s !! n). Qed.

#[local] Instance named_deletion : DeletionLaws (gmap string lustrepb.Instance).
Proof.
  split.
  - intros n s r s'. rewrite named_read. destruct (s !! n); [|done]. by intros [= <- <-].
  - intros n n' s. by rewrite named_read.
  - intros n n' s Hn. unfold read. rewrite !named_read. cbn. destruct (s !! n); cbn; [|done]. by rewrite lookup_delete_ne.
  - done.
  - intros n s op s1 s2. cbn. destruct (s !! n); [|done]. intros [= <- <-] [= <-]. exists Fake.not_found.
    split; [|done]. unfold read. by rewrite named_read, lookup_delete_eq.
  - intros n s e s1. cbn. destruct (s !! n) eqn:E; [done|]. intros [= <- <-] _. exists Fake.not_found.
    split; [|done]. unfold read. by rewrite named_read, E.
Qed.

#[local] Instance named_updates : UpdateLaws (gmap string lustrepb.Instance).
Proof.
  split.
  - intros req s op s1 r s2 old. unfold read. rewrite !named_read. cbn [client_UpdateInstance wait_instance named_client].
    destruct (s !! lustrepb.Name (UpdateReqInstance req)) as [i|]; [|done]. intros [= <- <-].
    rewrite bind_unfold. unfold mem_get. rewrite lookup_insert_eq. intros [= <- <-] [= <-]. cbn. rewrite lookup_insert_eq.
    done.
  - intros req s op s1 r s2 n. unfold read. rewrite !named_read. cbn [client_UpdateInstance wait_instance named_client].
    destruct (s !! lustrepb.Name (UpdateReqInstance req)) as [i|]; [|done]. intros [= <- <-].
    rewrite bind_unfold. unfold mem_get. rewrite lookup_insert_eq. intros [= _ <-] Hn. by rewrite lookup_insert_ne.
Qed.

(** Two instances, of which one is deleted. *)
Definition two_instances : controllerState (gmap string lustrepb.Instance) :=
  let i := instance_ref "p" "us-central1-a" in
  MkControllerState ∅ (mem_create (Manager.create_request (i "vol2")) (mem_create (Manager.create_request (i "vol1")) ∅).2).2 [].

Lemma delete_volume_deletes_witness :
  let s' := state_after (DeleteVolume "p/us-central1-a/vol1") two_instances in
  gone "projects/p/locations/us-central1-a/instances/vol1" (service s') ∧
  read "projects/p/locations/us-central1-a/instances/vol2" (service s') =
    read "projects/p/locations/us-central1-a/instances/vol2" (service two_instances) ∧
  is_ok (read "projects/p/locations/us-central1-a/instances/vol2" (service s')) = true.
Proof.
  intros s'.
  destruct (delete_volume_deletes "p/us-central1-a/vol1" (instance_ref "p" "us-central1-a" "vol1") two_instances
    (Ok (Some ())) s') as [Hother Hgone].
  - vm_compute; reflexivity.
  - apply run_state. vm_compute; reflexivity.
  - split; [exact (proj1 (Hgone eq_refl))|]. split; [|vm_compute; reflexivity]. apply Hother. vm_compute. discriminate.
Defined.

(** The expansion read the instance before it was labelled. *)
Lemma no_lost_update_witness :
  let n := "projects/p/locations/us-central1-a/instances/vol1" in
  let stale := instance_ref "p" "us-central1-a" "vol1" in
  let cs := [Relabels (set_Labels {["managed" := "csi"]} stale); Resizes (set_CapacityGib 18000 stale)] in
  let q := read n (state_after (writes cs) (service two_instances)) in
  (∃ p, q = Ok (Some p) ∧ lustrepb.CapacityGib p = 18000 ∧ lustrepb.Labels p = {["managed" := "csi"]}) ∧
  read "projects/p/locations/us-central1-a/instances/vol2" (state_after (writes cs) (service two_instances)) =
    read "projects/p/locations/us-central1-a/instances/vol2" (service two_instances).
Proof.
  intros n stale cs q. assert (∃ p, read n (service two_instances) = Ok (Some p)) as [p Hp] by (eexists; vm_compute; reflexivity).
  destruct (no_lost_update n cs (service two_instances) (state_after (writes cs) (service two_instances)) p) as [Hq Hother].
  - repeat constructor.
  - apply run_state. vm_compute; reflexivity.
  - exact Hp.
  - split; [|apply Hother; discriminate]. eexists. split; [exact Hq|]. split; reflexivity.
Defined.
