(* ===== verification/Network.v ===== *)
(** * Routes for several network interfaces: pkg/network/network.go

    The route manager finds the interfaces that carry Lustre traffic, decides whether to
    use more than one of them, and gives each a routing table of its own.  The
    kernel's netlink interface, the node's labels in Kubernetes and the cloud's metadata are its
    environment. *)
From S2P Require Import Prelude GoStr GoErr Driver.

Local Open Scope string_scope.
Local Open Scope list_scope.
Local Open Scope Z_scope.

(** ** IP addresses (package net)

    An IPv4 address is a 32-bit number, an IPv6 address a 128-bit one.  An IPv6
    address that maps an IPv4 one is that IPv4 address, as [To4] has it. *)
Inductive IP : Type :=
| V4 (addr : Z)
| V6 (addr : Z).

#[export] Instance IP_eq_dec : EqDecision IP.
Proof. solve_decision. Defined.

Definition octet (addr : Z) (i : Z) : Z := Z.land (Z.shiftr addr (8 * i)) 255.

(** [IP.String()] of an IPv4 address *)
Definition dotted (addr : Z) : string :=
  join "." (itoa <$> [octet addr 3; octet addr 2; octet addr 1; octet addr 0]).

(** A decimal field of an IPv4 address: no leading zero, at most 255. *)
Definition parse_field (s : string) : option Z :=
  match s with
  | "" => None
  | String "0" (String _ _) => None
  | _ =>
      if decide (3 < slen s) then None else
      n ← parse_uint s;
      if decide (n ≤ 255) then Some n else None
  end.

Definition parse_ipv4 (s : string) : option Z :=
  match split "." s with
  | [a; b; c; d] =>
      a ← parse_field a; b ← parse_field b; c ← parse_field c; d ← parse_field d;
      Some (((a * 256 + b) * 256 + c) * 256 + d)
  | _ => None
  end.

Fixpoint parse_hex (acc : Z) (s : string) : option Z :=
  match s with
  | "" => Some acc
  | String a s' => v ← hex_value a; parse_hex (acc * 16 + v) s'
  end.

(** The groups of an IPv6 address between colons; the last may be an IPv4 address. *)
Fixpoint parse_groups (groups : list string) : option (list Z) :=
  match groups with
  | [] => Some []
  | [g] =>
      if has_char "." g then
        v ← parse_ipv4 g; Some [Z.shiftr v 16; Z.land v 65535]
      else
      if decide (slen g = 0 ∨ 4 < slen g) then None else v ← parse_hex 0 g; Some [v]
  | g :: rest =>
      if decide (slen g = 0 ∨ 4 < slen g) then None else
      v ← parse_hex 0 g; vs ← parse_groups rest; Some (v :: vs)
  end.

Definition of_groups (groups : list Z) : Z := foldl (λ acc g, acc * 65536 + g) 0 groups.

(** The text around the first [::] of an address. *)
Fixpoint split_ellipsis (s : string) : option (string * string) :=
  match s with
  | String ":" (String ":" s') => Some ("", s')
  | String a s' => '(l, r) ← split_ellipsis s'; Some (String a l, r)
  | "" => None
  end.

Definition colon_groups (s : string) : option (list Z) :=
  if decide (s = "") then Some [] else parse_groups (split ":" s).

Definition parse_ipv6 (s : string) : option Z :=
  match split_ellipsis s with
  | Some (l, r) =>
      if has_char "." l then None else
      ls ← colon_groups l; rs ← colon_groups r;
      let n := (length ls + length rs)%nat in
      if decide (n < 8)%nat then Some (of_groups (ls ++ replicate (8 - n) 0 ++ rs)) else None
  | None =>
      gs ← colon_groups s;
      if decide (length gs = 8%nat) then Some (of_groups gs) else None
  end.

(** [net.ParseIP] *)
Definition ParseIP (s : string) : option IP :=
  if has_char ":" s then
    v ← parse_ipv6 s;
    Some (if decide (Z.shiftr v 32 = 65535) then V4 (Z.land v (2^32 - 1)) else V6 v)
  else V4 <$> parse_ipv4 s.

(** [net.CIDRMask(ones, 32)] and [IP.Mask] with it: nil for an IPv6 address. *)
Definition CIDRMask (ones : Z) : Z := 2^32 - 2^(32 - ones).
Definition ip_mask (ip : IP) (mask : Z) : option Z :=
  match ip with V4 a => Some (Z.land a mask) | V6 _ => None end.
Definition ip_string (ip : option Z) : string :=
  match ip with Some a => dotted a | None => "<nil>" end.

(** An IPv4 network. *)
Record IPNet : Type := MkIPNet { NetIP : Z; Ones : Z }.

#[export] Instance IPNet_eq_dec : EqDecision IPNet.
Proof. solve_decision. Defined.

Definition ipnet_string (n : IPNet) : string := dotted (NetIP n) +:+ "/" +:+ itoa (Ones n).

(** [net.ParseCIDR] for an IPv4 network; the code ignores the error. *)
Definition ParseCIDR (s : string) : option IPNet :=
  match index "/" s with
  | None => None
  | Some i =>
      addr ← parse_ipv4 (str_take i s);
      ones ← parse_uint (str_drop (S i) s);
      if decide (ones ≤ 32) then Some (MkIPNet (Z.land addr (CIDRMask ones)) ones) else None
  end.

(** ** The environment *)

Record Link : Type := MkLink {
  LinkName : string;
  LinkIndex : Z;
  HardwareAddr : string;   (* its [String()] *)
}.

Record Route : Type := MkRoute {
  RouteLinkIndex : Z;
  Dst : option IPNet;
  Gw : option Z;
  RouteTable : Z;
}.

Record Rule : Type := MkRule {
  Table : Z;
  Src : option IPNet;
}.

#[export] Instance Route_eq_dec : EqDecision Route.
Proof. solve_decision. Defined.
#[export] Instance Rule_eq_dec : EqDecision Rule.
Proof. solve_decision. Defined.

(** The [netlinker] interface; every list is that of the IPv4 family. *)
Class Netlinker (S : Type) : Type := {
  LinkByName : string → M S goerr Link;
  AddrList : Link → M S goerr (list Z);
  RouteList : Link → M S goerr (list Route);
  RouteReplace : Route → M S goerr ();
  RuleAdd : Rule → M S goerr ();
  RuleList : M S goerr (list Rule);
  RouteListFiltered : Z → M S goerr (list Route);
  nl_GetStandardNICs : M S goerr (list string);
}.

(** [NodeClient]: the labels of a node. *)
Class NodeClient (S : Type) : Type := {
  GetNodeWithRetry : string → M S goerr (gmap string string);
}.

(** The metadata client of a route manager; [None] is a nil client. *)
Abbreviation MetadataClient := (option (result goerr (list NetworkInterface))).

Definition multiNICLabel := "lustre.csi.storage.gke.io/multi-nic".
Definition multiNICLabelAlias := "lustre.csi.storage.gke.io/multi-rail".
Definition maxTableID : Z := 252.

(** ** The real [GetStandardNICs], on netlink's list of links and on ethtool *)
Section real_netlink.
Context {S : Type} (LinkList : M S goerr (list Link))
  (NewEthtool : M S goerr ()) (DriverName : string → M S goerr string).

Definition standard_driver (driver : string) : bool :=
  bool_decide (driver = "gve") || bool_decide (driver = "virtio_net") || bool_decide (driver = "idpf").

Fixpoint standard_links (links : list Link) : M S goerr (list string) :=
  match links with
  | [] => mret []
  | link :: rest =>
      driver ← attempt (DriverName (LinkName link));
      nics ← standard_links rest;
      mret (match driver with
            | Ok driver => if standard_driver driver then LinkName link :: nics else nics
            | Err _ => nics
            end)
  end.

Definition realNetlink_GetStandardNICs : M S goerr (list string) :=
  links ← attempt LinkList;
  match links with
  | Err err => fail (ErrWrap ("failed to list network interfaces: " +:+ error_text err) err)
  | Ok links =>
      eth ← attempt NewEthtool;
      match eth with
      | Err err => fail (ErrWrap ("failed to create ethtool: " +:+ error_text err) err)
      | Ok _ => standard_links links
      end
  end.
End real_netlink.

(** ** [RouteManager] *)
Section route_manager.
Context {S : Type} `{Netlinker S} `{NodeClient S} (mc : MetadataClient).

Definition metaNICMap (metaNICs : list NetworkInterface) : gmap string NetworkInterface :=
  foldl (λ m metaNIC, <[to_lower (Mac metaNIC) := metaNIC]> m) ∅ metaNICs.

(** The loop of [validateNICs]. *)
Fixpoint valid_nics (primaryNetwork : string) (metaNICMap : gmap string NetworkInterface)
    (nics : list string) : M S goerr (list string) :=
  match nics with
  | [] => mret []
  | nic :: rest =>
      link ← attempt (LinkByName nic);
      valid ← valid_nics primaryNetwork metaNICMap rest;
      mret (match link with
            | Err _ => valid
            | Ok link =>
                match metaNICMap !! to_lower (HardwareAddr link) with
                | Some metaNIC =>
                    if decide (NicNetwork metaNIC = primaryNetwork) then nic :: valid else valid
                | None => valid
                end
            end)
  end.

Definition validateNICs (metadata : result goerr (list NetworkInterface)) (nics : list string)
    : M S goerr (list string) :=
  match metadata with
  | Err err => fail (ErrWrap ("failed to get network interfaces from metadata: " +:+ error_text err) err)
  | Ok [] => fail (ErrText "no network interfaces found in instance metadata; cannot perform VPC validation")
  | Ok ((primary :: _) as metaNICs) => valid_nics (NicNetwork primary) (metaNICMap metaNICs) nics
  end.

(** [sort.Strings] *)
Definition sort_strings (l : list string) : list string := merge_sort String.le l.

Definition GetStandardNICs : M S goerr (list string) :=
  nics ← nl_GetStandardNICs;
  let nics := sort_strings nics in
  if decide (length nics ≤ 1)%nat then mret nics
  else
    match mc with
    | None => fail (ErrText "metadata client is nil, cannot perform VPC validation for multi-NIC setup")
    | Some metadata => validateNICs metadata nics
    end.

(** The loop of [GetPrimaryNIC]. *)
Fixpoint find_mac (primaryMAC : string) (nics : list string) : M S goerr (option string) :=
  match nics with
  | [] => mret None
  | nic :: rest =>
      link ← attempt (LinkByName nic);
      match link with
      | Err _ => find_mac primaryMAC rest
      | Ok link =>
          if decide (to_lower (HardwareAddr link) = primaryMAC) then mret (Some nic)
          else find_mac primaryMAC rest
      end
  end.

Definition GetPrimaryNIC : M S goerr string :=
  match mc with
  | None => fail (ErrText "metadata client is nil, cannot identify primary NIC")
  | Some (Err err) =>
      fail (ErrWrap ("failed to get network interfaces from metadata: " +:+ error_text err) err)
  | Some (Ok []) => fail (ErrText "no network interfaces found in instance metadata")
  | Some (Ok (primary :: _)) =>
      let primaryMAC := to_lower (Mac primary) in
      nics ← wrap "failed to get standard NICs" nl_GetStandardNICs;
      found ← find_mac primaryMAC nics;
      match found with
      | Some nic => mret nic
      | None => fail (ErrText ("no standard NIC found matching primary metadata MAC " +:+ primaryMAC))
      end
  end.

(** The rule for a table and a source address exists already. *)
Definition rule_exists (rule : Rule) (existingRules : list Rule) : bool :=
  existsb (λ r, bool_decide (Table r = Table rule) &&
    match Src r, Src rule with
    | Some src, Some src' => bool_decide (ipnet_string src = ipnet_string src')
    | _, _ => false
    end) existingRules.

Definition lustre_route (link : Link) (ip : IP) (gateway tableID : Z) : Route :=
  let networkInstanceIP := ip_string (ip_mask ip (CIDRMask 16)) +:+ "/16" in
  MkRoute (LinkIndex link) (ParseCIDR networkInstanceIP) (Some gateway) tableID.

Definition configureRoutesForNIC (nicName : string) (nicIPAddr : Z) (instanceIPAddr : string)
    (tableID : Z) : M S goerr () :=
  link ← wrap ("failed to get interface " +:+ nicName) (LinkByName nicName);
  routes ← wrap ("failed to list routes for " +:+ nicName) (RouteList link);
  match head (omap Gw routes) with
  | None => fail (ErrText ("could not find gateway for " +:+ nicName))
  | Some gateway =>
      match ParseIP instanceIPAddr with
      | None => fail (ErrText ("invalid ip address format: " +:+ instanceIPAddr))
      | Some ip =>
          _ ← wrap ("failed to replace/add route for " +:+ nicName)
                (RouteReplace (lustre_route link ip gateway tableID));
          let rule := MkRule tableID (Some (MkIPNet nicIPAddr 32)) in
          existingRules ← wrap "failed to list rules" RuleList;
          if rule_exists rule existingRules then mret ()
          else
            r ← attempt (RuleAdd rule);
            match r with
            | Ok _ => mret ()
            | Err err =>
                if is_exist err then mret ()
                else fail (ErrWrap ("failed to add rule for " +:+ nicName +:+ ": " +:+ error_text err) err)
            end
      end
  end.

Definition GetNICIPAddr (nicName : string) : M S goerr Z :=
  link ← wrap ("could not get link " +:+ nicName) (LinkByName nicName);
  addrs ← wrap ("could not get address for " +:+ nicName) (AddrList link);
  match addrs with
  | [] => fail (ErrText ("could not get address for " +:+ nicName))
  | addr :: _ => mret addr
  end.

Definition ConfigureRoute (nicName instanceIP : string) (tableID : Z) : M S goerr () :=
  nicIPAddr ← wrap ("failed to get IP address for " +:+ nicName) (GetNICIPAddr nicName);
  wrap ("failed to configure routes for " +:+ nicName)
    (configureRoutesForNIC nicName nicIPAddr instanceIP tableID).

(** [true] when the feature is disabled. *)
Definition CheckDisableMultiNIC (nodeID : string) (nics : list string) (disableMultiNIC : bool)
    : M S goerr bool :=
  if decide (length nics ≤ 1)%nat then mret true else
  labels ← GetNodeWithRetry nodeID;
  match
    match labels !! multiNICLabel with
    | Some val => Some val
    | None => labels !! multiNICLabelAlias
    end
  with
  | Some val =>
      match parse_bool val with
      | None => fail (ErrText ("strconv.ParseBool: parsing " +:+ quote val +:+ ": invalid syntax"))
      | Some isMultiNICEnabled => mret (negb isMultiNICEnabled)
      end
  | None => mret disableMultiNIC
  end.

(** The loop over the rules in [isTableFree]: the first rule of the table decides. *)
Fixpoint table_rule (tableID targetIP : Z) (rules : list Rule) : option bool :=
  match rules with
  | [] => None
  | r :: rest =>
      if decide (Table r = tableID) then
        match Src r with
        | Some src => Some (bool_decide (NetIP src = targetIP))
        | None => Some false
        end
      else table_rule tableID targetIP rest
  end.

Definition isTableFree (tableID targetIP : Z) : M S goerr bool :=
  rules ← wrap "failed to list rules" RuleList;
  match table_rule tableID targetIP rules with
  | Some free => mret free
  | None =>
      routes ← wrap ("failed to list routes for table " +:+ itoa tableID) (RouteListFiltered tableID);
      if decide (0 < length routes)%nat then mret false else mret true
  end.

(** The loop of [FindNextFreeTableID], with the number of the tables left. *)
Fixpoint find_table (n : nat) (startID id nicIPAddr : Z) : M S goerr Z :=
  match n with
  | O => fail (ErrText ("no free routing tables found between " +:+ itoa startID +:+ " and " +:+ itoa maxTableID))
  | Datatypes.S n' =>
      usable ← isTableFree id nicIPAddr;
      if (usable : bool) then mret id else find_table n' startID (id + 1) nicIPAddr
  end.

Definition FindNextFreeTableID (startID nicIPAddr : Z) : M S goerr Z :=
  find_table (Z.to_nat (maxTableID - startID + 1)) startID startID nicIPAddr.

(** [setUpMultiNIC] of pkg/csi_driver/node.go: a table and a route for every
    additional interface. *)
Definition initialRouteTableID : Z := 100.

Definition internal {A} (msg : string) (m : M S goerr A) : M S goerr A := λ s,
  let '(r, s') := m s in
  (map_err (λ err, ErrStatus Internal (msg +:+ ": " +:+ error_text err)) r, s').

Fixpoint setUpMultiNIC (ip : string) (AdditionalNics : list string) : M S goerr () :=
  match AdditionalNics with
  | [] => mret ()
  | nicName :: nics =>
      nicIPAddr ← internal "Could not get NIC IP address" (GetNICIPAddr nicName);
      tableID ← internal "Error trying to find a free Table ID"
                  (FindNextFreeTableID initialRouteTableID nicIPAddr);
      _ ← internal "Route configuration for Multi-NIC failed" (ConfigureRoute nicName ip tableID);
      setUpMultiNIC ip nics
  end.
End route_manager.
