(* ===== verification/NetworkSpec.v ===== *)
(** * What the route manager guarantees

    Theorems about Network.v: which interfaces are used, which routing table each gets,
    and the routes and rules that are set up. *)
From S2P Require Import Prelude GoStr GoErr Driver Network.

Local Open Scope string_scope.
Local Open Scope list_scope.
Local Open Scope Z_scope.

(** ** Addresses *)

Definition is_ipv4 (addr : Z) : Prop := 0 ≤ addr < 2^32.

(** Run a decidable check on every number below a bound. *)
Lemma all_below (n : Z) (f : Z → bool) :
  forallb f (Z.of_nat <$> seq 0 (Z.to_nat n)) = true → ∀ x, 0 ≤ x < n → f x = true.
Proof.
  intros Hf x Hx. rewrite forallb_forall in Hf. apply Hf.
  apply list_elem_of_In, list_elem_of_fmap. exists (Z.to_nat x).
  split; [lia|]. apply elem_of_seq. lia.
Qed.

Lemma parse_field_itoa n : 0 ≤ n < 256 → parse_field (itoa n) = Some n ∧ has_char "." (itoa n) = false.
Proof.
  intros Hn.
  pose proof (all_below 256
    (λ n, bool_decide (parse_field (itoa n) = Some n ∧ has_char "." (itoa n) = false))) as Ha.
  specialize (Ha ltac:(vm_compute; reflexivity) n Hn). by apply bool_decide_eq_true in Ha.
Qed.

Lemma octet_range addr i : 0 ≤ octet addr i < 256.
Proof.
  unfold octet. change 255 with (Z.ones 8). rewrite Z.land_ones by lia. apply Z.mod_pos_bound. lia.
Qed.

Lemma octet_div addr i : 0 ≤ i → octet addr i = (addr / 2^(8 * i)) `mod` 256.
Proof.
  intros Hi. unfold octet. change 255 with (Z.ones 8).
  rewrite Z.land_ones by lia. by rewrite Z.shiftr_div_pow2 by lia.
Qed.

Lemma octets_sum addr :
  is_ipv4 addr →
  ((octet addr 3 * 256 + octet addr 2) * 256 + octet addr 1) * 256 + octet addr 0 = addr.
Proof.
  unfold is_ipv4. intros H. rewrite !octet_div by lia.
  change (2^(8 * 3)) with (256 * 256 * 256). change (2^(8 * 2)) with (256 * 256).
  change (2^(8 * 1)) with 256. change (2^(8 * 0)) with 1.
  rewrite <-!Z.div_div by lia. rewrite Z.div_1_r.
  set (a := addr). rewrite (Z.mod_small (a / 256 / 256 / 256) 256).
  - pose proof (Z.div_mod a 256). pose proof (Z.div_mod (a / 256) 256).
    pose proof (Z.div_mod (a / 256 / 256) 256). lia.
  - subst a. rewrite !Z.div_div by lia. split; [apply Z.div_pos; lia|]. apply Z.div_lt_upper_bound; lia.
Qed.

(** Printing an address and reading it back. *)
Lemma parse_ipv4_dotted addr : is_ipv4 addr → parse_ipv4 (dotted addr) = Some addr.
Proof.
  intros H. unfold parse_ipv4, dotted.
  rewrite split_join; [|done|repeat constructor; apply parse_field_itoa, octet_range].
  cbn [fmap list_fmap]. rewrite !(proj1 (parse_field_itoa _ (octet_range _ _))).
  cbn -[Z.mul Z.add octet]. by rewrite octets_sum.
Qed.

Lemma dotted_no_slash addr : has_char "/" (dotted addr) = false.
Proof.
  unfold dotted. rewrite has_char_join by done.
  assert (∀ i, has_char "/" (itoa (octet addr i)) = false) as Hs.
  { intros i. pose proof (all_below 256 (λ n, negb (has_char "/" (itoa n)))
      ltac:(vm_compute; reflexivity) _ (octet_range addr i)) as Hn. by apply negb_true_iff in Hn. }
  cbn. by rewrite !Hs.
Qed.

(** The /16 network of an address. *)
Definition net16 (addr : Z) : Z := addr - addr `mod` 65536.

Lemma mask_land a n : 0 ≤ n ≤ 32 → is_ipv4 a → Z.land a (CIDRMask n) = a - a `mod` 2^(32 - n).
Proof.
  intros Hn Ha. unfold CIDRMask.
  assert (2^32 - 2^(32 - n) = Z.shiftl (Z.ones n) (32 - n)) as ->.
  { rewrite Z.shiftl_mul_pow2, Z.ones_equiv by lia.
    replace (2^32) with (2^n * 2^(32 - n)) by (rewrite <-Z.pow_add_r by lia; f_equal; lia). lia. }
  assert (a - a `mod` 2^(32 - n) = Z.shiftl (Z.shiftr a (32 - n)) (32 - n)) as ->.
  { rewrite Z.shiftl_mul_pow2, Z.shiftr_div_pow2 by lia.
    pose proof (Z.div_mod a (2^(32 - n)) ltac:(lia)). lia. }
  apply Z.bits_inj_iff'. intros k Hk. rewrite Z.land_spec, !Z.shiftl_spec by lia.
  destruct (decide (k < 32 - n)) as [Hl|Hl].
  - rewrite !(Z.testbit_neg_r _ (k - (32 - n))) by lia. by rewrite andb_false_r.
  - rewrite Z.shiftr_spec by lia. replace (k - (32 - n) + (32 - n)) with k by lia.
    destruct (decide (k < 32)).
    + rewrite Z.ones_spec_low by lia. by rewrite andb_true_r.
    + rewrite Z.ones_spec_high by lia. rewrite andb_false_r.
      symmetry. apply Z.bits_above_log2; [unfold is_ipv4 in Ha; lia|].
      destruct (decide (a = 0)) as [->|]; [cbn; lia|].
      apply Z.log2_lt_pow2; unfold is_ipv4 in Ha; [lia|]. 
      apply Z.lt_le_trans with (2^32); [lia|]. apply Z.pow_le_mono_r; lia.
Qed.

Lemma net16_ipv4 a : is_ipv4 a → is_ipv4 (net16 a).
Proof. unfold is_ipv4, net16. intros. pose proof (Z.mod_pos_bound a 65536). pose proof (Z.mod_le a 65536 ltac:(lia) ltac:(lia)). lia. Qed.

(** The route for an instance at an IPv4 address goes to its /16 network. *)
Lemma lustre_route_v4 link a gateway table :
  is_ipv4 a →
  lustre_route link (V4 a) gateway table =
    MkRoute (LinkIndex link) (Some (MkIPNet (net16 a) 16)) (Some gateway) table.
Proof.
  intros Ha. unfold lustre_route. f_equal. cbn [ip_mask ip_string].
  rewrite mask_land by (done || lia). change (2^(32 - 16)) with 65536.
  fold (net16 a). pose proof (net16_ipv4 a Ha) as Hn.
  unfold ParseCIDR. change "/16" with (String "/" "16").
  rewrite index_app by apply dotted_no_slash.
  rewrite take_app_length, parse_ipv4_dotted by done. cbn [mbind option_bind].
  assert (str_drop (S (String.length (dotted (net16 a)))) (dotted (net16 a) +:+ "/16") = "16") as ->.
  { generalize (dotted (net16 a)). intros s. induction s as [|x s IH]; [done|exact IH]. }
  change (parse_uint "16") with (Some 16). cbn [mbind option_bind].
  rewrite decide_True by lia. rewrite mask_land by (done || lia).
  do 2 f_equal. unfold net16. change (2^(32 - 16)) with 65536.
  rewrite Zminus_mod_idemp_r, Z.sub_diag, Zmod_0_l. lia.
Qed.

Lemma dotted_inj a b : is_ipv4 a → is_ipv4 b → dotted a = dotted b → a = b.
Proof.
  intros Ha Hb E. apply (f_equal parse_ipv4) in E.
  rewrite !parse_ipv4_dotted in E by done. by injection E.
Qed.

(** ** The kernel's side

    What netlink documents: listing changes nothing; a rule that is added is in the list
    and the others keep their order; a rule is refused as existing only if it is
    there; replacing a route adds it to its own table and leaves the rules
    alone. *)
Class NetlinkerLaws (S : Type) `{Netlinker S} : Type := {
  rules : S → list Rule;
  table_routes : S → Z → list Route;
  rule_list s : RuleList s = (Ok (rules s), s);
  route_list_filtered id s : RouteListFiltered id s = (Ok (table_routes s id), s);
  link_reads n s : state_after (LinkByName n) s = s;
  addr_reads l s : state_after (AddrList l) s = s;
  route_reads l s : state_after (RouteList l) s = s;
  route_replace r s s' :
    RouteReplace r s = (Ok (), s') →
    rules s' = rules s ∧ r ∈ table_routes s' (RouteTable r) ∧
    ∀ id, id ≠ RouteTable r → table_routes s' id = table_routes s id;
  rule_add r s s' :
    RuleAdd r s = (Ok (), s') →
    (∃ l1 l2, rules s = l1 ++ l2 ∧ rules s' = l1 ++ r :: l2) ∧
    ∀ id, table_routes s' id = table_routes s id;
  rule_add_exists r s e s' :
    RuleAdd r s = (Err e, s') → is_exist e = true → r ∈ rules s ∧ s' = s;
}.

(** A table an address may use: the first rule of the table is the address's, or the
    table has neither rules nor routes. *)
Definition usable (rs : list Rule) (routes : list Route) (id ip : Z) : Prop :=
  (∃ l1 r l2 src, rs = l1 ++ r :: l2 ∧ Forall (λ r, Table r ≠ id) l1 ∧ Table r = id ∧
     Src r = Some src ∧ NetIP src = ip) ∨
  (Forall (λ r, Table r ≠ id) rs ∧ routes = []).

Lemma table_rule_None id ip rs : table_rule id ip rs = None ↔ Forall (λ r, Table r ≠ id) rs.
Proof.
  induction rs as [|r rs IH]; cbn; [by rewrite Forall_nil|].
  rewrite Forall_cons, <-IH. case_decide; [|tauto]. destruct (Src r); naive_solver.
Qed.

Lemma table_rule_Some id ip rs b :
  table_rule id ip rs = Some b ↔
  ∃ l1 r l2, rs = l1 ++ r :: l2 ∧ Forall (λ r, Table r ≠ id) l1 ∧ Table r = id ∧
    (b = true ↔ ∃ src, Src r = Some src ∧ NetIP src = ip).
Proof.
  induction rs as [|r rs IH]; cbn.
  { split; [done|]. by intros ([|??] & ? & ? & ? & _). }
  split.
  - case_decide as Ht.
    + intros Hb. exists [], r, rs. split_and!; [done|by constructor|done|].
      destruct (Src r) as [src|]; injection Hb as <-.
      * rewrite bool_decide_eq_true. naive_solver.
      * naive_solver.
    + intros (l1 & r' & l2 & -> & Hf & ?)%IH. exists (r :: l1), r', l2.
      split_and!; [done|by constructor|naive_solver..].
  - intros ([|r' l1] & r0 & l2 & Heq & Hf & Ht & Hb); cbn in Heq; simplify_eq.
    + rewrite decide_True by done. destruct (Src r0) as [src|].
      * f_equal. apply eq_true_iff_eq. rewrite bool_decide_eq_true, Hb. naive_solver.
      * destruct b; [|done]. destruct Hb as [(? & ? & _) _]; done.
    + apply Forall_cons in Hf as [Hr Hf]. rewrite decide_False by done. apply IH. naive_solver.
Qed.

Lemma usable_table_rule rs routes id ip :
  usable rs routes id ip ↔
  match table_rule id ip rs with Some b => b = true | None => routes = [] end.
Proof.
  unfold usable. destruct (table_rule id ip rs) as [b|] eqn:E.
  - apply table_rule_Some in E as (l1 & r & l2 & -> & Hf & Ht & ->). split.
    + intros [(l1' & r' & l2' & src & Heq & Hf' & Ht' & Hs)|[Hf' _]].
      * assert (l1 = l1' ∧ r = r' ∧ l2 = l2') as (<- & <- & <-); [|eauto].
        revert l1' Heq Hf'. clear -Hf Ht Ht'. induction l1 as [|x l1 IH]; intros [|y l1']; cbn;
          intros; simplify_eq; decompose_Forall_hyps; [done..|].
        by edestruct (IH ltac:(done) l1') as (-> & -> & ->).
      * apply Forall_app in Hf' as [_ [Hn _]%Forall_cons]. done.
    + intros (src & Hs & Hi). left. exists l1, r, l2, src. done.
  - pose proof (proj1 (table_rule_None _ _ _) E) as Hf. split; [|auto].
    intros [(l1 & r & l2 & src & -> & _ & Ht & _)|[_ ?]]; [|done].
    apply Forall_app in Hf as [_ [Hn _]%Forall_cons]. done.
Qed.

Section tables.
Context {S : Type} `{NetlinkerLaws S}.

Definition free_for (s : S) (ip id : Z) : Prop := usable (rules s) (table_routes s id) id ip.

Lemma isTableFree_spec id ip s :
  ∃ b, isTableFree id ip s = (Ok b, s) ∧ (b = true ↔ free_for s ip id).
Proof.
  unfold isTableFree, free_for, wrap. rewrite bind_unfold, rule_list. cbn [map_err].
  setoid_rewrite usable_table_rule. destruct (table_rule id ip (rules s)) as [b|]; [by exists b|].
  rewrite bind_unfold, route_list_filtered. cbn [map_err].
  case_decide as Hl; [exists false|exists true]; (split; [done|]);
    destruct (table_routes s id); cbn in Hl; (done || lia).
Qed.

Lemma find_table_spec n start id ip s :
  match find_table n start id ip s with
  | (Ok j, s') => s' = s ∧ id ≤ j < id + Z.of_nat n ∧ free_for s ip j ∧ ∀ k, id ≤ k < j → ¬ free_for s ip k
  | (Err _, s') => s' = s ∧ ∀ k, id ≤ k < id + Z.of_nat n → ¬ free_for s ip k
  end.
Proof.
  revert id. induction n as [|n IH]; intros id; cbn [find_table]; [split; [done|lia]|].
  rewrite bind_unfold. destruct (isTableFree_spec id ip s) as (b & -> & Hb). destruct b.
  - split_and!; [done|lia|lia|by apply Hb|lia].
  - assert (¬ free_for s ip id) as Hn by (intros Hf; apply Hb in Hf; done).
    specialize (IH (id + 1)). destruct (find_table n start (id + 1) ip s) as [[j|] s'].
    + destruct IH as (-> & ? & ? & Hk). split_and!; [done|lia|lia|done|].
      intros k ?. destruct (decide (k = id)) as [->|]; [done|]. apply Hk. lia.
    + destruct IH as (-> & Hk). split; [done|].
      intros k ?. destruct (decide (k = id)) as [->|]; [done|]. apply Hk. lia.
Qed.

Lemma FindNextFreeTableID_spec start ip s :
  match FindNextFreeTableID start ip s with
  | (Ok id, s') => s' = s ∧ start ≤ id ≤ maxTableID ∧ free_for s ip id ∧
      ∀ k, start ≤ k < id → ¬ free_for s ip k
  | (Err _, s') => s' = s ∧ ∀ k, start ≤ k ≤ maxTableID → ¬ free_for s ip k
  end.
Proof.
  unfold FindNextFreeTableID.
  pose proof (find_table_spec (Z.to_nat (maxTableID - start + 1)) start start ip s) as Hf.
  destruct (find_table _ start start ip s) as [[j|] s'].
  - destruct Hf as (? & ? & ? & ?). split_and!; try done; lia.
  - destruct Hf as (? & Hk). split; [done|]. intros. apply Hk. lia.
Qed.

(** Choosing a routing table: the table is the lowest one from [startID] on that the address
    may use, it is never one of the reserved tables above 252, and the search fails only when
    every table up to 252 is taken; nothing is changed by it. *)
Theorem find_next_free_table start ip s :
  match FindNextFreeTableID start ip s with
  | (Ok id, s') => s' = s ∧ start ≤ id ≤ 252 ∧ usable (rules s) (table_routes s id) id ip ∧
      ∀ k, start ≤ k < id → ¬ usable (rules s) (table_routes s k) k ip
  | (Err _, s') => s' = s ∧ ∀ k, start ≤ k ≤ 252 → ¬ usable (rules s) (table_routes s k) k ip
  end.
Proof. apply FindNextFreeTableID_spec. Qed.
End tables.

(** ** Routes and rules *)

Lemma ipnet_string_inj n n' :
  is_ipv4 (NetIP n) → is_ipv4 (NetIP n') → ipnet_string n = ipnet_string n' → n = n'.
Proof.
  intros Hn Hn' E. unfold ipnet_string in E.
  assert (∀ a o, split "/" (dotted a +:+ "/" +:+ itoa o) = dotted a :: split "/" (itoa o)) as Hs.
  { intros a o. rewrite app_char_str, split_app_sep by apply dotted_no_slash. done. }
  apply (f_equal (split "/")) in E. rewrite !Hs in E. injection E as Hd Ho.
  apply dotted_inj in Hd; [|done..].
  apply (f_equal (join "/")) in Ho. rewrite !join_split in Ho.
  apply itoa_inj in Ho. destruct n, n'; cbn in *. by subst.
Qed.

(** The rules of a kernel have IPv4 sources. *)
Definition rules_ipv4 (rs : list Rule) : Prop :=
  Forall (λ r, match Src r with Some src => is_ipv4 (NetIP src) | None => True end) rs.

Lemma rule_exists_spec rule src rs :
  Src rule = Some src → is_ipv4 (NetIP src) → rules_ipv4 rs →
  rule_exists rule rs = true ↔ rule ∈ rs.
Proof.
  intros Hs Hi Hf. unfold rule_exists. rewrite existsb_exists. setoid_rewrite <-list_elem_of_In. split.
  - intros (r & Hin & [Ht Hr]%andb_true_iff). apply bool_decide_eq_true in Ht.
    unfold rules_ipv4 in Hf. rewrite Forall_forall in Hf. specialize (Hf r Hin).
    rewrite Hs in Hr. destruct (Src r) as [src'|] eqn:Er; [|done].
    apply bool_decide_eq_true, ipnet_string_inj in Hr; [|done..].
    destruct r, rule; cbn in *. by subst.
  - intros Hin. exists rule. split; [done|]. rewrite Hs. by rewrite !bool_decide_true.
Qed.

Lemma table_rule_insert id ip l1 r l2 :
  Table r ≠ id → table_rule id ip (l1 ++ r :: l2) = table_rule id ip (l1 ++ l2).
Proof.
  intros Hr. induction l1 as [|x l1 IH]; cbn; [by rewrite decide_False|]. by rewrite IH.
Qed.

Lemma table_rule_own id ip l1 l2 o :
  table_rule id ip (l1 ++ l2) ≠ Some false →
  table_rule id ip (l1 ++ MkRule id (Some (MkIPNet ip o)) :: l2) = Some true.
Proof.
  induction l1 as [|x l1 IH]; cbn.
  - intros _. rewrite decide_True by done. by rewrite bool_decide_true.
  - case_decide; [|done]. destruct (Src x) as [src|]; [|done]. by case_bool_decide.
Qed.

Section routes.
Context {S : Type} `{NetlinkerLaws S}.

Lemma wrap_ok {A} msg (m : M S goerr A) s a s' : wrap msg m s = (Ok a, s') ↔ m s = (Ok a, s').
Proof. unfold wrap. destruct (m s) as [[]]; cbn; naive_solver. Qed.

Lemma reads_ok {A} (m : M S goerr A) s a s' : state_after m s = s → m s = (Ok a, s') → s' = s.
Proof. unfold state_after. intros Hs Hm. by rewrite Hm in Hs. Qed.

Definition nic_rule (a table : Z) : Rule := MkRule table (Some (MkIPNet a 32)).

Lemma GetNICIPAddr_reads nic s : state_after (GetNICIPAddr nic) s = s.
Proof.
  unfold GetNICIPAddr, state_after. rewrite bind_unfold. unfold wrap.
  pose proof (link_reads nic s) as Hl. unfold state_after in Hl.
  destruct (LinkByName nic s) as [[link|] s1]; cbn in *; subst; [|done].
  rewrite bind_unfold. pose proof (addr_reads link s) as Ha. unfold state_after in Ha.
  destruct (AddrList link s) as [[[|]|] s1]; by cbn in *; subst.
Qed.

(** What a successful configuration did. *)
Inductive configured (nic : string) (a : Z) (ip : string) (table : Z) (s s' : S) : Prop :=
| configured_intro link rs gw ipaddr s1 :
    LinkByName nic s = (Ok link, s) → RouteList link s = (Ok rs, s) →
    head (omap Gw rs) = Some gw → ParseIP ip = Some ipaddr →
    RouteReplace (lustre_route link ipaddr gw table) s = (Ok (), s1) →
    (if rule_exists (nic_rule a table) (rules s1) then s' = s1
     else RuleAdd (nic_rule a table) s1 = (Ok (), s') ∨ (nic_rule a table ∈ rules s1 ∧ s' = s1)) →
    configured nic a ip table s s'.

Lemma configureRoutesForNIC_ok nic a ip table s s' :
  configureRoutesForNIC nic a ip table s = (Ok (), s') → configured nic a ip table s s'.
Proof.
  unfold configureRoutesForNIC. rewrite bind_unfold.
  destruct (wrap _ (LinkByName nic) s) as [[link|] s1] eqn:El; [|done].
  apply wrap_ok in El. pose proof (reads_ok _ _ _ _ (link_reads nic s) El) as ->.
  rewrite bind_unfold. destruct (wrap _ (RouteList link) s) as [[rs|] s1] eqn:Er; [|done].
  apply wrap_ok in Er. pose proof (reads_ok _ _ _ _ (route_reads link s) Er) as ->.
  destruct (head (omap Gw rs)) as [gw|] eqn:Eg; [|done].
  destruct (ParseIP ip) as [ipaddr|] eqn:Ep; [|done].
  rewrite bind_unfold. destruct (wrap _ (RouteReplace _) s) as [[[]|] s1] eqn:Err; [|done].
  apply wrap_ok in Err. rewrite bind_unfold. unfold wrap. rewrite rule_list. cbn [map_err].
  fold (nic_rule a table). intros Hr. econstructor; [done..|].
  destruct (rule_exists _ _); [by injection Hr|].
  rewrite bind_unfold in Hr. unfold attempt in Hr.
  destruct (RuleAdd _ s1) as [[[]|e] s2] eqn:Ea; [injection Hr as <-; auto|].
  destruct (is_exist e) eqn:Ee; [|done]. injection Hr as <-.
  apply rule_add_exists in Ea as [? ->]; auto.
Qed.

Lemma ConfigureRoute_ok nic ip table s s' :
  ConfigureRoute nic ip table s = (Ok (), s') →
  ∃ a, GetNICIPAddr nic s = (Ok a, s) ∧ configured nic a ip table s s'.
Proof.
  unfold ConfigureRoute. rewrite bind_unfold.
  destruct (wrap _ (GetNICIPAddr nic) s) as [[a|] s1] eqn:E; [|done].
  apply wrap_ok in E. pose proof (reads_ok _ _ _ _ (GetNICIPAddr_reads nic s) E) as ->.
  rewrite wrap_ok. intros Hc%configureRoutesForNIC_ok. eauto.
Qed.

(** How the rules and the other tables change. *)
Lemma configured_rules nic a ip table s s' :
  is_ipv4 a → rules_ipv4 (rules s) → configured nic a ip table s s' →
  nic_rule a table ∈ rules s' ∧
  (rules s' = rules s ∨ ∃ l1 l2, rules s = l1 ++ l2 ∧ rules s' = l1 ++ nic_rule a table :: l2) ∧
  ∀ id, id ≠ table → table_routes s' id = table_routes s id.
Proof.
  intros Ha Hf [link rs gw ipaddr s1 _ _ _ _ Hr Hrule].
  apply route_replace in Hr as (Hrs & _ & Ht).
  assert (∀ id, id ≠ table → table_routes s1 id = table_routes s id) as Ht1 by (intros; by apply Ht).
  destruct (rule_exists _ _) eqn:Ex.
  - subst s'. rewrite Hrs in *. apply (rule_exists_spec _ (MkIPNet a 32)) in Ex; [|done..]. auto.
  - destruct Hrule as [Hadd|[Hin ->]]; [|rewrite Hrs in *; auto].
    apply rule_add in Hadd as [(l1 & l2 & E1 & E2) Ht2]. rewrite E2. rewrite Hrs in E1.
    split_and!; [set_solver|right; eauto|]. intros id ?. rewrite Ht2. by apply Ht1.
Qed.

(** A configured interface: a successful [ConfigureRoute] leaves, in the table it was
    given, a route to the /16 network of the Lustre instance through the
    interface's gateway, and a rule that sends the traffic from the interface's
    address to that table; all rules there were are kept, and no other table changes. *)
Theorem configure_route nic ip addr table s s' :
  ConfigureRoute nic ip table s = (Ok (), s') →
  ParseIP ip = Some (V4 addr) → is_ipv4 addr → rules_ipv4 (rules s) →
  ∃ a link rs gw,
    GetNICIPAddr nic s = (Ok a, s) ∧ LinkByName nic s = (Ok link, s) ∧
    RouteList link s = (Ok rs, s) ∧ head (omap Gw rs) = Some gw ∧
    MkRoute (LinkIndex link) (Some (MkIPNet (net16 addr) 16)) (Some gw) table ∈ table_routes s' table ∧
    (is_ipv4 a → MkRule table (Some (MkIPNet a 32)) ∈ rules s' ∧ rules s ⊆ rules s' ∧
     ∀ id, id ≠ table → table_routes s' id = table_routes s id).
Proof.
  intros (a & Hnic & Hc)%ConfigureRoute_ok Hip Haddr Hf. exists a.
  destruct (Hc) as [link rs gw ipaddr s1 Hl Hrl Hg Hp Hr Hrule].
  rewrite Hip in Hp. injection Hp as <-. rewrite lustre_route_v4 in Hr by done.
  exists link, rs, gw. split_and!; [done..| |].
  - apply route_replace in Hr as (_ & Hin & _). cbn in Hin.
    destruct (rule_exists _ _); [by subst|]. destruct Hrule as [Hadd|[_ ->]]; [|done].
    apply rule_add in Hadd as [_ Ht]. by rewrite Ht.
  - intros Ha. destruct (configured_rules _ _ _ _ _ _ Ha Hf Hc) as (Hin & Hrs & Ht).
    split_and!; [done| |done]. destruct Hrs as [->|(l1 & l2 & -> & ->)]; set_solver.
Qed.

(** An interface keeps its table: once the table chosen for its address is configured,
    choosing again gives the same table, so that staging more volumes takes no
    more tables. *)
Theorem table_reused nic ip a table s s' :
  FindNextFreeTableID initialRouteTableID a s = (Ok table, s) →
  GetNICIPAddr nic s = (Ok a, s) → is_ipv4 a → rules_ipv4 (rules s) →
  ConfigureRoute nic ip table s = (Ok (), s') →
  FindNextFreeTableID initialRouteTableID a s' = (Ok table, s').
Proof.
  intros Hfind Hnic Ha Hf (a' & Hnic' & Hc)%ConfigureRoute_ok.
  rewrite Hnic in Hnic'. injection Hnic' as <-.
  destruct (configured_rules _ _ _ _ _ _ Ha Hf Hc) as (Hin & Hrs & Ht).
  pose proof (FindNextFreeTableID_spec initialRouteTableID a s) as Hs. rewrite Hfind in Hs.
  destruct Hs as (_ & Hb & Hfree & Hleast).
  assert (∀ k, k ≠ table → free_for s' a k ↔ free_for s a k) as Hother.
  { intros k Hk. unfold free_for. rewrite !usable_table_rule, Ht by done.
    destruct Hrs as [->|(l1 & l2 & -> & ->)]; [done|]. by rewrite table_rule_insert. }
  assert (free_for s' a table) as Hown.
  { unfold free_for in *. rewrite usable_table_rule in *.
    assert (table_rule table a (rules s') = Some true) as ->; [|done].
    destruct Hrs as [Hrs|(l1 & l2 & Hrs & Hrs')].
    - rewrite Hrs in *. destruct (table_rule table a (rules s)) as [b|] eqn:E; [by subst|].
      apply table_rule_None in E. rewrite Forall_forall in E. by destruct (E _ Hin).
    - rewrite Hrs'. apply table_rule_own. rewrite <-Hrs.
      by destruct (table_rule table a (rules s)) as [[]|]. }
  pose proof (FindNextFreeTableID_spec initialRouteTableID a s') as Hs'.
  destruct (FindNextFreeTableID _ _ s') as [[id|] s''].
  - destruct Hs' as (-> & Hb' & Hfree' & Hleast'). do 2 f_equal.
    destruct (Z.lt_trichotomy id table) as [Hlt|[?|Hlt]]; [|done|].
    + exfalso. apply (Hleast id); [lia|]. apply Hother; [lia|done].
    + exfalso. apply (Hleast' table); [lia|done].
  - destruct Hs' as (_ & Hn). exfalso. apply (Hn table); [lia|done].
Qed.
End routes.

(** ** Which interfaces *)

#[export] Instance string_le_antisymm : AntiSymm (=) String.le.
Proof. apply _. Qed.

Lemma sort_strings_perm l l' : l ≡ₚ l' → sort_strings l = sort_strings l'.
Proof.
  intros Hp. unfold sort_strings. apply (StronglySorted_unique String.le).
  - apply StronglySorted_merge_sort; apply _.
  - apply StronglySorted_merge_sort; apply _.
  - by rewrite !merge_sort_Permutation.
Qed.

Section nics.
Context {S : Type} `{Netlinker S}.
Context (link_of : string → result goerr Link).
Hypothesis link_by_name : ∀ n s, LinkByName n s = (link_of n, s).

(** An interface whose MAC address the metadata lists in the primary interface's network. *)
Definition in_vpc (metaNICs : list NetworkInterface) (primary : NetworkInterface) (nic : string) : Prop :=
  match link_of nic with
  | Ok link =>
      match metaNICMap metaNICs !! to_lower (HardwareAddr link) with
      | Some m => NicNetwork m = NicNetwork primary
      | None => False
      end
  | Err _ => False
  end.

#[export] Instance in_vpc_dec metaNICs primary nic : Decision (in_vpc metaNICs primary nic).
Proof. unfold in_vpc. repeat case_match; apply _. Defined.

Lemma valid_nics_eq metaNICs primary nics s :
  valid_nics (NicNetwork primary) (metaNICMap metaNICs) nics s =
    (Ok (filter (in_vpc metaNICs primary) nics), s).
Proof.
  induction nics as [|nic nics IH]; cbn [valid_nics]; [done|].
  rewrite bind_unfold. unfold attempt. rewrite link_by_name, bind_unfold, IH.
  unfold mret, M_ret. do 2 f_equal. rewrite filter_cons.
  case_decide as Hd; unfold in_vpc in Hd; repeat case_match; try done; case_decide; done.
Qed.

(** The interfaces that carry Lustre traffic: on a node with two or more standard interfaces,
    those in the VPC network of the primary interface, in the order of their names,
    whatever order the node lists them in. *)
Theorem standard_nics_in_vpc primary rest nics s s1 :
  nl_GetStandardNICs s = (Ok nics, s1) → (2 ≤ length nics)%nat →
  GetStandardNICs (Some (Ok (primary :: rest))) s =
    (Ok (filter (in_vpc (primary :: rest) primary) (sort_strings nics)), s1) ∧
  ∀ nics', nics' ≡ₚ nics → sort_strings nics' = sort_strings nics.
Proof.
  intros Hn Hl. split; [|intros; by apply sort_strings_perm].
  unfold GetStandardNICs. rewrite bind_unfold, Hn.
  assert (length (sort_strings nics) = length nics) as E.
  { unfold sort_strings. by rewrite merge_sort_Permutation. }
  cbn zeta. rewrite decide_False by (rewrite E; lia).
  apply (valid_nics_eq (primary :: rest) primary).
Qed.
End nics.

(** ** Witnesses: a node with two interfaces *)

Record node_net : Type := MkNodeNet {
  net_rules : list Rule;
  net_routes : list Route;
}.

Definition net_link (name : string) : result goerr Link :=
  if decide (name = "eth0") then Ok (MkLink "eth0" 2 "42:01:0a:00:00:02")
  else if decide (name = "eth1") then Ok (MkLink "eth1" 3 "42:01:0a:00:00:03")
  else Err (ErrText "Link not found").

Definition net_addr (link : Link) : Z := if decide (LinkIndex link = 2) then 167772162 else 167772163.

#[export] Instance node_netlink : Netlinker node_net := {|
  LinkByName name := lift (net_link name);
  AddrList link := mret [net_addr link];
  RouteList link := mret [MkRoute (LinkIndex link) None (Some 167772161) 254];
  RouteReplace r := λ s, (Ok (), MkNodeNet (net_rules s) (r :: filter (λ r', RouteTable r' ≠ RouteTable r) (net_routes s)));
  RuleAdd r := λ s,
    if decide (r ∈ net_rules s) then (Err (ErrPath "netlink" "rule" EEXIST), s)
    else (Ok (), MkNodeNet (r :: net_rules s) (net_routes s));
  RuleList := gets net_rules;
  RouteListFiltered id := gets (λ s, filter (λ r, RouteTable r = id) (net_routes s));
  nl_GetStandardNICs := mret ["eth1"; "eth0"];
|}.

#[export] Instance node_netlink_laws : NetlinkerLaws node_net.
Proof.
  refine {| rules := net_rules; table_routes s id := filter (λ r, RouteTable r = id) (net_routes s) |};
    try done.
  - intros r s s' [= <-]. cbn [net_rules net_routes]. split_and!; [done| |].
    + rewrite filter_cons_True by done. set_solver.
    + intros id Hid. rewrite filter_cons_False by congruence.
      rewrite list_filter_filter. apply list_filter_iff. naive_solver congruence.
  - intros r s s'. cbn. case_decide; [done|]. intros [= <-]. split; [|done]. by exists [], (net_rules s).
  - intros r s e s'. cbn. case_decide; [|done]. intros [= <- <-] _. done.
Defined.

Definition ex_net : node_net := MkNodeNet [MkRule 100 (Some (MkIPNet 167772164 32)); MkRule 254 None] [].
Definition ex_nics : list NetworkInterface :=
  [MkNetworkInterface "vpc-a" "42:01:0A:00:00:02"; MkNetworkInterface "vpc-b" "42:01:0a:00:00:03"].
Definition ex_net' : node_net := state_after (ConfigureRoute "eth0" "10.1.2.3" 101) ex_net.

Lemma configure_route_witness :
  ∃ a link rs gw,
    GetNICIPAddr "eth0" ex_net = (Ok a, ex_net) ∧ LinkByName "eth0" ex_net = (Ok link, ex_net) ∧
    RouteList link ex_net = (Ok rs, ex_net) ∧ head (omap Gw rs) = Some gw ∧
    MkRoute (LinkIndex link) (Some (MkIPNet (net16 167838211) 16)) (Some gw) 101 ∈ table_routes ex_net' 101 ∧
    (is_ipv4 a → MkRule 101 (Some (MkIPNet a 32)) ∈ rules ex_net' ∧ rules ex_net ⊆ rules ex_net' ∧
     ∀ id, id ≠ 101 → table_routes ex_net' id = table_routes ex_net id).
Proof.
  refine (configure_route "eth0" "10.1.2.3" 167838211 101 ex_net ex_net' _ _ _ _); [vm_compute; reflexivity..| |].
  - unfold is_ipv4. lia.
  - repeat constructor; vm_compute; congruence.
Defined.

Lemma table_reused_witness :
  FindNextFreeTableID initialRouteTableID 167772162 ex_net' = (Ok 101, ex_net').
Proof.
  refine (table_reused "eth0" "10.1.2.3" 167772162 101 ex_net ex_net' _ _ _ _ _).
  - vm_compute. reflexivity.
  - vm_compute. reflexivity.
  - unfold is_ipv4. lia.
  - repeat constructor; vm_compute; congruence.
  - vm_compute. reflexivity.
Defined.

Lemma standard_nics_in_vpc_witness :
  GetStandardNICs (Some (Ok ex_nics)) ex_net =
    (Ok (filter (in_vpc net_link ex_nics (MkNetworkInterface "vpc-a" "42:01:0A:00:00:02"))
           (sort_strings ["eth1"; "eth0"])), ex_net).
Proof.
  refine (proj1 (standard_nics_in_vpc net_link _ (MkNetworkInterface "vpc-a" "42:01:0A:00:00:02")
    [MkNetworkInterface "vpc-b" "42:01:0a:00:00:03"] ["eth1"; "eth0"] ex_net ex_net _ _)).
  - reflexivity.
  - reflexivity.
  - cbn. lia.
Defined.

Example ex_standard_nics :
  result_in (GetStandardNICs (Some (Ok ex_nics))) ex_net = Ok ["eth0"].
Proof. vm_compute. reflexivity. Qed.
