(* ===== verification/Sha256.v ===== *)
(** * SHA-256 (crypto/sha256) and [computeHash] of pkg/csi_driver/utils.go *)
From S2P Require Import Prelude GoStr.

Local Open Scope string_scope.
Local Open Scope list_scope.
Local Open Scope Z_scope.

(** ** 32-bit words *)
Definition w32 (z : Z) : Z := Z.land z (2^32 - 1).
Definition rotr (n x : Z) : Z := Z.lor (Z.shiftr x n) (w32 (Z.shiftl x (32 - n))).
Definition xor3 (a b c : Z) : Z := Z.lxor a (Z.lxor b c).
Definition notw (x : Z) : Z := Z.lxor x (2^32 - 1).

Definition ch (x y z : Z) : Z := Z.lxor (Z.land x y) (Z.land (notw x) z).
Definition maj (x y z : Z) : Z := xor3 (Z.land x y) (Z.land x z) (Z.land y z).
Definition bsig0 (x : Z) : Z := xor3 (rotr 2 x) (rotr 13 x) (rotr 22 x).
Definition bsig1 (x : Z) : Z := xor3 (rotr 6 x) (rotr 11 x) (rotr 25 x).
Definition ssig0 (x : Z) : Z := xor3 (rotr 7 x) (rotr 18 x) (Z.shiftr x 3).
Definition ssig1 (x : Z) : Z := xor3 (rotr 17 x) (rotr 19 x) (Z.shiftr x 10).

(** FIPS 180-4 defines the constants by the first 64 primes: the first 32 bits of the fractional part
    of their cube roots, and for the initial state of the square roots of the first eight. *)
Definition is_prime (n : Z) : bool :=
  forallb (λ d : nat, bool_decide (n `mod` (Z.of_nat d + 2) ≠ 0)) (seq 0 (Z.to_nat (Z.sqrt n) - 1)).

Definition primes : list Z := filter (λ n, is_prime n = true) (Z.of_nat <$> seq 2 310).

(** The integer cube root of a number below [2^(3 * bits)], a bit at a time. *)
Fixpoint cube_root (bits : nat) (root n : Z) : Z :=
  match bits with
  | O => root
  | S bits' =>
      let root' := root + 2^Z.of_nat bits' in
      cube_root bits' (if decide (root' * root' * root' ≤ n) then root' else root) n
  end.

Definition cube_root_fraction (p : Z) : Z := w32 (cube_root 36 0 (p * 2^96)).
Definition square_root_fraction (p : Z) : Z := w32 (Z.sqrt (p * 2^64)).

Definition round_constants : list Z := Eval vm_compute in cube_root_fraction <$> take 64 primes.

(** ** The state and the rounds *)
Record hash_state : Type := MkHash { ha : Z; hb : Z; hc : Z; hd : Z; he : Z; hf : Z; hg : Z; hh : Z }.

Definition initial_hash : hash_state := Eval vm_compute in
  let h i := square_root_fraction (nth i primes 0) in MkHash (h 0%nat) (h 1%nat) (h 2%nat) (h 3%nat) (h 4%nat) (h 5%nat) (h 6%nat) (h 7%nat).

Definition round (st : hash_state) (kw : Z * Z) : hash_state :=
  let '(k, w) := kw in
  let t1 := w32 (hh st + bsig1 (he st) + ch (he st) (hf st) (hg st) + k + w) in
  let t2 := w32 (bsig0 (ha st) + maj (ha st) (hb st) (hc st)) in
  MkHash (w32 (t1 + t2)) (ha st) (hb st) (hc st) (w32 (hd st + t1)) (he st) (hf st) (hg st).

(** The message schedule: [window] is the last sixteen words, oldest first. *)
Fixpoint schedule (n : nat) (window : list Z) : list Z :=
  match n with
  | O => []
  | S n' =>
      let w := w32 (ssig1 (nth 14 window 0) + nth 9 window 0 + ssig0 (nth 1 window 0) + nth 0 window 0) in
      w :: schedule n' (tail window ++ [w])
  end.

Definition compress (st : hash_state) (block : list Z) : hash_state :=
  let st' := foldl round st (zip round_constants (block ++ schedule 48 block)) in
  MkHash (w32 (ha st + ha st')) (w32 (hb st + hb st')) (w32 (hc st + hc st')) (w32 (hd st + hd st'))
    (w32 (he st + he st')) (w32 (hf st + hf st')) (w32 (hg st + hg st')) (w32 (hh st + hh st')).

(** ** Padding *)
Fixpoint bytes_of (s : string) : list Z :=
  match s with "" => [] | String a s' => ascii_val a :: bytes_of s' end.

Definition be_bytes (n : nat) (z : Z) : list Z :=
  (λ i : nat, Z.land (Z.shiftr z (8 * Z.of_nat (n - 1 - i))) 255) <$> seq 0 n.

Definition pad (msg : list Z) : list Z :=
  let len := length msg in
  msg ++ [128] ++ replicate (Z.to_nat ((55 - Z.of_nat len) `mod` 64)) 0 ++ be_bytes 8 (8 * Z.of_nat len).

Fixpoint words_of (bytes : list Z) : list Z :=
  match bytes with
  | a :: b :: c :: d :: rest => (((a * 256 + b) * 256 + c) * 256 + d) :: words_of rest
  | _ => []
  end.

(** The blocks, as many as [n]. *)
Fixpoint hash_blocks (n : nat) (st : hash_state) (words : list Z) : hash_state :=
  match n with
  | O => st
  | S n' => hash_blocks n' (compress st (take 16 words)) (drop 16 words)
  end.

Definition sha256 (msg : list Z) : hash_state :=
  let words := words_of (pad msg) in
  hash_blocks (length words / 16)%nat initial_hash words.

(** ** Hexadecimal digests (encoding/hex) *)
Definition nibble (w : Z) (i : Z) : ascii := hex_digit (Z.to_N (Z.land (Z.shiftr w (4 * i)) 15)).

Definition hex_word (w : Z) (rest : string) : string :=
  String (nibble w 7) (String (nibble w 6) (String (nibble w 5) (String (nibble w 4)
  (String (nibble w 3) (String (nibble w 2) (String (nibble w 1) (String (nibble w 0) rest))))))).

Definition hex_digest (h : hash_state) : string :=
  foldr hex_word "" [ha h; hb h; hc h; hd h; he h; hf h; hg h; hh h].

Definition computeHash (s : string) : string := hex_digest (sha256 (bytes_of s)).

Example computeHash_empty :
  computeHash "" = "e3b0c44298fc1c149afbf4c8996fb92427ae41e4649b934ca495991b7852b855".
Proof. vm_compute. reflexivity. Qed.

Example computeHash_abc :
  computeHash "abc" = "ba7816bf8f01cfea414140de5dae2223b00361a396177a9cb410ff61f20015ad".
Proof. vm_compute. reflexivity. Qed.

Example computeHash_two_blocks :
  computeHash "abcdbcdecdefdefgefghfghighijhijkijkljklmklmnlmnomnopnopq" =
    "248d6a61d20638b8e5c026930c3e6039a33ce45964ff2167f6ecedd419db06c1".
Proof. vm_compute. reflexivity. Qed.

(** ** The form of a digest *)
Definition is_hex (a : ascii) : bool := is_digit a || bool_decide (97 ≤ ascii_val a ≤ 102).

Lemma nibble_hex w i : is_hex (nibble w i) = true.
Proof.
  unfold nibble.
  assert (∀ n : N, (n < 16)%N → is_hex (hex_digit n) = true) as Hh.
  { intros n Hn. destruct n as [|p]; [done|]. do 4 (destruct p; try done). all: lia. }
  apply Hh. change 15 with (Z.ones 4). rewrite Z.land_ones by lia.
  pose proof (Z.mod_pos_bound (Z.shiftr w (4 * i)) (2^4)). lia.
Qed.

Fixpoint all_hex (s : string) : bool :=
  match s with "" => true | String a s' => is_hex a && all_hex s' end.

Lemma computeHash_form s : String.length (computeHash s) = 64%nat ∧ all_hex (computeHash s) = true.
Proof.
  unfold computeHash, hex_digest. cbn [foldr]. unfold hex_word.
  split; [reflexivity|]. cbn [all_hex]. by rewrite !nibble_hex.
Qed.

Lemma all_hex_no_char c s : is_hex c = false → all_hex s = true → has_char c s = false.
Proof.
  intros Hc. induction s as [|a s IH]; cbn; [done|]. intros [Ha Hs]%andb_true_iff.
  rewrite IH by done. rewrite bool_decide_false; [done|]. congruence.
Qed.
