(* ===== verification/Json.v ===== *)
(** * encoding/json, as far as the driver uses it

    The syntax of a document is checked first, with the scanner's error messages; then the
    document is stored into a Go value.  The values here are that of [parseToken] in pkg/csi_driver/node.go,
    a map from audiences to structs of two strings, and the requests and responses of pkg/upcall.
    Strings are byte strings; the decoder replaces invalid UTF-8 and unpaired surrogates by U+FFFD,
    and the encoder does so with invalid UTF-8. *)
From S2P Require Import Prelude GoStr GoErr.

Local Open Scope string_scope.
Local Open Scope list_scope.
Local Open Scope Z_scope.

(** ** Documents *)
Inductive json : Type :=
| JNull
| JBool (b : bool)
| JNumber (literal : string)
| JString (s : string)
| JArray (elements : list json)
| JObject (members : list (string * json)).

Inductive syntax_error : Type :=
| InvalidChar (c : option ascii) (context : string)   (* [None]: the input ended *)
| UnexpectedEnd
| OutOfFuel.   (* never returned: [Unmarshal_fuel] *)

Abbreviation scan A := (result syntax_error A).

(** [quoteChar]: a character in single quotes. *)
Definition quoteChar (c : ascii) : string :=
  if decide (c = "'"%char) then "'\''"
  else if decide (c = ascii_of_N 34) then "'" +:+ dquote +:+ "'"
  else "'" +:+ quote_char c +:+ "'".

Definition syntax_error_text (e : syntax_error) : string :=
  match e with
  | InvalidChar c context => "invalid character " +:+ quoteChar (default " "%char c) +:+ " " +:+ context
  | UnexpectedEnd => "unexpected end of JSON input"
  | OutOfFuel => ""
  end.

(** ** The scanner

    At the end of the input the scanner is fed a space, and reports an unexpected end only if it can
    take that. *)
Definition is_space (c : ascii) : bool := bool_decide (ascii_val c ∈ [32; 9; 13; 10]).

Fixpoint skip_space (s : string) : string :=
  match s with
  | String c s' => if is_space c then skip_space s' else s
  | "" => ""
  end.

Definition peek (s : string) : option ascii := match s with String c _ => Some c | "" => None end.
Definition next_is (p : ascii → bool) (s : string) : bool := match s with String c _ => p c | "" => false end.

Definition is_hex_digit (c : ascii) : bool := if hex_value c then true else false.

(** The first character that is no hexadecimal digit. *)
Fixpoint first_non_hex (s : string) : option ascii :=
  match s with
  | String c s' => if is_hex_digit c then first_non_hex s' else Some c
  | "" => None
  end.

(** A string up to its closing quote: its text with the escapes, and what follows. *)
Fixpoint scan_string (s : string) : scan (string * string) :=
  match s with
  | "" => Err UnexpectedEnd
  | String c s' =>
      if decide (c = ascii_of_N 34) then Ok ("", s')
      else if decide (c = "\"%char) then
        match s' with
        | "" => Err (InvalidChar None "in string escape code")
        | String e s1 =>
            if decide (e = "u"%char) then
              match s1 with
              | String h1 (String h2 (String h3 (String h4 s2))) =>
                  if is_hex_digit h1 && is_hex_digit h2 && is_hex_digit h3 && is_hex_digit h4 then
                    '(raw, rest) ← scan_string s2;
                    Ok (String c (String e (String h1 (String h2 (String h3 (String h4 raw))))), rest)
                  else Err (InvalidChar (first_non_hex s1) "in \u hexadecimal character escape")
              | _ => Err (InvalidChar (first_non_hex s1) "in \u hexadecimal character escape")
              end
            else if decide (e ∈ ["b"; "f"; "n"; "r"; "t"; "\"; "/"; ascii_of_N 34]%char) then
              '(raw, rest) ← scan_string s1; Ok (String c (String e raw), rest)
            else Err (InvalidChar (Some e) "in string escape code")
        end
      else if decide (ascii_val c < 32) then Err (InvalidChar (Some c) "in string literal")
      else '(raw, rest) ← scan_string s'; Ok (String c raw, rest)
  end.

(** The parts of a number. *)
Fixpoint skip_digits (s : string) : string :=
  match s with
  | String c s' => if is_digit c then skip_digits s' else s
  | "" => ""
  end.

Definition some_digits (context : string) (s : string) : scan string :=
  if next_is is_digit s then Ok (skip_digits s) else Err (InvalidChar (peek s) context).

Definition one_of (l : list ascii) (c : ascii) : bool := bool_decide (c ∈ l).
Definition drop_if (p : ascii → bool) (s : string) : string := if next_is p s then str_drop 1 s else s.

Definition scan_exponent (s : string) : scan string :=
  if next_is (one_of ["e"; "E"]%char) s then
    some_digits "in exponent of numeric literal" (drop_if (one_of ["+"; "-"]%char) (str_drop 1 s))
  else Ok s.

Definition scan_fraction (s : string) : scan string :=
  if next_is (one_of ["."]%char) s then
    some_digits "after decimal point in numeric literal" (str_drop 1 s)
  else Ok s.

Definition scan_number (s : string) : scan string :=
  let s := drop_if (one_of ["-"]%char) s in
  s ← (if next_is (one_of ["0"]%char) s then Ok (str_drop 1 s) else some_digits "in numeric literal" s);
  s ← scan_fraction s;
  scan_exponent s.

(** A number is kept as it is written. *)
Definition number_value (s : string) : scan (json * string) :=
  rest ← scan_number s;
  Ok (JNumber (str_take (String.length s - String.length rest) s), rest).

(** The rest of [true], [false] or [null]. *)
Fixpoint scan_literal (word expected : string) (s : string) : scan string :=
  match expected with
  | "" => Ok s
  | String e expected' =>
      if next_is (one_of [e]) s then scan_literal word expected' (str_drop 1 s)
      else Err (InvalidChar (peek s) ("in literal " +:+ word +:+ " (expecting " +:+ quoteChar e +:+ ")"))
  end.

(** *** Unquoting *)

Definition cont (lo hi : Z) (c : ascii) : bool := bool_decide (lo ≤ ascii_val c ≤ hi).

(** The number of bytes of the UTF-8 sequence a string starts with, 0 if there is none. *)
Definition utf8_width (s : string) : nat :=
  match s with
  | "" => 0%nat
  | String c s1 =>
      let v := ascii_val c in
      if decide (v < 128) then 1%nat else
      let tail2 lo hi := match s1 with String c1 _ => cont lo hi c1 | _ => false end in
      let tail3 lo hi := match s1 with String c1 (String c2 _) => cont lo hi c1 && cont 128 191 c2 | _ => false end in
      let tail4 lo hi :=
        match s1 with
        | String c1 (String c2 (String c3 _)) => cont lo hi c1 && cont 128 191 c2 && cont 128 191 c3
        | _ => false
        end in
      if decide (194 ≤ v ≤ 223) then (if tail2 128 191 then 2%nat else 0%nat)
      else if decide (v = 224) then (if tail3 160 191 then 3%nat else 0%nat)
      else if decide (v = 237) then (if tail3 128 159 then 3%nat else 0%nat)
      else if decide (225 ≤ v ≤ 239) then (if tail3 128 191 then 3%nat else 0%nat)
      else if decide (v = 240) then (if tail4 144 191 then 4%nat else 0%nat)
      else if decide (241 ≤ v ≤ 243) then (if tail4 128 191 then 4%nat else 0%nat)
      else if decide (v = 244) then (if tail4 128 143 then 4%nat else 0%nat)
      else 0%nat
  end.

Definition byte (z : Z) : ascii := ascii_of_N (Z.to_N z).

(** [utf8.AppendRune] *)
Definition encode_rune (r : Z) : string :=
  let low i := byte (128 + Z.land (Z.shiftr r (6 * i)) 63) in
  if decide (r < 128) then String (byte r) ""
  else if decide (r < 2048) then String (byte (192 + Z.shiftr r 6)) (String (low 0) "")
  else if decide (r < 65536) then String (byte (224 + Z.shiftr r 12)) (String (low 1) (String (low 0) ""))
  else String (byte (240 + Z.shiftr r 18)) (String (low 2) (String (low 1) (String (low 0) ""))).

Definition replacement : string := encode_rune 65533.

(** [getu4]: the escape for a code unit, and what follows it. *)
Definition getu4 (s : string) : option (Z * string) :=
  match s with
  | String "\" (String "u" (String h1 (String h2 (String h3 (String h4 s'))))) =>
      a ← hex_value h1; b ← hex_value h2; c ← hex_value h3; d ← hex_value h4;
      Some (((a * 16 + b) * 16 + c) * 16 + d, s')
  | _ => None
  end.

Definition escaped (e : ascii) : ascii :=
  if decide (e = "b"%char) then byte 8 else if decide (e = "f"%char) then byte 12
  else if decide (e = "n"%char) then byte 10 else if decide (e = "r"%char) then byte 13
  else if decide (e = "t"%char) then byte 9 else e.

(** One step of [unquoteBytes]: what it writes and what is left. *)
Definition unquote_step (raw : string) : string * string :=
  match getu4 raw with
  | Some (r, rest) =>
      if decide (55296 ≤ r < 57344) then
        match getu4 rest with
        | Some (r1, rest1) =>
            if decide (r < 56320 ∧ 56320 ≤ r1 < 57344) then
              (encode_rune (65536 + (r - 55296) * 1024 + (r1 - 56320)), rest1)
            else (replacement, rest)
        | None => (replacement, rest)
        end
      else (encode_rune r, rest)
  | None =>
      match raw with
      | String "\" (String e rest) => (String (escaped e) "", rest)
      | _ =>
          match utf8_width raw with
          | O => (replacement, str_drop 1 raw)
          | w => (str_take w raw, str_drop w raw)
          end
      end
  end.

Fixpoint unquote_loop (n : nat) (raw : string) : string :=
  match n, raw with
  | S n', String _ _ => let '(out, rest) := unquote_step raw in out +:+ unquote_loop n' rest
  | _, _ => ""
  end.

Definition unquote (raw : string) : string := unquote_loop (String.length raw) raw.

(** *** Values

    [depth] is the number of arrays and objects that are open. *)
Definition maxNestingDepth : Z := 10000.

Definition scan_string_value (s : string) : scan (string * string) :=
  '(raw, rest) ← scan_string s; Ok (unquote raw, rest).

Definition after_space {A} (s : string) (f : ascii → string → scan A) : scan A :=
  match skip_space s with "" => Err UnexpectedEnd | String c s' => f c s' end.

Definition opened {A} (depth : Z) (c : ascii) (m : scan A) : scan A :=
  if decide (maxNestingDepth < depth + 1) then Err (InvalidChar (Some c) "exceeded max depth") else m.

Fixpoint scan_value (n : nat) (depth : Z) (s : string) {struct n} : scan (json * string) :=
  match n with
  | O => Err OutOfFuel
  | S n' =>
      after_space s (λ c s',
        if decide (c = "{"%char) then
          opened depth c (after_space s' (λ c1 s1,
            if decide (c1 = "}"%char) then Ok (JObject [], s1)
            else '(ms, rest) ← scan_members n' (depth + 1) s'; Ok (JObject ms, rest)))
        else if decide (c = "["%char) then
          opened depth c (after_space s' (λ c1 s1,
            if decide (c1 = "]"%char) then Ok (JArray [], s1)
            else '(es, rest) ← scan_elements n' (depth + 1) s'; Ok (JArray es, rest)))
        else if decide (c = ascii_of_N 34) then '(text, rest) ← scan_string_value s'; Ok (JString text, rest)
        else if decide (c = "-"%char ∨ is_digit c = true) then
          number_value (String c s')
        else if decide (c = "t"%char) then rest ← scan_literal "true" "rue" s'; Ok (JBool true, rest)
        else if decide (c = "f"%char) then rest ← scan_literal "false" "alse" s'; Ok (JBool false, rest)
        else if decide (c = "n"%char) then rest ← scan_literal "null" "ull" s'; Ok (JNull, rest)
        else Err (InvalidChar (Some c) "looking for beginning of value"))
  end
with scan_members (n : nat) (depth : Z) (s : string) {struct n} : scan (list (string * json) * string) :=
  match n with
  | O => Err OutOfFuel
  | S n' =>
      after_space s (λ c s1,
        if decide (c ≠ ascii_of_N 34) then Err (InvalidChar (Some c) "looking for beginning of object key string") else
        '(key, s2) ← scan_string_value s1;
        after_space s2 (λ c s3,
          if decide (c ≠ ":"%char) then Err (InvalidChar (Some c) "after object key") else
          '(v, s4) ← scan_value n' depth s3;
          after_space s4 (λ c s5,
            if decide (c = ","%char) then '(ms, rest) ← scan_members n' depth s5; Ok ((key, v) :: ms, rest)
            else if decide (c = "}"%char) then Ok ([(key, v)], s5)
            else Err (InvalidChar (Some c) "after object key:value pair"))))
  end
with scan_elements (n : nat) (depth : Z) (s : string) {struct n} : scan (list json * string) :=
  match n with
  | O => Err OutOfFuel
  | S n' =>
      '(v, s1) ← scan_value n' depth s;
      after_space s1 (λ c s2,
        if decide (c = ","%char) then '(es, rest) ← scan_elements n' depth s2; Ok (v :: es, rest)
        else if decide (c = "]"%char) then Ok ([v], s2)
        else Err (InvalidChar (Some c) "after array element"))
  end.

(** Every call that does not read a character of its own is followed by one that does. *)
Definition scan_fuel (s : string) : nat := 2 * String.length s + 2.

Definition parse_document (s : string) : scan json :=
  '(v, rest) ← scan_value (scan_fuel s) 0 s;
  match skip_space rest with
  | "" => Ok v
  | String c _ => Err (InvalidChar (Some c) "after top-level value")
  end.

(** ** The encoder

    [json.Marshal] of a document, with its escapes for HTML. *)
Definition escape_char (c : ascii) : string :=
  let v := ascii_val c in
  if decide (c = ascii_of_N 34 ∨ c = "\"%char) then "\" +:+ String c ""
  else if decide (v = 8) then "\b" else if decide (v = 12) then "\f"
  else if decide (v = 10) then "\n" else if decide (v = 13) then "\r" else if decide (v = 9) then "\t"
  else if decide (v < 32 ∨ c ∈ ["<"; ">"; "&"]%char) then
    "\u00" +:+ String (hex_digit (N_of_ascii c / 16)) (String (hex_digit (N_of_ascii c mod 16)) "")
  else String c "".

(** What is written for the first character of a string, and what is left. *)
Definition escape_step (s : string) : string * string :=
  match s with
  | "" => ("", "")
  | String c s' =>
      if decide (ascii_val c < 128) then (escape_char c, s') else
      match utf8_width s with
      | O => ("\ufffd", s')
      | w =>
          let rune := str_take w s in
          (if decide (rune = encode_rune 8232) then "\u2028"
           else if decide (rune = encode_rune 8233) then "\u2029" else rune, str_drop w s)
      end
  end.

Fixpoint escape_loop (n : nat) (s : string) : string :=
  match n, s with
  | S n', String _ _ => let '(out, rest) := escape_step s in out +:+ escape_loop n' rest
  | _, _ => ""
  end.

Definition escape (s : string) : string := escape_loop (String.length s) s.

Definition print_string (s : string) : string := dquote +:+ (escape s +:+ dquote).

Fixpoint print_json (v : json) : string :=
  match v with
  | JNull => "null"
  | JBool true => "true"
  | JBool false => "false"
  | JNumber literal => literal
  | JString s => print_string s
  | JArray l =>
      "[" +:+ ((fix elements l := match l with
                | [] => ""
                | [v] => print_json v
                | v :: l' => print_json v +:+ ("," +:+ elements l')
                end) l +:+ "]")
  | JObject l =>
      "{" +:+ ((fix members l := match l with
                | [] => ""
                | [(k, v)] => print_string k +:+ (":" +:+ print_json v)
                | (k, v) :: l' => print_string k +:+ (":" +:+ (print_json v +:+ ("," +:+ members l')))
                end) l +:+ "}")
  end.

(** ** The stream decoder

    [Decoder.Decode] reads one value and leaves what follows; where the input ends too early it
    reports what the reader said, or that the input ended.  [s] is what can be read before that. *)
Definition decode_stream (s : string) (read_error : option goerr) : result goerr json :=
  match scan_value (scan_fuel s) 0 s with
  | Ok (v, _) => Ok v
  | Err (InvalidChar (Some c) context) => Err (ErrText (syntax_error_text (InvalidChar (Some c) context)))
  | Err _ =>
      Err (match read_error with
           | Some err => err
           | None => ErrText (if decide (skip_space s = "") then "EOF" else "unexpected EOF")
           end)
  end.

(** ** Storing a document

    [tokens] of [parseToken].  A value of the wrong type is an error, found in the order of the document;
    [null] leaves what is there. *)
Record service_token : Type := MkServiceToken {
  Token : string;
  ExpirationTimestamp : string;
}.

Definition kind (v : json) : string :=
  match v with
  | JNull => "null" | JBool _ => "bool" | JNumber _ => "number" | JString _ => "string"
  | JArray _ => "array" | JObject _ => "object"
  end.

Definition quoted_tag (name : string) : string :=
  dquote +:+ "json:\" +:+ dquote +:+ name +:+ "\" +:+ dquote +:+ dquote.

Definition token_type : string :=
  "struct { Token string " +:+ quoted_tag "token" +:+ "; ExpirationTimestamp string " +:+
  quoted_tag "expirationTimestamp" +:+ " }".

(** [UnmarshalTypeError] *)
Definition type_error (v : json) (place type : string) : goerr :=
  ErrText ("json: cannot unmarshal " +:+ kind v +:+ " into Go " +:+ place +:+ " of type " +:+ type).

(** [foldName]: names are compared without case; the Kelvin sign and the long s fold to letters. *)
Fixpoint fold_name (s : string) : string :=
  match s with
  | String a s1 =>
      match s1 with
      | String b s2 =>
          if decide (ascii_val a = 197 ∧ ascii_val b = 191) then String "s" (fold_name s2) else
          match s2 with
          | String c s3 =>
              if decide (ascii_val a = 226 ∧ ascii_val b = 132 ∧ ascii_val c = 170)
              then String "k" (fold_name s3) else String (lower_char a) (fold_name s1)
          | "" => String (lower_char a) (fold_name s1)
          end
      | "" => String (lower_char a) ""
      end
  | "" => ""
  end.

(** A string field, with the name of its struct. *)
Definition store_string (struct name : string) (v : json) (old : string) : result goerr string :=
  match v with
  | JString s => Ok s
  | JNull => Ok old
  | _ => Err (type_error v ("struct field " +:+ struct +:+ "." +:+ name) "string")
  end.

(** An [int] field: the literal must be a decimal number that fits. *)
Definition store_int (struct name : string) (v : json) (old : Z) : result goerr Z :=
  let place := "struct field " +:+ struct +:+ "." +:+ name in
  match v with
  | JNumber literal =>
      match atoi literal with
      | Some z => Ok z
      | None => Err (ErrText ("json: cannot unmarshal number " +:+ literal +:+ " into Go " +:+ place +:+ " of type int"))
      end
  | JNull => Ok old
  | _ => Err (type_error v place "int")
  end.

(** A [[]string] field.  A slice that is decoded again reuses its array: a [null] element keeps
    what the array holds at its place.  The state is the array and the length of the slice. *)
Fixpoint store_elements (struct name : string) (l : list json) (array : list string) : result goerr (list string) :=
  match l with
  | [] => Ok array
  | v :: l' =>
      s ← store_string struct name v (hd "" array);
      rest ← store_elements struct name l' (tail array);
      Ok (s :: rest)
  end.

Definition string_slice : Type := list string * nat.
Definition slice_of (s : string_slice) : list string := take s.2 s.1.

Definition store_slice (struct name : string) (v : json) (old : string_slice) : result goerr string_slice :=
  match v with
  | JArray [] | JNull => Ok ([], O)
  | JArray l => array ← store_elements struct name l old.1; Ok (array, length l)
  | _ => Err (type_error v ("struct field " +:+ struct +:+ "." +:+ name) "[]string")
  end.

Fixpoint store_token (members : list (string * json)) (t : service_token) : result goerr service_token :=
  match members with
  | [] => Ok t
  | (key, v) :: rest =>
      t' ← (if decide (fold_name key = "token") then
              s ← store_string "" "token" v (Token t); Ok (MkServiceToken s (ExpirationTimestamp t))
            else if decide (fold_name key = "expirationtimestamp") then
              s ← store_string "" "expirationTimestamp" v (ExpirationTimestamp t); Ok (MkServiceToken (Token t) s)
            else Ok t);
      store_token rest t'
  end.

Fixpoint store_tokens (members : list (string * json)) (tokens : gmap string service_token)
    : result goerr (gmap string service_token) :=
  match members with
  | [] => Ok tokens
  | (audience, v) :: rest =>
      t ← match v with
          | JNull => Ok (MkServiceToken "" "")
          | JObject ms => store_token ms (MkServiceToken "" "")
          | _ => Err (type_error v "value" token_type)
          end;
      store_tokens rest (<[audience := t]> tokens)
  end.

(** [json.Unmarshal(s, &tokens)] *)
Definition Unmarshal (s : string) : result goerr (gmap string service_token) :=
  match parse_document s with
  | Err e => Err (ErrText (syntax_error_text e))
  | Ok JNull => Ok ∅
  | Ok (JObject ms) => store_tokens ms ∅
  | Ok v => Err (type_error v "value" ("map[string]" +:+ token_type))
  end.

(** ** Examples *)
Definition in_quotes (s : string) : string := dquote +:+ s +:+ dquote.
Definition token_document (audience token : string) : string :=
  "{" +:+ in_quotes audience +:+ ":{" +:+ in_quotes "token" +:+ ":" +:+ in_quotes token +:+ "}}".

Example unmarshal_token :
  Unmarshal (" " +:+ token_document "aud" "a\u00e9\ud83d\ude00\/" +:+ newline) =
  Ok {[ "aud" := MkServiceToken ("a" +:+ encode_rune 233 +:+ encode_rune 128512 +:+ "/") "" ]}.
Proof. vm_compute. reflexivity. Qed.

Example unmarshal_errors :
  error_text <$> error_of (Unmarshal "") = Some "unexpected end of JSON input" ∧
  error_text <$> error_of (Unmarshal "{a") = Some "invalid character 'a' looking for beginning of object key string" ∧
  error_text <$> error_of (Unmarshal "nulx") = Some "invalid character 'x' in literal null (expecting 'l')" ∧
  error_text <$> error_of (Unmarshal "{} 1") = Some "invalid character '1' after top-level value" ∧
  error_text <$> error_of (Unmarshal "-") = Some "invalid character ' ' in numeric literal".
Proof. vm_compute. split_and!; reflexivity. Qed.
