(* ===== verification/JsonSpec.v ===== *)
(** * Reading JSON documents

    Theorems about Json.v: the scanner ends on every text, reading a document inverts writing it,
    and what the decoder makes of a document of tokens. *)
From S2P Require Import Prelude GoStr Regex Numerals GoErr Json.
Local Open Scope string_scope.
Local Open Scope list_scope.
Local Open Scope Z_scope.

(** ** The scanner ends *)

(** [r] is no lack of fuel, and a success leaves at least [k] characters fewer than [s] has. *)
Definition consumes {A} (k : nat) (s : string) (r : scan (A * string)) : Prop :=
  match r with
  | Ok (_, rest) => (String.length rest + k ≤ String.length s)%nat
  | Err e => e ≠ OutOfFuel
  end.

Lemma consumes_weaken {A} k k' s s' (r : scan (A * string)) :
  consumes k s r → (k' + String.length s ≤ k + String.length s')%nat → consumes k' s' r.
Proof. destruct r as [[a rest]|]; cbn; [lia|done]. Qed.

(** The same for the functions that return only what follows. *)
Definition leaves (k : nat) (s : string) (r : scan string) : Prop :=
  match r with
  | Ok rest => (String.length rest + k ≤ String.length s)%nat
  | Err e => e ≠ OutOfFuel
  end.

Lemma skip_space_length s : (String.length (skip_space s) ≤ String.length s)%nat.
Proof. induction s as [|c s IH]; cbn; [done|]. destruct (is_space c); cbn; lia. Qed.

Lemma skip_digits_length s : (String.length (skip_digits s) ≤ String.length s)%nat.
Proof. induction s as [|c s IH]; cbn; [done|]. destruct (is_digit c); cbn; lia. Qed.

Lemma scan_string_consumes s : consumes 1 s (scan_string s).
Proof.
  remember (String.length s) as n eqn:Hn. revert s Hn.
  induction (lt_wf n) as [n _ IH]. intros s ->.
  assert (∀ s', (String.length s' < String.length s)%nat → consumes 1 s' (scan_string s')) as Hrec
    by (intros s' Hs'; exact (IH _ Hs' s' eq_refl)).
  clear IH. destruct s as [|c s]; [done|]. cbn [scan_string].
  case_decide; [cbn; lia|]. case_decide.
  - destruct s as [|e s]; [done|]. case_decide.
    + destruct s as [|h1 [|h2 [|h3 [|h4 s]]]]; try done.
      destruct (_ && _); [|done]. specialize (Hrec s). destruct (scan_string s) as [[raw rest]|]; cbn in *; [lia|].
      apply Hrec; lia.
    + case_decide; [|done]. specialize (Hrec s). destruct (scan_string s) as [[raw rest]|]; cbn in *; [lia|].
      apply Hrec; lia.
  - case_decide; [done|]. specialize (Hrec s). destruct (scan_string s) as [[raw rest]|]; cbn in *; [lia|].
    apply Hrec; lia.
Qed.

Lemma scan_string_value_consumes s : consumes 1 s (scan_string_value s).
Proof.
  unfold scan_string_value. pose proof (scan_string_consumes s) as Hs.
  by destruct (scan_string s) as [[raw rest]|].
Qed.

Lemma some_digits_leaves context s : leaves 1 s (some_digits context s).
Proof.
  unfold some_digits. destruct s as [|c s]; cbn [next_is]; [done|].
  destruct (is_digit c) eqn:E; [|done]. cbn [leaves skip_digits]. rewrite E.
  pose proof (skip_digits_length s). cbn. lia.
Qed.

Lemma leaves_weaken k k' s s' r : leaves k s r → (k' + String.length s ≤ k + String.length s')%nat → leaves k' s' r.
Proof. destruct r; cbn; [lia|done]. Qed.

Lemma leaves_bind k s (r : scan string) (f : string → scan string) :
  leaves k s r → (∀ rest, leaves 0 rest (f rest)) → leaves k s (r ≫= f).
Proof.
  intros Hr Hf. destruct r as [rest|e]; cbn in *; [|done]. specialize (Hf rest).
  destruct (f rest); cbn in *; [lia|done].
Qed.

Lemma str_drop_length n s : String.length (str_drop n s) = (String.length s - n)%nat.
Proof. revert s. induction n as [|n IH]; intros [|c s]; cbn; [done..|]. apply IH. Qed.

Lemma drop_if_length p s : (String.length (drop_if p s) ≤ String.length s)%nat.
Proof. unfold drop_if. destruct (next_is p s); [|done]. rewrite str_drop_length. lia. Qed.

Lemma next_is_length p s : next_is p s = true → (1 ≤ String.length s)%nat.
Proof. destruct s; cbn; [done|lia]. Qed.

Lemma scan_exponent_leaves s : leaves 0 s (scan_exponent s).
Proof.
  unfold scan_exponent. destruct (next_is _ s); [|cbn; lia].
  eapply leaves_weaken; [apply some_digits_leaves|].
  set (t := drop_if _ _). assert (String.length t ≤ String.length (str_drop 1 s))%nat as Ht by apply drop_if_length.
  rewrite str_drop_length in Ht. lia.
Qed.

Lemma scan_fraction_leaves s : leaves 0 s (scan_fraction s).
Proof.
  unfold scan_fraction. destruct (next_is _ s); [|cbn; lia].
  eapply leaves_weaken; [apply some_digits_leaves|]. rewrite str_drop_length. lia.
Qed.

Lemma scan_number_leaves s : leaves 1 s (scan_number s).
Proof.
  unfold scan_number. set (s0 := drop_if _ s). assert (String.length s0 ≤ String.length s)%nat as Hs by apply drop_if_length.
  clearbody s0. apply leaves_bind; [|intros rest; apply leaves_bind; [apply scan_fraction_leaves|apply scan_exponent_leaves]].
  destruct (next_is _ s0) eqn:Hc; [|eapply leaves_weaken; [apply some_digits_leaves|lia]].
  apply next_is_length in Hc. cbn [leaves]. rewrite str_drop_length. lia.
Qed.

Lemma scan_literal_leaves word expected s : leaves 0 s (scan_literal word expected s).
Proof.
  revert s. induction expected as [|e expected IH]; intros s; cbn [scan_literal]; [cbn; lia|].
  destruct (next_is _ s) eqn:Hc; [|done]. apply next_is_length in Hc.
  eapply leaves_weaken; [apply IH|]. rewrite str_drop_length. lia.
Qed.

Lemma consumes_leaves {A} k s (r : scan string) (a : A) :
  leaves k s r → consumes k s (rest ← r; Ok (a, rest)).
Proof. by destruct r. Qed.

Lemma after_space_consumes {A} k s (f : ascii → string → scan (A * string)) :
  (∀ c s', (S (String.length s') ≤ String.length s)%nat → skip_space s = String c s' → consumes k s (f c s')) →
  consumes k s (after_space s f).
Proof.
  intros Hf. unfold after_space. pose proof (skip_space_length s) as Hl.
  destruct (skip_space s) as [|c s']; [done|]. apply Hf; [exact Hl|done].
Qed.

Lemma opened_consumes {A} k s depth c (m : scan (A * string)) : consumes k s m → consumes k s (opened depth c m).
Proof. unfold opened. by case_decide. Qed.

(** What one more unit of fuel is enough for. *)
Lemma scan_consumes n :
  (∀ depth s, (2 * String.length s + 1 ≤ n)%nat → consumes 1 s (scan_value n depth s)) ∧
  (∀ depth s, (2 * String.length s + 1 ≤ n)%nat → consumes 1 s (scan_members n depth s)) ∧
  (∀ depth s, (2 * String.length s + 2 ≤ n)%nat → consumes 1 s (scan_elements n depth s)).
Proof.
  induction n as [|n (IHv & IHm & IHe)]; [split_and!; intros; lia|].
  split_and!; intros depth s Hn; cbn [scan_value scan_members scan_elements].
  - apply after_space_consumes. intros c s' Hs' _.
    case_decide; [|case_decide; [|case_decide; [|case_decide]]].
    + apply opened_consumes. eapply consumes_weaken; [apply (after_space_consumes 0)|cbn; lia].
      intros c1 s1 H1 _. case_decide; [cbn; lia|].
      specialize (IHm (depth + 1) s' ltac:(lia)).
      destruct (scan_members n (depth + 1) s') as [[ms rest]|]; cbn in *; [lia|done].
    + apply opened_consumes. eapply consumes_weaken; [apply (after_space_consumes 0)|cbn; lia].
      intros c1 s1 H1 _. case_decide; [cbn; lia|].
      specialize (IHe (depth + 1) s' ltac:(lia)).
      destruct (scan_elements n (depth + 1) s') as [[es rest]|]; cbn in *; [lia|done].
    + pose proof (scan_string_value_consumes s') as Hv.
      destruct (scan_string_value s') as [[text rest]|]; cbn in *; [lia|done].
    + unfold number_value. pose proof (scan_number_leaves (String c s')) as Hl.
      destruct (scan_number (String c s')) as [rest|]; cbn in *; [lia|done].
    + repeat (case_decide; [apply consumes_leaves; eapply leaves_weaken; [apply scan_literal_leaves|cbn; lia]|]).
      done.
  - apply after_space_consumes. intros c s1 H1 _. case_decide; [done|].
    pose proof (scan_string_value_consumes s1) as Hv.
    destruct (scan_string_value s1) as [[key s2]|]; [cbn in Hv|done]. cbn [mbind result_bind].
    eapply consumes_weaken; [apply (after_space_consumes 0 s2)|lia]. intros c3 s3 H3 _. case_decide; [done|].
    specialize (IHv depth s3 ltac:(lia)). destruct (scan_value n depth s3) as [[v s4]|]; [cbn in IHv|done].
    cbn [mbind result_bind].
    eapply consumes_weaken; [apply (after_space_consumes 0 s4)|lia]. intros c5 s5 H5 _. case_decide.
    + specialize (IHm depth s5 ltac:(lia)). destruct (scan_members n depth s5) as [[ms rest]|]; cbn in *; [lia|done].
    + case_decide; [cbn; lia|done].
  - specialize (IHv depth s ltac:(lia)).
    destruct (scan_value n depth s) as [[v s1]|]; [cbn in IHv|done]. cbn [mbind result_bind].
    eapply consumes_weaken; [apply (after_space_consumes 0 s1)|lia]. intros c s2 H2 _. case_decide.
    + specialize (IHe depth s2 ltac:(lia)). destruct (scan_elements n depth s2) as [[es rest]|]; cbn in *; [lia|done].
    + case_decide; [cbn; lia|done].
Qed.

(** The fuel is enough for every text: the scanner ends with a document or one of its errors. *)
Lemma Unmarshal_fuel s : parse_document s ≠ Err OutOfFuel.
Proof.
  unfold parse_document. destruct (scan_consumes (scan_fuel s)) as (Hv & _ & _).
  specialize (Hv 0 s). unfold scan_fuel in *. specialize (Hv ltac:(lia)).
  destruct (scan_value _ 0 s) as [[v rest]|e]; cbn in *; [by destruct (skip_space rest)|congruence].
Qed.

(** ** Writing documents *)

Definition is_ascii (s : string) : bool := all_chars (λ c, bool_decide (ascii_val c < 128)) s.

(** What can follow a number. *)
Definition closing (rest : string) : Prop :=
  next_is (one_of ["."; "e"; "E"]%char) rest = false ∧ next_is is_digit rest = false.

(** A literal that the scanner reads as a number. *)
Definition numeral (literal : string) : Prop :=
  next_is (λ c, is_digit c || bool_decide (c = "-"%char)) literal = true ∧
  ∀ rest, closing rest → scan_number (literal +:+ rest) = Ok rest.

(** Strings of ASCII characters, and at most [d] levels. *)
Inductive printable : Z → json → Prop :=
| print_null d : printable d JNull
| print_bool d b : printable d (JBool b)
| print_number d literal : numeral literal → printable d (JNumber literal)
| print_str d s : is_ascii s = true → printable d (JString s)
| print_array d l : 0 < d → Forall (printable (d - 1)) l → printable d (JArray l)
| print_object d l : 0 < d → Forall (λ m, is_ascii m.1 = true ∧ printable (d - 1) m.2) l → printable d (JObject l).

(** *** Characters *)


Lemma unquote_escape c rest : ascii_val c < 128 → unquote_step (escape_char c +:+ rest) = (String c "", rest).
Proof. intros Hc. destruct c as [[] [] [] [] [] [] [] []]; first [reflexivity|discriminate Hc]. Qed.

Lemma scan_escape c rest :
  scan_string (escape_char c +:+ rest) = '(raw, r) ← scan_string rest; Ok (escape_char c +:+ raw, r).
Proof. destruct c as [[] [] [] [] [] [] [] []]; reflexivity. Qed.

Lemma escape_char_length c : (1 ≤ String.length (escape_char c))%nat.
Proof. destruct c as [[] [] [] [] [] [] [] []]; vm_compute; lia. Qed.

Lemma is_ascii_cons c s : is_ascii (String c s) = true → ascii_val c < 128 ∧ is_ascii s = true.
Proof. unfold is_ascii. cbn. rewrite andb_true_iff, bool_decide_eq_true. done. Qed.

Lemma escape_cons c s : ascii_val c < 128 → escape (String c s) = escape_char c +:+ escape s.
Proof.
  intros Hc. unfold escape. cbn [String.length escape_loop]. unfold escape_step.
  by rewrite decide_True by done.
Qed.

Lemma scan_string_escape s rest :
  is_ascii s = true → scan_string (escape s +:+ (dquote +:+ rest)) = Ok (escape s, rest).
Proof.
  induction s as [|c s IH]; [done|]. intros [Hc Hs]%is_ascii_cons.
  rewrite escape_cons, <-app_assoc_str, scan_escape, IH by done. done.
Qed.

Lemma unquote_loop_escape s n :
  is_ascii s = true → (String.length (escape s) ≤ n)%nat → unquote_loop n (escape s) = s.
Proof.
  revert n. induction s as [|c s IH]; intros n; [by destruct n|].
  intros [Hc Hs]%is_ascii_cons. rewrite escape_cons, length_app_str by done.
  pose proof (escape_char_length c) as Hl. intros Hn. destruct n as [|n]; [lia|].
  assert (unquote_loop (S n) (escape_char c +:+ escape s) =
    let '(out, rest) := unquote_step (escape_char c +:+ escape s) in out +:+ unquote_loop n rest) as ->.
  { destruct (escape_char c) eqn:E; [cbn in Hl; lia|]. done. }
  rewrite unquote_escape by done. cbn. by rewrite IH by (done || lia).
Qed.

Lemma scan_print_string s rest :
  is_ascii s = true → scan_string_value (escape s +:+ (dquote +:+ rest)) = Ok (s, rest).
Proof.
  intros Hs. unfold scan_string_value. rewrite scan_string_escape by done. cbn. unfold unquote.
  by rewrite unquote_loop_escape.
Qed.

(** *** Documents *)

Definition print_elements : list json → string :=
  fix elements l := match l with
    | [] => ""
    | [v] => print_json v
    | v :: l' => print_json v +:+ ("," +:+ elements l')
    end.

Definition print_members : list (string * json) → string :=
  fix members l := match l with
    | [] => ""
    | [(k, v)] => print_string k +:+ (":" +:+ print_json v)
    | (k, v) :: l' => print_string k +:+ (":" +:+ (print_json v +:+ ("," +:+ members l')))
    end.

Lemma print_array_eq l : print_json (JArray l) = "[" +:+ (print_elements l +:+ "]").
Proof. done. Qed.
Lemma print_object_eq l : print_json (JObject l) = "{" +:+ (print_members l +:+ "}").
Proof. done. Qed.

(** The first character of a document. *)
Lemma print_json_first d v :
  printable d v → ∃ c t, print_json v = String c t ∧ is_space c = false ∧ c ≠ "]"%char.
Proof.
  destruct 1 as [d|d []|d literal [Hf _]|d s _|d l _ _|d l _ _];
    try (eexists _, _; (split; [reflexivity|done])).
  destruct literal as [|c literal]; [done|]. exists c, literal. split; [done|]. cbn in Hf.
  destruct c as [[] [] [] [] [] [] [] []]; first [done|discriminate Hf].
Qed.

Lemma after_space_json {A} d v rest (f : ascii → string → scan A) r :
  printable d v → (∀ c t, c ≠ "]"%char → f c t = r) → after_space (print_json v +:+ rest) f = r.
Proof.
  intros Hv Hf. destruct (print_json_first d v Hv) as (c & t & -> & Hs & Hc).
  unfold after_space. rewrite app_cons_str. cbn [skip_space]. rewrite Hs. by apply Hf.
Qed.

Lemma number_value_numeral literal rest :
  numeral literal → closing rest → number_value (literal +:+ rest) = Ok (JNumber literal, rest).
Proof.
  intros [_ Hs] Hr. unfold number_value. rewrite Hs by done. cbn. do 3 f_equal.
  rewrite length_app_str, Nat.add_sub. apply take_app_length.
Qed.

(** The scanner reads back a value, the members of an object and the elements of an array. *)
Definition reads_value (n : nat) : Prop := ∀ v depth d rest,
  printable d v → depth + d ≤ maxNestingDepth → closing rest →
  (2 * String.length (print_json v) + 1 ≤ n)%nat → scan_value n depth (print_json v +:+ rest) = Ok (v, rest).
Definition reads_members (n : nat) : Prop := ∀ l depth d rest,
  l ≠ [] → Forall (λ m, is_ascii m.1 = true ∧ printable d m.2) l → depth + d ≤ maxNestingDepth →
  (2 * String.length (print_members l) + 1 ≤ n)%nat →
  scan_members n depth (print_members l +:+ String "}" rest) = Ok (l, rest).
Definition reads_elements (n : nat) : Prop := ∀ l depth d rest,
  l ≠ [] → Forall (printable d) l → depth + d ≤ maxNestingDepth →
  (2 * String.length (print_elements l) + 2 ≤ n)%nat →
  scan_elements n depth (print_elements l +:+ String "]" rest) = Ok (l, rest).

Lemma opened_ok {A} depth d c (m : scan A) : 0 < d → depth + d ≤ maxNestingDepth → opened depth c m = m.
Proof. intros. unfold opened. rewrite decide_False by lia. done. Qed.

Lemma first_element l rest :
  l ≠ [] → ∃ v t, v ∈ l ∧ print_elements l +:+ rest = print_json v +:+ t.
Proof.
  destruct l as [|v [|w l]]; [done| |]; intros _; exists v; cbn; [by eexists; split; [left|]|].
  rewrite <-app_assoc_str. eexists. split; [left|done].
Qed.

Lemma first_member l rest : l ≠ [] → ∃ t, print_members l +:+ rest = dquote +:+ t.
Proof.
  destruct l as [|[k v] l]; [done|]; intros _. destruct l; cbn; unfold print_string; rewrite <-!app_assoc_str; by eexists.
Qed.

Lemma scan_value_number n depth literal rest :
  numeral literal → scan_value (S n) depth (literal +:+ rest) = number_value (literal +:+ rest).
Proof.
  intros [Hf _]. destruct literal as [|c literal]; [done|]. cbn [next_is] in Hf. rewrite app_cons_str.
  apply orb_true_iff in Hf. rewrite bool_decide_eq_true in Hf.
  cbn [scan_value]. unfold after_space. destruct c as [[] [] [] [] [] [] [] []];
    first [reflexivity|exfalso; clear -Hf; vm_compute in Hf; destruct Hf; discriminate].
Qed.

Lemma read_value n : reads_members n → reads_elements n → reads_value (S n).
Proof.
  intros IHm IHe v depth d rest Hp Hd Hr Hn. destruct Hp as [d|d b|d literal Hlit|d s Hs|d l Hd0 Hl|d l Hd0 Hl].
  - reflexivity.
  - by destruct b.
  - rewrite <-(number_value_numeral literal rest) by done. by apply scan_value_number.
  - cbn [print_json]. unfold print_string. rewrite <-!app_assoc_str.
    transitivity ('(text, r) ← scan_string_value (escape s +:+ (dquote +:+ rest)); Ok (JString text, r)); [reflexivity|].
    by rewrite scan_print_string.
  - rewrite print_array_eq in *. rewrite !length_app_str in Hn. cbn [String.length] in Hn.
    rewrite <-!app_assoc_str.
    set (X := print_elements l +:+ ("]" +:+ rest)).
    transitivity (opened depth "[" (after_space X (λ c1 s1, if decide (c1 = "]"%char) then Ok (JArray [], s1)
      else '(es, r) ← scan_elements n (depth + 1) X; Ok (JArray es, r)))); [reflexivity|].
    rewrite (opened_ok _ d) by done. subst X. destruct (decide (l = [])) as [->|Hne]; [reflexivity|].
    destruct (first_element l ("]" +:+ rest) Hne) as (v & t & Hin & E). rewrite E.
    apply (after_space_json (d - 1)); [by eapply (proj1 (Forall_forall _ l))|].
    intros c s1 Hc. rewrite decide_False by done. rewrite <-E.
    rewrite app_char_str. rewrite (IHe l (depth + 1) (d - 1) rest) by (done || lia). done.
  - rewrite print_object_eq in *. rewrite !length_app_str in Hn. cbn [String.length] in Hn.
    rewrite <-!app_assoc_str. set (X := print_members l +:+ ("}" +:+ rest)).
    transitivity (opened depth "{" (after_space X (λ c1 s1, if decide (c1 = "}"%char) then Ok (JObject [], s1)
      else '(ms, r) ← scan_members n (depth + 1) X; Ok (JObject ms, r)))); [reflexivity|].
    rewrite (opened_ok _ d) by done. subst X. destruct (decide (l = [])) as [->|Hne]; [reflexivity|].
    destruct (first_member l ("}" +:+ rest) Hne) as (t & E). rewrite E.
    transitivity ('(ms, r) ← scan_members n (depth + 1) (dquote +:+ t); Ok (JObject ms, r)); [reflexivity|].
    rewrite <-E, app_char_str. rewrite (IHm l (depth + 1) (d - 1) rest) by (done || lia). done.
Qed.

Lemma scan_elements_S n depth s :
  scan_elements (S n) depth s =
    '(v, s1) ← scan_value n depth s;
    after_space s1 (λ c s2,
      if decide (c = ","%char) then '(es, rest) ← scan_elements n depth s2; Ok (v :: es, rest)
      else if decide (c = "]"%char) then Ok ([v], s2)
      else Err (InvalidChar (Some c) "after array element")).
Proof. done. Qed.


Lemma print_elements_cons v w l : print_elements (v :: w :: l) = print_json v +:+ String "," (print_elements (w :: l)).
Proof. done. Qed.

Lemma read_elements n : reads_value n → reads_elements n → reads_elements (S n).
Proof.
  intros IHv IHe l depth d rest Hne Hl Hd Hn. destruct l as [|v l]; [done|].
  apply Forall_cons in Hl as [Hv Hl]. rewrite scan_elements_S. destruct l as [|w l].
  - cbn [print_elements] in *. rewrite (IHv v depth d) by (done || lia || (split; reflexivity)). reflexivity.
  - rewrite print_elements_cons, length_app_str in *. cbn [String.length] in Hn. rewrite <-app_assoc_str, app_cons_str.
    rewrite (IHv v depth d) by (done || lia || (split; reflexivity)).
    transitivity ('(es, r) ← scan_elements n depth (print_elements (w :: l) +:+ String "]" rest); Ok (v :: es, r));
      [reflexivity|].
    by rewrite (IHe (w :: l) depth d) by (done || lia).
Qed.

Lemma scan_members_key n depth k rest :
  is_ascii k = true →
  scan_members (S n) depth (print_string k +:+ (":" +:+ rest)) =
    '(v, s4) ← scan_value n depth rest;
    after_space s4 (λ c s5,
      if decide (c = ","%char) then '(ms, rest) ← scan_members n depth s5; Ok ((k, v) :: ms, rest)
      else if decide (c = "}"%char) then Ok ([(k, v)], s5)
      else Err (InvalidChar (Some c) "after object key:value pair")).
Proof.
  intros Hk. unfold print_string. rewrite <-!app_assoc_str.
  transitivity ('(key, s2) ← scan_string_value (escape k +:+ (dquote +:+ (":" +:+ rest)));
    after_space s2 (λ c s3,
      if decide (c ≠ ":"%char) then Err (InvalidChar (Some c) "after object key") else
      '(v, s4) ← scan_value n depth s3;
      after_space s4 (λ c s5,
        if decide (c = ","%char) then '(ms, rest) ← scan_members n depth s5; Ok ((key, v) :: ms, rest)
        else if decide (c = "}"%char) then Ok ([(key, v)], s5)
        else Err (InvalidChar (Some c) "after object key:value pair")))); [reflexivity|].
  rewrite scan_print_string by done. reflexivity.
Qed.

Lemma print_members_cons k v m l :
  print_members ((k, v) :: m :: l) = print_string k +:+ (":" +:+ (print_json v +:+ String "," (print_members (m :: l)))).
Proof. done. Qed.

Lemma read_members n : reads_value n → reads_members n → reads_members (S n).
Proof.
  intros IHv IHm l depth d rest Hne Hl Hd Hn. destruct l as [|[k v] l]; [done|].
  apply Forall_cons in Hl as [[Hk Hv] Hl]. cbn [fst snd] in *. destruct l as [|m l].
  - cbn [print_members] in *. rewrite !length_app_str in Hn. cbn [String.length] in Hn.
    rewrite <-!app_assoc_str, scan_members_key by done.
    rewrite (IHv v depth d) by (done || lia || (split; reflexivity)). reflexivity.
  - rewrite print_members_cons, !length_app_str in *. cbn [String.length] in Hn.
    rewrite <-!app_assoc_str, scan_members_key, app_cons_str by done.
    rewrite (IHv v depth d) by (done || lia || (split; reflexivity)).
    transitivity ('(ms, r) ← scan_members n depth (print_members (m :: l) +:+ String "}" rest); Ok ((k, v) :: ms, r));
      [reflexivity|].
    by rewrite (IHm (m :: l) depth d) by (done || lia).
Qed.

Lemma scan_print n : reads_value n ∧ reads_members n ∧ reads_elements n.
Proof.
  induction n as [|n (IHv & IHm & IHe)]; [split_and!; intros ?; intros; lia|].
  split_and!; [by apply read_value|by apply read_members|by apply read_elements].
Qed.

(** Reading a document inverts writing it. *)
Lemma parse_print v : printable maxNestingDepth v → parse_document (print_json v) = Ok v.
Proof.
  intros Hp. unfold parse_document.
  destruct (scan_print (scan_fuel (print_json v))) as (Hv & _ & _).
  specialize (Hv v 0 maxNestingDepth "" Hp). rewrite app_nil_r_str in Hv.
  rewrite Hv; [done|lia|done|unfold scan_fuel; lia].
Qed.

(** *** Token documents

    What Kubernetes sends: an object with an object for each audience, whose member [token] is the token.  The inner objects
    may have other members, among them [expirationTimestamp], in any order; no other name may differ from these two only
    in the case of letters, for Go takes it for the same. *)
Definition folds_to (name : string) (m : string * json) : Prop := fold_name m.1 = name.
#[export] Instance folds_to_dec name m : Decision (folds_to name m).
Proof. unfold folds_to. apply _. Defined.

Definition token_object (members : list (string * json)) (token : string) : Prop :=
  filter (folds_to "token") members = [("token", JString token)] ∧
  Forall (λ m, folds_to "expirationtimestamp" m → ∃ time, m.2 = JString time) members.

Lemma token_object_check members token :
  filter (folds_to "token") members = [("token", JString token)] →
  forallb (λ m, match m.2 with JString _ => true | _ => negb (bool_decide (folds_to "expirationtimestamp" m)) end) members = true →
  token_object members token.
Proof.
  intros Ht Hf. split; [done|]. apply Forall_forall. intros m Hm Hx. rewrite forallb_forall in Hf.
  specialize (Hf m ltac:(by apply list_elem_of_In)). destruct (m.2); try by eexists.
  all: by apply negb_true_iff, bool_decide_eq_false in Hf.
Qed.

(** The document of some audiences, each with the members of its object and the token that is among them. *)
Definition token_document_of (entries : list (string * (list (string * json) * string))) : json :=
  JObject ((λ e : string * (list (string * json) * string), (e.1, JObject e.2.1)) <$> entries).

Lemma store_token_cons key v rest t :
  store_token ((key, v) :: rest) t =
    t' ← (if decide (fold_name key = "token") then
            s ← store_string "" "token" v (Token t); Ok (MkServiceToken s (ExpirationTimestamp t))
          else if decide (fold_name key = "expirationtimestamp") then
            s ← store_string "" "expirationTimestamp" v (ExpirationTimestamp t); Ok (MkServiceToken (Token t) s)
          else Ok t);
    store_token rest t'.
Proof. done. Qed.

Lemma store_members members t :
  Forall (λ m, folds_to "expirationtimestamp" m → ∃ time, m.2 = JString time) members →
  (filter (folds_to "token") members = [] → ∃ time, store_token members t = Ok (MkServiceToken (Token t) time)) ∧
  (∀ token, filter (folds_to "token") members = [("token", JString token)] →
    ∃ time, store_token members t = Ok (MkServiceToken token time)).
Proof.
  intros Hm. revert t. induction Hm as [|[key v] members Hv Hm IH]; intros t.
  { split; [intros _; exists (ExpirationTimestamp t); by destruct t|done]. }
  rewrite store_token_cons. destruct (decide (folds_to "token" (key, v))) as [Hk|Hk].
  - rewrite filter_cons_True, decide_True by done. split; [done|]. intros token Hf. injection Hf as -> -> Hf.
    cbn [store_string mbind result_bind].
    destruct (IH (MkServiceToken token (ExpirationTimestamp t))) as [Hnone _]. exact (Hnone Hf).
  - rewrite filter_cons_False, decide_False by done. case_decide as He.
    + destruct (Hv He) as [time E]. cbn in E. subst v. cbn [store_string mbind result_bind]. apply (IH (MkServiceToken (Token t) time)).
    + cbn [mbind result_bind]. apply IH.
Qed.

Lemma store_token_document entries tokens audience :
  NoDup entries.*1 → Forall (λ e, token_object e.2.1 e.2.2) entries →
  ∃ stored, store_tokens ((λ e : string * (list (string * json) * string), (e.1, JObject e.2.1)) <$> entries) tokens = Ok stored ∧
    Token <$> stored !! audience =
      match list_to_map (M := gmap string (list (string * json) * string)) entries !! audience with
      | Some e => Some e.2
      | None => Token <$> tokens !! audience
      end.
Proof.
  intros Hnd Ho. revert tokens. induction Ho as [|[b [members token]] entries [Ht Hx] Ho IH]; intros tokens; [by exists tokens|].
  cbn [fst snd] in *. cbn in Hnd. apply NoDup_cons in Hnd as [Hb Hnd].
  destruct (proj2 (store_members members (MkServiceToken "" "") Hx) token Ht) as [time Hst].
  destruct (IH Hnd (<[b := MkServiceToken token time]> tokens)) as (stored & Hs & Hl). exists stored.
  cbn [fmap list_fmap store_tokens fst snd]. rewrite Hst. cbn [mbind result_bind]. split; [exact Hs|]. rewrite Hl.
  cbn [list_to_map foldr uncurry fst snd]. change (foldr _ ∅ entries) with (list_to_map (M := gmap string (list (string * json) * string)) entries).
  destruct (decide (audience = b)) as [->|Hne].
  - rewrite not_elem_of_list_to_map_1 by done. by rewrite !lookup_insert_eq.
  - by rewrite !lookup_insert_ne by done.
Qed.

(** A text that is written with it is read. *)
Lemma parse_token_document entries :
  Forall (λ e, is_ascii e.1 = true ∧ Forall (λ m, is_ascii m.1 = true ∧ printable (maxNestingDepth - 1 - 1) m.2) e.2.1) entries →
  parse_document (print_json (token_document_of entries)) = Ok (token_document_of entries).
Proof.
  intros Hf. apply parse_print, print_object; [done|]. apply Forall_fmap. eapply Forall_impl; [exact Hf|].
  intros e [Ha Hm]. split; [exact Ha|]. by apply print_object.
Qed.

(** *** Streams and numbers *)

Lemma decode_stream_print v rest e :
  printable maxNestingDepth v → closing rest → decode_stream (print_json v +:+ rest) e = Ok v.
Proof.
  intros Hp Hr. unfold decode_stream.
  destruct (scan_print (scan_fuel (print_json v +:+ rest))) as (Hv & _ & _).
  rewrite (Hv v 0 maxNestingDepth rest Hp); [done|lia|done|].
  unfold scan_fuel. rewrite length_app_str. lia.
Qed.

(** Digits without a leading zero, or zero, with or without a sign. *)
Definition natural_literal (s : string) : bool :=
  bool_decide (s = "0") || (all_chars is_digit s && next_is (λ c, is_digit c && bool_decide (c ≠ "0"%char)) s).
Definition int_literal (s : string) : bool := natural_literal (drop_if (one_of ["-"]%char) s).

Lemma skip_digits_app s rest :
  all_chars is_digit s = true → next_is is_digit rest = false → skip_digits (s +:+ rest) = rest.
Proof.
  intros Hs Hr. induction s as [|c s IH]; [|rewrite app_cons_str]; cbn [skip_digits all_chars] in *.
  - destruct rest as [|c rest]; [done|]. cbn [next_is skip_digits String.append] in *.
    rewrite app_nil_l_str. cbn [skip_digits]. by rewrite Hr.
  - apply andb_true_iff in Hs as [Hc Hs]. rewrite Hc. by apply IH.
Qed.

Lemma scan_natural s rest :
  natural_literal s = true → closing rest →
  (s ← (if next_is (one_of ["0"]%char) (s +:+ rest) then Ok (str_drop 1 (s +:+ rest))
        else some_digits "in numeric literal" (s +:+ rest));
   s ← scan_fraction s; scan_exponent s) = Ok rest.
Proof.
  intros Hs [H1 H2].
  assert (scan_fraction rest = Ok rest ∧ scan_exponent rest = Ok rest) as [Hf He].
  { unfold scan_fraction, scan_exponent. destruct rest as [|c rest]; [done|]. cbn [next_is] in *.
    unfold one_of in *. apply bool_decide_eq_false in H1. by rewrite !bool_decide_false by set_solver. }
  apply orb_true_iff in Hs as [Hs|Hs].
  - apply bool_decide_eq_true in Hs as ->. transitivity (s ← scan_fraction rest; scan_exponent s); [reflexivity|].
    by rewrite Hf.
  - apply andb_true_iff in Hs as [Hd Hn]. destruct s as [|c s]; [done|]. cbn [next_is] in Hn.
    apply andb_true_iff in Hn as [Hc Hz]. apply bool_decide_eq_true in Hz.
    rewrite app_cons_str. cbn [next_is]. unfold one_of at 1. rewrite bool_decide_false by set_solver.
    unfold some_digits. cbn [next_is]. rewrite Hc. rewrite <-app_cons_str, skip_digits_app by done.
    cbn [mbind result_bind]. by rewrite Hf.
Qed.

Lemma int_literal_numeral s : int_literal s = true → numeral s.
Proof.
  unfold int_literal, drop_if. intros Hs. split.
  - destruct s as [|c s]; [done|]. cbn [next_is] in *. unfold one_of in Hs. case_bool_decide as Hc.
    + rewrite bool_decide_true by set_solver. by rewrite orb_true_r.
    + apply orb_true_iff in Hs as [Hs|Hs]; [apply bool_decide_eq_true in Hs; by injection Hs as -> ->|].
      apply andb_true_iff in Hs as [_ Hs]. cbn in Hs. apply andb_true_iff in Hs as [-> _]. done.
  - intros rest Hr. unfold scan_number, drop_if. destruct s as [|c s]; [done|].
    rewrite app_cons_str. cbn [next_is] in *. destruct (one_of ["-"]%char c).
    + assert (∀ t, str_drop 0 t = t) as H0 by by intros [].
      change (str_drop 1 (String c s)) with (str_drop 0 s) in Hs.
      change (str_drop 1 (String c (s +:+ rest))) with (str_drop 0 (s +:+ rest)).
      rewrite H0 in Hs. rewrite H0. by apply scan_natural.
    + rewrite <-app_cons_str. by apply scan_natural.
Qed.

Lemma itoa_natural z : 0 ≤ z → natural_literal (itoa z) = true.
Proof.
  intros Hz. unfold natural_literal. destruct (itoa_shape z Hz) as [[-> _]|(c & t & -> & Hc & H0 & Ht)]; [done|].
  cbn. by rewrite Hc, Ht, (bool_decide_true (c ≠ _)), orb_true_r.
Qed.

(** Integers are written as numbers that can be read back. *)
Lemma itoa_numeral z : numeral (itoa z).
Proof.
  apply int_literal_numeral. unfold int_literal, drop_if. destruct (decide (0 ≤ z)) as [H0|H0].
  - pose proof (itoa_natural z H0) as Hn. destruct (itoa_shape z H0) as [[-> _]|(c & t & E & Hc & _)]; [done|].
    rewrite E in *. cbn [next_is]. unfold one_of. rewrite bool_decide_false; [done|].
    rewrite list_elem_of_singleton. by intros ->.
  - destruct z as [|p|p]; [lia|lia|]. rewrite itoa_neg, app_char_str. cbn [next_is].
    unfold one_of. rewrite bool_decide_true by set_solver.
    change (str_drop 1 (String "-" (itoa (Z.pos p)))) with (str_drop 0 (itoa (Z.pos p))).
    assert (∀ t, str_drop 0 t = t) as -> by by intros []. by apply itoa_natural.
Qed.
