(* ===== verification/FS.v ===== *)
(** * The node's filesystem: the parts of packages os and path/filepath that the driver uses

    A tree of directories and files, and the system calls on it.  Every call may fail:
    the state holds a schedule of faults, one entry per call to come ([None]: the call
    is served; the schedule ended: all calls are served), so that what is proved for every
    state is proved for every pattern of I/O errors.  There are no symbolic links, and
    relative paths are taken from the root, the driver's working directory. *)
From S2P Require Import Prelude GoStr Regex GoErr.

Local Open Scope string_scope.
Local Open Scope list_scope.
Local Open Scope Z_scope.

(** ** Paths *)
Abbreviation path := (list string).

Fixpoint clean_from (acc : path) (components : list string) : path :=
  match components with
  | [] => acc
  | c :: rest =>
      if decide (c = "" ∨ c = ".") then clean_from acc rest
      else if decide (c = "..") then clean_from (removelast acc) rest
      else clean_from (acc ++ [c]) rest
  end.

Definition resolve (p : string) : path := clean_from [] (split "/" p).
Definition path_string (p : path) : string := "/" +:+ join "/" p.

(** [filepath.Join], of elements that start with an absolute path. *)
Definition Join (elems : list string) : string :=
  path_string (resolve (join "/" (filter (λ e, e ≠ "") elems))).

(** ** The tree *)
Record attr : Type := MkAttr { perm : Z; owner : Z }.

Inductive node : Type :=
| Dir (a : attr)
| File (content : string) (a : attr).

#[export] Instance attr_eq_dec : EqDecision attr.
Proof. solve_decision. Defined.
#[export] Instance node_eq_dec : EqDecision node.
Proof. solve_decision. Defined.

Abbreviation tree := (gmap path node).

Definition is_file (n : option node) : bool := match n with Some (File _ _) => true | _ => false end.
Definition is_dir (n : option node) : bool := match n with Some (Dir _) => true | _ => false end.

(** The node at a path; the root is always a directory. *)
Definition look (t : tree) (p : path) : option node :=
  match p with [] => Some (default (Dir (MkAttr 493 0)) (t !! [])) | _ => t !! p end.

(** Why a path does not lead anywhere. *)
Definition missing (t : tree) (p : path) : errno :=
  if existsb (λ k, is_file (look t (take k p))) (seq 0 (length p)) then ENOTDIR else ENOENT.

Definition parent (p : path) : path := removelast p.

(** [q] lies strictly below [p]. *)
Definition below (p q : path) : bool :=
  bool_decide (take (length p) q = p) && bool_decide (length p < length q)%nat.

Definition descendants (t : tree) (p : path) : list path :=
  filter (λ q, below p q = true) (map_to_list t).*1.

Definition children (t : tree) (p : path) : list string :=
  merge_sort String.le
    (omap (λ q, if decide (length q = S (length p)) then last q else None) (descendants t p)).

(** ** Faults *)
Record fault : Type := MkFault {
  fault_errno : errno;
  fault_progress : nat;   (* how far the call came before it failed *)
}.

Record os : Type := MkOS {
  files : tree;
  faults : list (option fault);
}.

(** A system call: what it leaves if it fails, and what it does if it is served. *)
Definition syscall {A : Type} (op p : string) (partial : nat → tree → tree)
    (run : tree → result errno A * tree) : M os goerr A := λ s,
  match faults s with
  | Some f :: rest => (Err (ErrPath op p (fault_errno f)), MkOS (partial (fault_progress f) (files s)) rest)
  | l =>
      let '(r, t) := run (files s) in
      (map_err (λ e, ErrPath op p e) r, MkOS t (tail l))
  end.

Definition untouched (_ : nat) (t : tree) : tree := t.

(** ** The calls *)

Definition stat_tree (p : path) (t : tree) : result errno node :=
  match look t p with
  | Some n => if existsb (λ k, is_file (look t (take k p))) (seq 0 (length p)) then Err ENOTDIR else Ok n
  | None => Err (missing t p)
  end.

Definition Stat (p : string) : M os goerr node :=
  syscall "stat" p untouched (λ t, (stat_tree (resolve p) t, t)).
Definition Lstat (p : string) : M os goerr node :=
  syscall "lstat" p untouched (λ t, (stat_tree (resolve p) t, t)).

(** [os.ReadFile]: an open and a read. *)
Definition ReadFile (p : string) : M os goerr string :=
  n ← syscall "open" p untouched (λ t, (stat_tree (resolve p) t, t));
  syscall "read" p untouched (λ t, (match n with File content _ => Ok content | Dir _ => Err EISDIR end, t)).

(** The directories [MkdirAll] makes on its way to [done ++ todo]. *)
Fixpoint mkdirs (a : attr) (done todo : path) (t : tree) : result errno () * tree :=
  match todo with
  | [] => (Ok (), t)
  | c :: todo' =>
      let p := done ++ [c] in
      match look t p with
      | Some (Dir _) => mkdirs a p todo' t
      | Some (File _ _) => (Err ENOTDIR, t)
      | None => mkdirs a p todo' (<[p := Dir a]> t)
      end
  end.

Definition MkdirAll (p : string) (mode : Z) : M os goerr () :=
  let a := MkAttr mode 0 in
  syscall "mkdir" p (λ n t, (mkdirs a [] (take n (resolve p)) t).2) (mkdirs a [] (resolve p)).

Definition put_file (p : path) (content : string) (mode : Z) (t : tree) : result errno () * tree :=
  match look t (parent p), look t p with
  | _, Some (Dir _) => (Err EISDIR, t)
  | Some (Dir _), Some (File _ a) => (Ok (), <[p := File content a]> t)
  | Some (Dir _), None => (Ok (), <[p := File content (MkAttr mode 0)]> t)
  | _, _ => (Err (missing t p), t)
  end.

(** [os.WriteFile].  A write that fails on its way (progress [n + 1]) has truncated the
    file and written [n] bytes. *)
Definition WriteFile (p content : string) (mode : Z) : M os goerr () :=
  syscall "open" p
    (λ n t, match n with O => t | S n' => (put_file (resolve p) (str_take n' content) mode t).2 end)
    (put_file (resolve p) content mode).

(** [os.Rename] of a file. *)
Definition rename_tree (old new : path) (t : tree) : result errno () * tree :=
  match look t old with
  | Some (File content a) =>
      match look t (parent new), look t new with
      | _, Some (Dir _) => (Err EEXIST, t)
      | Some (Dir _), _ => (Ok (), <[new := File content a]> (delete old t))
      | _, _ => (Err (missing t new), t)
      end
  | Some (Dir _) => (Err EISDIR, t)
  | None => (Err (missing t old), t)
  end.

Definition Rename (old new : string) : M os goerr () :=
  syscall "rename" (old +:+ " " +:+ new) untouched (rename_tree (resolve old) (resolve new)).

(** [os.Remove]: a file, or a directory with nothing in it (there is never anything
    below a file). *)
Definition remove_tree (p : path) (t : tree) : result errno () * tree :=
  match look t p with
  | None => (Err (missing t p), t)
  | Some _ =>
      match descendants t p with
      | [] => (Ok (), delete p t)
      | _ => (Err ENOTEMPTY, t)
      end
  end.

Definition Remove (p : string) : M os goerr () :=
  syscall "remove" p untouched (remove_tree (resolve p)).

(** [os.RemoveAll].  A removal that fails on its way has removed some of the deepest paths. *)
Definition deeper (q r : path) : Prop := (length r ≤ length q)%nat.
#[export] Instance deeper_dec q r : Decision (deeper q r).
Proof. unfold deeper. apply _. Defined.

Definition subtree (t : tree) (p : path) : list path :=
  merge_sort deeper (p :: descendants t p).
Definition delete_all (l : list path) (t : tree) : tree := foldr (λ p t, delete p t) t l.

Definition RemoveAll (p : string) : M os goerr () :=
  syscall "unlinkat" p
    (λ n t, delete_all (take n (subtree t (resolve p))) t)
    (λ t, (Ok (), delete_all (subtree t (resolve p)) t)).

(** File modes: the nine permission bits, and Go's bits for setgid and a directory. *)
Definition ModeDir : Z := 2^31.
Definition ModeSetgid : Z := 2^22.
Definition ModeSetuid : Z := 2^23.
Definition ModeSticky : Z := 2^20.
Definition node_attr (n : node) : attr := match n with Dir a => a | File _ a => a end.
Definition set_attr (a : attr) (n : node) : node :=
  match n with Dir _ => Dir a | File c _ => File c a end.

(** [info.Mode()] *)
Definition Mode (n : node) : Z :=
  match n with Dir a => Z.lor (perm a) ModeDir | File _ a => perm a end.
(** The bits of a mode that [os.Chmod] uses. *)
Definition chmod_bits : Z := Z.lor 511 (Z.lor ModeSetuid (Z.lor ModeSetgid ModeSticky)).

Definition change_attr (p : path) (f : attr → attr) (t : tree) : result errno () * tree :=
  match look t p with
  | Some n => (Ok (), <[p := set_attr (f (node_attr n)) n]> t)
  | None => (Err (missing t p), t)
  end.

Definition Chmod (p : string) (mode : Z) : M os goerr () :=
  syscall "chmod" p untouched
    (change_attr (resolve p) (λ a, MkAttr (Z.land mode chmod_bits) (owner a))).

(** [os.Lchown] with a user of -1, which keeps the user. *)
Definition Lchown_group (p : string) (gid : Z) : M os goerr () :=
  syscall "lchown" p untouched (change_attr (resolve p) (λ a, MkAttr (perm a) gid)).

(** ** [filepath.Glob] *)
Definition glob_escape (s : string) : option (ascii * string) :=
  match s with
  | "" => None
  | String "-" _ => None
  | String "]" _ => None
  | String "\" (String c s') => if decide (s' = "") then None else Some (c, s')
  | String "\" "" => None
  | String c s' => if decide (s' = "") then None else Some (c, s')
  end.

(** The ranges of a character class, after its opening bracket. *)
Fixpoint glob_ranges (fuel : nat) (first : bool) (acc : ascii → bool) (s : string)
    : option ((ascii → bool) * string) :=
  match fuel with
  | O => None
  | S fuel' =>
      match s with
      | String "]" s' => if first then None else Some (acc, s')
      | _ =>
          '(lo, s1) ← glob_escape s;
          '(hi, s2) ← match s1 with String "-" s2 => glob_escape s2 | _ => Some (lo, s1) end;
          glob_ranges fuel' false
            (λ c, acc c || bool_decide (ascii_val lo ≤ ascii_val c ≤ ascii_val hi)) s2
      end
  end.

Definition not_sep (a : ascii) : bool := bool_decide (a ≠ "/"%char).

(** A pattern of [filepath.Match], as a regular expression; [None]: [ErrBadPattern]. *)
Fixpoint glob_regex (fuel : nat) (s : string) : option regex :=
  match fuel with
  | O => Some REps
  | S fuel' =>
      match s with
      | "" => Some REps
      | String "*" s' => r ← glob_regex fuel' s'; Some (RSeq (RStar (RClass not_sep)) r)
      | String "?" s' => r ← glob_regex fuel' s'; Some (RSeq (RClass not_sep) r)
      | String "\" (String c s') =>
          r ← glob_regex fuel' s'; Some (RSeq (RClass (λ a, bool_decide (a = c))) r)
      | String "\" "" => None
      | String "[" s' =>
          let '(negated, s1) := match s' with String "^" s1 => (true, s1) | _ => (false, s') end in
          '(p, s2) ← glob_ranges fuel' true (λ _, false) s1;
          r ← glob_regex fuel' s2;
          Some (RSeq (RClass (λ a, xorb negated (p a))) r)
      | String c s' => r ← glob_regex fuel' s'; Some (RSeq (RClass (λ a, bool_decide (a = c))) r)
      end
  end.

Definition has_meta (s : string) : bool :=
  has_char "*" s || has_char "?" s || has_char "[" s || has_char "\" s.

(** [filepath.Match] of one component. *)
Definition glob_match (pattern name : string) : bool :=
  match glob_regex (String.length pattern) pattern with
  | Some r => match_string (RAnchored r) name
  | None => false
  end.

Definition valid_pattern (pattern : string) : bool :=
  bool_decide (is_Some (glob_regex (String.length pattern) pattern)).

(** The paths below the directories [dirs] that match the rest of a pattern. *)
Fixpoint glob_dirs (t : tree) (dirs : list path) (patterns : list string) : list path :=
  match patterns with
  | [] => dirs
  | pattern :: rest =>
      glob_dirs t
        (dirs ≫= λ d, if is_dir (look t d)
                      then (λ n, d ++ [n]) <$> filter (λ n, glob_match pattern n = true) (children t d)
                      else []) rest
  end.

Fixpoint split_meta (acc : path) (components : path) : path * path :=
  match components with
  | [] => (acc, [])
  | c :: rest => if has_meta c then (acc, c :: rest) else split_meta (acc ++ [c]) rest
  end.

Definition glob_tree (pattern : path) (t : tree) : list path :=
  let '(dir, patterns) := split_meta [] pattern in
  match patterns with
  | [] => match look t dir with Some _ => [dir] | None => [] end
  | _ => glob_dirs t [dir] patterns
  end.

(** Errors while directories are read are not reported: they only hide matches. *)
Definition Glob (pattern : string) : M os goerr (list string) := λ s,
  let components := resolve pattern in
  let matches := path_string <$> glob_tree components (files s) in
  if forallb valid_pattern components then
    match faults s with
    | Some f :: rest => (Ok (take (fault_progress f) matches), MkOS (files s) rest)
    | l => (Ok matches, MkOS (files s) (tail l))
    end
  else (Err (ErrText "syntax error in pattern"), s).

(** ** Lemmas: paths *)

(** A name that a path component can have. *)
Definition plain (c : string) : Prop := c ≠ "" ∧ c ≠ "." ∧ c ≠ ".." ∧ has_char "/" c = false.

#[export] Instance plain_dec c : Decision (plain c).
Proof. unfold plain. apply _. Defined.

Lemma clean_from_plain acc l : Forall plain l → clean_from acc l = acc ++ l.
Proof.
  intros Hl. revert acc. induction Hl as [|c l (Hc1 & Hc2 & Hc3 & _) Hl IH]; intros acc; cbn.
  { by rewrite app_nil_r. }
  rewrite decide_False by naive_solver. rewrite decide_False by done.
  rewrite IH. by rewrite <-app_assoc.
Qed.

Lemma join_join sep l cs : l ≠ [] → join sep (join sep l :: cs) = join sep (l ++ cs).
Proof.
  intros Hl. induction l as [|x [|y l] IH]; [done| |].
  - done.
  - rewrite <-app_comm_cons. destruct cs as [|c cs]; [by rewrite app_nil_r|].
    rewrite (join_cons sep x y l), join_cons.
    cbn [app]. rewrite (join_cons sep x y (l ++ c :: cs)).
    rewrite app_comm_cons, <-IH by done. rewrite (join_cons sep (join sep (y :: l))).
    by rewrite <-!app_assoc_str.
Qed.

Lemma path_string_join p : p ≠ [] → path_string p = join "/" ("" :: p).
Proof. unfold path_string. by destruct p. Qed.

Lemma resolve_components l : Forall (λ c, has_char "/" c = false) l → l ≠ [] → resolve (join "/" l) = clean_from [] l.
Proof. intros Hl Hne. unfold resolve. by rewrite split_join. Qed.

Lemma plain_no_slash l : Forall plain l → Forall (λ c, has_char "/" c = false) l.
Proof. intros Hl. eapply Forall_impl; [exact Hl|]. by intros c (_ & _ & _ & ?). Qed.

Lemma clean_from_root p : Forall plain p → clean_from [] ("" :: p) = p.
Proof. intros Hp. transitivity (clean_from [] p); [done|by apply clean_from_plain]. Qed.

Lemma resolve_path_string p : Forall plain p → resolve (path_string p) = p.
Proof.
  intros Hp. destruct p as [|c p]; [done|].
  rewrite path_string_join, resolve_components by (done || (constructor; [done|by apply plain_no_slash])).
  by apply clean_from_root.
Qed.

Lemma Join_plain root comps :
  Forall plain root → root ≠ [] → Forall plain comps →
  Join (path_string root :: comps) = path_string (root ++ comps).
Proof.
  intros Hr Hne Hc. unfold Join. f_equal.
  assert (filter (λ e, e ≠ "") (path_string root :: comps) = path_string root :: comps) as ->.
  { rewrite filter_cons_True by done. f_equal.
    induction Hc as [|c comps (? & _) Hc IH]; [done|]. by rewrite filter_cons_True, IH. }
  rewrite path_string_join, join_join by done. cbn [app].
  rewrite resolve_components; [|constructor; [done|]|done].
  - apply clean_from_root. by apply Forall_app.
  - apply plain_no_slash. by apply Forall_app.
Qed.

Lemma resolve_Join root comps :
  Forall plain root → root ≠ [] → Forall plain comps →
  resolve (Join (path_string root :: comps)) = root ++ comps.
Proof. intros. rewrite Join_plain by done. apply resolve_path_string. by apply Forall_app. Qed.

(** ** Lemmas: system calls *)

(** Faults that say something of the device and nothing of the tree. *)
Definition io_error (e : errno) : Prop := e ∉ [ENOENT; EEXIST; ENOTEMPTY; ENOTDIR; EISDIR].
Definition io_faults (o : os) : Prop :=
  Forall (λ f, match f with Some f => io_error (fault_errno f) | None => True end) (faults o).

Lemma syscall_cases {A : Type} (op p : string) (partial : nat → tree → tree) (run : tree → result errno A * tree) o r o' :
  syscall op p partial run o = (r, o') →
  faults o' = tail (faults o) ∧
  ((∃ f, Some f ∈ faults o ∧ r = Err (ErrPath op p (fault_errno f)) ∧ files o' = partial (fault_progress f) (files o)) ∨
   (r = map_err (λ e, ErrPath op p e) (run (files o)).1 ∧ files o' = (run (files o)).2)).
Proof.
  unfold syscall. destruct (faults o) as [|[f|] l] eqn:E.
  - destruct (run (files o)) as [r0 t]. intros [= <- <-]. auto.
  - intros [= <- <-]. cbn. split; [done|]. left. exists f. set_solver.
  - destruct (run (files o)) as [r0 t]. intros [= <- <-]. auto.
Qed.

Lemma io_faults_tail o o' : faults o' = tail (faults o) → io_faults o → io_faults o'.
Proof. unfold io_faults. intros ->. destruct (faults o); [done|]. by intros [_ ?]%Forall_cons. Qed.

(** A served call, from its result. *)
Lemma syscall_ok {A : Type} (op p : string) (partial : nat → tree → tree) (run : tree → result errno A * tree) o a o' :
  syscall op p partial run o = (Ok a, o') → run (files o) = (Ok a, files o').
Proof.
  intros [_ [(f & _ & Hr & _)|[Hr Ht]]]%syscall_cases; [done|].
  destruct (run (files o)) as [[b|] t]; cbn in *; congruence.
Qed.

(** An error about the tree is the tree's. *)
Lemma syscall_tree_err {A : Type} (op p : string) (partial : nat → tree → tree) (run : tree → result errno A * tree) o e op' p' o' :
  io_faults o → ¬ io_error e → syscall op p partial run o = (Err (ErrPath op' p' e), o') →
  run (files o) = (Err e, files o').
Proof.
  intros Hio He [_ [(f & Hf & Hr & _)|[Hr Ht]]]%syscall_cases.
  - unfold io_faults in Hio. rewrite Forall_forall in Hio. specialize (Hio _ Hf). cbn in Hio.
    injection Hr as -> -> ->. done.
  - destruct (run (files o)) as [[b|] t]; cbn in *; congruence.
Qed.

(** ** Lemmas: what the calls leave alone *)

(** Every file at a path of [Q] keeps its content. *)
Definition keep_files (Q : path → Prop) : relation tree := λ t t',
  ∀ q c a, Q q → t !! q = Some (File c a) → ∃ a', t' !! q = Some (File c a').

#[export] Instance keep_files_preorder Q : PreOrder (keep_files Q).
Proof.
  split; [intros t q c a; eauto|]. intros t1 t2 t3 H12 H23 q c a Hq Ht.
  destruct (H12 _ _ _ Hq Ht) as [a' Ht']. eauto.
Qed.

Lemma keep_files_delete Q p t : ¬ Q p → keep_files Q t (delete p t).
Proof. intros Hp q c a Hq Ht. rewrite lookup_delete_ne by (by intros ->). eauto. Qed.

Lemma keep_files_insert Q p n t : ¬ Q p → keep_files Q t (<[p := n]> t).
Proof. intros Hp q c a Hq Ht. rewrite lookup_insert_ne by (by intros ->). eauto. Qed.

Lemma keep_files_delete_all Q l t : Forall (λ p, ¬ Q p) l → keep_files Q t (delete_all l t).
Proof.
  induction 1 as [|p l Hp Hl IH]; cbn; [done|]. etransitivity; [exact IH|]. by apply keep_files_delete.
Qed.

Lemma look_nonroot t p : p ≠ [] → look t p = t !! p.
Proof. by destruct p. Qed.

Lemma keep_files_mkdirs Q a done todo t : keep_files Q t (mkdirs a done todo t).2.
Proof.
  revert done t. induction todo as [|c todo IH]; intros done t; cbn; [reflexivity|].
  destruct (look t (done ++ [c])) as [[]|] eqn:E; [apply IH|reflexivity|].
  etransitivity; [|apply IH]. intros q c' a' _ Hq.
  rewrite look_nonroot in E by (by destruct done).
  rewrite lookup_insert_ne by (intros <-; congruence). eauto.
Qed.

Lemma mkdirs_other a done todo t q : ¬ q `prefix_of` (done ++ todo) → (mkdirs a done todo t).2 !! q = t !! q.
Proof.
  revert done t. induction todo as [|c todo IH]; intros done t Hq; cbn; [reflexivity|].
  rewrite cons_middle, app_assoc in Hq.
  destruct (look t (done ++ [c])) as [[]|]; cbn; [by apply IH|reflexivity|].
  rewrite IH by done. apply lookup_insert_ne. intros <-. apply Hq. by apply prefix_app_r.
Qed.

Lemma lookup_delete_all l t q : delete_all l t !! q = if decide (q ∈ l) then None else t !! q.
Proof.
  induction l as [|p l IH]; [by rewrite decide_False by apply not_elem_of_nil|].
  change (delete_all (p :: l) t) with (delete p (delete_all l t)).
  destruct (decide (q = p)) as [->|Hq]; [rewrite lookup_delete_eq, decide_True by set_solver; done|].
  rewrite lookup_delete_ne, IH by done. repeat case_decide; set_solver.
Qed.

Lemma keep_files_put Q p content mode t : ¬ Q p → keep_files Q t (put_file p content mode t).2.
Proof.
  intros Hp. unfold put_file. repeat case_match; cbn; by (reflexivity || apply keep_files_insert).
Qed.

Lemma keep_files_rename Q old new t : ¬ Q old → ¬ Q new → keep_files Q t (rename_tree old new t).2.
Proof.
  intros Ho Hn. unfold rename_tree. repeat case_match; cbn; try reflexivity.
  all: transitivity (delete old t); [by apply keep_files_delete|by apply keep_files_insert].
Qed.

Lemma keep_files_remove Q p t : ¬ Q p → keep_files Q t (remove_tree p t).2.
Proof.
  intros Hp. unfold remove_tree. repeat case_match; cbn; by (reflexivity || apply keep_files_delete).
Qed.

Lemma keep_files_change Q p f t : keep_files Q t (change_attr p f t).2.
Proof.
  unfold change_attr. destruct (look t p) as [n|] eqn:E; cbn; [|reflexivity].
  intros q c a _ Hq. destruct (decide (p = q)) as [<-|]; [|rewrite lookup_insert_ne by done; eauto].
  rewrite lookup_insert_eq. unfold look in E. destruct p; [|rewrite Hq in E; injection E as <-; cbn; eauto].
  rewrite Hq in E. cbn in E. injection E as <-. cbn. eauto.
Qed.

Lemma below_spec p q : below p q = true ↔ ∃ c r, q = p ++ c :: r.
Proof.
  unfold below. rewrite andb_true_iff, !bool_decide_eq_true. split.
  - intros [Ht Hl]. rewrite <-(take_drop (length p) q), Ht.
    destruct (drop (length p) q) as [|c r] eqn:E; [|eauto].
    apply (f_equal length) in E. rewrite length_drop in E. cbn in E. lia.
  - intros (c & r & ->). rewrite list.take_app_length. split; [done|]. rewrite length_app. cbn. lia.
Qed.

Lemma elem_of_descendants t p q : q ∈ descendants t p ↔ is_Some (t !! q) ∧ below p q = true.
Proof.
  unfold descendants. rewrite list_elem_of_filter, list_elem_of_fmap. split.
  - intros [Hb ([q' n] & -> & Hin)]. apply elem_of_map_to_list in Hin. cbn in *. eauto.
  - intros [[n Hn] Hb]. split; [done|]. exists (q, n). by rewrite elem_of_map_to_list.
Qed.

Lemma elem_of_subtree t p q : q ∈ subtree t p → q = p ∨ below p q = true.
Proof.
  unfold subtree. rewrite merge_sort_Permutation, elem_of_cons, elem_of_descendants. tauto.
Qed.

Lemma elem_of_children t p n : n ∈ children t p ↔ is_Some (t !! (p ++ [n])).
Proof.
  unfold children. rewrite merge_sort_Permutation, list_elem_of_omap. split.
  - intros (q & Hq & Hl). case_decide as Hd; [|done]. apply elem_of_descendants in Hq as [Hs Hb].
    apply below_spec in Hb as (c & r & ->). rewrite length_app in Hd. cbn in Hd.
    destruct r; [|cbn in Hd; lia]. rewrite last_snoc in Hl. by injection Hl as ->.
  - intros Hs. exists (p ++ [n]). rewrite elem_of_descendants, below_spec. split; [eauto|].
    rewrite length_app. cbn. rewrite decide_True by lia. apply last_snoc.
Qed.

(** ** Lemmas: the outcomes of the calls on the tree *)

Lemma put_file_spec p content mode t r t' :
  put_file p content mode t = (r, t') →
  (r = Ok () ∧ ∃ a, t' = <[p := File content a]> t) ∨ (∃ e, r = Err e ∧ t' = t).
Proof. unfold put_file. repeat case_match; intros [= <- <-]; eauto. Qed.

Lemma rename_spec old new t r t' :
  rename_tree old new t = (r, t') →
  (r = Ok () ∧ ∃ content a, look t old = Some (File content a) ∧
     t' = <[new := File content a]> (delete old t)) ∨
  (∃ e, r = Err e ∧ t' = t).
Proof. unfold rename_tree. repeat case_match; intros [= <- <-]; eauto 10. Qed.

Lemma remove_spec p t r t' :
  remove_tree p t = (r, t') →
  (r = Ok () ∧ t' = delete p t ∧ is_Some (look t p) ∧ descendants t p = []) ∨
  (∃ e, r = Err e ∧ t' = t ∧ (e = ENOENT → look t p = None) ∧
        (e = ENOTEMPTY → descendants t p ≠ [])).
Proof.
  unfold remove_tree, missing. repeat case_match; intros [= <- <-];
    (left; split_and!; by eauto) || (right; eexists; split_and!; by eauto).
Qed.

(** What [os.WriteFile] leaves, served or not. *)
Lemma WriteFile_spec p content mode o r o' :
  WriteFile p content mode o = (r, o') →
  faults o' = tail (faults o) ∧
  ((r = Ok () ∧ ∃ a, files o' = <[resolve p := File content a]> (files o)) ∨
   (∃ e, r = Err e ∧ (files o' = files o ∨ ∃ c a, files o' = <[resolve p := File c a]> (files o)))).
Proof.
  intros [Hf [(f & _ & -> & Ht)|[-> Ht]]]%syscall_cases; (split; [done|]).
  - right. eexists. split; [done|]. destruct (fault_progress f) as [|n]; [auto|].
    destruct (put_file _ _ _ _) as [r t'] eqn:E. cbn in Ht. subst t'.
    apply put_file_spec in E as [(_ & a & ->)|(e & _ & ->)]; eauto.
  - destruct (put_file _ _ _ _) as [r t'] eqn:E. cbn in Ht. subst t'.
    apply put_file_spec in E as [(-> & a & ->)|(e & -> & ->)]; cbn; eauto.
Qed.

Lemma Rename_spec old new o r o' :
  Rename old new o = (r, o') →
  (r = Ok () ∧ ∃ content a, look (files o) (resolve old) = Some (File content a) ∧
     files o' = <[resolve new := File content a]> (delete (resolve old) (files o))) ∨
  (∃ e, r = Err e ∧ files o' = files o).
Proof.
  intros [_ [(f & _ & -> & Ht)|[-> Ht]]]%syscall_cases; [eauto|].
  destruct (rename_tree _ _ _) as [r t'] eqn:E. cbn in Ht. subst t'.
  apply rename_spec in E as [(-> & ?)|(e & -> & ?)]; cbn; eauto.
Qed.

Lemma Remove_spec p o r o' :
  Remove p o = (r, o') →
  (r = Ok () ∧ files o' = delete (resolve p) (files o) ∧ is_Some (look (files o) (resolve p)) ∧
     descendants (files o) (resolve p) = []) ∨
  (∃ e, r = Err e ∧ files o' = files o ∧
     (io_faults o → is_not_exist e = true → look (files o) (resolve p) = None)).
Proof.
  intros Hr. pose proof Hr as [_ [(f & Hf & -> & Ht)|[-> Ht]]]%syscall_cases.
  - right. eexists. split_and!; [done..|]. intros Hio He. unfold io_faults in Hio.
    rewrite Forall_forall in Hio. specialize (Hio _ Hf). cbn in Hio, He.
    destruct (fault_errno f); try done. exfalso. apply Hio. unfold io_error. set_solver.
  - destruct (remove_tree _ _) as [r t'] eqn:E. cbn in Ht. subst t'.
    apply remove_spec in E as [(-> & -> & ?)|(e & -> & -> & Hn & _)]; [by left|right].
    cbn. eexists. split_and!; [done..|]. intros _ He. apply Hn. by destruct e.
Qed.

(** A longer last component. *)
Lemma path_string_snoc p c d : path_string (p ++ [c]) +:+ d = path_string (p ++ [c +:+ d]).
Proof.
  unfold path_string. rewrite <-app_assoc_str. f_equal.
  induction p as [|x p IH]; [done|].
  rewrite <-!app_comm_cons. destruct p as [|y p]; cbn [app] in *; rewrite !join_cons.
  - by rewrite <-!app_assoc_str.
  - rewrite <-!app_assoc_str. by rewrite IH.
Qed.

Lemma path_string_last p c : p ≠ [] → path_string (p ++ [c]) = path_string p +:+ "/" +:+ c.
Proof.
  intros Hp. unfold path_string. rewrite <-app_assoc_str. f_equal.
  induction p as [|x [|y p] IH]; [done|done|].
  rewrite <-!app_comm_cons in *. rewrite !join_cons, IH by done. by rewrite <-!app_assoc_str.
Qed.

(** ** Lemmas: globbing *)

Lemma glob_regex_literal s fuel :
  has_meta s = false → (String.length s ≤ fuel)%nat → glob_regex fuel s = Some (RLit s).
Proof.
  revert fuel. induction s as [|c s IH]; intros [|fuel] Hm Hf; cbn in Hf; try done; [lia|].
  assert (has_meta s = false ∧ c ≠ "*"%char ∧ c ≠ "?"%char ∧ c ≠ "["%char ∧ c ≠ "\"%char) as (Hm' & H1 & H2 & H3 & H4).
  { unfold has_meta in *. cbn in Hm. rewrite !orb_false_iff, !bool_decide_eq_false in Hm. 
    rewrite !orb_false_iff. naive_solver. }
  assert (glob_regex (S fuel) (String c s) =
    (r ← glob_regex fuel s; Some (RSeq (RClass (λ a, bool_decide (a = c))) r))) as ->.
  { destruct c as [[] [] [] [] [] [] [] []]; first [reflexivity|exfalso; by (apply H1 || apply H2 || apply H3 || apply H4)]. }
  rewrite IH by (done || lia). done.
Qed.

(** A pattern without special characters matches itself only. *)
Lemma glob_match_literal s n : has_meta s = false → glob_match s n = true ↔ n = s.
Proof.
  intros Hm. unfold glob_match. rewrite glob_regex_literal by done.
  rewrite match_string_anchored. setoid_rewrite rmatch_lit. unfold eat; cbn. split.
  - intros (st' & (-> & _) & ->). apply app_nil_r_str.
  - intros ->. exists (MState (bool_decide (s = "")) "" ∅). cbn. by rewrite app_nil_r_str.
Qed.

Lemma glob_dirs_sound t patterns dirs p :
  p ∈ glob_dirs t dirs patterns →
  ∃ d ns, d ∈ dirs ∧ p = d ++ ns ∧ Forall2 (λ pattern n, glob_match pattern n = true) patterns ns ∧
    ∀ n, head ns = Some n → is_Some (t !! (d ++ [n])).
Proof.
  revert dirs. induction patterns as [|pattern patterns IH]; intros dirs; cbn [glob_dirs].
  - intros Hp. exists p, []. rewrite app_nil_r. by split_and!.
  - intros (d' & ns & Hd' & -> & Hf & _)%IH.
    apply list_elem_of_bind in Hd' as (d & Hd' & Hd).
    destruct (is_dir _); [|by apply elem_of_nil in Hd'].
    apply list_elem_of_fmap in Hd' as (n & -> & [Hm Hn]%list_elem_of_filter).
    exists d, (n :: ns). split_and!; [done|by rewrite <-app_assoc|by constructor|].
    intros n' [= <-]. by apply elem_of_children.
Qed.

Lemma Glob_sound pattern o matches o' m :
  Glob pattern o = (Ok matches, o') → m ∈ matches →
  files o' = files o ∧ ∃ p, m = path_string p ∧ p ∈ glob_tree (resolve pattern) (files o).
Proof.
  unfold Glob. destruct (forallb _ _); [|done].
  destruct (faults o) as [|[f|] l]; intros [= <- <-] Hm; (split; [done|]).
  - apply list_elem_of_fmap in Hm as (p & -> & Hp). eauto.
  - eapply elem_of_take in Hm as (i & Hi & _). apply list_elem_of_lookup_2, list_elem_of_fmap in Hi as (p & -> & Hp). eauto.
  - apply list_elem_of_fmap in Hm as (p & -> & Hp). eauto.
Qed.
