(* ===== verification/Node.v ===== *)
(** * The node server: pkg/csi_driver/node.go and unmount.go

    Staging and publishing of volumes on a node.  The state is the server's set of volume locks, the
    node's filesystem, and the rest of the node (its mount table and its network), which is
    seen through the interfaces of k8s.io/mount-utils, of the umount command and of netlink. *)
From S2P Require Import Prelude GoStr Regex GoErr Util Params Csi Driver Network Sha256 Json FS.

Local Open Scope string_scope.
Local Open Scope list_scope.
Local Open Scope Z_scope.

(** ** The environment *)
Record MountPoint : Type := MkMountPoint {
  Device : string;
  MountPath : string;
}.

Record Statfs_t : Type := MkStatfs {
  Blocks : Z;   (* uint64 *)
  Bfree : Z;    (* uint64 *)
  Bsize : Z;    (* int64 *)
  Files : Z;    (* uint64 *)
  Ffree : Z;    (* uint64 *)
}.

(** mount-utils' [mount.Interface] as far as the driver uses it, the umount command with a
    time limit in nanoseconds ([execUmount], which is Umount.v), and [unix.Statfs].  [IsLikelyNotMountPoint] and
    [umount] return a value along with their error. *)
Class Mounter (S : Type) : Type := {
  IsLikelyNotMountPoint : string → S → (bool * option goerr) * S;
  List : M S goerr (list MountPoint);
  MountSensitiveWithoutSystemd : string → string → string → list string → M S goerr ();
  Unmount : string → M S goerr ();
  umount : Z → list string → S → (string * option goerr) * S;
  Statfs : string → M S goerr Statfs_t;
  IsCorruptedMnt : goerr → bool;
}.

(** What the node documents of its mounts.  Looking does not change them, and a path reported as a
    mount point is one; a mount adds its target and keeps the others; [Unmount] and the umount
    command act on their (last) argument only. *)
Class MounterLaws (S : Type) `{Mounter S} : Type := {
  mounted : S → string → Prop;
  likely_reads p s : (IsLikelyNotMountPoint p s).2 = s;
  likely_mounted p s : (IsLikelyNotMountPoint p s).1 = (false, None) → mounted s p;
  list_reads s : state_after List s = s;
  mount_mounts src tgt fs opts s s' :
    MountSensitiveWithoutSystemd src tgt fs opts s = (Ok (), s') → mounted s' tgt;
  mount_keeps src tgt fs opts s p :
    mounted s p → mounted (state_after (MountSensitiveWithoutSystemd src tgt fs opts) s) p;
  Unmount_others t s p : p ≠ t → mounted s p → mounted (state_after (Unmount t) s) p;
  umount_others timeout args p s : last args ≠ Some p → mounted s p → mounted (umount timeout args s).2 p;
}.

(** ** Constants *)
Definition rwMask : Z := 432.     (* 0o660 *)
Definition roMask : Z := 288.     (* 0o440 *)
Definition execMask : Z := 72.    (* 0o110 *)

Definition keyServiceAccount := "csi.storage.k8s.io/serviceAccount.name".
Definition keyPodName := "csi.storage.k8s.io/pod.name".
Definition keyPodNamespace := "csi.storage.k8s.io/pod.namespace".
Definition keyServiceToken := "csi.storage.k8s.io/serviceAccount.tokens".
Definition keyPodUID := "csi.storage.k8s.io/pod.uid".

Definition GlobalMountRoot := "/var/lib/lustre/mounts".

Definition time_Second : Z := 1000000000.
Definition DefaultUnmountTimeout : Z := 15 * time_Second.
Definition DefaultForceUnmountTimeout : Z := 10 * time_Second.
Definition DefaultLazyUnmountTimeout : Z := 5 * time_Second.

Definition not_newline (a : ascii) : bool := bool_decide (ascii_val a ≠ 10).
Definition not_any_slash (a : ascii) : bool := bool_decide (a ≠ "/"%char) && bool_decide (a ≠ "\"%char).
Definition any_slash (a : ascii) : bool := bool_decide (a = "/"%char) || bool_decide (a = "\"%char).

(** [^(.+)@tcp:/([^/]+)$] *)
Definition mountPointRegex : regex :=
  RAnchored (RSeq (RGroup 1 (RPlus (RClass not_newline)))
            (RSeq (RLit "@tcp:/") (RGroup 2 (RPlus (RClass not_sep))))).

(** [[/\\]([^/\\]+)[/\\]refs[/\\][^/\\]+$] *)
Definition iamKeyExtractRegex : regex :=
  RSeq (RClass any_slash) (RSeq (RGroup 1 (RPlus (RClass not_any_slash)))
  (RSeq (RClass any_slash) (RSeq (RLit "refs") (RSeq (RClass any_slash)
  (RSeq (RPlus (RClass not_any_slash)) REol))))).

(** [/pods/([^/]+)/volumes] *)
Definition podUIDRegex : regex :=
  RSeq (RLit "/pods/") (RSeq (RGroup 1 (RPlus (RClass not_sep))) (RLit "/volumes")).

(** [.+@tcp:/([^/]+)] *)
Definition fsNameRegex : regex :=
  RSeq (RPlus (RClass not_newline)) (RSeq (RLit "@tcp:/") (RGroup 1 (RPlus (RClass not_sep)))).

(** ** Pure helpers *)

Definition extractFSName (source : string) : string :=
  match find_submatch fsNameRegex source with Some match_ => group 1 match_ | None => "" end.

Definition parseMountPoint (mountPoint : string) : result goerr (string * string) :=
  match find_submatch mountPointRegex mountPoint with
  | None => Err (ErrText ("invalid mountPoint format: " +:+ mountPoint +:+ ", expected format: <ip>@tcp:/<fsname>"))
  | Some match_ => Ok (group 1 match_, group 2 match_)
  end.

Definition hasOption (options : list string) (opt : string) : bool :=
  existsb (λ o, bool_decide (o = opt)) options.

(** The loop that adds the mount flags that are not there yet. *)
Definition add_flags (options flags : list string) : list string :=
  foldl (λ options f, if hasOption options f then options else options ++ [f]) options flags.

Definition getPodUIDFromTargetPath (path : string) : result goerr string :=
  match find_submatch podUIDRegex path with
  | None => Err (ErrText ("could not extract pod UID from path " +:+ path))
  | Some matches => Ok (group 1 matches)
  end.

(** The error of [strconv.Atoi]. *)
Definition atoi_error (s : string) : string :=
  let digits := match s with String "-" s' | String "+" s' => s' | _ => s end in
  "strconv.Atoi: parsing " +:+ quote s +:+ ": " +:+
  match parse_uint digits with Some _ => "value out of range" | None => "invalid syntax" end.

Record FSStat : Type := MkFSStat {
  available : Z; capacity : Z; used : Z; inodesFree : Z; inodes : Z; inodesUsed : Z;
}.

(** The arithmetic of [getFSStat], in [int64]. *)
Definition fs_stat (statfs : Statfs_t) : FSStat :=
  {| available := i64 (i64 (Bfree statfs) * Bsize statfs);
     capacity := i64 (i64 (Blocks statfs) * Bsize statfs);
     used := i64 (i64 (i64 (Blocks statfs) - i64 (Bfree statfs)) * Bsize statfs);
     inodes := i64 (Files statfs);
     inodesFree := i64 (Ffree statfs);
     inodesUsed := i64 (i64 (Files statfs) - i64 (Ffree statfs)) |}.

(** The lookup of a map that gives the empty string for an absent key. *)
Definition get (vc : gmap string string) (key : string) : string := default "" (vc !! key).

(** The address and the filesystem of a volume, as [NodeStageVolume] and [mountGlobalIAM] find them.  The
    former looks up the keys of the address and the filesystem as they are, the latter normalized,
    which is the same. *)
Lemma normalize_ip_keys : normalize keyInstanceIP = keyInstanceIP ∧ normalize keyFilesystem = keyFilesystem.
Proof. done. Qed.

Definition mount_source (vc : gmap string string) : result goerr (string * string) :=
  let mountPoint := get vc (normalize keyMountPoint) in
  '(ip, fsname) ←
    (if decide (slen mountPoint ≠ 0) then parseMountPoint mountPoint
     else Ok (get vc (normalize keyInstanceIP), get vc (normalize keyFilesystem)));
  if decide (slen ip = 0) then Err (ErrText "Lustre instance IP is not provided")
  else if decide (slen fsname = 0) then Err (ErrText "Lustre filesystem name is not provided")
  else Ok (ip, fsname).

Definition lustre_source (ip fsname : string) : string := ip +:+ "@tcp:/" +:+ fsname.

(** ** Requests *)
Record NodeStageVolumeRequest : Type := MkStageRequest {
  StageVolumeId : string;
  StageTargetPath : string;
  StageCapability : option VolumeCapability;
  StageContext : gmap string string;
}.

Record NodePublishVolumeRequest : Type := MkPublishRequest {
  PubVolumeId : string;
  PubStagingPath : string;
  PubTargetPath : string;
  PubCapability : option VolumeCapability;
  PubReadonly : bool;
  PubContext : gmap string string;
}.

(** ** The server *)
Record nodeState (S : Type) : Type := MkNodeState {
  nodeLocks : gset string;
  nodeOS : os;
  nodeHost : S;
}.
Arguments MkNodeState {S} _ _ _.
Arguments nodeLocks {S} _.
Arguments nodeOS {S} _.
Arguments nodeHost {S} _.

(** [status.Error] with a code other than OK *)
Definition status {S A} (c : grpc_code) (msg : string) : M S goerr A := fail (ErrStatus c msg).

Section node.
Context {S : Type} `{Mounter S} `{Netlinker S} `{MapRange}.
Context (driver : LustreDriver).

Abbreviation node A := (M (nodeState S) goerr A).

(** Calls of the operating system and of the rest of the node. *)
Definition sys {A : Type} (m : M os goerr A) : node A := λ s,
  let '(r, o) := m (nodeOS s) in (r, MkNodeState (nodeLocks s) o (nodeHost s)).
Definition host {A : Type} (m : M S goerr A) : node A := λ s,
  let '(r, h) := m (nodeHost s) in (r, MkNodeState (nodeLocks s) (nodeOS s) h).
Definition host_pair {A : Type} (m : S → A * S) : node A := λ s,
  let '(a, h) := m (nodeHost s) in (Ok a, MkNodeState (nodeLocks s) (nodeOS s) h).

Definition node_TryAcquire (key : string) : node bool := λ s,
  let '(acquired, locks) := VolumeLocks.TryAcquire key (nodeLocks s) in
  (Ok acquired, MkNodeState locks (nodeOS s) (nodeHost s)).
Definition node_defer_Release {A : Type} (key : string) (m : node A) : node A := λ s,
  let '(r, s') := m s in
  (r, MkNodeState (VolumeLocks.Release key (nodeLocks s')) (nodeOS s') (nodeHost s')).

(** [m] under the lock of [key], or the error [busy]. *)
Definition locked_on {A : Type} (key : string) (busy : goerr) (m : node A) : node A :=
  acquired ← node_TryAcquire key;
  if negb acquired then fail busy else node_defer_Release key m.

Definition aborted (key : string) : goerr := ErrStatus Aborted (VolumeOperationAlreadyExistsFmt key).

(** Lift a result whose error becomes a status. *)
Definition or_status {A : Type} (c : grpc_code) (msg : goerr → string) (r : result goerr A) : node A :=
  match r with Ok a => mret a | Err err => status c (msg err) end.

(** *** unmount.go *)

Definition removeDir (target : string) : node () :=
  r ← attempt (sys (Remove target));
  match r with
  | Ok _ => mret ()
  | Err err =>
      if is_not_exist err then mret ()
      else status Internal ("failed to remove mount directory " +:+ quote target +:+ ": " +:+ error_text err)
  end.

Definition errNotMounted := "not mounted".

Definition isNotMounted (err : option goerr) (output : string) : bool :=
  match err with
  | Some err => contains (to_lower (error_text err)) errNotMounted
  | None => false
  end || contains (to_lower output) errNotMounted.

(** One phase: it succeeded, or the target was not mounted. *)
Definition unmounted (r : string * option goerr) : bool :=
  bool_decide (r.2 = None) || isNotMounted r.2 r.1.

Definition opt_text (err : option goerr) : string :=
  match err with Some err => error_text err | None => "<nil>" end.

Definition unmountPath (target : string) : node () :=
  '(notMnt, err) ← host_pair (IsLikelyNotMountPoint target);
  let notMnt :=
    match err with
    | Some err => if negb (is_not_exist err) then false else notMnt
    | None => notMnt
    end in
  if (notMnt : bool) then removeDir target else
  r ← host_pair (umount DefaultUnmountTimeout [target]);
  if unmounted r then removeDir target else
  r ← host_pair (umount DefaultForceUnmountTimeout ["-f"; target]);
  if unmounted r then removeDir target else
  r ← host_pair (umount DefaultLazyUnmountTimeout ["-l"; target]);
  if unmounted r then removeDir target else
  status Internal ("failed to unmount target " +:+ quote target +:+
    " after standard, force, and lazy attempts: " +:+ opt_text r.2 +:+ " (output: " +:+ r.1 +:+ ")").

(** *** Mounts *)

Definition makeDir (pathname : string) : node () :=
  r ← attempt (sys (MkdirAll pathname 493));
  match r with
  | Ok _ => mret ()
  | Err err => if negb (is_exist err) then fail err else mret ()
  end.

Definition pathExists (path : string) : node bool :=
  r ← attempt (sys (Stat path));
  match r with
  | Ok _ => mret true
  | Err err => if is_not_exist err then mret false else fail err
  end.

Definition isMounted (target : string) : node bool :=
  '(notMnt, err) ← host_pair (IsLikelyNotMountPoint target);
  match err with
  | Some err =>
      if is_not_exist err then mret false
      else
        exists_ ← attempt (pathExists target);
        match exists_ with
        | Err pathErr =>
            if IsCorruptedMnt pathErr then
              r ← attempt (host (Unmount target));
              match r with
              | Err mntErr =>
                  status Internal ("Unable to unmount the target " +:+ quote target +:+ " : " +:+ error_text mntErr)
              | Ok _ => mret false
              end
            else
              status Internal ("Could not check if " +:+ quote target +:+ " is a mount point: " +:+
                error_text err +:+ ", " +:+ error_text pathErr)
        | Ok _ =>
            status Internal ("Could not check if " +:+ quote target +:+ " is a mount point: " +:+
              error_text err +:+ ", <nil>")
        end
  | None => mret (negb notMnt)
  end.

Definition hasMountWithSameFSName (fsname : string) : node bool :=
  mountedFS ← host List;
  mret (existsb (λ m, bool_decide (extractFSName (Device m) = fsname)) mountedFS).

(** The routes for an instance, on the node's additional interfaces. *)
Definition set_up_multi_nic (ip : string) : node () :=
  host (setUpMultiNIC ip (AdditionalNics (config driver))).

Definition mount_flags (volCap : VolumeCapability) : list string :=
  match GetMount volCap with Some m => MountFlags m | None => [] end.

(** *** Staging *)

Definition NodeStageVolume (req : NodeStageVolumeRequest) : node () :=
  let volumeID := StageVolumeId req in
  if decide (slen volumeID = 0) then status InvalidArgument "Volume ID not provided" else
  vc ← or_status InvalidArgument error_text (normalizeVolumeContext (StageContext req));
  let iamAccessControlEnabled := get vc (normalize keyIAMAccessControlEnabled) in
  '(ip, fsname) ← or_status InvalidArgument error_text (mount_source vc);
  if decide (to_lower iamAccessControlEnabled = "true") then mret () else
  let source := lustre_source ip fsname in
  let target := StageTargetPath req in
  if decide (slen target = 0) then status InvalidArgument "Target path not provided" else
  match StageCapability req with
  | None => status InvalidArgument "Volume capability not provided"
  | Some volCap =>
      _ ← or_status InvalidArgument (λ err, "Volume capability validation failed: " +:+ error_text err)
            (validateVolumeCapabilities driver [Some volCap]);
      locked_on target (aborted target) (
        let mountOptions := add_flags [] (mount_flags volCap) in
        let nodeName := NodeID (config driver) in
        mounted ← attempt (isMounted target);
        match mounted with
        | Err err =>
            status Internal ("Could not check if " +:+ quote target +:+ " is mounted on node " +:+
              nodeName +:+ ": " +:+ error_text err)
        | Ok true => mret ()
        | Ok false =>
            hasFSName ← attempt (hasMountWithSameFSName fsname);
            match hasFSName with
            | Err err =>
                status Internal ("Could not check if there is an existing mountpoint with the same Lustre filesystem name " +:+
                  fsname +:+ " on node " +:+ nodeName +:+ ": " +:+ error_text err)
            | Ok true =>
                status AlreadyExists ("A mountpoint with the same lustre filesystem name " +:+ quote fsname +:+
                  " already exists on node " +:+ nodeName +:+ ". Please mount different lustre filesystems")
            | Ok false =>
                _ ← set_up_multi_nic ip;
                made ← attempt (makeDir target);
                match made with
                | Err err =>
                    status Internal ("Could not create dir " +:+ target +:+ " on node " +:+ nodeName +:+ ": " +:+ error_text err)
                | Ok _ =>
                    r ← attempt (host (MountSensitiveWithoutSystemd source target "lustre" mountOptions));
                    match r with
                    | Ok _ => mret ()
                    | Err err =>
                        _ ← attempt (unmountPath target);
                        status Internal ("Could not mount " +:+ quote source +:+ " at " +:+ quote target +:+
                          " on node " +:+ nodeName +:+ ": " +:+ error_text err)
                    end
                end
            end
        end)
  end.

Definition NodeUnstageVolume (volumeID target : string) : node () :=
  if decide (slen volumeID = 0) then status InvalidArgument "Volume ID not provided" else
  if decide (slen target = 0) then status InvalidArgument "Staging target path not provided" else
  locked_on target (aborted target) (unmountPath target).

(** *** The global mounts of IAM volumes *)

Definition globalMountPath (key : string) : string := Join [GlobalMountRoot; key; "mount"].
Definition refsDir (key : string) : string := Join [GlobalMountRoot; key; "refs"].
Definition refPath (key podUID : string) : string := Join [GlobalMountRoot; key; "refs"; podUID].
Definition tokenPath (key : string) : string := Join [GlobalMountRoot; key; "token"].
Definition keyDir (key : string) : string := Join [GlobalMountRoot; key].

Definition makeGlobalDirs (key : string) : node () :=
  _ ← makeDir (globalMountPath key);
  makeDir (refsDir key).

Definition updateTokenFile (key token : string) : node () :=
  let tmpPath := tokenPath key +:+ ".tmp" in
  _ ← sys (WriteFile tmpPath token 384);
  r ← attempt (sys (Rename tmpPath (tokenPath key)));
  match r with
  | Ok _ => mret ()
  | Err err => _ ← attempt (sys (Remove tmpPath)); fail err
  end.

Definition parseToken (tokenJSON audience : string) : result goerr string :=
  tokens ← Unmarshal tokenJSON;
  match tokens !! audience with
  | Some t => Ok (Token t)
  | None => Err (ErrText ("token for audience " +:+ quote audience +:+ " not found"))
  end.

Definition addPodReference (key podUID volumeID : string) : node () :=
  exists_ ← attempt (pathExists (refPath key podUID));
  match exists_ with
  | Ok true => mret ()
  | _ => sys (WriteFile (refPath key podUID) volumeID 420)
  end.

Definition removePodReference (key podUID : string) : node () :=
  r ← attempt (sys (Remove (refPath key podUID)));
  match r with
  | Ok _ => mret ()
  | Err err =>
      if is_not_exist err then mret ()
      else fail (ErrWrap ("failed to remove reference file " +:+ quote (refPath key podUID) +:+ ": " +:+ error_text err) err)
  end.

Definition mountGlobalIAM (globalMountPath principal key : string) (vc : gmap string string)
    (volCap : VolumeCapability) : node () :=
  '(ip, fsname) ← or_status InvalidArgument error_text (mount_source vc);
  let nodeName := NodeID (config driver) in
  _ ← set_up_multi_nic ip;
  let source := lustre_source ip fsname in
  let userOpt := "user_principal=gke-wi://" +:+ principal +:+ "+" +:+ key in
  let iamMountOptions := add_flags [userOpt] (mount_flags volCap) in
  r ← attempt (host (MountSensitiveWithoutSystemd source globalMountPath "lustre" iamMountOptions));
  match r with
  | Ok _ => mret ()
  | Err err =>
      _ ← attempt (unmountPath globalMountPath);
      status Internal ("Could not mount " +:+ quote source +:+ " at " +:+ quote globalMountPath +:+
        " on node " +:+ nodeName +:+ ": " +:+ error_text err)
  end.

(** The key of a volume and a workload identity principal. *)
Definition iam_key (volumeID namespace saName : string) : string :=
  computeHash (volumeID +:+ (namespace +:+ "/" +:+ saName)).

Definition publishIAMVolume (volumeID targetPath : string) (targetMounted : bool)
    (vc : gmap string string) (mountOptions : list string) (volCap : VolumeCapability) : node () :=
  let podUID := get vc (normalize keyPodUID) in
  let namespace := get vc (normalize keyPodNamespace) in
  let saName := get vc (normalize keyServiceAccount) in
  if decide (slen podUID = 0) then status InvalidArgument ("Pod UID not provided for " +:+ volumeID) else
  if decide (slen namespace = 0) then status InvalidArgument ("Pod namespace not provided for " +:+ volumeID) else
  if decide (slen saName = 0) then status InvalidArgument ("Service account name not provided for " +:+ volumeID) else
  let principal := namespace +:+ "/" +:+ saName in
  let key := iam_key volumeID namespace saName in
  let globalMountPath := globalMountPath key in
  locked_on key (ErrStatus Aborted ("Operation exists for key " +:+ key)) (
    made ← attempt (makeGlobalDirs key);
    match made with
    | Err err => status Internal ("Failed to make global directories for key " +:+ key +:+ ": " +:+ error_text err)
    | Ok _ =>
        let audience := GetProject (Metadata (config driver)) +:+ ".svc.id.goog" in
        match vc !! normalize keyServiceToken with
        | None => status InvalidArgument ("token not found for IAM volume " +:+ volumeID)
        | Some tokenJSON =>
            token ← or_status InvalidArgument
                      (λ err, "failed to parse token for key " +:+ key +:+ ": " +:+ error_text err)
                      (parseToken tokenJSON audience);
            updated ← attempt (updateTokenFile key token);
            match updated with
            | Err err => status Internal ("failed to update token file: " +:+ error_text err)
            | Ok _ =>
                globalMounted ← isMounted globalMountPath;
                _ ← (if negb globalMounted then mountGlobalIAM globalMountPath principal key vc volCap else mret ());
                added ← attempt (addPodReference key podUID volumeID);
                match added with
                | Err err => status Internal ("Failed to add pod reference: " +:+ error_text err)
                | Ok _ =>
                    if targetMounted then mret () else
                    r ← attempt (host (MountSensitiveWithoutSystemd globalMountPath targetPath "lustre" mountOptions));
                    match r with
                    | Ok _ => mret ()
                    | Err err =>
                        _ ← attempt (removePodReference key podUID);
                        _ ← attempt (unmountPath targetPath);
                        status Internal ("Bind mount failed for volume " +:+ quote volumeID +:+ " to target path " +:+
                          quote targetPath +:+ ": " +:+ error_text err)
                    end
                end
            end
        end
    end).

(** *** Publishing *)

Definition setVolumeOwnershipTopLevel (dir fsGroup : string) (readOnly : bool) : node () :=
  if readOnly then mret () else
  if decide (fsGroup = "") then mret () else
  match atoi fsGroup with
  | None =>
      let err := ErrText (atoi_error fsGroup) in
      fail (ErrWrap ("invalid fsGroup " +:+ fsGroup +:+ ", must a numeric string: " +:+ error_text err) err)
  | Some gid =>
      info ← sys (Lstat dir);
      _ ← sys (Lchown_group dir gid);
      let mask := if readOnly then roMask else rwMask in
      let mask := Z.lor mask (Z.lor ModeSetgid execMask) in
      sys (Chmod dir (Z.lor (Mode info) mask))
  end.

Definition NodePublishVolume (req : NodePublishVolumeRequest) : node () :=
  let volumeID := PubVolumeId req in
  if decide (slen volumeID = 0) then status InvalidArgument "Volume ID not provided" else
  let stagingTargetPath := PubStagingPath req in
  if decide (slen stagingTargetPath = 0) then status InvalidArgument "Staging target path not provided" else
  let targetPath := PubTargetPath req in
  if decide (slen targetPath = 0) then status InvalidArgument "Target path not provided" else
  match PubCapability req with
  | None => status InvalidArgument "Volume capability not provided"
  | Some volCap =>
      _ ← or_status InvalidArgument error_text (validateVolumeCapabilities driver [Some volCap]);
      vc ← or_status InvalidArgument error_text (normalizeVolumeContext (PubContext req));
      let isIAM := equal_fold (get vc (normalize keyIAMAccessControlEnabled)) "true" in
      locked_on targetPath (aborted targetPath) (
        let ro := PubReadonly req in
        let mountOptions := add_flags ("bind" :: (if ro then ["ro"] else [])) (mount_flags volCap) in
        let fsGroup := match GetMount volCap with Some m => VolumeMountGroup m | None => "" end in
        let nodeName := NodeID (config driver) in
        made ← attempt (makeDir targetPath);
        match made with
        | Err err =>
            status Internal ("Could not create dir " +:+ quote targetPath +:+ " on node " +:+ nodeName +:+ ": " +:+ error_text err)
        | Ok _ =>
            targetMounted ← isMounted targetPath;
            _ ← (if isIAM then publishIAMVolume volumeID targetPath targetMounted vc mountOptions volCap
                 else if negb targetMounted then
                   r ← attempt (host (MountSensitiveWithoutSystemd stagingTargetPath targetPath "lustre" mountOptions));
                   match r with
                   | Ok _ => mret ()
                   | Err err => status Internal ("Legacy bind mount failed: " +:+ error_text err)
                   end
                 else mret ());
            owned ← attempt (setVolumeOwnershipTopLevel targetPath fsGroup ro);
            match owned with
            | Ok _ => mret ()
            | Err err => _ ← attempt (unmountPath targetPath); status Internal (error_text err)
            end
        end)
  end.

Definition cleanUpIAMReferenceForKey (key refPath : string) : node () :=
  locked_on key (ErrText ("could not acquire lock for key " +:+ key +:+ "; operation in progress")) (
    removed ← attempt (sys (Remove refPath));
    match
      match removed with
      | Ok _ => None
      | Err err => if is_not_exist err then None else Some err
      end
    with
    | Some err => fail (ErrWrap ("failed to remove pod reference " +:+ quote refPath +:+ ": " +:+ error_text err) err)
    | None =>
        r ← attempt (sys (Remove (refsDir key)));
        match r with
        | Err err =>
            if is_not_exist err then mret ()
            else
              match err with
              | ErrPath _ _ ENOTEMPTY => mret ()
              | _ => fail (ErrWrap ("unexpected error checking refs directory " +:+ quote (refsDir key) +:+ ": " +:+ error_text err) err)
              end
        | Ok _ =>
            unm ← attempt (unmountPath (globalMountPath key));
            match unm with
            | Err err => fail (ErrWrap ("failed to unmount global path " +:+ quote (globalMountPath key) +:+ ": " +:+ error_text err) err)
            | Ok _ =>
                rm ← attempt (sys (RemoveAll (keyDir key)));
                match rm with
                | Err err => fail (ErrText ("failed to clean up global directories for key " +:+ key +:+ ": " +:+ error_text err))
                | Ok _ => mret ()
                end
            end
        end
    end).

(** The loop over the references of a pod: the errors of the keys, in order. *)
Fixpoint clean_up_refs (matches : list string) : node (list goerr) :=
  match matches with
  | [] => mret []
  | refPath :: rest =>
      match find_submatch iamKeyExtractRegex refPath with
      | None => clean_up_refs rest
      | Some match_ =>
          r ← attempt (cleanUpIAMReferenceForKey (group 1 match_) refPath);
          errs ← clean_up_refs rest;
          mret (match r with Ok _ => errs | Err err => err :: errs end)
      end
  end.

(** [errors.Join] *)
Definition join_errors (errs : list goerr) : goerr := ErrText (join newline (error_text <$> errs)).

Definition cleanUpIAMReference (targetPath : string) : node () :=
  match getPodUIDFromTargetPath targetPath with
  | Err _ => mret ()
  | Ok podUID =>
      found ← attempt (sys (Glob (Join [GlobalMountRoot; "*"; "refs"; podUID])));
      match found with
      | Err err => fail (ErrWrap ("failed to glob pod references: " +:+ error_text err) err)
      | Ok matches =>
          errs ← clean_up_refs matches;
          if decide (0 < length errs)%nat then fail (join_errors errs) else mret ()
      end
  end.

Definition NodeUnpublishVolume (targetPath : string) : node () :=
  if decide (slen targetPath = 0) then
    status InvalidArgument "NodeUnpublishVolume target path must be provided" else
  locked_on targetPath (aborted targetPath) (
    _ ← unmountPath targetPath;
    r ← attempt (cleanUpIAMReference targetPath);
    match r with
    | Ok _ => mret ()
    | Err err => status Internal ("failed to clean up IAM reference directories: " +:+ error_text err)
    end).

(** *** Statistics *)

Definition getFSStat (path : string) : node FSStat :=
  r ← attempt (host (Statfs path));
  match r with
  | Err err => fail (ErrWrap ("failed to get fs info on path " +:+ path +:+ ": " +:+ error_text err) err)
  | Ok statfs => mret (fs_stat statfs)
  end.

Definition NodeGetVolumeStats (volumeID volumePath : string) : node FSStat :=
  if decide (slen volumeID = 0) then status InvalidArgument "NodeGetVolumeStats volume ID was empty" else
  if decide (slen volumePath = 0) then status InvalidArgument "NodeGetVolumeStats volume path was empty" else
  r ← attempt (sys (Lstat volumePath));
  match r with
  | Err err =>
      if is_not_exist err then status NotFound ("path " +:+ volumePath +:+ " does not exist")
      else status Internal ("unknown error when stat on " +:+ volumePath +:+ ": " +:+ error_text err)
  | Ok _ =>
      st ← attempt (getFSStat volumePath);
      match st with
      | Err err => status Internal ("failed to get fs info on path " +:+ volumePath +:+ ": " +:+ error_text err)
      | Ok st => mret st
      end
  end.
End node.
