(* ===== verification/NodeHost.v ===== *)
(** * A node in memory

    A mount table that keeps the documented behaviour, on which the theorems
about the node server are run.  A target in [stuck] cannot be unmounted; the filesystem of one in [broken] does not
    answer, so that a mount there is corrupted and cannot be made anew. *)
From S2P Require Import Prelude GoStr Regex GoErr Util Params Csi Driver Network NetworkSpec Sha256 Json FS Node.

Local Open Scope string_scope.
Local Open Scope list_scope.
Local Open Scope Z_scope.

Record host_state : Type := MkHost {
  mtab : list MountPoint;
  stuck : list string;
  hnet : node_net;
  broken : list string;
}.

Definition mount_points (h : host_state) : list string := MountPath <$> mtab h.

(** The device of a new mount: a bind mount has that of its source. *)
Definition mount_device (h : host_state) (source : string) (options : list string) : string :=
  if decide ("bind" ∈ options) then
    match filter (λ m, MountPath m = source) (mtab h) with m :: _ => Device m | [] => source end
  else source.

Definition drop_mount (t : string) (h : host_state) : host_state :=
  MkHost (filter (λ m, MountPath m ≠ t) (mtab h)) (stuck h) (hnet h) (broken h).

Definition run_umount (args : list string) (h : host_state) : (string * option goerr) * host_state :=
  match last args with
  | None => (("", Some (ErrText "umount: bad usage")), h)
  | Some t =>
      if decide (t ∈ stuck h) then (("umount: target is busy.", Some (ErrText "exit status 32")), h)
      else if decide (t ∈ mount_points h) then (("", None), drop_mount t h)
      else (("umount: " +:+ t +:+ ": not mounted.", Some (ErrText "exit status 32")), h)
  end.

#[export] Instance host_mounter : Mounter host_state := {|
  IsLikelyNotMountPoint p := λ h,
    if decide (p ∈ mount_points h ∧ p ∈ broken h) then ((true, Some (ErrPath "stat" p ENOTCONN)), h)
    else ((bool_decide (p ∉ mount_points h), None), h);
  List := gets mtab;
  MountSensitiveWithoutSystemd source target fstype options := λ h,
    if decide (target ∈ broken h) then (Err (ErrText "mount failed: exit status 5"), h) else
    (Ok (), MkHost (mtab h ++ [MkMountPoint (mount_device h source options) target]) (stuck h) (hnet h) (broken h));
  Unmount t := λ h, (Ok (), drop_mount t h);
  umount _ := run_umount;
  Statfs _ := mret (MkStatfs 1000 400 4096 100 60);
  IsCorruptedMnt e := match e with ErrPath _ _ (ENOTCONN | ESTALE | EIO | EACCES | EHOSTDOWN) => true | _ => false end;
|}.

Definition on_net {A : Type} (m : M node_net goerr A) : M host_state goerr A := λ h,
  let '(r, n) := m (hnet h) in (r, MkHost (mtab h) (stuck h) n (broken h)).

#[export] Instance host_netlink : Netlinker host_state := {|
  LinkByName n := on_net (LinkByName n);
  AddrList l := on_net (AddrList l);
  RouteList l := on_net (RouteList l);
  RouteReplace r := on_net (RouteReplace r);
  RuleAdd r := on_net (RuleAdd r);
  RuleList := on_net RuleList;
  RouteListFiltered id := on_net (RouteListFiltered id);
  nl_GetStandardNICs := on_net nl_GetStandardNICs;
|}.

Lemma drop_mount_others t h p : p ≠ t → p ∈ mount_points h → p ∈ mount_points (drop_mount t h).
Proof.
  intros Hp. unfold mount_points, drop_mount. cbn. rewrite !list_elem_of_fmap.
  intros (m & -> & Hm). exists m. rewrite list_elem_of_filter. done.
Qed.

#[export] Instance host_mounter_laws : MounterLaws host_state.
Proof.
  refine {| mounted h p := p ∈ mount_points h |}; try done.
  - intros p h. cbn. by case_decide.
  - intros p h. cbn. case_decide; [done|]. intros [= Hp]. apply bool_decide_eq_false in Hp. by apply dec_stable in Hp.
  - intros src tgt fs opts h h'. cbn. case_decide; [done|]. intros [= <-]. unfold mount_points. cbn. rewrite fmap_app. set_solver.
  - intros src tgt fs opts h p. unfold mount_points, state_after. cbn. case_decide; [done|]. cbn. rewrite fmap_app. set_solver.
  - intros t h p. apply drop_mount_others.
  - intros timeout args p h. unfold umount, host_mounter, run_umount.
    destruct (last args) as [t|]; [|done]. repeat case_decide; cbn; try done.
    intros Hl. apply drop_mount_others. congruence.
Defined.

(** Setting up routes leaves the mounts alone. *)
Lemma host_net_keeps {A : Type} (m : M node_net goerr A) h p :
  p ∈ mount_points h → p ∈ mount_points (state_after (on_net m) h).
Proof. unfold state_after, on_net. by destruct (m (hnet h)). Qed.

(** ** A driver and its requests *)
Definition node_config : LustreDriverConfig :=
  {| ConfigName := DefaultName; ConfigVersion := "v1"; NodeID := "node-1"; RunController := false;
     RunNode := true; Metadata := MkMetadataService "us-central1-a" "test-project" [];
     EnableLegacyLustrePort := false; AdditionalNics := [] |}.
Definition node_driver : LustreDriver :=
  match NewLustreDriver node_config with Ok d => d | Err _ => MkDriver node_config ∅ [] [] false false end.

Definition node_capability : option VolumeCapability :=
  Some {| GetAccessMode := Some MULTI_NODE_MULTI_WRITER;
          GetAccessType := Some (MountAccess (Some {| MountFlags := ["flock"]; VolumeMountGroup := "" |})) |}.

Definition iam_context (mountPoint namespace podUID token : string) : gmap string string :=
  list_to_map [("mountPoint", mountPoint); ("iam_access_control_enabled", "true");
               (keyPodNamespace, namespace); (keyServiceAccount, "sa"); (keyPodUID, podUID);
               (keyServiceToken, token_document "test-project.svc.id.goog" token)].

Definition target_of (podUID volume : string) : string :=
  "/var/lib/kubelet/pods/" +:+ podUID +:+ "/volumes/kubernetes.io~csi/" +:+ volume +:+ "/mount".

Definition publish_request (volumeID mountPoint namespace podUID volume token : string) : NodePublishVolumeRequest :=
  {| PubVolumeId := volumeID;
     PubStagingPath := "/staging/" +:+ volume;
     PubTargetPath := target_of podUID volume;
     PubCapability := node_capability;
     PubReadonly := false;
     PubContext := iam_context mountPoint namespace podUID token |}.

Definition fresh_node : nodeState host_state :=
  MkNodeState ∅ (MkOS ∅ []) (MkHost [] [] (MkNodeNet [] []) []).

#[export] Existing Instance map_range_default.

Abbreviation publish req := (NodePublishVolume node_driver req).
