(* ===== verification/NodeFrame.v ===== *)
(** * What the node's handlers are made of

    One walk through the node server (Node.v) for everything that all its handlers leave alone: a relation
    that the calls of the filesystem, of the rest of the node and of the locks keep is kept by every handler. *)
From S2P Require Import Prelude GoStr Regex GoErr Util Instance Params Csi Driver Network FS Node.

Local Open Scope string_scope.
Local Open Scope list_scope.
Local Open Scope Z_scope.

(** The calls of the filesystem that the node server makes. *)
Inductive os_call : ∀ {A : Type}, M os goerr A → Prop :=
| call_Stat p : os_call (Stat p)
| call_Lstat p : os_call (Lstat p)
| call_MkdirAll p mode : os_call (MkdirAll p mode)
| call_WriteFile p content mode : os_call (WriteFile p content mode)
| call_Rename old new : os_call (Rename old new)
| call_Remove p : os_call (Remove p)
| call_RemoveAll p : os_call (RemoveAll p)
| call_Chmod p mode : os_call (Chmod p mode)
| call_Lchown_group p gid : os_call (Lchown_group p gid)
| call_Glob pattern : os_call (Glob pattern).

#[export] Hint Constructors os_call : keeps.

Section frame.
Context {S : Type} `{Mounter S} `{Netlinker S} `{MapRange}.
Context (driver : LustreDriver).
Context (P : relation (nodeState S)) `{!PreOrder P}.
Context (keeps_sys : ∀ (A : Type) (m : M os goerr A), os_call m → keeps P (sys m)).
Context (keeps_host : ∀ (A : Type) (m : M S goerr A), keeps P (host m)).
Context (keeps_host_pair : ∀ (A : Type) (m : S → A * S), keeps P (host_pair m)).
Context (keeps_locked_on : ∀ (A : Type) key busy (m : M (nodeState S) goerr A), keeps P m → keeps P (locked_on key busy m)).

Lemma keeps_status {A : Type} c msg : keeps P (status c msg : M _ _ A).
Proof. apply keeps_fail. apply _. Qed.
Lemma keeps_or_status {A : Type} c msg (r : result goerr A) : keeps P (or_status c msg r).
Proof. destruct r; [apply keeps_ret; apply _|apply keeps_status]. Qed.

#[local] Hint Resolve keeps_sys keeps_host keeps_host_pair keeps_status keeps_or_status : keeps.

Ltac node_keeps := repeat (keeps_step || (apply keeps_locked_on)); eauto with keeps.

Lemma keeps_unmountPath target : keeps P (unmountPath target).
Proof. unfold unmountPath, removeDir. node_keeps. Qed.
Lemma keeps_makeDir p : keeps P (makeDir p).
Proof. unfold makeDir. node_keeps. Qed.
Lemma keeps_isMounted p : keeps P (isMounted p).
Proof. unfold isMounted, pathExists. node_keeps. Qed.
#[local] Hint Resolve keeps_unmountPath keeps_makeDir keeps_isMounted : keeps.

Lemma keeps_mountGlobalIAM p principal key vc cap : keeps P (mountGlobalIAM driver p principal key vc cap).
Proof. unfold mountGlobalIAM, set_up_multi_nic. node_keeps. Qed.
#[local] Hint Resolve keeps_mountGlobalIAM : keeps.

Lemma keeps_publishIAMVolume v t b vc o cap : keeps P (publishIAMVolume driver v t b vc o cap).
Proof.
  unfold publishIAMVolume, makeGlobalDirs, updateTokenFile, addPodReference, removePodReference, pathExists.
  node_keeps.
Qed.
Lemma keeps_ownership d g ro : keeps P (setVolumeOwnershipTopLevel d g ro).
Proof. unfold setVolumeOwnershipTopLevel. node_keeps. Qed.
#[local] Hint Resolve keeps_publishIAMVolume keeps_ownership : keeps.

Lemma keeps_cleanUpForKey key p : keeps P (cleanUpIAMReferenceForKey key p).
Proof. unfold cleanUpIAMReferenceForKey. node_keeps. Qed.
#[local] Hint Resolve keeps_cleanUpForKey : keeps.

Lemma keeps_clean_up_refs l : keeps P (clean_up_refs l).
Proof. induction l; cbn; node_keeps. Qed.
#[local] Hint Resolve keeps_clean_up_refs : keeps.

Lemma handlers_keep :
  (∀ req, keeps P (NodeStageVolume driver req)) ∧ (∀ id t, keeps P (NodeUnstageVolume id t)) ∧
  (∀ req, keeps P (NodePublishVolume driver req)) ∧ (∀ t, keeps P (NodeUnpublishVolume t)) ∧
  (∀ id p, keeps P (NodeGetVolumeStats id p)).
Proof.
  split_and!; intros *.
  - unfold NodeStageVolume, hasMountWithSameFSName, set_up_multi_nic. node_keeps.
  - unfold NodeUnstageVolume. node_keeps.
  - unfold NodePublishVolume. node_keeps.
  - unfold NodeUnpublishVolume, cleanUpIAMReference. node_keeps.
  - unfold NodeGetVolumeStats, getFSStat. node_keeps.
Qed.
End frame.
