(* ===== verification/NodeSpec.v ===== *)
(** * What the node server guarantees

    Theorems about Node.v and FS.v: the lock discipline, the sources and options of mounts,
    statistics and ownership, the token file, and the references that keep an IAM volume's
    global mount alive. *)
From S2P Require Import Prelude GoStr Regex GoErr Util Instance Params Csi Driver Network NetworkSpec Sha256 Json JsonSpec FS Node NodeHost NodeFrame.

Local Open Scope string_scope.
Local Open Scope list_scope.
Local Open Scope Z_scope.

(** ** Pure helpers *)

Definition clean_ip (ip : string) : Prop := ip ≠ "" ∧ all_chars not_newline ip = true.

Lemma split_last_slash a b a' b' :
  has_char "/" b = false → has_char "/" b' = false →
  a +:+ "/" +:+ b = a' +:+ "/" +:+ b' → a = a' ∧ b = b'.
Proof.
  intros Hb Hb' E. apply (f_equal (split "/")) in E. rewrite !app_char_str in E.
  assert (∀ x y, has_char "/" y = false → split "/" (x +:+ String "/" y) = split "/" x ++ [y]) as Hs.
  { intros x y Hy. rewrite <-(join_split "/" x) at 1.
    assert (split "/" x ≠ []) as Hne by apply split_nonempty.
    pose proof (split_no_char "/" x) as Hf. revert Hne Hf.
    generalize (split "/" x) as l. intros l Hne Hf. induction Hf as [|c l Hc Hf IH]; [done|].
    destruct l as [|c' l]; cbn [join app].
    - by rewrite split_app_sep, split_no_sep.
    - rewrite <-!app_assoc_str. rewrite app_char_str.
      rewrite split_app_sep by done. f_equal. by apply IH. }
  rewrite !Hs in E by done. apply app_inj_tail in E as [E ->]. split; [|done].
  apply (f_equal (join "/")) in E. by rewrite !join_split in E.
Qed.

(** The mount points a volume can be given are exactly the strings [IP@tcp:/FSNAME] with an
    address that is not empty and a filesystem name that is not empty and holds no slash; they are
    the sources the driver mounts, so reading one inverts writing it. *)
Theorem mount_points_accepted mountPoint ip fsname :
  parseMountPoint mountPoint = Ok (ip, fsname) ↔
  clean_ip ip ∧ name_part fsname ∧ mountPoint = lustre_source ip fsname.
Proof.
  assert (∀ c, find_submatch mountPointRegex mountPoint = Some c →
    clean_ip (group 1 c) ∧ name_part (group 2 c) ∧ mountPoint = lustre_source (group 1 c) (group 2 c)) as Hsound.
  { intros c (st & Hm & He & ->)%find_submatch_anchored.
    apply rmatch_seq in Hm as (st1 & H1 & Hm). apply rmatch_seq in Hm as (st2 & H2 & H3).
    apply rmatch_group_plus in H1 as (w1 & ? & ? & R1 & _ & C1).
    apply rmatch_lit in H2 as (R2 & C2 & _).
    apply rmatch_group_plus in H3 as (w2 & ? & Hw2 & R3 & _ & C3).
    apply (all_chars_not_char "/") in Hw2.
    assert (mountPoint = lustre_source w1 w2) as E.
    { cbn in R1. rewrite R1, R2, R3, He, app_nil_r_str. done. }
    unfold group. rewrite C3, C2, C1. by simplify_map_eq. }
  assert (∀ i f i' f', name_part f → name_part f' → lustre_source i f = lustre_source i' f' → i = i' ∧ f = f') as Hinj.
  { intros i f i' f' [_ Hf] [_ Hf'] E. unfold lustre_source in E.
    assert (∀ x y, x +:+ "@tcp:/" +:+ y = (x +:+ "@tcp:") +:+ "/" +:+ y) as Hx
      by (intros; rewrite <-app_assoc_str; done).
    rewrite !Hx in E. apply split_last_slash in E as [E ->]; [|done..]. split; [|done].
    by apply app_inv_r_str in E. }
  unfold parseMountPoint. split.
  - destruct (find_submatch _ _) as [c|] eqn:E; [|done]. intros [= <- <-]. by apply Hsound.
  - intros (Hip & Hfs & E).
    assert (is_Some (find_submatch mountPointRegex mountPoint)) as [c Hc].
    { rewrite E. unfold mountPointRegex.
      eapply (find_submatch_anchored_complete _ _ (MState false "" (<[2%nat := fsname]> (<[1%nat := ip]> ∅)))); [|done].
      destruct Hip as [? ?], Hfs as [? Hfs].
      eapply rm_seq; [|eapply rm_seq].
      - apply (rmatch_group_plus _ _ _ (MState false ("@tcp:/" +:+ fsname) (<[1%nat := ip]> ∅))). by exists ip.
      - apply (rmatch_lit _ _ (MState false fsname (<[1%nat := ip]> ∅))). done.
      - apply rmatch_group_plus. exists fsname. cbn. rewrite app_nil_r_str.
        split_and!; try done. by apply all_chars_not_char. }
    rewrite Hc. destruct (Hsound _ Hc) as (Hip' & Hfs' & E'). rewrite E in E'.
    by destruct (Hinj _ _ _ _ Hfs Hfs' E') as [<- <-].
Qed.

Lemma hasOption_true options opt : hasOption options opt = true ↔ opt ∈ options.
Proof.
  unfold hasOption. rewrite existsb_exists. setoid_rewrite <-list_elem_of_In.
  setoid_rewrite bool_decide_eq_true. naive_solver.
Qed.

(** Mount options: the flags of the volume are added once each, after the options
    the driver sets itself, which stay first and in their order. *)
Theorem mount_options_added options flags :
  NoDup options →
  (∃ added, add_flags options flags = options ++ added ∧ sublist added flags) ∧
  NoDup (add_flags options flags) ∧
  (∀ f, f ∈ add_flags options flags ↔ f ∈ options ∨ f ∈ flags).
Proof.
  unfold add_flags. revert options. induction flags as [|f flags IH]; intros options Hnd; cbn.
  { split_and!; [exists []; by rewrite app_nil_r|done|set_solver]. }
  pose proof (hasOption_true options f) as Hf. destruct (hasOption options f).
  - destruct (IH options Hnd) as ((added & -> & Hs) & Hnd' & Hin). split_and!; [|done|].
    + exists added. split; [done|by apply sublist_cons].
    + intros x. rewrite Hin. set_solver.
  - assert (f ∉ options) as Hn by (intros Hx; apply Hf in Hx; done).
    destruct (IH (options ++ [f])) as ((added & -> & Hs) & Hnd' & Hin).
    { apply NoDup_app. split_and!; [done|set_solver|apply NoDup_singleton]. }
    rewrite <-app_assoc. split_and!; [| by rewrite app_assoc|].
    + exists (f :: added). split; [done|by apply sublist_skip].
    + intros x. specialize (Hin x). rewrite <-app_assoc in Hin. cbn in Hin. rewrite Hin. set_solver.
Qed.

Lemma mount_options_added_witness :
  (∃ added, add_flags ["bind"; "ro"] ["flock"; "ro"; "flock"] = ["bind"; "ro"] ++ added ∧
     sublist added ["flock"; "ro"; "flock"]) ∧
  NoDup (add_flags ["bind"; "ro"] ["flock"; "ro"; "flock"]) ∧
  (∀ f, f ∈ add_flags ["bind"; "ro"] ["flock"; "ro"; "flock"] ↔ f ∈ ["bind"; "ro"] ∨ f ∈ ["flock"; "ro"; "flock"]).
Proof. apply (mount_options_added ["bind"; "ro"] ["flock"; "ro"; "flock"]). decided. Defined.

(** *** Tokens *)

(** Claim C34.  Reading tokens: from every text of a document that has an object for each of some audiences, with one member
    [token] and any others in any order, [expirationTimestamp] among them if it is a string, [parseToken] gives the token of the
    driver's audience, and the not-found error if the document has no such audience.  What the encoder writes
    for such a document in ASCII is such a text. *)
Theorem parse_token_reads entries audience :
  NoDup entries.*1 → Forall (λ e, token_object e.2.1 e.2.2) entries →
  (∀ text, parse_document text = Ok (token_document_of entries) →
    parseToken text audience =
    match list_to_map (M := gmap string (list (string * json) * string)) entries !! audience with
    | Some (_, token) => Ok token
    | None => Err (ErrText ("token for audience " +:+ quote audience +:+ " not found"))
    end) ∧
  (Forall (λ e, is_ascii e.1 = true ∧ Forall (λ m, is_ascii m.1 = true ∧ printable (maxNestingDepth - 1 - 1) m.2) e.2.1) entries →
    parse_document (print_json (token_document_of entries)) = Ok (token_document_of entries)).
Proof.
  intros Hnd Ho. split; [|apply parse_token_document]. intros text Htext. unfold parseToken, Unmarshal. rewrite Htext.
  unfold token_document_of. destruct (store_token_document entries ∅ audience Hnd Ho) as (stored & Hs & Hl).
  rewrite Hs. cbn [mbind result_bind]. rewrite lookup_empty in Hl.
  destruct (list_to_map entries !! audience) as [[ms token]|]; destruct (stored !! audience) as [t|]; naive_solver.
Qed.

(** As node.go has it in its comment, with the members in both orders. *)
Definition audiences : list (string * (list (string * json) * string)) :=
  [("a", ([("token", JString "x"); ("expirationTimestamp", JString "2026-01-01T00:00:00Z")], "x"));
   ("b" +:+ dquote, ([("expirationTimestamp", JString "2026-01-02T00:00:00Z"); ("uid", JNull); ("token", JString "y\")], "y\"))].

Lemma parse_token_reads_witness : parseToken (print_json (token_document_of audiences)) ("b" +:+ dquote) = Ok "y\".
Proof.
  destruct (parse_token_reads audiences ("b" +:+ dquote)) as [Hread Hprint].
  - decided.
  - apply Forall_cons_2; [|apply Forall_singleton]; apply token_object_check; vm_compute; reflexivity.
  - refine (Hread _ (Hprint _)). repeat constructor.
Defined.

(** ** Statistics *)

Lemma i64_mod z : ∃ k, i64 z = z + k * 2^64.
Proof.
  unfold i64. exists (- ((z + 2^63) / 2^64)). pose proof (Z.div_mod (z + 2^63) (2^64) ltac:(lia)). lia.
Qed.

Lemma i64_congr a b k : a = b + k * 2^64 → i64 a = i64 b.
Proof.
  intros ->. unfold i64. f_equal.
  replace (b + k * 2^64 + 2^63) with (b + 2^63 + k * 2^64) by lia. by rewrite Z_mod_plus_full.
Qed.

Lemma i64_add_l a b : i64 (i64 a + b) = i64 (a + b).
Proof. destruct (i64_mod a) as [k ->]. apply (i64_congr _ _ k). lia. Qed.
Lemma i64_add_r a b : i64 (a + i64 b) = i64 (a + b).
Proof. rewrite Z.add_comm, i64_add_l. f_equal. lia. Qed.
Lemma i64_sub a b : i64 (i64 a - i64 b) = i64 (a - b).
Proof.
  destruct (i64_mod a) as [k ->], (i64_mod b) as [k' ->]. apply (i64_congr _ _ (k - k')). lia.
Qed.
Lemma i64_mul_l a b : i64 (i64 a * b) = i64 (a * b).
Proof. destruct (i64_mod a) as [k ->]. apply (i64_congr _ _ (k * b)). lia. Qed.
Lemma i64_i64 a : i64 (i64 a) = i64 a.
Proof. apply i64_id, i64_range. Qed.

(** Volume statistics: whatever [statfs] reports, and whatever overflows, used and available
    bytes add up to the capacity in [int64], and so do the inodes; and for numbers that fit,
    the three byte counts are the exact ones and none is negative. *)
Theorem volume_stats_add_up st :
  i64 (used (fs_stat st) + available (fs_stat st)) = capacity (fs_stat st) ∧
  i64 (inodesUsed (fs_stat st) + inodesFree (fs_stat st)) = inodes (fs_stat st) ∧
  (0 ≤ Bfree st ≤ Blocks st → 0 < Bsize st → Blocks st * Bsize st < 2^63 →
   available (fs_stat st) = Bfree st * Bsize st ∧ capacity (fs_stat st) = Blocks st * Bsize st ∧
   used (fs_stat st) = (Blocks st - Bfree st) * Bsize st ∧ 0 ≤ used (fs_stat st) ≤ capacity (fs_stat st)).
Proof.
  unfold fs_stat; cbn [used available capacity inodesUsed inodesFree inodes].
  rewrite !i64_sub, !i64_mul_l. split_and!.
  - rewrite i64_add_l, i64_add_r. f_equal. lia.
  - rewrite i64_add_l, i64_add_r. f_equal. lia.
  - intros HB Hs Hm. rewrite !i64_id by (unfold in_i64; nia). split_and!; nia.
Qed.

(** ** Locks *)
Section locks.
Context {S : Type} `{Mounter S} `{Netlinker S} `{MapRange}.
Context (driver : LustreDriver).

Definition same_node_locks : relation (nodeState S) := λ s s', nodeLocks s' = nodeLocks s.

#[export] Instance same_node_locks_preorder : PreOrder same_node_locks.
Proof. split; [by intros s|]. intros s1 s2 s3. unfold same_node_locks. congruence. Qed.

Lemma locks_locked_on {A : Type} key busy (m : M (nodeState S) goerr A) :
  keeps same_node_locks m → keeps same_node_locks (locked_on key busy m).
Proof.
  intros Hm s. unfold state_after, locked_on, node_TryAcquire, VolumeLocks.TryAcquire.
  rewrite bind_unfold. case_decide as Hin; cbn; [by destruct s|].
  unfold node_defer_Release. set (s1 := MkNodeState _ _ _).
  specialize (Hm s1). unfold state_after, same_node_locks in Hm.
  destruct (m s1) as [r s2]. unfold same_node_locks, VolumeLocks.Release. cbn in *.
  rewrite Hm. set_solver.
Qed.

(** Claim C26.  Lock discipline of the node: whatever the request, and whatever the
    filesystem, the mounts and the network answer, a node handler returns with exactly the locks
    it found, those of the target paths and those of the IAM keys. *)
Theorem node_locks_balanced s :
  (∀ req, nodeLocks (state_after (NodeStageVolume (S := S) driver req) s) = nodeLocks s) ∧
  (∀ id t, nodeLocks (state_after (NodeUnstageVolume (S := S) id t) s) = nodeLocks s) ∧
  (∀ req, nodeLocks (state_after (NodePublishVolume (S := S) driver req) s) = nodeLocks s) ∧
  (∀ t, nodeLocks (state_after (NodeUnpublishVolume (S := S) t) s) = nodeLocks s) ∧
  (∀ id p, nodeLocks (state_after (NodeGetVolumeStats (S := S) id p) s) = nodeLocks s).
Proof.
  destruct (handlers_keep driver same_node_locks) as (Hs & Hu & Hp & Hup & Hg).
  - intros A m _ s0. unfold state_after, sys. by destruct (m (nodeOS s0)).
  - intros A m s0. unfold state_after, host. by destruct (m (nodeHost s0)).
  - intros A m s0. unfold state_after, host_pair. by destruct (m (nodeHost s0)).
  - intros A key busy m. apply locks_locked_on.
  - split_and!; intros *; [apply Hs|apply Hu|apply Hp|apply Hup|apply Hg].
Qed.
End locks.

(** ** Running node handlers *)

(** The files a handler leaves. *)
Abbreviation tree_of s := (files (nodeOS s)).

Section running.
Context {S : Type} `{Mounter S}.
Implicit Types s : nodeState S.

Lemma sys_inv {A : Type} (m : M os goerr A) s r s' :
  sys m s = (r, s') → ∃ o, m (nodeOS s) = (r, o) ∧ s' = MkNodeState (nodeLocks s) o (nodeHost s).
Proof. unfold sys. destruct (m (nodeOS s)) as [r0 o]. intros [= <- <-]. eauto. Qed.

Lemma host_inv {A : Type} (m : M S goerr A) s r s' :
  host m s = (r, s') → ∃ h, m (nodeHost s) = (r, h) ∧ s' = MkNodeState (nodeLocks s) (nodeOS s) h.
Proof. unfold host. destruct (m (nodeHost s)) as [r0 h]. intros [= <- <-]. eauto. Qed.

Lemma host_pair_inv {A : Type} (m : S → A * S) s r s' :
  host_pair m s = (r, s') →
  ∃ a h, m (nodeHost s) = (a, h) ∧ r = Ok a ∧ s' = MkNodeState (nodeLocks s) (nodeOS s) h.
Proof. unfold host_pair. destruct (m (nodeHost s)) as [a h]. intros [= <- <-]. eauto. Qed.

Lemma attempt_unfold' {A} (m : M (nodeState S) goerr A) s :
  (attempt m : M _ goerr (result goerr A)) s = (let '(r, s') := m s in (Ok r, s')).
Proof. done. Qed.

(** *** Ownership *)

(** The bits a directory given to a group gets: [rwxrwx---] of owner and group, and setgid. *)
Definition group_bits : Z := Z.lor (Z.lor rwMask execMask) ModeSetgid.

(** Ownership of a published volume: on a read-only volume, or with no group, nothing is changed;
    otherwise the top-level directory belongs to the numeric group, it keeps the permissions it has and gains read,
    write and execute for its owner and group and the setgid bit, and no other path changes. *)
Theorem volume_ownership dir fsGroup readOnly s s' :
  setVolumeOwnershipTopLevel dir fsGroup readOnly s = (Ok (), s') →
  if decide (readOnly = true ∨ fsGroup = "") then s' = s
  else ∃ gid n, atoi fsGroup = Some gid ∧ look (tree_of s) (resolve dir) = Some n ∧
    tree_of s' = <[resolve dir :=
      set_attr (MkAttr (Z.lor (Z.land (perm (node_attr n)) chmod_bits) group_bits) gid) n]> (tree_of s).
Proof.
  unfold setVolumeOwnershipTopLevel. destruct readOnly.
  { intros [= <-]. by rewrite decide_True by auto. }
  case_decide as Hg; [intros [= <-]; by rewrite decide_True by auto|].
  rewrite decide_False by naive_solver. destruct (atoi fsGroup) as [gid|]; [|done].
  intros (n & s1 & H1 & (u1 & s2 & H2 & H3)%bind_inv)%bind_inv.
  apply sys_inv in H1 as (o1 & H1 & ->). apply sys_inv in H2 as (o2 & H2 & ->). apply sys_inv in H3 as (o3 & H3 & ->).
  cbn [nodeOS nodeHost nodeLocks] in *. exists gid, n. split; [done|].
  apply syscall_ok in H1, H2, H3. apply pair_eq in H1 as [H1 E1]. rewrite <-E1 in H2. clear E1.
  assert (look (tree_of s) (resolve dir) = Some n) as Hn.
  { unfold stat_tree in H1. repeat case_match; congruence. }
  split; [done|]. unfold change_attr in H2, H3. rewrite Hn in H2. apply pair_eq in H2 as [_ E2].
  set (n1 := set_attr _ n) in E2.
  assert (look (files o2) (resolve dir) = Some n1) as Hn1.
  { rewrite <-E2. unfold look. destruct (resolve dir); rewrite lookup_insert_eq; [|done].
    done. }
  rewrite Hn1 in H3. apply pair_eq in H3 as [_ E3]. rewrite <-E3, <-E2, insert_insert_eq. f_equal.
  subst n1. assert (∀ m, Z.land (Z.lor (Z.lor m ModeDir) (Z.lor rwMask (Z.lor ModeSetgid execMask))) chmod_bits =
    Z.lor (Z.land m chmod_bits) group_bits) as Hd.
  { intros m. rewrite !Z.land_lor_distr_l. f_equal. by rewrite Z.lor_0_r. }
  assert (∀ m, Z.land (Z.lor m (Z.lor rwMask (Z.lor ModeSetgid execMask))) chmod_bits =
    Z.lor (Z.land m chmod_bits) group_bits) as Hf.
  { intros m. rewrite !Z.land_lor_distr_l. f_equal. }
  destruct n; cbn [set_attr node_attr Mode perm owner]; by rewrite ?Hd, ?Hf.
Qed.
(** *** Paths of IAM volumes *)

Definition mount_root : path := ["var"; "lib"; "lustre"; "mounts"].

Lemma mount_root_plain : Forall plain mount_root.
Proof. decided. Qed.

Lemma resolve_global comps :
  Forall plain comps → resolve (Join (GlobalMountRoot :: comps)) = mount_root ++ comps.
Proof. intros Hc. apply (resolve_Join mount_root); [apply mount_root_plain|done..]. Qed.

Lemma Join_global comps :
  Forall plain comps → Join (GlobalMountRoot :: comps) = path_string (mount_root ++ comps).
Proof. intros Hc. apply (Join_plain mount_root); [apply mount_root_plain|done..]. Qed.

Lemma resolve_refPath key uid :
  plain key → plain uid → resolve (refPath key uid) = mount_root ++ [key; "refs"; uid].
Proof. intros Hk Hu. apply (resolve_global [key; "refs"; uid]). repeat constructor; try done; apply Hk || apply Hu. Qed.

Lemma resolve_refsDir key : plain key → resolve (refsDir key) = mount_root ++ [key; "refs"].
Proof. intros Hk. apply (resolve_global [key; "refs"]). repeat constructor; try done; apply Hk. Qed.

Lemma resolve_globalMountPath key : plain key → resolve (globalMountPath key) = mount_root ++ [key; "mount"].
Proof. intros Hk. apply (resolve_global [key; "mount"]). repeat constructor; try done; apply Hk. Qed.

Lemma resolve_keyDir key : plain key → resolve (keyDir key) = mount_root ++ [key].
Proof. intros Hk. apply (resolve_global [key]). repeat constructor; try done; apply Hk. Qed.

Lemma resolve_tokenPath key : plain key → resolve (tokenPath key) = mount_root ++ [key; "token"].
Proof. intros Hk. apply (resolve_global [key; "token"]). repeat constructor; try done; apply Hk. Qed.

Lemma resolve_tmpPath key :
  plain key → resolve (tokenPath key +:+ ".tmp") = mount_root ++ [key; "token.tmp"].
Proof.
  intros Hk. unfold tokenPath.
  rewrite (Join_global [key; "token"]) by (repeat constructor; try done; apply Hk).
  replace (mount_root ++ [key; "token"]) with ((mount_root ++ [key]) ++ ["token"]) by (by rewrite <-app_assoc).
  rewrite path_string_snoc, <-app_assoc. apply resolve_path_string.
  apply Forall_app. split; [apply mount_root_plain|]. repeat constructor; try done; apply Hk.
Qed.

(** The key of a volume is a plain name, whatever the volume and the principal. *)
Lemma iam_key_plain volumeID namespace saName : plain (iam_key volumeID namespace saName).
Proof.
  unfold iam_key. destruct (computeHash_form (volumeID +:+ (namespace +:+ "/" +:+ saName))) as [Hl Hh].
  set (h := computeHash _) in *. clearbody h.
  split_and!; [by intros ->|by intros ->|by intros ->|by apply all_hex_no_char].
Qed.

(** *** The token file *)

Lemma updateTokenFile_spec key token s r s' :
  plain key →
  updateTokenFile key token s = (r, s') →
  let tokenFile := mount_root ++ [key; "token"] in
  (if is_ok r then ∃ a, tree_of s' !! tokenFile = Some (File token a)
   else tree_of s' !! tokenFile = tree_of s !! tokenFile) ∧
  ∀ p, p ≠ tokenFile → p ≠ mount_root ++ [key; "token.tmp"] → tree_of s' !! p = tree_of s !! p.
Proof.
  intros Hk. unfold updateTokenFile. rewrite bind_unfold.
  destruct (sys (WriteFile _ _ _) s) as [r1 s1] eqn:E1. apply sys_inv in E1 as (o1 & E1 & ->).
  apply WriteFile_spec in E1 as [_ E1]. rewrite resolve_tmpPath in E1 by done.
  set (tok := mount_root ++ [key; "token"]). set (tmp := mount_root ++ [key; "token.tmp"]) in *.
  assert (tok ≠ tmp) as Hne by (intros E; apply app_inv_head in E; done).
  assert (∀ p, p ≠ tmp → files o1 !! p = tree_of s !! p) as Hother.
  { intros p Hp. destruct E1 as [(_ & a & ->)|(e & _ & [->|(c & a & ->)])]; try done;
      by rewrite lookup_insert_ne. }
  destruct r1 as [[]|e1]; [|intros [= <- <-]; cbn; split; [by apply Hother|intros; by apply Hother]].
  destruct E1 as [(_ & a1 & E1)|(? & ? & _)]; [|done].
  rewrite bind_unfold, attempt_unfold'.
  destruct (sys (Rename _ _) _) as [r2 s2] eqn:E2. apply sys_inv in E2 as (o2 & E2 & ->).
  cbn [nodeOS] in E2. apply Rename_spec in E2. rewrite resolve_tmpPath, resolve_tokenPath in E2 by done.
  fold tok tmp in E2. destruct E2 as [(-> & c & a & Hl & E2)|(e & -> & E2)].
  - intros [= <- <-]. cbn [is_ok nodeOS].
    rewrite E1, look_nonroot, lookup_insert_eq in Hl by (by destruct mount_root). injection Hl as <- <-.
    rewrite E2. split; [exists a1; by rewrite lookup_insert_eq|].
    intros p H1 H2. rewrite lookup_insert_ne, lookup_delete_ne by done. by apply Hother.
  - rewrite bind_unfold, attempt_unfold'.
    destruct (sys (Remove _) _) as [r3 s3] eqn:E3. apply sys_inv in E3 as (o3 & E3 & ->).
    intros [= <- <-]. cbn [is_ok nodeOS] in *. apply Remove_spec in E3. rewrite resolve_tmpPath in E3 by done.
    fold tmp in E3. assert (∀ p, p ≠ tmp → files o3 !! p = tree_of s !! p) as Hother3.
    { intros p Hp. destruct E3 as [(_ & -> & _)|(? & _ & -> & _)];
        rewrite ?lookup_delete_ne, ?E2 by done; by apply Hother. }
    split; [by apply Hother3|intros; by apply Hother3].
Qed.

Lemma updateTokenFile_ok key token s u s' :
  plain key → updateTokenFile key token s = (Ok u, s') →
  ∃ a, tree_of s' !! (mount_root ++ [key; "token"]) = Some (File token a).
Proof. intros Hk Hr. by apply updateTokenFile_spec in Hr as [? _]. Qed.

(** Claim C27.  The token file is replaced atomically: for every pattern of I/O errors, it holds the
    new token if [updateTokenFile] succeeds and what it held before if not, never a part of either;
    and only it and its temporary file can change. *)
Theorem token_file_atomic key token s r s' :
  plain key →
  updateTokenFile key token s = (r, s') →
  let tokenFile := mount_root ++ [key; "token"] in
  (if is_ok r then ∃ a, tree_of s' !! tokenFile = Some (File token a)
   else tree_of s' !! tokenFile = tree_of s !! tokenFile) ∧
  ∀ p, p ≠ tokenFile → p ≠ mount_root ++ [key; "token.tmp"] → tree_of s' !! p = tree_of s !! p.
Proof. apply updateTokenFile_spec. Qed.
End running.

(** ** The references of an IAM volume *)

(** A name without any special character. *)
Definition bare (c : string) : Prop := plain c ∧ has_meta c = false.

#[export] Instance bare_dec c : Decision (bare c).
Proof. unfold bare. apply _. Defined.

Lemma bare_no_backslash c : bare c → has_char "\" c = false.
Proof. intros [_ Hm]. unfold has_meta in Hm. rewrite !orb_false_iff in Hm. tauto. Qed.

Lemma any_slash_is a s t :
  any_slash a = true → has_char "\" (s +:+ String a t) = false → a = "/"%char.
Proof.
  intros Ha. rewrite has_char_app, orb_false_iff. cbn. rewrite orb_false_iff, bool_decide_eq_false.
  intros (_ & Hb & _). unfold any_slash in Ha. apply orb_true_iff in Ha as [Ha|Ha];
    apply bool_decide_eq_true in Ha; congruence.
Qed.

(** The key in the path of a reference. *)
Lemma iam_key_of_ref key uid c :
  bare key → bare uid →
  find_submatch iamKeyExtractRegex (path_string (mount_root ++ [key; "refs"; uid])) = Some c →
  group 1 c = key.
Proof.
  intros Hk Hu (u & v & st & E & Hm & ->)%find_submatch_sound.
  set (s := path_string _) in E.
  assert (has_char "\" s = false) as Hns.
  { subst s. unfold path_string. rewrite has_char_app, has_char_join by done. cbn.
    by rewrite (bare_no_backslash key), (bare_no_backslash uid). }
  repeat (apply rmatch_seq in Hm as (? & ?Hs & Hm)).
  apply rmatch_class in Hs as (a1 & Ha1 & R1 & C1 & _). cbn in R1, C1.
  apply rmatch_group_plus in Hs0 as (k & _ & Hkc & R2 & _ & C2).
  apply rmatch_class in Hs1 as (a2 & Ha2 & R3 & C3 & _).
  apply rmatch_lit in Hs2 as (R4 & C4 & _).
  apply rmatch_class in Hs3 as (a3 & Ha3 & R5 & C5 & _).
  apply rmatch_class_plus in Hs4 as (w & _ & Hw & R6 & C6 & _).
  apply rmatch_eol in Hm as [R7 ->].
  assert (v = String a1 (k +:+ String a2 ("refs" +:+ String a3 w))) as Ev.
  { rewrite R1, R2, R3, R4, R5, R6, R7, app_nil_r_str. by rewrite !app_char_str. }
  unfold group. rewrite C6, C5, C4, C3, C2. clear R1 R2 R3 R4 R5 R6 R7 C1 C2 C3 C4 C5 C6. subst v.
  rewrite lookup_insert_eq. cbn [default].
  assert (∀ y, all_chars not_any_slash y = true → has_char "/" y = false) as Hnas.
  { intros y. induction y as [|a y IH]; cbn; [done|]. intros [Ha Hy]%andb_true_iff. rewrite IH by done.
    unfold not_any_slash in Ha. apply andb_true_iff in Ha as [Ha _]. apply bool_decide_eq_true in Ha.
    by rewrite bool_decide_false. }
  apply Hnas in Hkc, Hw.
  assert (a1 = "/"%char ∧ a2 = "/"%char ∧ a3 = "/"%char) as (-> & -> & ->).
  { split_and!.
    - eapply any_slash_is; [done|]. by rewrite <-E.
    - apply (any_slash_is _ (u +:+ String a1 k) ("refs" +:+ String a3 w)); [done|].
      rewrite app_mid_str. by rewrite <-E.
    - apply (any_slash_is _ (u +:+ String a1 (k +:+ String a2 "refs")) w); [done|].
      rewrite !app_mid_str. by rewrite <-E. }
  assert (u +:+ String "/" (k +:+ String "/" ("refs" +:+ String "/" w)) =
    ((u +:+ "/" +:+ k) +:+ "/" +:+ "refs") +:+ "/" +:+ w) as E2.
  { by rewrite !app_char_str, !app_mid_str. }
  rewrite E2 in E. subst s.
  change (mount_root ++ [key; "refs"; uid]) with ((((mount_root ++ [key]) ++ ["refs"])) ++ [uid]) in E.
  rewrite !path_string_last in E by done.
  destruct Hk as [(_ & _ & _ & Hk) _], Hu as [(_ & _ & _ & Hu) _].
  apply split_last_slash in E as [E _]; [|done..].
  apply split_last_slash in E as [E _]; [|done..].
  apply split_last_slash in E as [_ ->]; done.
Qed.

(** The matches of the pattern that looks for a pod's references. *)
Definition keys_bare (t : tree) : Prop := ∀ k, is_Some (t !! (mount_root ++ [k])) → bare k.

Lemma refs_pattern uid t p :
  bare uid → keys_bare t →
  p ∈ glob_tree (resolve (Join [GlobalMountRoot; "*"; "refs"; uid])) t →
  ∃ key, bare key ∧ p = mount_root ++ [key; "refs"; uid].
Proof.
  intros Hu Hkeys. rewrite (resolve_global ["*"; "refs"; uid]) by (repeat constructor; try done; apply Hu).
  unfold glob_tree. change (split_meta [] (mount_root ++ ["*"; "refs"; uid])) with (mount_root, ["*"; "refs"; uid]).
  cbn iota beta. intros (d & ns & Hd & -> & Hf & Hh)%glob_dirs_sound.
  apply list_elem_of_singleton in Hd as ->.
  apply Forall2_cons_inv_l in Hf as (k & ns1 & _ & Hf & ->).
  apply Forall2_cons_inv_l in Hf as (r & ns2 & Hr & Hf & ->).
  apply Forall2_cons_inv_l in Hf as (u & ns3 & Hu' & Hf & ->).
  apply Forall2_nil_inv_l in Hf as ->.
  apply glob_match_literal in Hr as ->; [|done]. apply glob_match_literal in Hu' as ->; [|apply Hu].
  exists k. split; [|done]. apply Hkeys. by apply Hh.
Qed.

Section references.
Context {S : Type} `{MounterLaws S}.
Context (key uid' : string).
Hypothesis key_bare : bare key.
Hypothesis uid'_plain : plain uid'.
Implicit Types s : nodeState S.

(** The reference of pod [uid'] and the token of the key. *)
Definition ref_file : path := mount_root ++ [key; "refs"; uid'].
Definition key_files (p : path) : Prop := p = ref_file ∨ p = mount_root ++ [key; "token"].

(** While the reference is there, it and the token keep their contents and the
    global path stays mounted. *)
Definition spares : relation (nodeState S) := λ s s',
  (∃ v a, tree_of s !! ref_file = Some (File v a)) →
  keep_files key_files (tree_of s) (tree_of s') ∧
  (mounted (nodeHost s) (globalMountPath key) → mounted (nodeHost s') (globalMountPath key)).

#[local] Instance spares_preorder : PreOrder spares.
Proof.
  split; [intros s _; split; [reflexivity|done]|].
  intros s1 s2 s3 H12 H23 (v & a & Hr). destruct (H12 (ex_intro _ v (ex_intro _ a Hr))) as [K12 M12].
  destruct (K12 ref_file v a (or_introl eq_refl) Hr) as [a' Hr'].
  destruct H23 as [K23 M23]; [eauto|]. split; [by etransitivity|auto].
Qed.

Lemma spares_sys {A : Type} (m : M os goerr A) s :
  keep_files key_files (tree_of s) (files (state_after m (nodeOS s))) → spares s (state_after (sys m) s).
Proof. unfold state_after, sys. destruct (m (nodeOS s)) as [r o]. cbn. intros Hk _. by split. Qed.

Lemma spares_remove p : ¬ key_files (resolve p) → keeps spares (sys (Remove p)).
Proof.
  intros Hp s. apply spares_sys. unfold state_after.
  destruct (Remove p (nodeOS s)) as [r o] eqn:E. cbn.
  apply Remove_spec in E as [(_ & -> & _)|(? & _ & -> & _)]; [by apply keep_files_delete|reflexivity].
Qed.

Lemma spares_likely p : keeps spares (host_pair (IsLikelyNotMountPoint p)).
Proof.
  intros s. unfold state_after, host_pair. pose proof (likely_reads p (nodeHost s)) as Hr.
  destruct (IsLikelyNotMountPoint p (nodeHost s)) as [r h]. cbn in *. subst h.
  intros _. split; [reflexivity|done].
Qed.

Lemma spares_umount timeout args :
  last args ≠ Some (globalMountPath key) → keeps spares (host_pair (umount timeout args)).
Proof.
  intros Ha s. unfold state_after, host_pair.
  pose proof (umount_others timeout args (globalMountPath key) (nodeHost s) Ha) as Hu.
  destruct (umount timeout args (nodeHost s)) as [r h]. cbn in *. intros _. split; [reflexivity|done].
Qed.

Lemma spares_unmountPath t :
  t ≠ globalMountPath key → ¬ key_files (resolve t) → keeps spares (unmountPath t).
Proof.
  intros Ht Hp. unfold unmountPath, removeDir.
  assert (∀ l a, keeps spares (host_pair (umount l (a ++ [t])))) as Hu.
  { intros l a. apply spares_umount. rewrite last_snoc. congruence. }
  pose proof (λ l, Hu l []) as Hu1. pose proof (λ l, Hu l ["-f"]) as Hu2. pose proof (λ l, Hu l ["-l"]) as Hu3. cbn in *.
  pose proof (spares_likely t). pose proof (spares_remove t Hp). keeps_tac.
  all: apply keeps_fail; apply _.
Qed.

Lemma other_key key' comps : key' ≠ key → ¬ key_files (mount_root ++ key' :: comps).
Proof. intros Hne [E|E]; injection E; congruence. Qed.

Lemma globalMountPath_inj key' : plain key' → globalMountPath key' = globalMountPath key → key' = key.
Proof.
  intros Hk' E. apply (f_equal resolve) in E.
  rewrite !resolve_globalMountPath in E by (done || apply key_bare). by injection E.
Qed.

Lemma spares_RemoveAll key' : plain key' → key' ≠ key → keeps spares (sys (RemoveAll (keyDir key'))).
Proof.
  intros Hk' Hne s. apply spares_sys. unfold state_after, RemoveAll.
  rewrite resolve_keyDir by done.
  destruct (syscall _ _ _ _ (nodeOS s)) as [r o] eqn:E. cbn.
  assert (∀ l, l ⊆ subtree (tree_of s) (mount_root ++ [key']) → Forall (λ p, ¬ key_files p) l) as Hl.
  { intros l Hs. apply Forall_forall. intros p Hp%Hs%elem_of_subtree.
    destruct Hp as [->|(c & r' & ->)%below_spec]; [by apply (other_key key' [])|].
    rewrite <-app_assoc. by apply other_key. }
  apply syscall_cases in E as [_ [(f & _ & _ & ->)|[_ ->]]]; cbn [snd]; apply keep_files_delete_all, Hl; [|done].
  intros p Hp. by apply subseteq_take in Hp.
Qed.

(** Cleaning up one reference of another pod. *)
Lemma spares_cleanUpForKey key' uid :
  bare key' → plain uid → uid ≠ uid' →
  keeps spares (cleanUpIAMReferenceForKey key' (path_string (mount_root ++ [key'; "refs"; uid]))).
Proof.
  intros Hk' Hu Hne. set (ref := path_string _).
  assert (resolve ref = mount_root ++ [key'; "refs"; uid]) as Href.
  { apply resolve_path_string, Forall_app. split; [apply mount_root_plain|].
    repeat constructor; try done; apply Hk' || apply Hu. }
  assert (¬ key_files (resolve ref)) as Hnref.
  { rewrite Href. intros [E|E]; injection E; congruence. }
  assert (¬ key_files (resolve (refsDir key'))) as Hnrefs.
  { rewrite resolve_refsDir by apply Hk'. intros [E|E]; discriminate E. }
  assert (¬ key_files (resolve (globalMountPath key'))) as Hnm.
  { rewrite resolve_globalMountPath by apply Hk'. intros [E|E]; discriminate E. }
  pose proof (spares_remove _ Hnref) as Kref. pose proof (spares_remove _ Hnrefs) as Krefs.
  unfold cleanUpIAMReferenceForKey.
  assert (∀ A busy (m : M (nodeState S) goerr A), keeps spares m → keeps spares (locked_on key' busy m)) as Hlock.
  { intros A busy m Hm s. unfold state_after, locked_on, node_TryAcquire, VolumeLocks.TryAcquire.
    rewrite bind_unfold. case_decide; cbn; [intros _; split; [reflexivity|done]|].
    unfold node_defer_Release. set (s1 := MkNodeState _ _ _). specialize (Hm s1). unfold state_after in Hm.
    destruct (m s1) as [r s2]. exact Hm. }
  apply Hlock.
  eapply keeps_bind; [apply _|by apply keeps_attempt|]. intros removed.
  destruct (match removed with Ok _ => None | Err err => if is_not_exist err then None else Some err end);
    [apply keeps_fail; apply _|].
  destruct (decide (key' = key)) as [->|Hkey].
  - (* the shared key: the directory of references is not empty *)
    intros s Hs. pose proof Hs as (v & a & Hr). revert Hs.
    unfold state_after. rewrite bind_unfold, attempt_unfold'.
    destruct (sys (Remove (refsDir key)) s) as [r s1] eqn:E.
    pose proof (Krefs s) as K1. unfold state_after in K1. rewrite E in K1.
    apply sys_inv in E as (o & E & ->). apply Remove_spec in E as [(-> & _ & [n Hn] & Hd)|(e & -> & _ & _)].
    + exfalso. rewrite resolve_refsDir in Hn, Hd by apply key_bare.
      assert (ref_file ∈ descendants (tree_of s) (mount_root ++ [key; "refs"])) as Hin.
      { apply elem_of_descendants. split; [eauto|]. apply below_spec. exists uid', []. done. }
      rewrite Hd in Hin. by apply elem_of_nil in Hin.
    + destruct (is_not_exist e); [exact K1|]. destruct e; try exact K1. by destruct en.
  - eapply keeps_bind; [apply _|by apply keeps_attempt|]. intros r.
    pose proof (spares_RemoveAll key' ltac:(apply Hk') Hkey).
    assert (keeps spares (unmountPath (globalMountPath key'))).
    { apply spares_unmountPath; [|done]. intros E. apply globalMountPath_inj in E; [done|apply Hk']. }
    destruct r as [|err]; [keeps_tac|].
    destruct (is_not_exist err); [apply keeps_ret; apply _|].
    destruct err; try (apply keeps_fail; apply _). destruct en; first [apply keeps_ret; apply _|apply keeps_fail; apply _].
Qed.

Lemma spares_clean_up_refs uid matches :
  bare uid → uid ≠ uid' →
  Forall (λ m, ∃ key', bare key' ∧ m = path_string (mount_root ++ [key'; "refs"; uid])) matches →
  keeps spares (clean_up_refs matches).
Proof.
  intros Hu Hne. induction 1 as [|m matches (key' & Hk' & ->) Hf IH]; cbn [clean_up_refs];
    [apply keeps_ret; apply _|].
  destruct (find_submatch _ _) as [c|] eqn:E; [|done].
  rewrite (iam_key_of_ref _ _ _ Hk' Hu E).
  pose proof (spares_cleanUpForKey key' uid Hk' ltac:(apply Hu) Hne). keeps_tac.
Qed.

Lemma spares_cleanUp targetPath uid s :
  getPodUIDFromTargetPath targetPath = Ok uid → bare uid → uid ≠ uid' → keys_bare (tree_of s) →
  spares s (state_after (cleanUpIAMReference targetPath) s).
Proof.
  intros Hid Hu Hne Hkeys. unfold state_after, cleanUpIAMReference. rewrite Hid.
  rewrite bind_unfold, attempt_unfold'. destruct (sys (Glob _) s) as [r s1] eqn:E.
  apply sys_inv in E as (o & E & ->).
  assert (files o = tree_of s) as Ho.
  { unfold Glob in E. repeat case_match; by injection E as <- <-. }
  assert (spares s (MkNodeState (nodeLocks s) o (nodeHost s))) as Hs1.
  { intros _. cbn. rewrite Ho. split; [reflexivity|done]. }
  destruct r as [matches|err]; [|exact Hs1].
  etransitivity; [exact Hs1|].
  pose proof (spares_clean_up_refs uid matches Hu Hne) as Hc.
  assert (keeps spares (errs ← clean_up_refs matches;
    if decide (0 < length errs)%nat then fail (join_errors errs) else mret ()) ) as Hk; [|apply Hk].
  eapply keeps_bind; [apply _| |intros errs; case_decide; [apply keeps_fail|apply keeps_ret]; apply _].
  apply Hc, Forall_forall. intros m Hm.
  apply (Glob_sound _ _ _ _ _ E) in Hm as (_ & p & -> & Hp). apply refs_pattern in Hp as (key' & ? & ->); eauto.
Qed.

(** [unmountPath] adds nothing to the tree. *)
Definition shrinks : relation (nodeState S) := λ s s',
  ∀ p, is_Some (tree_of s' !! p) → is_Some (tree_of s !! p).

#[export] Instance shrinks_preorder : PreOrder shrinks.
Proof. split; [by intros s p|]. intros s1 s2 s3 H12 H23 p Hp. by apply H12, H23. Qed.

Lemma shrinks_unmountPath t : keeps shrinks (unmountPath t).
Proof.
  assert (∀ p, keeps shrinks (sys (Remove p))) as Hr.
  { intros p s q. unfold state_after. destruct (sys (Remove p) s) as [r s1] eqn:E.
    apply sys_inv in E as (o & E & ->). cbn.
    apply Remove_spec in E as [(_ & -> & _)|(? & _ & -> & _)]; [|done].
    intros [n Hn]. apply lookup_delete_Some in Hn as [_ ?]. eauto. }
  assert (∀ (A : Type) (m : S → A * S), keeps shrinks (host_pair m)) as Hh.
  { intros A m s q. unfold state_after, host_pair. by destruct (m (nodeHost s)). }
  unfold unmountPath, removeDir. pose proof (Hr t). keeps_tac; first [apply Hh|apply keeps_fail; apply _].
Qed.

(** Unpublishing a volume from one pod spares the other pods: as long as another pod has a
    reference to a key, [NodeUnpublishVolume] neither unmounts the key's global mount nor touches
    the reference or the token, whatever the result and whatever I/O errors and failing unmounts
    it meets. *)
Theorem unpublish_spares_other_pods targetPath uid v a s r s' :
  getPodUIDFromTargetPath targetPath = Ok uid → bare uid → uid ≠ uid' →
  keys_bare (tree_of s) → below mount_root (resolve targetPath) = false →
  tree_of s !! (mount_root ++ [key; "refs"; uid']) = Some (File v a) →
  NodeUnpublishVolume targetPath s = (r, s') →
  (mounted (nodeHost s) (globalMountPath key) → mounted (nodeHost s') (globalMountPath key)) ∧
  (∃ a', tree_of s' !! (mount_root ++ [key; "refs"; uid']) = Some (File v a')) ∧
  (∀ token b, tree_of s !! (mount_root ++ [key; "token"]) = Some (File token b) →
     ∃ b', tree_of s' !! (mount_root ++ [key; "token"]) = Some (File token b')).
Proof.
  intros Hid Hu Hne Hkeys Hout Href Hrun.
  assert (spares s s') as Hs.
  { assert (targetPath ≠ globalMountPath key) as Ht.
    { intros ->. rewrite resolve_globalMountPath in Hout by apply key_bare. done. }
    assert (¬ key_files (resolve targetPath)) as Hq.
    { intros [E|E]; rewrite E in Hout; discriminate Hout. }
    unfold NodeUnpublishVolume in Hrun. case_decide; [injection Hrun as _ <-; reflexivity|].
    unfold locked_on, node_TryAcquire, VolumeLocks.TryAcquire in Hrun. rewrite bind_unfold in Hrun.
    case_decide; cbn in Hrun; [injection Hrun as _ <-; intros _; split; [reflexivity|done]|].
    unfold node_defer_Release in Hrun. set (s1 := MkNodeState _ _ _) in Hrun.
    lazymatch type of Hrun with (let '(_, _) := ?c in _) = _ => destruct c as [r2 s2] eqn:E end.
    injection Hrun as _ <-.
    assert (spares s1 s2) as Hs12; [|exact Hs12].
    rewrite bind_unfold in E. pose proof (spares_unmountPath targetPath Ht Hq s1) as K1.
    pose proof (shrinks_unmountPath targetPath s1) as Sh1. unfold state_after in K1, Sh1.
    destruct (unmountPath targetPath s1) as [[[]|] s3]; [|by injection E as _ <-].
    cbn in K1, Sh1. etransitivity; [exact K1|].
    rewrite bind_unfold, attempt_unfold' in E.
    pose proof (spares_cleanUp targetPath uid s3 Hid Hu Hne) as K2. unfold state_after in K2.
    destruct (cleanUpIAMReference targetPath s3) as [r4 s4]. cbn in K2.
    assert (s2 = s4) as -> by (destruct r4; by injection E).
    apply K2. intros k Hk. apply Hkeys. by apply Sh1. }
  destruct Hs as [Hk Hm]; [by exists v, a|]. split; [exact Hm|]. split.
  - apply (Hk ref_file v a); [by left|done].
  - intros token b. apply Hk. by right.
Qed.
End references.

(** ** Unmounting *)

(** The umount commands in the order of escalation with their time limits, and what running them one after
    another until one is done with the target leads to. *)
Definition escalation (target : string) : list (Z * list string) :=
  [(DefaultUnmountTimeout, [target]); (DefaultForceUnmountTimeout, ["-f"; target]);
   (DefaultLazyUnmountTimeout, ["-l"; target])].

Fixpoint escalate {S : Type} `{Mounter S} (commands : list (Z * list string)) (h : S) : bool * S :=
  match commands with
  | [] => (false, h)
  | (timeout, args) :: rest => let '(r, h') := umount timeout args h in if unmounted r then (true, h') else escalate rest h'
  end.

Section unmounting.
Context {S : Type} `{Mounter S}.
Implicit Types s : nodeState S.

Lemma removeDir_result t s r s' :
  removeDir t s = (r, s') →
  nodeHost s' = nodeHost s ∧
  match r with
  | Ok _ => io_faults (nodeOS s) → resolve t ≠ [] → tree_of s' !! resolve t = None
  | Err e => (∃ msg, e = ErrStatus Internal msg) ∧ tree_of s' = tree_of s
  end.
Proof.
  unfold removeDir. rewrite bind_unfold, attempt_unfold'.
  destruct (sys (Remove t) s) as [r1 s1] eqn:E. apply sys_inv in E as (o & E & ->).
  apply Remove_spec in E as [(-> & Ho & _)|(e & -> & Ho & Hn)].
  - intros [= <- <-]. cbn. split; [done|]. intros _ _. rewrite Ho. apply lookup_delete_eq.
  - destruct (is_not_exist e) eqn:Ee; intros [= <- <-]; cbn; (split; [done|]).
    + intros Hio Hr. specialize (Hn Hio eq_refl). rewrite look_nonroot in Hn by done. by rewrite Ho.
    + split; [eauto|done].
Qed.

(** Claim C24.  Unmounting: a target that is not a mount point is not unmounted; otherwise umount, umount -f and
    umount -l are run in this order, for at most 15, 10 and 5 seconds, until one reports success or that the target is not mounted.  If that
    happens the directory is removed, and on success it is gone; if none does, or the directory
    cannot be removed, the error is Internal and the filesystem is as before. *)
Theorem unmount_escalates target s r s' notMnt err h :
  IsLikelyNotMountPoint target (nodeHost s) = ((notMnt, err), h) →
  unmountPath target s = (r, s') →
  let skip := match err with Some e => is_not_exist e && notMnt | None => notMnt end in
  let '(done, h') := if skip then (true, h) else escalate (escalation target) h in
  nodeHost s' = h' ∧
  match r with
  | Ok _ => done = true ∧ (io_faults (nodeOS s) → resolve target ≠ [] → tree_of s' !! resolve target = None)
  | Err e => (∃ msg, e = ErrStatus Internal msg) ∧ tree_of s' = tree_of s
  end.
Proof.
  intros Hp. unfold unmountPath. rewrite bind_unfold. unfold host_pair at 1. rewrite Hp.
  set (skip := match err with Some e => is_not_exist e && notMnt | None => notMnt end).
  assert ((match err with
    | Some err => if negb (is_not_exist err) then false else notMnt
    | None => notMnt end) = skip) as ->.
  { subst skip. destruct err as [e|]; [|done]. by destruct (is_not_exist e). }
  clearbody skip. clear Hp. cbn zeta. destruct skip.
  { intros Hr%removeDir_result. destruct r; naive_solver. }
  unfold escalation. cbn [escalate].
  rewrite bind_unfold. unfold host_pair at 1. cbn [nodeHost nodeOS nodeLocks].
  destruct (umount _ [target] h) as [r1 h1]. destruct (unmounted r1).
  { intros Hr%removeDir_result. destruct r; naive_solver. }
  rewrite bind_unfold. unfold host_pair at 1. cbn [nodeHost nodeOS nodeLocks].
  destruct (umount _ ["-f"; target] h1) as [r2 h2]. destruct (unmounted r2).
  { intros Hr%removeDir_result. destruct r; naive_solver. }
  rewrite bind_unfold. unfold host_pair at 1. cbn [nodeHost nodeOS nodeLocks].
  destruct (umount _ ["-l"; target] h2) as [r3 h3]. destruct (unmounted r3).
  { intros Hr%removeDir_result. destruct r; naive_solver. }
  intros [= <- <-]. cbn. eauto.
Qed.
End unmounting.

(** ** Staging *)
Section staging.
Context {S : Type} `{MounterLaws S} `{Netlinker S} `{MapRange}.
Context (driver : LustreDriver).
Implicit Types s : nodeState S.

Lemma or_status_inv {A : Type} c msg (r : result goerr A) s a s' :
  or_status c msg r s = (Ok a, s') → r = Ok a ∧ s' = s.
Proof. destruct r; [by intros [= -> ->]|done]. Qed.

Lemma locked_on_inv {A : Type} key busy (m : M (nodeState S) goerr A) s a s' :
  locked_on key busy m s = (Ok a, s') →
  key ∉ nodeLocks s ∧ ∃ s1, m (MkNodeState ({[key]} ∪ nodeLocks s) (nodeOS s) (nodeHost s)) = (Ok a, s1) ∧
    s' = MkNodeState (nodeLocks s1 ∖ {[key]}) (nodeOS s1) (nodeHost s1).
Proof.
  unfold locked_on, node_TryAcquire, VolumeLocks.TryAcquire. rewrite bind_unfold.
  case_decide; cbn; [done|]. unfold node_defer_Release.
  destruct (m _) as [r s1]. intros [= -> <-]. eauto.
Qed.

(** A path that is reported as mounted is, and reporting it changes nothing. *)
Lemma isMounted_true t s s' : isMounted t s = (Ok true, s') → s' = s ∧ mounted (nodeHost s) t.
Proof.
  unfold isMounted. rewrite bind_unfold. unfold host_pair.
  pose proof (likely_reads t (nodeHost s)) as Hr. pose proof (likely_mounted t (nodeHost s)) as Hm.
  destruct (IsLikelyNotMountPoint t (nodeHost s)) as [[notMnt err] h]. cbn in Hr, Hm. subst h.
  destruct err as [e|].
  - destruct (is_not_exist e); [done|]. rewrite bind_unfold, attempt_unfold'.
    destruct (pathExists t _) as [[x|pe] s1]; [done|]. destruct (IsCorruptedMnt pe); [|done].
    rewrite bind_unfold, attempt_unfold'. by destruct (host _ s1) as [[] s2].
  - intros [= Hn <-]. destruct notMnt; [done|]. split; [by destruct s|]. by apply Hm.
Qed.

(** A successful staging, step by step. *)
Lemma NodeStageVolume_ok req s s' vc ip fsname volCap :
  NodeStageVolume driver req s = (Ok (), s') →
  normalizeVolumeContext (StageContext req) = Ok vc → mount_source vc = Ok (ip, fsname) →
  to_lower (get vc (normalize keyIAMAccessControlEnabled)) ≠ "true" → StageCapability req = Some volCap →
  mounted (nodeHost s') (StageTargetPath req) ∧
  (nodeHost s' = nodeHost s ∨
   ∃ h1 mountedFS h2,
     List h1 = (Ok mountedFS, h1) ∧ Forall (λ m, extractFSName (Device m) ≠ fsname) mountedFS ∧
     MountSensitiveWithoutSystemd (lustre_source ip fsname) (StageTargetPath req) "lustre"
       (add_flags [] (mount_flags volCap)) h2 = (Ok (), nodeHost s')).
Proof.
  unfold NodeStageVolume. case_decide; [done|].
  intros (vc' & s1 & [Hvc ->]%or_status_inv & Hr)%bind_inv Hvc'. rewrite Hvc in Hvc'. injection Hvc' as ->.
  apply bind_inv in Hr as ([ip' fs'] & s1 & [Hsrc ->]%or_status_inv & Hr).
  intros Hsrc'. rewrite Hsrc in Hsrc'. injection Hsrc' as -> ->. intros Hiam.
  rewrite decide_False in Hr by done. case_decide; [done|]. intros Hcap. rewrite Hcap in Hr.
  apply bind_inv in Hr as ([] & s1 & [_ ->]%or_status_inv & Hr).
  apply locked_on_inv in Hr as (_ & s1 & Hr & ->). cbn [nodeHost].
  apply bind_inv in Hr as (m & s2 & Hm%attempt_inv & Hr).
  destruct m as [[]|]; [| |done].
  { injection Hr as <-. apply isMounted_true in Hm as [-> Hm]. cbn in *. auto. }
  apply bind_inv in Hr as (f & s3 & Hf%attempt_inv & Hr). destruct f as [[]|]; [done| |done].
  unfold hasMountWithSameFSName in Hf. apply bind_inv in Hf as (l & s4 & (h & Hl & ->)%host_inv & Hf).
  injection Hf as Hf <-. pose proof (list_reads (nodeHost s2)) as Hlr. unfold state_after in Hlr.
  rewrite Hl in Hlr. cbn in Hlr. subst h.
  apply bind_inv in Hr as ([] & s5 & _ & Hr).
  apply bind_inv in Hr as (d & s6 & _ & Hr). destruct d; [|done].
  apply bind_inv in Hr as (r & s7 & Hmt%attempt_inv & Hr).
  apply host_inv in Hmt as (h7 & Hmt & ->). destruct r as [[]|]; [injection Hr as <-; cbn [nodeHost]|].
  - split; [by eapply mount_mounts|]. right. exists (nodeHost s2), l, (nodeHost s6). split_and!; [done| |done].
    apply Forall_forall. intros x Hx Heq.
    assert (existsb (λ m, bool_decide (extractFSName (Device m) = fsname)) l = true) as E; [|congruence].
    apply existsb_exists. exists x. split; [by apply list_elem_of_In|]. by rewrite bool_decide_true.
  - exfalso. apply bind_inv in Hr as (? & ? & _ & Hr). done.
Qed.
(** Staging: a successful [NodeStageVolume] of a volume without IAM leaves the staging path mounted, and unless
    it was mounted before, it did so by one mount of [IP@tcp:/FSNAME], with the volume's flags once each, on
    a node where no mount had that filesystem name. *)
Theorem stage_mounts_volume req s s' vc ip fsname volCap :
  NodeStageVolume driver req s = (Ok (), s') →
  normalizeVolumeContext (StageContext req) = Ok vc → mount_source vc = Ok (ip, fsname) →
  to_lower (get vc (normalize keyIAMAccessControlEnabled)) ≠ "true" → StageCapability req = Some volCap →
  mounted (nodeHost s') (StageTargetPath req) ∧
  (nodeHost s' = nodeHost s ∨
   ∃ h1 mountedFS h2,
     List h1 = (Ok mountedFS, h1) ∧ Forall (λ m, extractFSName (Device m) ≠ fsname) mountedFS ∧
     MountSensitiveWithoutSystemd (lustre_source ip fsname) (StageTargetPath req) "lustre"
       (add_flags [] (mount_flags volCap)) h2 = (Ok (), nodeHost s')).
Proof. apply NodeStageVolume_ok. Qed.
End staging.

(** ** Publishing an IAM volume *)
Section publishing.
Context {S : Type} `{MounterLaws S} `{Netlinker S} `{MapRange}.
Context (driver : LustreDriver).
Hypothesis net_keeps : ∀ ip (nics : list string) (h : S) p,
  mounted h p → mounted (state_after (setUpMultiNIC ip nics) h) p.
Implicit Types s : nodeState S.

Lemma pathExists_inv p s r s' :
  pathExists p s = (r, s') →
  tree_of s' = tree_of s ∧ nodeHost s' = nodeHost s ∧
  (r = Ok true → is_Some (look (tree_of s) (resolve p))).
Proof.
  unfold pathExists. rewrite bind_unfold, attempt_unfold'.
  destruct (sys (Stat p) s) as [r1 s1] eqn:E. apply sys_inv in E as (o & E & ->).
  apply syscall_cases in E as [_ [(f & _ & -> & Ho)|[-> Ho]]]; cbn in Ho.
  - cbn [is_not_exist]. destruct (fault_errno f); intros [= <- <-]; cbn; by rewrite Ho.
  - unfold stat_tree. cbn [fst]. destruct (look (tree_of s) (resolve p)) as [n|] eqn:El.
    + destruct (existsb _ _); intros [= <- <-]; cbn; rewrite Ho; split_and!; eauto.
    + unfold missing. destruct (existsb _ _); intros [= <- <-]; cbn; by rewrite Ho.
Qed.

Lemma isMounted_inv t s r s' :
  isMounted t s = (r, s') →
  tree_of s' = tree_of s ∧
  (∀ p, p ≠ t → mounted (nodeHost s) p → mounted (nodeHost s') p) ∧
  (r = Ok true → mounted (nodeHost s') t).
Proof.
  unfold isMounted. rewrite bind_unfold. unfold host_pair.
  pose proof (likely_reads t (nodeHost s)) as Hr. pose proof (likely_mounted t (nodeHost s)) as Hm.
  destruct (IsLikelyNotMountPoint t (nodeHost s)) as [[notMnt err] h]. cbn in Hr, Hm. subst h.
  destruct err as [e|].
  - destruct (is_not_exist e); [by intros [= <- <-]|]. rewrite bind_unfold, attempt_unfold'.
    destruct (pathExists t _) as [r1 s1] eqn:E. apply pathExists_inv in E as (Ht & Hh & _). cbn in Ht, Hh.
    destruct r1 as [x|pe]; [intros [= <- <-]; by rewrite Ht, Hh|].
    destruct (IsCorruptedMnt pe); [|intros [= <- <-]; by rewrite Ht, Hh].
    rewrite bind_unfold, attempt_unfold'. destruct (host (Unmount t) s1) as [r2 s2] eqn:E.
    apply host_inv in E as (h & E & ->).
    intros Hr. assert (r ≠ Ok true ∧ s' = MkNodeState (nodeLocks s1) (nodeOS s1) h) as [Hrt ->]
      by (by destruct r2; injection Hr as <- <-).
    cbn. rewrite Ht. split_and!; [done| |done]. intros p Hp Hmp. rewrite <-Hh in Hmp.
    pose proof (Unmount_others t (nodeHost s1) p Hp Hmp) as Hu. unfold state_after in Hu. by rewrite E in Hu.
  - intros [= <- <-]. cbn. split_and!; [done..|]. destruct notMnt; [done|]. intros _. by apply Hm.
Qed.

Lemma mountGlobalIAM_ok g principal key vc cap s s' :
  mountGlobalIAM driver g principal key vc cap s = (Ok (), s') →
  tree_of s' = tree_of s ∧ mounted (nodeHost s') g ∧
  ∀ p, mounted (nodeHost s) p → mounted (nodeHost s') p.
Proof.
  unfold mountGlobalIAM.
  intros ([ip fs] & s1 & [_ ->]%or_status_inv & ([] & s2 & (h & Hn & ->)%host_inv & Hr)%bind_inv)%bind_inv.
  apply bind_inv in Hr as (r & s3 & (h' & Hm & ->)%attempt_inv%host_inv & Hr). cbn [nodeHost nodeOS nodeLocks] in *.
  destruct r as [[]|]; [|by apply bind_inv in Hr as (? & ? & _ & ?)].
  injection Hr as <-. cbn. split_and!; [done|by eapply mount_mounts|].
  intros p Hp. apply (net_keeps ip (AdditionalNics (config driver))) in Hp. unfold state_after in Hp.
  rewrite Hn in Hp. cbn in Hp. eapply mount_keeps in Hp. unfold state_after in Hp. by rewrite Hm in Hp.
Qed.

Lemma addPodReference_ok key uid volumeID s s' :
  plain key → plain uid →
  addPodReference key uid volumeID s = (Ok (), s') →
  nodeHost s' = nodeHost s ∧ is_Some (tree_of s' !! (mount_root ++ [key; "refs"; uid])) ∧
  ∀ q, q ≠ mount_root ++ [key; "refs"; uid] → tree_of s' !! q = tree_of s !! q.
Proof.
  intros Hk Hu. unfold addPodReference. intros (r & s1 & Hr%attempt_inv & Hw)%bind_inv.
  apply pathExists_inv in Hr as (Ht & Hh & Hex). rewrite resolve_refPath in Hex by done.
  assert (sys (WriteFile (refPath key uid) volumeID 420) s1 = (Ok (), s') →
    nodeHost s' = nodeHost s ∧ is_Some (tree_of s' !! (mount_root ++ [key; "refs"; uid])) ∧
    ∀ q, q ≠ mount_root ++ [key; "refs"; uid] → tree_of s' !! q = tree_of s !! q) as Hwrite.
  { intros (o & Hw' & ->)%sys_inv. cbn. apply WriteFile_spec in Hw' as [_ [(_ & a & Ho)|(e & He & _)]]; [|done].
    rewrite resolve_refPath in Ho by done. rewrite Ho, Ht. split_and!; [done|by rewrite lookup_insert_eq|].
    intros q Hq. by rewrite lookup_insert_ne. }
  destruct r as [[]|]; [|by apply Hwrite..].
  injection Hw as <-. rewrite Ht. split_and!; [done| |done]. rewrite <-look_nonroot by done. by apply Hex.
Qed.

(** What a change of attributes leaves. *)
Definition attrs_only : relation (nodeState S) := λ s s',
  nodeHost s' = nodeHost s ∧ keep_files (λ _, True) (tree_of s) (tree_of s') ∧
  ∀ q, is_Some (tree_of s !! q) → is_Some (tree_of s' !! q).

#[local] Instance attrs_only_preorder : PreOrder attrs_only.
Proof.
  split; [by intros s; split_and!|]. intros s1 s2 s3 (Ha & K1 & D1) (Hb & K2 & D2).
  split_and!; [congruence|by etransitivity|auto].
Qed.

Lemma attrs_only_change {A : Type} (op p : string) (run : tree → result errno A * tree) :
  (∀ t, (run t).2 = t ∨ ∃ q f, (run t).2 = (change_attr q f t).2) →
  keeps attrs_only (sys (syscall op p untouched run)).
Proof.
  intros Hrun s. unfold state_after. destruct (sys _ s) as [r s1] eqn:E. apply sys_inv in E as (o & E & ->).
  apply syscall_cases in E as [_ Hc]. unfold attrs_only. cbn. split; [done|].
  assert (files o = tree_of s ∨ ∃ q f, files o = (change_attr q f (tree_of s)).2) as [->|(q & f & ->)].
  { destruct Hc as [(f & _ & _ & ->)|[_ ->]]; [by left|apply Hrun]. }
  - by split.
  - split; [apply keep_files_change|]. intros q' [n Hq]. unfold change_attr.
    destruct (look (tree_of s) q); cbn; [|eauto]. rewrite lookup_insert. case_decide; eauto.
Qed.

Lemma attrs_only_ownership d g ro : keeps attrs_only (setVolumeOwnershipTopLevel d g ro).
Proof.
  unfold setVolumeOwnershipTopLevel.
  assert (∀ p, keeps attrs_only (sys (Lstat p))) by (intros; apply attrs_only_change; auto).
  assert (∀ p gid, keeps attrs_only (sys (Lchown_group p gid))) by (intros; apply attrs_only_change; eauto).
  assert (∀ p m, keeps attrs_only (sys (Chmod p m))) by (intros; apply attrs_only_change; eauto).
  keeps_tac.
Qed.

Lemma publishIAMVolume_ok volumeID target targetMounted vc opts cap s s' :
  let uid := get vc (normalize keyPodUID) in
  let key := iam_key volumeID (get vc (normalize keyPodNamespace)) (get vc (normalize keyServiceAccount)) in
  publishIAMVolume driver volumeID target targetMounted vc opts cap s = (Ok (), s') →
  plain uid → target ≠ globalMountPath key →
  is_Some (tree_of s' !! (mount_root ++ [key; "refs"; uid])) ∧
  (∃ json token a, vc !! normalize keyServiceToken = Some json ∧
     parseToken json (GetProject (Metadata (config driver)) +:+ ".svc.id.goog") = Ok token ∧
     tree_of s' !! (mount_root ++ [key; "token"]) = Some (File token a)) ∧
  mounted (nodeHost s') (globalMountPath key) ∧
  ((targetMounted = true → mounted (nodeHost s) target) → mounted (nodeHost s') target).
Proof.
  intros uid key. unfold publishIAMVolume. fold uid. do 3 (case_decide; [done|]). fold key.
  intros (_ & s1 & Hr & ->)%locked_on_inv Hu Hne.
  pose proof (iam_key_plain volumeID (get vc (normalize keyPodNamespace)) (get vc (normalize keyServiceAccount))) as Hk.
  fold key in Hk. cbn [nodeHost nodeOS].
  assert (∀ s t, makeGlobalDirs key s = t → nodeHost t.2 = nodeHost s) as Hdirs.
  { intros s0 t <-. assert (keeps (λ s s', nodeHost s' = nodeHost s) (makeGlobalDirs key)) as Hkp; [|apply Hkp].
    assert (PreOrder (λ s s' : nodeState S, nodeHost s' = nodeHost s)).
    { split; [by intros ?|]. intros ??? -> ->. done. }
    assert (∀ A (m : M os goerr A), keeps (λ s s', nodeHost s' = nodeHost s) (sys m)).
    { intros A m s2. unfold state_after, sys. by destruct (m (nodeOS s2)). }
    unfold makeGlobalDirs, makeDir. keeps_tac. }
  apply bind_inv in Hr as (d & s2 & Hd%attempt_inv%Hdirs & Hr). cbn in Hd. destruct d as [d|]; [|done].
  destruct (vc !! normalize keyServiceToken) as [json|] eqn:Ej; [|done].
  apply bind_inv in Hr as (token & s3 & [Htok ->]%or_status_inv & Hr).
  apply bind_inv in Hr as (u & s4 & Hut%attempt_inv & Hr). destruct u as [u|]; [|done].
  assert (nodeHost s4 = nodeHost s2) as Hh4.
  { revert Hut. unfold updateTokenFile. intros (? & t1 & (? & _ & ->)%sys_inv & Hx)%bind_inv.
    apply bind_inv in Hx as (r & t2 & (? & _ & ->)%attempt_inv%sys_inv & Hx).
    destruct r; [by injection Hx as _ <-|]. by apply bind_inv in Hx as (? & ? & _ & ?). }
  assert (∃ a, tree_of s4 !! (mount_root ++ [key; "token"]) = Some (File token a)) as [a Ha].
  { exact (updateTokenFile_ok _ _ _ _ _ Hk Hut). }
  apply bind_inv in Hr as (g & s5 & Hg%isMounted_inv & Hr). destruct Hg as (Hg1 & Hg2 & Hg3).
  apply bind_inv in Hr as ([] & s6 & Hmg & Hr).
  assert (tree_of s6 = tree_of s5 ∧ mounted (nodeHost s6) (globalMountPath key) ∧
    ∀ p, mounted (nodeHost s5) p → mounted (nodeHost s6) p) as (Ht6 & Hm6 & Hk6).
  { destruct g; cbn [negb] in Hmg; [injection Hmg as <-; split_and!; auto|by apply mountGlobalIAM_ok in Hmg]. }
  apply bind_inv in Hr as (r7 & s7 & Hadd%attempt_inv & Hr). destruct r7 as [[]|]; [|done].
  apply addPodReference_ok in Hadd as (Hh7 & Href & Hother7); [|done..].
  assert (tree_of s7 !! (mount_root ++ [key; "token"]) = Some (File token a)) as Ha7.
  { rewrite Hother7 by (intros E; apply app_inv_head in E; done). by rewrite Ht6, Hg1. }
  assert (mounted (nodeHost s7) (globalMountPath key)) as Hm7 by by rewrite Hh7.
  destruct targetMounted.
  - injection Hr as <-. split_and!; [done|by exists json, token, a|done|]. intros Htm. rewrite Hh7. apply Hk6, Hg2; [done|].
    rewrite Hh4, Hd. by apply Htm.
  - apply bind_inv in Hr as (r8 & s8 & (h & Hmt & ->)%attempt_inv%host_inv & Hr).
    destruct r8 as [[]|]; [|by apply bind_inv in Hr as (? & ? & _ & (? & ? & _ & ?)%bind_inv)].
    injection Hr as <-. cbn. split_and!; [done|by exists json, token, a| |intros _; by eapply mount_mounts].
    eapply mount_keeps in Hm7. unfold state_after in Hm7. by rewrite Hmt in Hm7.
Qed.

Lemma NodePublishVolume_iam_ok req s s' vc :
  NodePublishVolume driver req s = (Ok (), s') →
  normalizeVolumeContext (PubContext req) = Ok vc →
  to_lower (get vc (normalize keyIAMAccessControlEnabled)) = "true" →
  plain (get vc (normalize keyPodUID)) →
  let key := iam_key (PubVolumeId req) (get vc (normalize keyPodNamespace)) (get vc (normalize keyServiceAccount)) in
  PubTargetPath req ≠ globalMountPath key →
  is_Some (tree_of s' !! (mount_root ++ [key; "refs"; get vc (normalize keyPodUID)])) ∧
  (∃ json token a, vc !! normalize keyServiceToken = Some json ∧
     parseToken json (GetProject (Metadata (config driver)) +:+ ".svc.id.goog") = Ok token ∧
     tree_of s' !! (mount_root ++ [key; "token"]) = Some (File token a)) ∧
  mounted (nodeHost s') (globalMountPath key) ∧ mounted (nodeHost s') (PubTargetPath req).
Proof.
  unfold NodePublishVolume. do 3 (case_decide; [done|]). destruct (PubCapability req) as [cap|]; [|done].
  cbn zeta. intros Hr Hvc Hiam Hu Hne. apply bind_inv in Hr as ([] & s1 & [_ ->]%or_status_inv & Hr).
  set (key := iam_key _ _ _) in *.
  apply bind_inv in Hr as (vc' & s1 & [Hvc' ->]%or_status_inv & Hr).
  rewrite Hvc in Hvc'. injection Hvc' as <-.
  assert (equal_fold (get vc (normalize keyIAMAccessControlEnabled)) "true" = true) as Heq.
  { unfold equal_fold. by apply bool_decide_eq_true. }
  rewrite Heq in Hr. apply locked_on_inv in Hr as (_ & s1 & Hr & ->). cbn [nodeHost nodeOS].
  apply bind_inv in Hr as (d & s2 & _ & Hr). destruct d; [|done].
  apply bind_inv in Hr as (tm & s3 & Hm%isMounted_inv & Hr). destruct Hm as (_ & _ & Hm).
  apply bind_inv in Hr as ([] & s4 & Hpub & Hr).
  eapply publishIAMVolume_ok in Hpub as (Href & (json & token & at1 & Hj & Ht & Htok) & Hg & Htgt);
    [|done|done].
  specialize (Htgt ltac:(naive_solver)).
  apply bind_inv in Hr as (r & s5 & Hown%attempt_inv & Hr).
  pose proof (attrs_only_ownership (PubTargetPath req)
    (match GetMount cap with Some m => VolumeMountGroup m | None => "" end) (PubReadonly req) s4) as Hao.
  unfold state_after in Hao. rewrite Hown in Hao. destruct Hao as (Hh & Hkf & Hdom).
  destruct r; [|by apply bind_inv in Hr as (? & ? & _ & ?)]. injection Hr as <-. cbn [snd] in *.
  fold key in Href, Htok, Hg. rewrite Hh. split_and!; [by apply Hdom| |done..].
  destruct (Hkf _ _ _ I Htok) as [at2 Hat]. by exists json, token, at2.
Qed.

(** Claim C12.  Publishing an IAM volume: after a successful [NodePublishVolume] the pod has its reference
    under the key of the volume and the workload identity, the key's token file holds the token
    of the request, and both the key's global path and the target path are mounted. *)
Theorem publish_iam_volume req s s' vc :
  NodePublishVolume driver req s = (Ok (), s') →
  normalizeVolumeContext (PubContext req) = Ok vc →
  to_lower (get vc (normalize keyIAMAccessControlEnabled)) = "true" →
  plain (get vc (normalize keyPodUID)) →
  let key := iam_key (PubVolumeId req) (get vc (normalize keyPodNamespace)) (get vc (normalize keyServiceAccount)) in
  PubTargetPath req ≠ globalMountPath key →
  is_Some (tree_of s' !! (mount_root ++ [key; "refs"; get vc (normalize keyPodUID)])) ∧
  (∃ json token a, vc !! normalize keyServiceToken = Some json ∧
     parseToken json (GetProject (Metadata (config driver)) +:+ ".svc.id.goog") = Ok token ∧
     tree_of s' !! (mount_root ++ [key; "token"]) = Some (File token a)) ∧
  mounted (nodeHost s') (globalMountPath key) ∧ mounted (nodeHost s') (PubTargetPath req).
Proof. apply NodePublishVolume_iam_ok. Qed.
End publishing.

(** ** The theorems on the node in memory *)

(** Setting up routes leaves the mounts of the node alone. *)
Definition keeps_mounts : relation host_state := λ h h', ∀ p, p ∈ mount_points h → p ∈ mount_points h'.

#[export] Instance keeps_mounts_preorder : PreOrder keeps_mounts.
Proof. split; [by intros h p|]. intros h1 h2 h3 H1 H2 p Hp. by apply H2, H1. Qed.

Lemma on_net_keeps {A : Type} (m : M node_net goerr A) : keeps keeps_mounts (on_net m).
Proof. intros h p. apply host_net_keeps. Qed.

Lemma keeps_wrap {A : Type} msg (m : M host_state goerr A) : keeps keeps_mounts m → keeps keeps_mounts (wrap msg m).
Proof. intros Hm h. specialize (Hm h). unfold state_after, wrap in *. by destruct (m h). Qed.

Lemma keeps_internal {A : Type} msg (m : M host_state goerr A) :
  keeps keeps_mounts m → keeps keeps_mounts (internal msg m).
Proof. intros Hm h. specialize (Hm h). unfold state_after, internal in *. by destruct (m h). Qed.

Lemma host_multi_nic ip nics : keeps keeps_mounts (setUpMultiNIC ip nics : M host_state goerr ()).
Proof.
  assert (∀ n start id addr, keeps keeps_mounts (find_table (S := host_state) n start id addr)) as Hf.
  { induction n as [|n IH]; intros start id addr; cbn [find_table]; unfold isTableFree;
      repeat first [keeps_step|apply keeps_wrap|apply on_net_keeps|apply IH]. }
  induction nics as [|nic nics IH]; cbn [setUpMultiNIC];
    unfold FindNextFreeTableID, ConfigureRoute, configureRoutesForNIC, GetNICIPAddr;
    repeat first [keeps_step|apply keeps_wrap|apply keeps_internal|apply on_net_keeps|apply IH|apply Hf].
Qed.

(** The names under the root of the mounts. *)
Lemma keys_bare_check t :
  forallb (λ p, if decide (take 4 p = mount_root ∧ length p = 5%nat) then
                  match last p with Some k => bool_decide (bare k) | None => true end else true) (map_to_list t).*1 = true →
  keys_bare t.
Proof.
  rewrite forallb_forall. intros Hf k [n Hk].
  specialize (Hf (mount_root ++ [k])). rewrite last_snoc, decide_True in Hf by done.
  apply (bool_decide_eq_true_1 (bare k)), Hf, list_elem_of_In, list_elem_of_fmap. exists (mount_root ++ [k], n).
  split; [done|]. by apply elem_of_map_to_list.
Qed.

(** Two pods of one workload that use the same volume. *)
Definition pub1 := publish_request "p/z/vol" "10.0.0.2@tcp:/lfs" "ns" "pod1" "v" "tok".
Definition pub2 := publish_request "p/z/vol" "10.0.0.2@tcp:/lfs" "ns" "pod2" "v" "tok2".
Definition one_pod : nodeState host_state := state_after (publish pub1) fresh_node.
Definition two_pods : nodeState host_state := state_after (publish pub2) one_pod.
Definition without_pod1 : nodeState host_state :=
  state_after (NodeUnpublishVolume (target_of "pod1" "v")) two_pods.
Definition pub_context : gmap string string :=
  match normalizeVolumeContext (PubContext pub1) with Ok vc => vc | Err _ => ∅ end.
Definition pub_uid : string := get pub_context (normalize keyPodUID).
Definition pub_key : string :=
  iam_key (PubVolumeId pub1) (get pub_context (normalize keyPodNamespace)) (get pub_context (normalize keyServiceAccount)).

Lemma publish_iam_volume_witness :
  pub_uid = "pod1" ∧
  is_Some (tree_of one_pod !! (mount_root ++ [pub_key; "refs"; pub_uid])) ∧
  (∃ json token a, pub_context !! normalize keyServiceToken = Some json ∧
     parseToken json (GetProject (Metadata (config node_driver)) +:+ ".svc.id.goog") = Ok token ∧
     tree_of one_pod !! (mount_root ++ [pub_key; "token"]) = Some (File token a)) ∧
  mounted (nodeHost one_pod) (globalMountPath pub_key) ∧ mounted (nodeHost one_pod) (PubTargetPath pub1).
Proof.
  split; [vm_compute; reflexivity|].
  refine (publish_iam_volume node_driver _ pub1 fresh_node one_pod pub_context _ _ _ _ _).
  - intros ip nics h p. apply host_multi_nic.
  - pose proof (run_state (publish pub1) fresh_node (Ok ())) as Hr. apply Hr. vm_compute; reflexivity.
  - vm_compute; reflexivity.
  - vm_compute; reflexivity.
  - decided.
  - decided.
Defined.

(** A node with one directory. *)
Definition one_dir : nodeState host_state :=
  MkNodeState ∅ (MkOS {[ ["vol"] := Dir (MkAttr 493 0) ]} []) (MkHost [] [] (MkNodeNet [] []) []).

Lemma volume_ownership_witness :
  ∃ gid n, atoi "1000" = Some gid ∧ look (tree_of one_dir) (resolve "/vol") = Some n ∧
    tree_of (state_after (setVolumeOwnershipTopLevel "/vol" "1000" false) one_dir) =
      <[resolve "/vol" := set_attr (MkAttr (Z.lor (Z.land (perm (node_attr n)) chmod_bits) group_bits) gid) n]> (tree_of one_dir).
Proof.
  pose proof (volume_ownership "/vol" "1000" false one_dir
    (state_after (setVolumeOwnershipTopLevel "/vol" "1000" false) one_dir)) as Ho.
  rewrite decide_False in Ho by (intros [|]; discriminate). 
  pose proof (run_state (setVolumeOwnershipTopLevel "/vol" "1000" false) one_dir (Ok ())) as Hr.
  apply Ho, Hr. vm_compute; reflexivity.
Defined.

(** Renaming fails. *)
Definition rename_fails : nodeState host_state :=
  MkNodeState ∅ (MkOS (tree_of one_pod) [None; Some (MkFault EIO 0)]) (MkHost [] [] (MkNodeNet [] []) []).

Lemma token_file_atomic_witness :
  tree_of (state_after (updateTokenFile pub_key "new") rename_fails) !! (mount_root ++ [pub_key; "token"]) =
    tree_of rename_fails !! (mount_root ++ [pub_key; "token"]) ∧
  ∀ p, p ≠ mount_root ++ [pub_key; "token"] → p ≠ mount_root ++ [pub_key; "token.tmp"] →
    tree_of (state_after (updateTokenFile pub_key "new") rename_fails) !! p = tree_of rename_fails !! p.
Proof.
  pose proof (token_file_atomic pub_key "new" rename_fails (result_in (updateTokenFile pub_key "new") rename_fails)
    (state_after (updateTokenFile pub_key "new") rename_fails)) as Ht.
  assert (is_ok (result_in (updateTokenFile pub_key "new") rename_fails) = false) as Hf by (vm_compute; reflexivity).
  rewrite Hf in Ht. apply Ht; [decided|]. exact (run_pair (updateTokenFile pub_key "new") rename_fails).
Defined.

Lemma unpublish_spares_other_pods_witness :
  (mounted (nodeHost two_pods) (globalMountPath pub_key) → mounted (nodeHost without_pod1) (globalMountPath pub_key)) ∧
  (∃ a', tree_of without_pod1 !! (mount_root ++ [pub_key; "refs"; "pod2"]) = Some (File "p/z/vol" a')) ∧
  (∀ token b, tree_of two_pods !! (mount_root ++ [pub_key; "token"]) = Some (File token b) →
     ∃ b', tree_of without_pod1 !! (mount_root ++ [pub_key; "token"]) = Some (File token b')).
Proof.
  refine (unpublish_spares_other_pods pub_key "pod2" _ (target_of "pod1" "v") "pod1" "p/z/vol" (MkAttr 420 0)
    two_pods (result_in (NodeUnpublishVolume (target_of "pod1" "v")) two_pods) without_pod1 _ _ _ _ _ _ _).
  - decided.
  - vm_compute; reflexivity.
  - decided.
  - decided.
  - apply keys_bare_check. vm_compute; reflexivity.
  - vm_compute; reflexivity.
  - vm_compute; reflexivity.
  - exact (run_pair (NodeUnpublishVolume (target_of "pod1" "v")) two_pods).
Defined.

(** The target is busy and only a lazy unmount would help, which fails as well. *)
Definition stuck_node : nodeState host_state :=
  MkNodeState ∅ (nodeOS one_pod) (MkHost (mtab (nodeHost one_pod)) [target_of "pod1" "v"] (hnet (nodeHost one_pod)) []).

Lemma unmount_escalates_witness :
  nodeHost (state_after (unmountPath (target_of "pod1" "v")) one_pod) =
    (escalate (escalation (target_of "pod1" "v")) (nodeHost one_pod)).2 ∧
  (escalate (escalation (target_of "pod1" "v")) (nodeHost one_pod)).1 = true ∧
  nodeHost (state_after (unmountPath (target_of "pod1" "v")) stuck_node) =
    (escalate (escalation (target_of "pod1" "v")) (nodeHost stuck_node)).2.
Proof.
  assert (∀ s : nodeState host_state, target_of "pod1" "v" ∈ mount_points (nodeHost s) → broken (nodeHost s) = [] →
    nodeHost (state_after (unmountPath (target_of "pod1" "v")) s) = (escalate (escalation (target_of "pod1" "v")) (nodeHost s)).2) as Hu.
  { intros s Hm Hb.
    pose proof (unmount_escalates (target_of "pod1" "v") s (unmountPath (target_of "pod1" "v") s).1
     (unmountPath (target_of "pod1" "v") s).2 false None (nodeHost s)) as He.
     unfold state_after. cbn zeta iota beta in He.
     destruct (escalate _ _) as [d h']. apply He; [|by destruct (unmountPath _ _)].
     unfold IsLikelyNotMountPoint, host_mounter. rewrite Hb, decide_False by (intros [_ Hx]; by apply elem_of_nil in Hx).
     by rewrite bool_decide_false by naive_solver. }
  split_and!; [apply Hu; [decided|vm_compute; reflexivity]|vm_compute; reflexivity|apply Hu; [decided|vm_compute; reflexivity]].
Defined.

Definition stage_cap : VolumeCapability :=
  {| GetAccessMode := Some MULTI_NODE_MULTI_WRITER;
     GetAccessType := Some (MountAccess (Some {| MountFlags := ["flock"; "flock"]; VolumeMountGroup := "" |})) |}.
Definition stage_req : NodeStageVolumeRequest :=
  {| StageVolumeId := "p/z/vol"; StageTargetPath := "/staging/v"; StageCapability := Some stage_cap;
     StageContext := {[ "mountPoint" := "10.0.0.2@tcp:/lfs" ]} |}.
Definition stage_vc : gmap string string :=
  match normalizeVolumeContext (StageContext stage_req) with Ok vc => vc | Err _ => ∅ end.
Definition staged : nodeState host_state := state_after (NodeStageVolume node_driver stage_req) fresh_node.

Lemma stage_mounts_volume_witness :
  mount_source stage_vc = Ok ("10.0.0.2", "lfs") ∧
  mounted (nodeHost staged) "/staging/v" ∧
  (nodeHost staged = nodeHost fresh_node ∨
   ∃ h1 mountedFS h2,
     List h1 = (Ok mountedFS, h1) ∧ Forall (λ m, extractFSName (Device m) ≠ "lfs") mountedFS ∧
     MountSensitiveWithoutSystemd (lustre_source "10.0.0.2" "lfs") "/staging/v" "lustre"
       (add_flags [] (mount_flags stage_cap)) h2 = (Ok (), nodeHost staged)).
Proof.
  split; [vm_compute; reflexivity|].
  refine (stage_mounts_volume node_driver stage_req fresh_node staged stage_vc "10.0.0.2" "lfs" stage_cap _ _ _ _ _).
  - pose proof (run_state (NodeStageVolume node_driver stage_req) fresh_node (Ok ())) as Hr. apply Hr.
    vm_compute; reflexivity.
  - vm_compute; reflexivity.
  - vm_compute; reflexivity.
  - vm_compute; discriminate.
  - reflexivity.
Defined.
