(* ===== verification/Umount.v ===== *)
(** * The umount command and its time limits: [execUmount] in pkg/csi_driver/unmount.go

    Node.v unmounts by [umount], the command with a time limit.  Here is what the driver runs for it, over
    processes that may hang for ever, and how long a call that unmounts can take. *)
From S2P Require Import Prelude GoStr Regex GoErr Util Params Csi Driver Network NetworkSpec Sha256 Json FS Node NodeHost NodeSpec.

Local Open Scope string_scope.
Local Open Scope list_scope.
Local Open Scope Z_scope.

(** ** Processes and their time

    Package os/exec for a command whose outputs go to one buffer, and the clock, in nanoseconds.  [Wait_until] is
    the select over the goroutine that waits for the process and the context: the output and the error
    of the process if it ends before the deadline.  A killed process need not end: one in an uninterruptible sleep does not. *)
Class Processes (S : Type) : Type := {
  process : Type;
  clock : S → Z;
  Start : list string → M S goerr process;
  Wait_until : process → Z → S → option (string * option goerr) * S;
  Kill : process → S → S;
}.

(** [context.DeadlineExceeded] *)
Definition context_DeadlineExceeded : goerr := ErrText "context deadline exceeded".

Section execUmount.
Context {S : Type} `{Processes S}.

(** [unmountExec] is the server's field of that name, which only tests set, and [fakeMounter] the [Unmount] of the
    FakeMounter that [extractFakeMounter] finds in the server's mounter, which is one in tests only.  The context
    is one made for this call, which ends [timeout] after it. *)
Definition execUmount (unmountExec : option (Z → list string → S → (string * option goerr) * S))
    (fakeMounter : option (string → M S goerr ())) (timeout : Z) (args : list string) :
    S → (string * option goerr) * S := λ s,
  match unmountExec with
  | Some exec => exec timeout args s
  | None =>
      match fakeMounter with
      | Some fm_Unmount =>
          let target := match last args with Some target => target | None => "" end in
          let '(err, s) := fm_Unmount target s in (("", error_of err), s)
      | None =>
          let deadline := clock s + timeout in
          let '(started, s) := Start args s in
          match started with
          | Err err => (("", Some err), s)
          | Ok cmd =>
              let '(ended, s) := Wait_until cmd deadline s in
              match ended with
              | Some (buf, err) => ((buf, err), s)
              | None => (("", Some context_DeadlineExceeded), Kill cmd s)
              end
          end
      end
  end.
End execUmount.

(** Starting a process takes no longer than [latency], and waiting ends with the process or at the deadline. *)
Class ProcessesLaws (S : Type) `{Processes S} : Type := {
  latency : Z;
  latency_nonneg : 0 ≤ latency;
  Start_time args s : clock s ≤ clock (state_after (Start args) s) ≤ clock s + latency;
  Wait_time p deadline s : clock s ≤ clock (Wait_until p deadline s).2 ≤ Z.max (clock s) deadline;
  Kill_time p s : clock (Kill p s) = clock s;
}.

(** A node of which the umount command is the driver's.  To look at a mount point takes some time, of
    which the driver sets no limit. *)
Class TimedMounter (S : Type) `{Mounter S, ProcessesLaws S} : Type := {
  umount_execs timeout args (s : S) : umount timeout args s = execUmount None None timeout args s;
  look : Z;
  look_time p (s : S) : clock s ≤ clock (IsLikelyNotMountPoint p s).2 ≤ clock s + look;
}.

(** ** How long a call takes *)
Section time.
Context {S : Type} `{TimedMounter S}.
Implicit Types s : nodeState S.

Definition now s : Z := clock (nodeHost s).

(** [m] ends, at most [d] later. *)
Definition takes {A : Type} (d : Z) (m : M (nodeState S) goerr A) : Prop :=
  ∀ s, now s ≤ now (state_after m s) ≤ now s + d.

Lemma takes_mono {A : Type} d d' (m : M (nodeState S) goerr A) : d ≤ d' → takes d m → takes d' m.
Proof. intros ? Hm s. specialize (Hm s). lia. Qed.

Lemma takes_ret {A : Type} (a : A) : takes 0 (mret a).
Proof. intros s. cbn. lia. Qed.

Lemma takes_fail {A : Type} e : takes 0 (fail e : M (nodeState S) goerr A).
Proof. intros s. cbn. lia. Qed.

Lemma takes_attempt {A : Type} d (m : M (nodeState S) goerr A) : takes d m → takes d (attempt m).
Proof. intros Hm s. specialize (Hm s). unfold state_after, attempt in *. by destruct (m s). Qed.

Lemma takes_bind {A B : Type} d d' (m : M (nodeState S) goerr A) (f : A → M (nodeState S) goerr B) :
  0 ≤ d' → takes d m → (∀ a, takes d' (f a)) → takes (d + d') (m ≫= f).
Proof.
  intros Hd Hm Hf s. specialize (Hm s). unfold state_after in *. rewrite bind_unfold.
  destruct (m s) as [[a|e] s1]; cbn [snd] in *; [|lia]. specialize (Hf a s1). unfold state_after in Hf. lia.
Qed.

Lemma takes_after {A B : Type} d (m : M (nodeState S) goerr A) (f : A → M (nodeState S) goerr B) :
  0 ≤ d → takes 0 m → (∀ a, takes d (f a)) → takes d (m ≫= f).
Proof. apply (takes_bind 0 d). Qed.

Lemma takes_before {A B : Type} d (m : M (nodeState S) goerr A) (f : A → M (nodeState S) goerr B) :
  takes d m → (∀ a, takes 0 (f a)) → takes d (m ≫= f).
Proof. intros Hm Hf. rewrite <-(Z.add_0_r d). by apply takes_bind. Qed.

(** The files have no clock: their calls take no time that is counted. *)
Lemma takes_sys {A : Type} (m : M os goerr A) : takes 0 (sys m).
Proof. intros s. unfold now, state_after, sys. destruct (m (nodeOS s)). cbn. lia. Qed.

Lemma takes_locked_on {A : Type} d key busy (m : M (nodeState S) goerr A) :
  0 ≤ d → takes d m → takes d (locked_on key busy m).
Proof.
  intros Hd Hm s. unfold state_after, locked_on, node_TryAcquire, VolumeLocks.TryAcquire. rewrite bind_unfold.
  case_decide; cbn; [unfold now; cbn; lia|]. unfold node_defer_Release. set (s1 := MkNodeState _ _ _).
  specialize (Hm s1). unfold now, state_after in *. destruct (m s1) as [r s2]. exact Hm.
Qed.

Lemma takes_host_pair {A : Type} d (m : S → A * S) :
  (∀ h, clock h ≤ clock (m h).2 ≤ clock h + d) → takes d (host_pair m).
Proof.
  intros Hm s. specialize (Hm (nodeHost s)). unfold now, state_after, host_pair. by destruct (m (nodeHost s)).
Qed.

Lemma look_nonneg (s : S) : 0 ≤ look.
Proof. pose proof (look_time "" s). lia. Qed.

(** *** The umount command *)
Lemma umount_time timeout args (h : S) :
  0 ≤ timeout → clock h ≤ clock (umount timeout args h).2 ≤ clock h + (timeout + latency).
Proof.
  intros Ht. rewrite umount_execs. unfold execUmount.
  pose proof (Start_time args h) as Hs. pose proof latency_nonneg as Hl. unfold state_after in Hs.
  destruct (Start args h) as [[cmd|e] h1]; cbn in *; [|lia].
  pose proof (Wait_time cmd (clock h + timeout) h1) as Hw.
  destruct (Wait_until cmd (clock h + timeout) h1) as [[[buf err]|] h2]; cbn in *; rewrite ?Kill_time; lia.
Qed.

Lemma takes_removeDir t : takes 0 (removeDir t).
Proof.
  apply (takes_bind 0 0); [done|apply takes_attempt, takes_sys|].
  intros [?|e]; [apply takes_ret|]. destruct (is_not_exist e); [apply takes_ret|apply takes_fail].
Qed.

(** The three phases together. *)
Definition unmount_limit : Z := DefaultUnmountTimeout + DefaultForceUnmountTimeout + DefaultLazyUnmountTimeout.

Definition unmount_time : Z := look + unmount_limit + 3 * latency.

Lemma takes_phase timeout args d t (m : string * option goerr → M (nodeState S) goerr ()) :
  0 ≤ timeout → 0 ≤ d → (∀ r, takes d (m r)) →
  takes (timeout + latency + d) (host_pair (umount timeout args) ≫= λ r, if unmounted r then removeDir t else m r).
Proof.
  intros Ht Hd Hm. apply takes_bind; [done|apply takes_host_pair; intros h; by apply umount_time|].
  intros r. destruct (unmounted r); [by apply (takes_mono 0), takes_removeDir|apply Hm].
Qed.

Lemma takes_unmountPath t : takes unmount_time (unmountPath t).
Proof.
  pose proof latency_nonneg as Hl.
  assert (0 ≤ DefaultUnmountTimeout ∧ 0 ≤ DefaultForceUnmountTimeout ∧ 0 ≤ DefaultLazyUnmountTimeout)
    as (T1 & T2 & T3) by done.
  apply (takes_mono (look + (DefaultUnmountTimeout + latency + (DefaultForceUnmountTimeout + latency +
    (DefaultLazyUnmountTimeout + latency + 0))))); [unfold unmount_time, unmount_limit; lia|].
  apply takes_bind; [lia|apply takes_host_pair; intros h; apply look_time|]. intros [notMnt err].
  destruct (match err with Some _ => _ | None => _ end).
  { apply (takes_mono 0); [lia|apply takes_removeDir]. }
  do 3 (apply takes_phase; [lia|lia|intros ?r]). apply takes_fail.
Qed.

Lemma unmount_time_nonneg s : 0 ≤ unmount_time.
Proof. pose proof (takes_unmountPath "" s). lia. Qed.

(** *** The handlers *)
Lemma takes_cleanUp key ref : takes unmount_time (cleanUpIAMReferenceForKey key ref).
Proof.
  intros s. pose proof (unmount_time_nonneg s) as Hu. revert s. unfold cleanUpIAMReferenceForKey.
  apply takes_locked_on; [done|].
  apply takes_after; [done|apply takes_attempt, takes_sys|]. intros removed.
  destruct (match removed with Ok _ => _ | Err _ => _ end).
  { apply (takes_mono 0); [done|]. apply takes_fail. }
  apply takes_after; [done|apply takes_attempt, takes_sys|]. intros [?|e].
  2:{ apply (takes_mono 0); [done|]. destruct (is_not_exist e); [apply takes_ret|].
      destruct e as [|? ? []| | | | |]; (apply takes_ret || apply takes_fail). }
  apply takes_before; [apply takes_attempt, takes_unmountPath|]. intros [?|e]; [|apply takes_fail].
  apply takes_after; [done|apply takes_attempt, takes_sys|]. intros [?|e]; [apply takes_ret|apply takes_fail].
Qed.

Lemma takes_clean_up_refs matches : takes (Z.of_nat (length matches) * unmount_time) (clean_up_refs matches).
Proof.
  intros s. pose proof (unmount_time_nonneg s) as Hu. revert s.
  induction matches as [|ref rest IH]; cbn [clean_up_refs length]; [apply takes_ret|].
  rewrite Nat2Z.inj_succ, Z.mul_succ_l, Z.add_comm.
  destruct (find_submatch iamKeyExtractRegex ref); [|apply (takes_mono (Z.of_nat (length rest) * unmount_time)); [lia|done]].
  apply takes_bind; [nia|apply takes_attempt, takes_cleanUp|]. intros r.
  apply takes_before; [done|]. intros errs. apply takes_ret.
Qed.

(** The references of the target's pod. *)
Definition refs_found (target : string) (s : nodeState S) : nat :=
  match getPodUIDFromTargetPath target with
  | Ok podUID =>
      match result_in (Glob (Join [GlobalMountRoot; "*"; "refs"; podUID])) (nodeOS s) with
      | Ok matches => length matches
      | Err _ => 0%nat
      end
  | Err _ => 0%nat
  end.

Lemma takes_cleanUpIAMReference target s :
  now s ≤ now (state_after (cleanUpIAMReference target) s) ≤ now s + Z.of_nat (refs_found target s) * unmount_time.
Proof.
  unfold cleanUpIAMReference, refs_found. destruct (getPodUIDFromTargetPath target) as [uid|]; [|cbn; lia].
  unfold state_after, result_in. rewrite bind_unfold. unfold attempt, sys.
  destruct (Glob _ (nodeOS s)) as [[matches|e] o]; cbn [fst snd]; [|unfold fail, now; cbn; lia].
  set (s1 := MkNodeState _ o _). assert (now s = now s1) as -> by done.
  pose proof (takes_clean_up_refs matches s1) as Hc. unfold state_after in Hc. rewrite bind_unfold.
  destruct (clean_up_refs matches s1) as [[errs|e] s2]; cbn [snd] in *; [|done]. case_decide; exact Hc.
Qed.

(** Claim C25.  The umount command cannot hold a call up.  Even if no process of it ever ends, NodeUnstageVolume returns within
    the time of one look at the mount point and, for the three phases, 30 seconds and the starts of three processes; and
    NodeUnpublishVolume within as much for the target and for each IAM reference that the pod has when
    the target is unmounted. *)
Theorem unmounting_bounded :
  unmount_time = look + 30 * time_Second + 3 * latency ∧
  (∀ volumeID target, takes unmount_time (NodeUnstageVolume volumeID target)) ∧
  (∀ target s, let unmounted_ := state_after (unmountPath target) (MkNodeState ({[target]} ∪ nodeLocks s) (nodeOS s) (nodeHost s)) in
     now s ≤ now (state_after (NodeUnpublishVolume target) s) ≤ now s + (1 + Z.of_nat (refs_found target unmounted_)) * unmount_time).
Proof.
  split; [done|]. split.
  - intros volumeID target s. pose proof (unmount_time_nonneg s) as Hu. revert s. unfold NodeUnstageVolume.
    case_decide; [apply (takes_mono 0); [done|apply takes_fail]|].
    case_decide; [apply (takes_mono 0); [done|apply takes_fail]|]. apply takes_locked_on, takes_unmountPath. done.
  - intros target s. pose proof (unmount_time_nonneg s) as Hu. cbn zeta. unfold NodeUnpublishVolume.
    case_decide; [unfold now, state_after; cbn; nia|].
    unfold state_after at 1 2, locked_on, node_TryAcquire, VolumeLocks.TryAcquire. rewrite !bind_unfold.
    case_decide; cbn [fst snd negb]; [unfold now; cbn; nia|]. unfold node_defer_Release.
    set (s0 := MkNodeState _ _ _). assert (now s = now s0) as -> by done.
    pose proof (takes_unmountPath target s0) as H1t. unfold state_after in *. rewrite bind_unfold.
    destruct (unmountPath target s0) as [[[]|e] s1]; cbn [snd] in *.
    2:{ change (now (MkNodeState _ _ (nodeHost s1))) with (now s1). nia. }
    pose proof (takes_cleanUpIAMReference target s1) as H2t. unfold state_after in H2t. rewrite bind_unfold. unfold attempt.
    destruct (cleanUpIAMReference target s1) as [[[]|e] s2]; cbn [snd] in *; unfold now, status, fail in *;
      rewrite Z.mul_add_distr_r; cbn [nodeHost snd mret M_ret] in *. all: lia.
Qed.
End time.

(** ** A node whose umounts hang

    The node in memory with a clock.  [duration] is the time an umount command takes, if it ends at all; looking at a
    mount point takes a millisecond, and so does a start. *)
Record timed_host : Type := MkTimed {
  untimed : host_state;
  time : Z;
  duration : list string → option Z;
}.

Definition millisecond : Z := 1000000.

Definition at_time (t : Z) (h : timed_host) : timed_host := MkTimed (untimed h) t (duration h).

Definition in_untimed {A : Type} (m : host_state → A * host_state) : timed_host → A * timed_host := λ h,
  let '(a, u) := m (untimed h) in (a, MkTimed u (time h) (duration h)).

(** A process is its arguments and the time it started. *)
#[export] Instance timed_processes : Processes timed_host := {|
  process := list string * Z;
  clock := time;
  Start args := λ h, (Ok (args, time h + millisecond), at_time (time h + millisecond) h);
  Wait_until p deadline := λ h,
    match duration h p.1 with
    | Some d =>
        if decide (p.2 + d <= deadline) then
          let '(r, h) := in_untimed (run_umount p.1) h in (Some r, at_time (Z.max (time h) (p.2 + d)) h)
        else (None, at_time (Z.max (time h) deadline) h)
    | None => (None, at_time (Z.max (time h) deadline) h)
    end;
  Kill _ := λ h, h;
|}.

#[export] Instance timed_mounter : Mounter timed_host := {|
  IsLikelyNotMountPoint p := λ h, in_untimed (IsLikelyNotMountPoint p) (at_time (time h + millisecond) h);
  List := in_untimed List;
  MountSensitiveWithoutSystemd source target fstype options :=
    in_untimed (MountSensitiveWithoutSystemd source target fstype options);
  Unmount t := in_untimed (Unmount t);
  umount := execUmount None None;
  Statfs p := in_untimed (Statfs p);
  IsCorruptedMnt := @IsCorruptedMnt host_state _;
|}.

#[export] Instance timed_laws : ProcessesLaws timed_host.
Proof.
  refine {| latency := millisecond |}; unfold clock, timed_processes; try done; unfold millisecond.
  - intros args h. cbn. lia.
  - intros p deadline h. cbn. unfold in_untimed. destruct (duration h p.1) as [d|]; cbn; [|lia].
    case_decide; [|cbn; lia]. destruct (run_umount _ _) as [r u]. cbn. lia.
Defined.

#[export] Instance timed_mounter_timed : TimedMounter timed_host.
Proof.
  refine {| look := millisecond |}; [done|]. intros p h.
  assert (clock (IsLikelyNotMountPoint p h).2 = time h + millisecond) as ->; [|change (clock h) with (time h); unfold millisecond; lia].
  cbn. unfold in_untimed. by case_decide.
Defined.

(** A mount that the server has left: umount and its forced form hang, the lazy one takes a second. *)
Definition hanging (args : list string) : option Z :=
  match args with "-l" :: _ => Some time_Second | _ => None end.

Definition hung_node (duration : list string → option Z) : nodeState timed_host :=
  MkNodeState ∅ (MkOS (list_to_map [(["staging"], Dir (MkAttr 493 0)); (["staging"; "v"], Dir (MkAttr 493 0))]) [])
    (MkTimed (MkHost [MkMountPoint "10.0.0.2@tcp:/fs" "/staging/v"] [] (MkNodeNet [] []) []) 0 duration).

Definition unstage (s : nodeState timed_host) : bool * nodeState timed_host :=
  let '(r, s') := NodeUnstageVolume "p/z/v" "/staging/v" s in (is_ok r, s').

(** If only the lazy umount ends, the volume is unstaged after 26 seconds; if none does, unstaging fails after 30. *)
Example hung_runs :
  (let '(ok, s) := unstage (hung_node hanging) in (ok, mount_points (untimed (nodeHost s)), now s)) =
    (true, [], 26 * time_Second + 2 * millisecond) ∧
  (let '(ok, s) := unstage (hung_node (λ _, None)) in (ok, mount_points (untimed (nodeHost s)), now s)) =
    (false, ["/staging/v"], 30 * time_Second + millisecond).
Proof. vm_compute. split; reflexivity. Qed.

Lemma unmounting_bounded_witness :
  unmount_time (S := timed_host) = 30 * time_Second + 4 * millisecond ∧
  now (unstage (hung_node (λ _, None))).2 <= 30 * time_Second + 4 * millisecond.
Proof.
  destruct (unmounting_bounded (S := timed_host)) as (Ht & Hu & _). split; [rewrite Ht; reflexivity|].
  specialize (Hu "p/z/v" "/staging/v" (hung_node (λ _, None))) as [_ Hu]. rewrite Ht in Hu.
  unfold unstage, state_after in *. destruct (NodeUnstageVolume _ _ _) as [r s]. exact Hu.
Defined.
