(* ===== verification/Upcall.v ===== *)
(** * The upcall service: pkg/upcall/server.go and cmd/lustre-host-proxy/main.go

    The kernel's Lustre client calls a program on the host, the proxy; the proxy hands the command over a
    socket to the driver's container, where the server checks it against a whitelist, runs it and
    answers with its result.  Both ends speak JSON (Json.v). *)
From S2P Require Import Prelude GoStr GoErr Json.

Local Open Scope string_scope.
Local Open Scope list_scope.
Local Open Scope Z_scope.

(** ** Messages *)
Record Request : Type := MkRequest {
  Args : list string;
  Env : list string;
}.

Record Response : Type := MkResponse {
  ExitCode : Z;
  Stdout : string;
  Stderr : string;
  Error : string;
}.

#[export] Instance Request_eq_dec : EqDecision Request.
Proof. solve_decision. Defined.
#[export] Instance Response_eq_dec : EqDecision Response.
Proof. solve_decision. Defined.

Definition request_json (req : Request) : json :=
  JObject [("args", JArray (JString <$> Args req)); ("env", JArray (JString <$> Env req))].

Definition response_json (resp : Response) : json :=
  JObject ([("exitCode", JNumber (itoa (ExitCode resp))); ("stdout", JString (Stdout resp));
            ("stderr", JString (Stderr resp))] ++
           (if decide (Error resp = "") then [] else [("error", JString (Error resp))])).

(** The fields of a request, as slices that can be decoded more than once. *)
Fixpoint store_request (members : list (string * json)) (args env : string_slice) : result goerr Request :=
  match members with
  | [] => Ok (MkRequest (slice_of args) (slice_of env))
  | (key, v) :: rest =>
      if decide (fold_name key = "args") then
        args ← store_slice "Request" "args" v args; store_request rest args env
      else if decide (fold_name key = "env") then
        env ← store_slice "Request" "env" v env; store_request rest args env
      else store_request rest args env
  end.

Definition decode_request (input : string) (read_error : option goerr) : result goerr Request :=
  v ← decode_stream input read_error;
  match v with
  | JNull => Ok (MkRequest [] [])
  | JObject ms => store_request ms ([], O) ([], O)
  | v => Err (type_error v "value" "upcall.Request")
  end.

Fixpoint store_response (members : list (string * json)) (resp : Response) : result goerr Response :=
  match members with
  | [] => Ok resp
  | (key, v) :: rest =>
      resp' ← (if decide (fold_name key = "exitcode") then
                 z ← store_int "Response" "exitCode" v (ExitCode resp);
                 Ok (MkResponse z (Stdout resp) (Stderr resp) (Error resp))
               else if decide (fold_name key = "stdout") then
                 s ← store_string "Response" "stdout" v (Stdout resp);
                 Ok (MkResponse (ExitCode resp) s (Stderr resp) (Error resp))
               else if decide (fold_name key = "stderr") then
                 s ← store_string "Response" "stderr" v (Stderr resp);
                 Ok (MkResponse (ExitCode resp) (Stdout resp) s (Error resp))
               else if decide (fold_name key = "error") then
                 s ← store_string "Response" "error" v (Error resp);
                 Ok (MkResponse (ExitCode resp) (Stdout resp) (Stderr resp) s)
               else Ok resp);
      store_response rest resp'
  end.

Definition decode_response (input : string) (read_error : option goerr) : result goerr Response :=
  v ← decode_stream input read_error;
  match v with
  | JNull => Ok (MkResponse 0 "" "" "")
  | JObject ms => store_response ms (MkResponse 0 "" "" "")
  | v => Err (type_error v "value" "main.Response")
  end.

(** ** The whitelist *)
Definition iamUpcallBinary := "l_gssiam_upcall".
Definition iamUpcallPath := "/usr/sbin/l_gssiam_upcall".
Definition lctlPath := "/usr/sbin/lctl".

Definition allowedLustrePrefixes : list string := ["osc."; "mdc."; "llite."; "ldlm."].

(** The characters of a string but for slashes at its end. *)
Fixpoint trim_slashes (s : string) : string :=
  match s with
  | "" => ""
  | String c s' =>
      match trim_slashes s' with
      | "" => if decide (c = "/"%char) then "" else String c ""
      | t => String c t
      end
  end.

(** [filepath.Base] *)
Definition Base (path : string) : string :=
  if decide (path = "") then "." else
  let path := trim_slashes path in
  if decide (path = "") then "/" else
  match last_index "/" path with
  | Some i => str_drop (Datatypes.S i) path
  | None => path
  end.

Definition isAllowedParam (key : string) : bool :=
  if contains (to_lower key) "upcall" then false else
  match last_index "." key with
  | None => false
  | Some idx =>
      let lastComponent := str_drop (Datatypes.S idx) key in
      if decide (slen lastComponent = 0) then false
      else if contains_any lastComponent "*?[]\" then false
      else existsb (λ prefix, has_prefix key prefix && bool_decide (slen prefix < slen key)) allowedLustrePrefixes
  end.

(** The key of a [key=value] argument. *)
Definition param_key (arg : string) : string :=
  match index "=" arg with Some idx => str_take idx arg | None => arg end.

(** The loop over the parameters. *)
Fixpoint validate_params (args : list string) : result goerr () :=
  match args with
  | [] => Ok ()
  | arg :: rest =>
      if has_prefix arg "-" then Err (ErrText ("unauthorized lctl option/flag: " +:+ arg)) else
      let key := param_key arg in
      if negb (isAllowedParam key) then Err (ErrText ("unauthorized lctl parameter key: " +:+ key))
      else validate_params rest
  end.

Definition validateCommand (binary : string) (args : list string) : result goerr () :=
  if decide (binary = lctlPath) then
    match args with
    | cmd :: ((_ :: _) as params) =>
        if decide (cmd ≠ "set_param")
        then Err (ErrText ("unauthorized lctl subcommand or arguments: " +:+ fmt_slice args))
        else validate_params params
    | _ => Err (ErrText ("unauthorized lctl subcommand or arguments: " +:+ fmt_slice args))
    end
  else if decide (binary = iamUpcallPath) then Ok ()
  else Err (ErrText ("unauthorized binary path execution request: " +:+ binary)).

Definition dangerous (key : string) : bool :=
  has_prefix key "LD_" || has_prefix key "PYTHON" || has_prefix key "PERL".

Definition sanitizeEnv (env : list string) : list string :=
  filter (λ v, dangerous (param_key v) = false) env.

(** ** The server *)

(** How a process ends: with an exit code ([*exec.ExitError]) or with another error. *)
Inductive run_error : Type :=
| ExitError (code : Z)
| OtherError (text : string).

Record run_result : Type := MkRunResult {
  RunStdout : string;
  RunStderr : string;
  RunErr : option run_error;
}.

(** Running a program with arguments and an environment, within the time limit. *)
Class Runner (S : Type) : Type := {
  run_command : string → list string → list string → S → run_result * S;
}.

Section server.
Context {S : Type} `{Runner S}.
(** [os.Environ()] in the container *)
Context (Environ : list string).

(** The program that is run for the first argument. *)
Definition route (binaryPath : string) : string :=
  if decide (Base binaryPath = iamUpcallBinary) then iamUpcallPath else binaryPath.

Definition executeCommand (req : Request) : S → Response * S := λ s,
  match Args req with
  | [] => (MkResponse 1 "" "" "empty command arguments", s)
  | arg0 :: cmdArgs =>
      let binaryPath := route arg0 in
      match validateCommand binaryPath cmdArgs with
      | Err err => (MkResponse 1 "" "" ("security rejection: " +:+ error_text err), s)
      | Ok _ =>
          let cleanHostEnv := sanitizeEnv (Env req) in
          let '(r, s') := run_command binaryPath cmdArgs (cleanHostEnv ++ Environ) s in
          (match RunErr r with
           | Some (ExitError code) => MkResponse code (RunStdout r) (RunStderr r) ""
           | Some (OtherError text) => MkResponse 1 (RunStdout r) (RunStderr r) text
           | None => MkResponse 0 (RunStdout r) (RunStderr r) ""
           end, s')
      end
  end.

(** What the server reads of a connection at most. *)
Definition request_limit : nat := Z.to_nat (1024 * 1024).

(** The bytes written to the connection. *)
Definition sendResponse (resp : Response) : string := print_json (response_json resp) +:+ newline.

Definition handleConnection (input : string) (read_error : option goerr) : S → string * S := λ s,
  let limited := decide (request_limit ≤ String.length input)%nat in
  match decode_request (str_take request_limit input) (if limited then None else read_error) with
  | Err err => (sendResponse (MkResponse 1 "" "" ("invalid request format: " +:+ error_text err)), s)
  | Ok req => let '(resp, s') := executeCommand req s in (sendResponse resp, s')
  end.
End server.

(** ** The proxy *)

Definition defaultSocketPath := "/var/lib/kubelet/plugins/lustre.csi.storage.gke.io/ipc.sock".
Definition maxRetries : nat := 5.

(** The socket: connecting, writing a payload and closing the writing side, and what can be read until
    the end or an error. *)
Class IPC (S : Type) : Type := {
  Dial : string → M S goerr ();
  Send : string → M S goerr ();
  Receive : S → (string * option goerr) * S;
}.

Record outcome : Type := MkOutcome {
  exit_code : Z;
  out : string;
  err_out : string;
}.

Section proxy.
Context {S : Type} `{IPC S}.

(** The arguments to forward, [None] for a usage error. *)
Definition proxy_args (argv0 : string) (argv : list string) : option (list string) :=
  if decide (Base argv0 = iamUpcallBinary) then Some (argv0 :: argv)
  else match argv with [] => None | _ => Some argv end.

(** The loop of attempts: the error of the last one, if all fail, and what is printed. *)
Fixpoint dial_loop (left : nat) (i : Z) (socketPath : string) (s : S) : (option goerr * string) * S :=
  match left with
  | O => ((None, ""), s)
  | Datatypes.S left' =>
      match Dial socketPath s with
      | (Ok _, s1) => ((None, ""), s1)
      | (Err err, s1) =>
          let text := "Attempt " +:+ itoa (i + 1) +:+ ": failed to connect to CSI IPC socket " +:+ socketPath +:+
            ": " +:+ error_text err +:+ ". Retrying in 1s..." +:+ newline in
          match left' with
          | O => ((Some err, text), s1)
          | _ => let '((r, texts), s2) := dial_loop left' (i + 1) socketPath s1 in ((r, text +:+ texts), s2)
          end
      end
  end.

(** What a response prints on the standard error. *)
Definition response_errors (resp : Response) : string :=
  (if decide (Error resp = "") then "" else "Container execution error: " +:+ Error resp +:+ newline) +:+ Stderr resp.

Definition proxy_main (argv0 : string) (argv environ : list string) (socketEnv : string) : S → outcome * S := λ s,
  match proxy_args argv0 argv with
  | None => (MkOutcome 1 "" ("Usage: " +:+ argv0 +:+ " <command> [args...]" +:+ newline), s)
  | Some args =>
      let socketPath := if decide (socketEnv = "") then defaultSocketPath else socketEnv in
      let payload := print_json (request_json (MkRequest args environ)) in
      let '((err, log), s1) := dial_loop maxRetries 0 socketPath s in
      match err with
      | Some err =>
          (MkOutcome 1 "" (log +:+ ("Fatal: could not connect to CSI IPC socket " +:+ socketPath +:+ " after " +:+
             itoa (Z.of_nat maxRetries) +:+ " attempts: " +:+ error_text err +:+ newline)), s1)
      | None =>
          match Send payload s1 with
          | (Err err, s2) =>
              (MkOutcome 1 "" (log +:+ ("Error writing payload to socket: " +:+ error_text err +:+ newline)), s2)
          | (Ok _, s2) =>
              let '((answer, read_error), s3) := Receive s2 in
              match decode_response answer read_error with
              | Err err =>
                  (MkOutcome 1 "" (log +:+ ("Error decoding response from socket: " +:+ error_text err +:+ newline)), s3)
              | Ok resp =>
                  (MkOutcome (ExitCode resp) (Stdout resp)
                     (log +:+ response_errors resp), s3)
              end
          end
      end
  end.
End proxy.
