(* ===== verification/UpcallSpec.v ===== *)
(** * What the upcall service guarantees

    Theorems about Upcall.v: which commands run, in which environment, and that the proxy and the
    server together do what running the command in the container does. *)
From S2P Require Import Prelude GoStr Regex Numerals GoErr Json JsonSpec Upcall.

Local Open Scope string_scope.
Local Open Scope list_scope.
Local Open Scope Z_scope.

(** ** The whitelist *)

(** A parameter the host may set: of one of four subsystems, not naming an upcall, and with a last
    component that is no pattern. *)
Definition safe_key (key : string) : Prop :=
  (∃ prefix name, prefix ∈ allowedLustrePrefixes ∧ name ≠ "" ∧ key = prefix +:+ name) ∧
  contains (to_lower key) "upcall" = false ∧
  ∃ path last, key = path +:+ "." +:+ last ∧ has_char "." last = false ∧ last ≠ "" ∧ contains_any last "*?[]\" = false.

Definition safe_param (arg : string) : Prop := has_prefix arg "-" = false ∧ safe_key (param_key arg).

Definition whitelisted (binary : string) (args : list string) : Prop :=
  binary = iamUpcallPath ∨
  binary = lctlPath ∧ ∃ params, args = "set_param" :: params ∧ params ≠ [] ∧ Forall safe_param params.

Lemma longer_prefix key prefix :
  has_prefix key prefix && bool_decide (slen prefix < slen key) = true ↔ ∃ name, name ≠ "" ∧ key = prefix +:+ name.
Proof.
  rewrite andb_true_iff, has_prefix_spec, bool_decide_eq_true. split.
  - intros [[t ->] Hl]. exists t. split; [|done]. intros ->. rewrite app_nil_r_str in Hl. lia.
  - intros (t & Ht & ->). split; [by exists t|]. rewrite slen_app. destruct t; [done|]. unfold slen. cbn. lia.
Qed.

Lemma isAllowedParam_spec key : isAllowedParam key = true ↔ safe_key key.
Proof.
  unfold isAllowedParam, safe_key.
  assert (existsb (λ prefix, has_prefix key prefix && bool_decide (slen prefix < slen key)) allowedLustrePrefixes = true ↔
    ∃ prefix name, prefix ∈ allowedLustrePrefixes ∧ name ≠ "" ∧ key = prefix +:+ name) as Hp.
  { rewrite existsb_exists. setoid_rewrite <-list_elem_of_In. setoid_rewrite longer_prefix. naive_solver. }
  rewrite <-Hp. clear Hp. set (known := existsb _ _). destruct (contains _ _); [naive_solver|].
  assert (∀ last, slen last = 0 ↔ last = "") as Hlen by (intros []; unfold slen; cbn; split; done || lia).
  split.
  - destruct (last_index "." key) as [i|] eqn:E; [|done]. apply last_index_Some in E as [E Hd].
    set (last := str_drop _ _) in *. case_decide as Hl; [done|]. destruct (contains_any _ _) eqn:Ec; [done|].
    intros Hk. split_and!; [done..|]. exists (str_take i key), last.
    split_and!; [by rewrite app_char_str|done| |done]. by rewrite <-Hlen.
  - intros (Hk & _ & path & last & -> & Hd & Hl & Hc). rewrite app_char_str, last_index_app by done.
    assert (str_drop (S (String.length path)) (path +:+ String "." last) = last) as ->.
    { clear. induction path as [|a path IH]; [|exact IH]. rewrite app_nil_l_str. by destruct last. }
    rewrite decide_False by (by rewrite Hlen). by rewrite Hc.
Qed.

Lemma validate_params_ok args : validate_params args = Ok () ↔ Forall safe_param args.
Proof.
  induction args as [|arg args IH]; cbn [validate_params]; [done|].
  rewrite Forall_cons, <-IH. unfold safe_param at 1. rewrite <-isAllowedParam_spec.
  destruct (has_prefix arg "-"); [naive_solver|]. destruct (isAllowedParam _); naive_solver.
Qed.

Lemma validateCommand_ok binary args : validateCommand binary args = Ok () ↔ whitelisted binary args.
Proof.
  unfold validateCommand, whitelisted. case_decide as Hb; [|case_decide; naive_solver].
  assert (binary ≠ iamUpcallPath) as Hne by by subst.
  destruct args as [|cmd [|p params]]; [naive_solver..|].
  case_decide as Hc; [naive_solver|]. subst cmd. rewrite validate_params_ok. naive_solver.
Qed.

(** ** What runs *)
Section server.
Context {S : Type} `{Runner S}.
Context (Environ : list string).

(** The environment of a command: variables of the request, none of them dangerous, and then the container's. *)
Definition command_env (req : Request) (env : list string) : Prop :=
  ∃ kept, env = kept ++ Environ ∧ sublist kept (Env req) ∧ Forall (λ v, dangerous (param_key v) = false) kept.

Lemma executeCommand_runs req s resp s' :
  executeCommand Environ req s = (resp, s') →
  s' = s ∨ ∃ arg0 args env r, Upcall.Args req = arg0 :: args ∧ whitelisted (route arg0) args ∧ command_env req env ∧
    run_command (route arg0) args env s = (r, s').
Proof.
  unfold executeCommand. destruct (Upcall.Args req) as [|arg0 args] eqn:Ea; [intros [= _ <-]; by left|].
  destruct (validateCommand _ _) as [[]|e] eqn:Ev; [|intros [= _ <-]; by left].
  apply validateCommand_ok in Ev. destruct (run_command _ _ _ s) as [r s1] eqn:Er. intros [= _ <-]. right.
  exists arg0, args, (sanitizeEnv (Env req) ++ Environ), r. split_and!; [done..| |done].
  exists (sanitizeEnv (Env req)). split_and!; [done|apply sublist_filter|].
  apply Forall_forall. intros v. unfold sanitizeEnv. rewrite list_elem_of_filter. by intros [].
Qed.

Lemma handleConnection_runs input err s out s' :
  handleConnection Environ input err s = (out, s') →
  s' = s ∨ ∃ req arg0 args env r,
    Upcall.Args req = arg0 :: args ∧ whitelisted (route arg0) args ∧ command_env req env ∧
    run_command (route arg0) args env s = (r, s').
Proof.
  unfold handleConnection. destruct (decode_request _ _) as [req|e]; [|intros [= _ <-]; by left].
  destruct (executeCommand Environ req s) as [resp s1] eqn:E. intros [= _ <-].
  apply executeCommand_runs in E as [->|(arg0 & args & env & r & ?)]; [by left|]. right. by exists req, arg0, args, env, r.
Qed.

(** Claim C18.  Only whitelisted commands run: whatever bytes arrive on a connection, either nothing runs, or one
    command does, and it is the IAM upcall binary of the container or [lctl set_param] with parameters that
    all are safe, in the container's environment after those variables of the request that cannot hijack it. *)
Theorem upcall_runs_whitelisted input err s out s' :
  handleConnection Environ input err s = (out, s') →
  s' = s ∨ ∃ req arg0 args env r,
    Upcall.Args req = arg0 :: args ∧ whitelisted (route arg0) args ∧ command_env req env ∧
    run_command (route arg0) args env s = (r, s').
Proof. apply handleConnection_runs. Qed.
End server.

(** ** The environment *)

(** The value of a variable for the program: the last assignment counts. *)
Definition assigns (key : string) (v : string) : bool := bool_decide (param_key v = key).
Definition variable (key : string) (env : list string) : option string := last (filter (λ v, assigns key v = true) env).

Lemma variable_app key env1 env2 :
  variable key (env1 ++ env2) = match variable key env2 with Some v => Some v | None => variable key env1 end.
Proof. unfold variable. rewrite filter_app, last_app. done. Qed.

(** The container's environment takes precedence: a variable the container sets has the
    container's value, whatever the request says, and a dangerous variable it does not set is not set; every other
    variable has the value of the request. *)
Theorem upcall_environment key (Environ env : list string) :
  variable key (sanitizeEnv env ++ Environ) =
  match variable key Environ with
  | Some v => Some v
  | None => if dangerous key then None else variable key env
  end.
Proof.
  rewrite variable_app. destruct (variable key Environ); [done|]. unfold variable, sanitizeEnv.
  rewrite list_filter_filter. destruct (dangerous key) eqn:Ed.
  - assert (∀ (P : string → Prop) `{∀ v, Decision (P v)}, (∀ v, ¬ P v) → last (filter P env) = None) as Hnone.
    { intros P ? HP. induction env as [|v env IH]; [done|]. by rewrite filter_cons_False. }
    apply Hnone. intros v. unfold assigns. rewrite bool_decide_eq_true. intros [<- ?]. congruence.
  - f_equal. apply list_filter_iff. intros v. unfold assigns. rewrite bool_decide_eq_true. split; [naive_solver|].
    intros <-. done.
Qed.

(** ** Both ends *)

Lemma printable_string s : is_ascii s = true → printable (maxNestingDepth - 1) (JString s).
Proof. intros Hs. by apply print_str. Qed.

Lemma printable_strings l :
  Forall (λ s, is_ascii s = true) l → printable (maxNestingDepth - 1) (JArray (JString <$> l)).
Proof.
  intros Hl. apply print_array; [done|]. apply Forall_fmap. eapply Forall_impl; [exact Hl|].
  intros s Hs. by apply print_str.
Qed.

Lemma store_elements_strings struct name l array :
  store_elements struct name (JString <$> l) array = Ok (l ++ drop (length l) array).
Proof.
  revert array. induction l as [|s l IH]; intros array; [by rewrite drop_0|].
  cbn [fmap list_fmap store_elements store_string mbind result_bind length]. rewrite IH. by destruct array; cbn; rewrite ?drop_nil.
Qed.

Lemma store_slice_strings struct name l old :
  ∃ s, store_slice struct name (JArray (JString <$> l)) old = Ok s ∧ slice_of s = l.
Proof.
  destruct l as [|x l]; [by eexists|]. cbn [fmap list_fmap store_slice].
  change (JString x :: _) with (JString <$> (x :: l)). rewrite store_elements_strings.
  eexists. split; [done|]. unfold slice_of. cbn [fst snd]. by rewrite length_fmap, list.take_app_length.
Qed.

(** Reading a request inverts writing it, and so it is with responses. *)
Lemma decode_request_print req e :
  Forall (λ s, is_ascii s = true) (Args req) → Forall (λ s, is_ascii s = true) (Env req) →
  decode_request (print_json (request_json req)) e = Ok req.
Proof.
  intros Ha He. unfold decode_request. rewrite <-(app_nil_r_str (print_json _)).
  rewrite decode_stream_print; [| |done].
  2: { apply print_object; [done|].
       repeat (apply Forall_cons; split; [split; [reflexivity|by apply printable_strings]|]). apply Forall_nil_2. }
  cbn [mbind result_bind]. unfold request_json. cbn [store_request].
  destruct (store_slice_strings "Request" "args" (Args req) ([], O)) as (args & -> & Ea).
  destruct (store_slice_strings "Request" "env" (Env req) ([], O)) as (env & Ev & Ee).
  cbn [mbind result_bind]. cbn -[store_slice slice_of]. rewrite Ev. cbn [mbind result_bind]. rewrite Ea, Ee. by destruct req.
Qed.

Definition sendable (resp : Response) : Prop :=
  in_i64 (ExitCode resp) ∧ is_ascii (Stdout resp) = true ∧ is_ascii (Stderr resp) = true ∧ is_ascii (Error resp) = true.

Lemma store_response_fields resp :
  atoi (itoa (ExitCode resp)) = Some (ExitCode resp) →
  match response_json resp with JObject ms => store_response ms (MkResponse 0 "" "" "") | _ => Err (ErrText "") end = Ok resp.
Proof.
  intros Hz. unfold response_json. destruct resp as [code o r er]. cbn [ExitCode Stdout Stderr Error] in *.
  destruct (decide (er = "")) as [->|He]; cbn [app store_response];
    repeat first [rewrite decide_True by reflexivity|rewrite decide_False by discriminate
                 |progress cbn [store_string store_int mbind result_bind ExitCode Stdout Stderr Error]
                 |rewrite Hz]; reflexivity.
Qed.

Lemma decode_response_print resp e : sendable resp → decode_response (sendResponse resp) e = Ok resp.
Proof.
  intros (Hc & Ho & Hr & He). pose proof (itoa_numeral (ExitCode resp)) as Hn. pose proof (atoi_itoa _ Hc) as Hz. unfold decode_response, sendResponse.
  rewrite decode_stream_print; [| |done].
  - cbn [mbind result_bind]. apply store_response_fields, Hz.
  - unfold response_json. apply print_object; [done|].
    repeat (apply Forall_cons; split; [split; [reflexivity|]|]); [by apply print_number|by apply print_str..|].
    case_decide; [apply Forall_nil_2|]. apply Forall_singleton. split; [reflexivity|by apply print_str].
Qed.

(** The server at the other end of the socket, which accepts the connection: it reads what the proxy has sent, and its whole answer
    arrives.  Dialling that fails has its own lemmas below. *)
Definition server_ipc {S : Type} `{Runner S} (Environ : list string) : IPC (S * string) := {|
  Dial _ := mret ();
  Send payload := λ s, (Ok (), (s.1, payload));
  Receive := λ s, let '(answer, s') := handleConnection Environ s.2 None s.1 in ((answer, None), (s', s.2));
|}.

(** Claim C20.  The proxy and the server together are the command: for a request of ASCII strings within the
    server's limit, the proxy's exit code and outputs are those of executing the command in the container, which
    happens once. *)
Theorem proxy_runs_command {S} `{Runner S} Environ argv0 argv environ socketEnv args s resp s' :
  proxy_args argv0 argv = Some args →
  Forall (λ v, is_ascii v = true) args → Forall (λ v, is_ascii v = true) environ →
  (String.length (print_json (request_json (MkRequest args environ))) ≤ request_limit)%nat →
  executeCommand Environ (MkRequest args environ) s = (resp, s') → sendable resp →
  ∃ payload, proxy_main (H := server_ipc Environ) argv0 argv environ socketEnv (s, "") =
    (MkOutcome (ExitCode resp) (Stdout resp) (response_errors resp), (s', payload)).
Proof.
  intros Hargs Ha He Hl Hx Hs. unfold proxy_main. rewrite Hargs.
  exists (print_json (request_json (MkRequest args environ))).
  cbn -[request_json handleConnection print_json response_errors String.append decode_response].
  unfold handleConnection.
  set (payload := print_json _) in *.
  assert (str_take request_limit payload = payload) as ->.
  { clearbody payload. clear -Hl. generalize request_limit as n, Hl. clear. revert payload.
    intros s. induction s as [|c s IH]; intros [|n] Hn; cbn in *; [done..|lia|]. f_equal. apply IH. lia. }
  replace (if decide (request_limit ≤ String.length payload)%nat then None else None) with (@None goerr) by by case_decide.
  unfold payload. rewrite decode_request_print by done. fold payload.
  rewrite Hx. cbn -[decode_response response_errors String.append]. by rewrite decode_response_print.
Qed.

(** ** Connecting *)
Section dialing.
Context {S : Type} `{IPC S} (path : string).

(** [n] attempts in a row that fail, the last with [err]. *)
Inductive fails : nat → S → goerr → S → Prop :=
| fails_once s err s' : Dial path s = (Err err, s') → fails 1 s err s'
| fails_more n s err1 s1 err s' :
    Dial path s = (Err err1, s1) → fails n s1 err s' → fails (Datatypes.S n) s err s'.

Lemma dial_loop_fails n s err s' i :
  fails n s err s' → ∃ log, dial_loop n i path s = ((Some err, log), s').
Proof.
  intros Hf. revert i. induction Hf as [s err s' Hd|n s err1 s1 err s' Hd Hf IH]; intros i; cbn [dial_loop]; rewrite Hd.
  - eauto.
  - destruct (IH (i + 1)) as [log Hl]. destruct n; [inversion Hf|]. rewrite Hl. eauto.
Qed.

Lemma dial_loop_connects n k s err s1 s2 i :
  (k = O ∧ s1 = s ∨ fails k s err s1) → (k < n)%nat → Dial path s1 = (Ok (), s2) →
  ∃ log, dial_loop n i path s = ((None, log), s2).
Proof.
  intros [[-> ->]|Hf] Hk Hd.
  { destruct n; [lia|]. cbn [dial_loop]. rewrite Hd. eauto. }
  revert n i Hk. induction Hf as [s err s' Hd1|k s err1 s1 err s' Hd1 Hf IH]; intros n i Hk;
    (destruct n as [|n]; [lia|]); cbn [dial_loop]; rewrite Hd1.
  - destruct n as [|n]; [lia|]. cbn [dial_loop]. rewrite Hd. eauto.
  - destruct n as [|n]; [lia|]. destruct (IH Hd (Datatypes.S n) (i + 1) ltac:(lia)) as [log Hl]. rewrite Hl. eauto.
Qed.
End dialing.

(** The proxy gets through: if at most four attempts to connect fail and the next succeeds, the request
    is sent; it gives up with exit code 1 and no output exactly when the first five attempts fail. *)
Theorem proxy_connects {S} `{IPC S} argv0 argv environ socketEnv args s err s1 :
  let path := if decide (socketEnv = "") then defaultSocketPath else socketEnv in
  proxy_args argv0 argv = Some args →
  (∀ k s2 s3, (k < maxRetries)%nat → (k = O ∧ s1 = s ∨ fails path k s err s1) → Dial path s1 = (Ok (), s2) →
     Send (print_json (request_json (MkRequest args environ))) s2 = (Ok (), s3) →
     ∃ log, proxy_main argv0 argv environ socketEnv s =
       (match decode_response (Receive s3).1.1 (Receive s3).1.2 with
        | Ok r => MkOutcome (ExitCode r) (Stdout r) (log +:+ response_errors r)
        | Err e => MkOutcome 1 "" (log +:+ ("Error decoding response from socket: " +:+ error_text e +:+ newline))
        end, (Receive s3).2)) ∧
  (fails path maxRetries s err s1 → ∃ log, proxy_main argv0 argv environ socketEnv s = (MkOutcome 1 "" log, s1)).
Proof.
  intros path Hargs. unfold proxy_main. rewrite Hargs. fold path. split.
  - intros k s2 s3 Hk Hf Hd Hsend. destruct (dial_loop_connects path maxRetries k s err s1 s2 0 Hf Hk Hd) as [log ->].
    rewrite Hsend. destruct (Receive s3) as [[answer e] s4]. cbn [fst snd].
    exists log. by destruct (decode_response answer e).
  - intros Hf. destruct (dial_loop_fails path maxRetries s err s1 0 Hf) as [log ->]. eauto.
Qed.

(** ** An instance: programs that print their arguments, and the invocations so far *)
#[export] Instance echo_runner : Runner (list (string * list string * list string)) := {|
  run_command binary args env := λ s, (MkRunResult (join " " args) "" None, s ++ [(binary, args, env)]);
|}.

Definition ex_environ : list string := ["PATH=/usr/bin"].
Definition ex_request : Request :=
  MkRequest ["/usr/sbin/lctl"; "set_param"; "osc.lfs*.active=1"] ["LD_PRELOAD=x.so"; "PATH=/tmp"; "A=1"].
Definition ex_input : string := print_json (request_json ex_request).

Lemma upcall_runs_whitelisted_witness :
  let run := handleConnection ex_environ ex_input None [] in
  length run.2 = 1%nat ∧
  (run.2 = [] ∨ ∃ req arg0 args env r,
    Upcall.Args req = arg0 :: args ∧ whitelisted (route arg0) args ∧ command_env ex_environ req env ∧
    run_command (route arg0) args env [] = (r, run.2)).
Proof.
  split; [vm_compute; reflexivity|].
  refine (upcall_runs_whitelisted ex_environ ex_input None [] (handleConnection ex_environ ex_input None []).1 _ _).
  by destruct (handleConnection _ _ _ _).
Defined.

Definition ex_argv : list string := ["/usr/sbin/lctl"; "set_param"; "osc.lfs*.active=1"].
Definition ex_response : Response := MkResponse 0 "set_param osc.lfs*.active=1" "" "".

Lemma proxy_runs_command_witness :
  ∃ payload, proxy_main (H := server_ipc ex_environ) "/etc/udev/lustre-host-proxy" ex_argv (Env ex_request) "" ([], "") =
    (MkOutcome (ExitCode ex_response) (Stdout ex_response) (response_errors ex_response),
     ([("/usr/sbin/lctl", ["set_param"; "osc.lfs*.active=1"], ["PATH=/tmp"; "A=1"; "PATH=/usr/bin"])], payload)).
Proof.
  refine (proxy_runs_command ex_environ "/etc/udev/lustre-host-proxy" ex_argv (Env ex_request) "" ex_argv []
    ex_response _ _ _ _ _ _ _).
  - vm_compute; reflexivity.
  - repeat constructor.
  - repeat constructor.
  - assert (String.length (print_json (request_json (MkRequest ex_argv (Env ex_request)))) = 103%nat) as ->
      by (vm_compute; reflexivity).
    unfold request_limit. lia.
  - vm_compute; reflexivity.
  - unfold sendable. cbn. split_and!; [unfold in_i64; lia|reflexivity..].
Defined.

(** A socket that accepts the fifth attempt. *)
Definition shy_ipc : IPC nat := {|
  Dial _ := λ n, match n with O => (Ok (), O) | Datatypes.S n' => (Err (ErrText "refused"), n') end;
  Send _ := mret ();
  Receive := λ n, ((sendResponse ex_response, None), n);
|}.

Lemma proxy_connects_witness :
  ∃ log, proxy_main (H := shy_ipc) "proxy" ["x"] [] "s" 4%nat =
    (match decode_response (sendResponse ex_response) None with
     | Ok r => MkOutcome (ExitCode r) (Stdout r) (log +:+ response_errors r)
     | Err e => MkOutcome 1 "" (log +:+ ("Error decoding response from socket: " +:+ error_text e +:+ newline))
     end, O).
Proof.
  refine (proj1 (proxy_connects (H := shy_ipc) "proxy" ["x"] [] "s" ["x"] 4%nat (ErrText "refused") O _) 4%nat O O _ _ _ _).
  - vm_compute; reflexivity.
  - unfold maxRetries. lia.
  - right. do 3 (eapply fails_more; [reflexivity|]). by apply fails_once.
  - reflexivity.
  - reflexivity.
Defined.
