(* ===== verification/Kmod.v ===== *)
(** * The kernel module installer: pkg/kmod_installer/kmod_installer.go and cmd/kmod_installer/main.go

    An init container that loads the Lustre client modules into the node's kernel before the driver
    starts: it checks what is loaded, works out the LNet configuration from the node's interfaces and
    runs the installation commands of the node's operating system.  [klog.Fatalf], which ends the
    program, is an error of [main]. *)
From S2P Require Import Prelude GoStr Regex GoErr Driver Network FS.

Local Open Scope string_scope.
Local Open Scope list_scope.
Local Open Scope Z_scope.

(** ** Constants *)
Definition legacyLNetPort : Z := 6988.
Definition defaultLNetPort : Z := 988.
Definition lnetNumaRange : Z := 1000000.
Definition OSNodeLabel := "cloud.google.com/gke-os-distribution".
Definition PreviewClientLabel := "lustre.csi.storage.gke.io/preview-client-version".
Definition lnetAcceptPortFile := "/sys/module/lnet/parameters/accept_port".
Definition lnetNetworkParameterFile := "/sys/module/lnet/parameters/networks".
Definition lustreModuleDir := "/sys/module/lustre".

(** [^[0-9]+\.[0-9]+$] *)
Definition previewVersionRegex : regex :=
  RAnchored (RSeq (RPlus (RClass is_digit)) (RSeq (RLit ".") (RPlus (RClass is_digit)))).

Definition lnetPort (enableLegacyLustrePort : bool) : Z :=
  if enableLegacyLustrePort then legacyLNetPort else defaultLNetPort.

(** ** What is loaded *)

(** The function gives a value along with its error. *)
Definition isLustreKmodInstalled (enableLegacyLustrePort : bool) (acceptPortFile lustreModuleDir : string)
    : os → (bool * option goerr) * os := λ s,
  match ReadFile acceptPortFile s with
  | (Err err, s) =>
      if is_not_exist err then ((false, None), s)
      else ((false, Some (ErrWrap ("failed to read lnet accept port file " +:+ acceptPortFile +:+ ": " +:+ error_text err) err)), s)
  | (Ok file, s) =>
      match Stat lustreModuleDir s with
      | (Err err, s) =>
          if is_not_exist err then ((false, None), s)
          else ((false, Some (ErrWrap ("failed to check lustre module sysfs: " +:+ error_text err) err)), s)
      | (Ok _, s) =>
          let currPort := trim_space file in
          let expectedPortStr := itoa (lnetPort enableLegacyLustrePort) in
          if decide (currPort ≠ expectedPortStr) then
            ((true, Some (ErrText ("node already has lustre kernel modules installed with an outdated lnet.accept_port configuration (Got: "
               +:+ currPort +:+ ", Expected: " +:+ expectedPortStr +:+
               "). please upgrade your node pool to apply the correct settings"))), s)
          else ((true, None), s)
      end
  end.

Definition readLnetConfig (path defaultNic : string) : M os goerr string :=
  file ← ReadFile path;
  let currNetworkNics := trim_space file in
  if decide (currNetworkNics = "") then mret ("tcp0(" +:+ defaultNic +:+ ")") else mret currNetworkNics.

Definition parseLnetNetwork (networkStr : string) : list string :=
  let networkStr := trim_suffix (trim_prefix networkStr "tcp0(") ")" in
  if decide (networkStr = "") then [] else split "," networkStr.

(** The mismatch with [expectedNics] is only logged. *)
Definition getLnetNetwork (networkFile defaultNic : string) : M os goerr (list string) :=
  r ← attempt (readLnetConfig networkFile defaultNic);
  match r with
  | Ok networkStr => mret (parseLnetNetwork networkStr)
  | Err err =>
      if is_not_exist err then mret (parseLnetNetwork ("tcp0(" +:+ defaultNic +:+ ")"))
      else fail err
  end.

Definition BuildLnetNetworkString (nics : list string) (primaryNic : string) (disableMultiNIC : bool) : string :=
  if disableMultiNIC then "tcp0(" +:+ primaryNic +:+ ")"
  else
    let orderedNics := primaryNic :: filter (λ nic, nic ≠ primaryNic) nics in
    "tcp0(" +:+ join "," orderedNics +:+ ")".

(** ** Command lines *)
Definition isPreviewVersion (version : string) : bool :=
  if find_submatch previewVersionRegex (trim_space version) then true else false.

Definition buildCosDKMSArgs (previewClientVersion : string) (lnetPort : Z) (expectedNetwork : string)
    (customModuleArgs : list string) (disableMultiNIC : bool) : list string :=
  let lustreClientDriverPackage :=
    if decide (previewClientVersion ≠ "") then "lustre-client-drivers-pre" else "lustre-client-drivers" in
  let versionArgs :=
    if decide (previewClientVersion ≠ "") then
      if isPreviewVersion previewClientVersion then
        ["--latest"; "--min-version=" +:+ previewClientVersion +:+ ".0";
         "--max-version=" +:+ previewClientVersion +:+ ".9999"]
      else ["--package-version=" +:+ previewClientVersion]
    else ["--latest"] in
  ["install"; lustreClientDriverPackage] ++ versionArgs ++
  ["--gcs-bucket=cos-default"; "-w"; "0"; "--kernelmodulestree=/host_modules";
   "--lsb-release-path=/host_etc/lsb-release"; "--insert-on-install"; "--logtostderr";
   "--module-arg=lnet.accept_port=" +:+ itoa lnetPort] ++
  (if disableMultiNIC then [] else ["--module-arg=lnet.lnet_numa_range=" +:+ itoa lnetNumaRange]) ++
  ["--module-arg=lnet.networks=" +:+ dquote +:+ expectedNetwork +:+ dquote] ++
  ((λ arg, "--module-arg=" +:+ arg) <$> customModuleArgs).

Definition buildUbuntuAptDownloadArgs (kernelVersion previewClientVersion : string) : list string :=
  if decide (previewClientVersion = "") then
    ["download"; "lustre-client-modules-" +:+ kernelVersion +:+ "/lustre-client-ubuntu-noble"]
  else
    let pkgTarget := "lustre-client-modules-" +:+ kernelVersion +:+ "=" +:+ previewClientVersion +:+
      (if isPreviewVersion previewClientVersion then "*" else "") in
    ["download"; "-t"; "lustre-client-ubuntu-noble-preview"; pkgTarget].

(** The custom arguments of a module, without its name. *)
Definition module_args (module_ : string) (customModuleArgs : list string) : list string :=
  (λ arg, trim_prefix arg (module_ +:+ ".")) <$> filter (λ arg, has_prefix arg (module_ +:+ ".") = true) customModuleArgs.

Definition lnet_args (extractDir : string) (lnetPort : Z) (expectedNetwork : string) (customModuleArgs : list string)
    (disableMultiNIC : bool) : list string :=
  ["-d"; extractDir; "lnet"; "accept_port=" +:+ itoa lnetPort; "networks=" +:+ expectedNetwork] ++
  (if disableMultiNIC then [] else ["lnet_numa_range=" +:+ itoa lnetNumaRange]) ++
  module_args "lnet" customModuleArgs.

Definition clientModules : list string := ["ksocklnd"; "lustre"; "mgc"; "lmv"; "lov"; "mdc"; "osc"].

(** ** Running the commands *)

(** A command that has ended: what the call gave of its output, its error, and whether the time limit of
    the installation has passed. *)
Record exec_result : Type := MkExecResult {
  Output : string;
  ExecErr : option goerr;
  TimedOut : bool;
}.

(** Commands, with the directory they run in if it is not the program's, and temporary directories. *)
Class Host (S : Type) : Type := {
  run : option string → string → list string → S → exec_result * S;
  MkdirTemp : string → M S goerr string;
  ReadDir : string → M S goerr (list (string * bool));   (* names, and whether they are directories *)
  RemoveTemp : string → M S goerr ();
  Scopes : M S goerr (list string);
}.

Definition permission_message :=
  "lustre kernel module installation failed due to permission issue. Please follow https://docs.cloud.google.com/managed-lustre/docs/lustre-csi-driver-new-volume#node-upgrade-required to upgrade node pool to allow GKE managed Lustre CSI driver installation to complete, or disabling loadpin if you are installing the Lustre CSI driver from open source".

Section install.
Context {S : Type} `{Host S}.

Definition InstallLustreKmodOnCos (enableLegacyPort : bool) (customModuleArgs nics : list string)
    (disableMultiNIC : bool) (primaryNic previewClientVersion : string) : M S goerr () := λ s,
  let expectedNetwork := BuildLnetNetworkString nics primaryNic disableMultiNIC in
  let args := buildCosDKMSArgs previewClientVersion (lnetPort enableLegacyPort) expectedNetwork customModuleArgs
                disableMultiNIC in
  let '(r, s) := run None "/usr/bin/cos-dkms" args s in
  match ExecErr r with
  | None => (Ok (), s)
  | Some err =>
      let lowerOutput := to_lower (Output r) in
      if contains lowerOutput "operation not permitted" && contains lowerOutput "insmod" then
        (Err (ErrWrap ("command execution failed: " +:+ error_text err +:+ ". " +:+ permission_message) err), s)
      else if TimedOut r then
        (Err (ErrWrap ("command timed out after 15m0s: " +:+ error_text err +:+ newline +:+ "output:" +:+ newline +:+ Output r) err), s)
      else
        (Err (ErrWrap ("command execution failed: " +:+ error_text err +:+ newline +:+ "output:" +:+ newline +:+ Output r) err), s)
  end.

(** A command whose failure ends the installation. *)
Definition must_run (what : string) (dir : option string) (cmd : string) (args : list string) : M S goerr () := λ s,
  let '(r, s) := run dir cmd args s in
  match ExecErr r with
  | None => (Ok (), s)
  | Some err => (Err (ErrWrap (what +:+ ": " +:+ error_text err +:+ newline +:+ "output:" +:+ newline +:+ Output r) err), s)
  end.

(** [m], and then, whatever came of it, the deferred removal of a directory. *)
Definition defer_remove {A} (dir : string) (m : M S goerr A) : M S goerr A := λ s,
  let '(r, s1) := m s in (r, state_after (RemoveTemp dir) s1).

(** The first package among the files. *)
Fixpoint deb_file (files : list (string * bool)) : string :=
  match files with
  | [] => ""
  | (name, is_dir) :: rest => if negb is_dir && has_suffix name ".deb" then name else deb_file rest
  end.

(** The loop that loads the modules. *)
Fixpoint load_modules (extractDir : string) (customModuleArgs mods : list string) : M S goerr () :=
  match mods with
  | [] => mret ()
  | mod_ :: rest =>
      _ ← must_run ("modprobe " +:+ mod_ +:+ " failed") None "modprobe"
            (["-d"; extractDir; mod_] ++ module_args mod_ customModuleArgs);
      load_modules extractDir customModuleArgs rest
  end.

Definition uname : M S goerr string := λ s,
  let '(r, s) := run None "uname" ["-r"] s in
  match ExecErr r with
  | None => (Ok (Output r), s)
  | Some err => (Err (ErrWrap ("failed to determine kernel version via uname -r: " +:+ error_text err) err), s)
  end.

Definition InstallLustreKmodOnUbuntu (enableLegacyPort : bool) (customModuleArgs nics : list string)
    (disableMultiNIC : bool) (primaryNic previewClientVersion : string) : M S goerr () :=
  let expectedNetwork := BuildLnetNetworkString nics primaryNic disableMultiNIC in
  unameOut ← uname;
  let kernelVersion := trim_space unameOut in
  _ ← must_run "failed to update apt repositories" None "apt-get" ["update"];
  let downloadArgs := buildUbuntuAptDownloadArgs kernelVersion previewClientVersion in
  tmpDir ← wrap "failed to create temp directory" (MkdirTemp "lustre-kmod-*");
  defer_remove tmpDir (
    _ ← must_run "failed to download lustre client modules" (Some tmpDir) "apt-get" downloadArgs;
    files ← wrap "failed to read download directory" (ReadDir tmpDir);
    let debFile := deb_file files in
    if decide (debFile = "") then fail (ErrText ("no .deb file found in " +:+ tmpDir)) else
    extractDir ← wrap "failed to create temp extract directory" (MkdirTemp "extracted-kmod-*");
    defer_remove extractDir (
      _ ← must_run "dpkg -x failed" None "dpkg" ["-x"; tmpDir +:+ "/" +:+ debFile; extractDir];
      _ ← must_run "depmod failed" None "depmod" ["-b"; extractDir; kernelVersion];
      _ ← must_run "modprobe lnet failed" None "modprobe"
            (lnet_args extractDir (lnetPort enableLegacyPort) expectedNetwork customModuleArgs disableMultiNIC);
      load_modules extractDir customModuleArgs clientModules)).

(** ** The program *)
Context `{Netlinker S} `{NodeClient S}.

Definition GetNodeLabelValue (nodeID labelKey : string) : M S goerr string :=
  labels ← GetNodeWithRetry nodeID;
  mret (trim_space (default "" (labels !! labelKey))).

Record kmodState : Type := MkKmodState {
  kmodOS : os;
  kmodHost : S;
}.

Definition on_host {A} (m : M S goerr A) : M kmodState goerr A := λ s,
  let '(r, h) := m (kmodHost s) in (r, MkKmodState (kmodOS s) h).
Definition on_os {A} (m : os → A * os) : M kmodState goerr A := λ s,
  let '(r, o) := m (kmodOS s) in (Ok r, MkKmodState o (kmodHost s)).

(** [klog.Fatalf] *)
Definition fatal {A} (what : string) (m : M kmodState goerr A) : M kmodState goerr A := λ s,
  let '(r, s') := m s in (map_err (λ err, ErrText (what +:+ ": " +:+ error_text err)) r, s').
Definition fatalf {A} (msg : string) : M kmodState goerr A := fail (ErrText msg).

Definition cloud_platform_scope := "https://www.googleapis.com/auth/cloud-platform".

Definition install_for (hostOS : string) (enableLegacyLustrePort : bool) (customModuleArgs nics : list string)
    (effectiveDisableMultiNIC : bool) (primaryNic previewClientVersion : string) : M kmodState goerr () :=
  if decide (hostOS = "cos") then
    fatal "Failed to install lustre kernel modules on COS" (on_host
      (InstallLustreKmodOnCos enableLegacyLustrePort customModuleArgs nics effectiveDisableMultiNIC primaryNic previewClientVersion))
  else if decide (hostOS = "ubuntu") then
    scopes ← attempt (on_host Scopes);
    let missing := match scopes with Ok scopes => bool_decide (cloud_platform_scope ∉ scopes) | Err _ => false end in
    if (missing : bool) then
      fatalf "The https://www.googleapis.com/auth/cloud-platform scope is missing. This is required for installing Lustre packages from Artifact Registry"
    else
      fatal "Failed to install lustre kernel modules on Ubuntu" (on_host
        (InstallLustreKmodOnUbuntu enableLegacyLustrePort customModuleArgs nics effectiveDisableMultiNIC primaryNic previewClientVersion))
  else if decide (hostOS = "windows") then mret ()
  else fatalf ("Unsupported or unknown Host OS: " +:+ quote hostOS +:+ ". Cannot perform Lustre kernel module installation").

Definition main (metadataService : result goerr (result goerr (list NetworkInterface))) (nodeID : string)
    (enableLegacyLustrePort disableMultiNIC : bool) (customModuleArgs : list string) : M kmodState goerr () :=
  if decide (nodeID = "") then fatalf "nodeid flag cannot be empty" else
  meta ← fatal "Failed to set up metadata service" (lift metadataService);
  let mc := Some meta in
  nics ← fatal "Failed to get standard NIC names" (on_host (GetStandardNICs mc));
  if decide (length nics = 0%nat) then fatalf "No standard NICs (gve, idpf, or virtio_net) found" else
  primaryNic ← fatal "Failed to identify primary NIC" (on_host (GetPrimaryNIC mc));
  effectiveDisableMultiNIC ← fatal "Failed to check multi-NIC status" (on_host (CheckDisableMultiNIC nodeID nics disableMultiNIC));
  '(isInstalled, err) ← on_os (isLustreKmodInstalled enableLegacyLustrePort lnetAcceptPortFile lustreModuleDir);
  match err with
  | Some err => fatalf ("Lustre kernel module installation check failed: " +:+ error_text err)
  | None =>
      hostOS ← fatal "Failed to read OS Host Info" (on_host (GetNodeLabelValue nodeID OSNodeLabel));
      previewClientVersion ← fatal "Failed to read preview client version" (on_host (GetNodeLabelValue nodeID PreviewClientLabel));
      if (isInstalled : bool) then
        r ← on_os (getLnetNetwork lnetNetworkParameterFile primaryNic);
        match r with
        | Ok _ => mret ()
        | Err err => fatalf ("Failed to get LNET network parameters: " +:+ error_text err)
        end
      else
        install_for hostOS enableLegacyLustrePort customModuleArgs nics effectiveDisableMultiNIC primaryNic previewClientVersion
  end.
End install.
