(* ===== verification/KmodSpec.v ===== *)
(** * What the kernel module installer does

    The LNet configuration it writes reads back; the commands of an installation, their order and their
    arguments; the temporary directories it leaves none of; and what [main] does to a node, by what it
    finds there.  The commands are those a log of the host sees: every theorem holds of every host, and
    so of every failure. *)
From S2P Require Import Prelude GoStr Regex GoErr Driver Network FS Kmod.

Local Open Scope string_scope.
Local Open Scope list_scope.
Local Open Scope Z_scope.

(** ** A host with a log *)
Inductive event : Type :=
| ERun (dir : option string) (cmd : string) (args : list string)
| EMkdir (dir : string)
| ERemove (dir : string).

Definition made : list event → list string := omap (λ e, match e with EMkdir d => Some d | _ => None end).
Definition removed : list event → list string := omap (λ e, match e with ERemove d => Some d | _ => None end).

Section logged.
Context {S : Type}.

(** A call that the log does not see. *)
Definition unlogged {A} (m : M S goerr A) : M (S * list event) goerr A := λ s,
  let '(r, h) := m s.1 in (r, (h, s.2)).

#[export] Instance logged_host `{Host S} : Host (S * list event) := {
  run dir cmd args s := let '(r, h) := run dir cmd args s.1 in (r, (h, s.2 ++ [ERun dir cmd args]));
  MkdirTemp pattern s :=
    let '(r, h) := MkdirTemp pattern s.1 in
    (r, (h, s.2 ++ match r with Ok d => [EMkdir d] | Err _ => [] end));
  ReadDir dir := unlogged (ReadDir dir);
  RemoveTemp dir s := let '(r, h) := RemoveTemp dir s.1 in (r, (h, s.2 ++ [ERemove dir]));
  Scopes := unlogged Scopes;
}.

#[export] Instance logged_netlinker `{Netlinker S} : Netlinker (S * list event) := {
  LinkByName name := unlogged (LinkByName name);
  AddrList link := unlogged (AddrList link);
  RouteList link := unlogged (RouteList link);
  RouteReplace route := unlogged (RouteReplace route);
  RuleAdd rule := unlogged (RuleAdd rule);
  RuleList := unlogged RuleList;
  RouteListFiltered table := unlogged (RouteListFiltered table);
  nl_GetStandardNICs := unlogged nl_GetStandardNICs;
}.

#[export] Instance logged_nodes `{NodeClient S} : NodeClient (S * list event) := {
  GetNodeWithRetry nodeID := unlogged (GetNodeWithRetry nodeID);
}.

(** ** What a computation adds to the log *)
Definition adds {A} (m : M (S * list event) goerr A) (P : list event → Prop) : Prop :=
  ∀ s, ∃ l, (state_after m s).2 = s.2 ++ l ∧ P l.

Definition balanced (l : list event) : Prop := removed l ≡ₚ made l.
Definition silent : relation (S * list event) := λ s s', s'.2 = s.2.
Definition balance : relation (S * list event) := λ s s', ∃ l, s'.2 = s.2 ++ l ∧ balanced l.

#[export] Instance silent_preorder : PreOrder silent.
Proof. split; unfold silent; [done|congruence]. Qed.

#[export] Instance balance_preorder : PreOrder balance.
Proof.
  split.
  - intros s. exists []. split; [by rewrite app_nil_r|by unfold balanced].
  - intros s1 s2 s3 (l & H1 & Hl) (l' & H2 & Hl'). exists (l ++ l'). rewrite H2, H1, app_assoc. split; [done|].
    unfold balanced, removed, made in *. rewrite !omap_app. by rewrite Hl, Hl'.
Qed.

Lemma unlogged_silent {A} (m : M S goerr A) : keeps silent (unlogged m).
Proof. intros s. unfold state_after, unlogged, silent. by destruct (m s.1). Qed.

Lemma silent_balance {A} (m : M (S * list event) goerr A) : keeps silent m → keeps balance m.
Proof. intros Hm s. specialize (Hm s). exists []. split; [by rewrite app_nil_r|by unfold balanced]. Qed.
End logged.

#[export] Hint Resolve unlogged_silent : keeps.
#[export] Hint Extern 4 (keeps silent _) => apply unlogged_silent : keeps.

(** ** The LNet configuration *)

(** The modules' parameter file holds what was configured, in the installer's own notation. *)
Definition configured (nics : list string) (primaryNic : string) (disableMultiNIC : bool) : list string :=
  if disableMultiNIC then [primaryNic] else primaryNic :: filter (λ nic, nic ≠ primaryNic) nics.

Lemma BuildLnetNetworkString_configured nics primaryNic disableMultiNIC :
  BuildLnetNetworkString nics primaryNic disableMultiNIC = "tcp0(" +:+ join "," (configured nics primaryNic disableMultiNIC) +:+ ")".
Proof. by destruct disableMultiNIC. Qed.

Lemma trim_prefix_app p s : trim_prefix (p +:+ s) p = s.
Proof. unfold trim_prefix. by rewrite has_prefix_app, drop_app_length. Qed.

Lemma has_suffix_app s p : has_suffix (s +:+ p) p = true.
Proof.
  induction s as [|a s IH].
  - rewrite app_nil_l_str. destruct p as [|a p]; cbn; [done|]. by rewrite bool_decide_true.
  - rewrite app_cons_str. cbn. rewrite IH. by destruct (bool_decide _).
Qed.

Lemma trim_suffix_app s p : trim_suffix (s +:+ p) p = s.
Proof.
  unfold trim_suffix. rewrite has_suffix_app, length_app_str.
  replace (String.length s + String.length p - String.length p)%nat with (String.length s) by lia.
  apply take_app_length.
Qed.

Lemma trim_right_app s c t :
  Ascii.is_space c = false → trim_right t = "" → trim_right (s +:+ String c t) = s +:+ String c "".
Proof.
  intros Hc Ht. induction s as [|a s IH].
  - rewrite !app_nil_l_str. cbn. by rewrite Hc, Ht.
  - rewrite !app_cons_str. cbn. rewrite IH. rewrite bool_decide_false by (by destruct s). by rewrite andb_false_r.
Qed.

Lemma trim_space_blank t : trim_space t = "" → trim_right t = "".
Proof.
  unfold trim_space. induction t as [|a t IH]; [done|]. cbn. destruct (Ascii.is_space a) eqn:E.
  - intros Ht. by rewrite IH.
  - cbn. by rewrite E.
Qed.

Lemma trim_space_network s t :
  trim_right t = "" → trim_space ("tcp0(" +:+ s +:+ ")" +:+ t) = "tcp0(" +:+ s +:+ ")".
Proof.
  intros Ht. unfold trim_space.
  change (trim_left ("tcp0(" +:+ s +:+ ")" +:+ t)) with ("tcp0(" +:+ s +:+ ")" +:+ t).
  rewrite app_char_str, app_assoc_str, trim_right_app by done. by rewrite <-app_assoc_str.
Qed.

Lemma parseLnetNetwork_networks l :
  l ≠ [] → l ≠ [""] → Forall (λ nic, has_char "," nic = false) l →
  parseLnetNetwork ("tcp0(" +:+ join "," l +:+ ")") = l.
Proof.
  intros Hne Hl Hc. unfold parseLnetNetwork. rewrite trim_prefix_app, trim_suffix_app.
  rewrite decide_False; [by apply split_join|].
  destruct l as [|x [|y l]]; [done| |].
  - cbn. intros ->. done.
  - rewrite join_cons. intros E. apply (f_equal (has_char ",")) in E. rewrite !has_char_app in E. cbn in E.
    by rewrite orb_true_r in E.
Qed.

Lemma ReadFile_ok p o c o' :
  ReadFile p o = (Ok c, o') → ∃ a, stat_tree (resolve p) (files o) = Ok (File c a) ∧ files o' = files o.
Proof.
  unfold ReadFile. intros (n & o1 & H1%syscall_ok & H2%syscall_ok)%bind_inv.
  injection H1 as Hs Ht. rewrite <-Ht in H2. destruct n as [|content a]; [done|]. injection H2 as -> Ht2.
  exists a. split; [done|congruence].
Qed.

Lemma ReadFile_served p o c a :
  stat_tree (resolve p) (files o) = Ok (File c a) → faults o = [] → ReadFile p o = (Ok c, o).
Proof.
  intros Hs Hf. unfold ReadFile, syscall. rewrite bind_unfold, Hf, Hs. cbn. destruct o; cbn in *; by subst.
Qed.

Lemma getLnetNetwork_configured file defaultNic nics primaryNic disableMultiNIC blanks a o :
  primaryNic ≠ "" → Forall (λ nic, has_char "," nic = false) (primaryNic :: nics) →
  trim_space blanks = "" → faults o = [] →
  stat_tree (resolve file) (files o) =
    Ok (File (BuildLnetNetworkString nics primaryNic disableMultiNIC +:+ blanks) a) →
  getLnetNetwork file defaultNic o =
    (Ok (if disableMultiNIC then [primaryNic] else primaryNic :: filter (λ nic, nic ≠ primaryNic) nics), o).
Proof.
  intros Hp Hc Hb Hf Hs. unfold getLnetNetwork, readLnetConfig, attempt. rewrite !bind_unfold.
  rewrite (ReadFile_served _ _ _ _ Hs Hf).
  rewrite BuildLnetNetworkString_configured, <-!app_assoc_str, trim_space_network by (by apply trim_space_blank).
  rewrite decide_False by discriminate.
  cbn -[String.append parseLnetNetwork]. rewrite parseLnetNetwork_networks; [done|by destruct disableMultiNIC| |].
  - destruct disableMultiNIC; cbn; [congruence|]. intros [= ? ?]. done.
  - inversion_clear Hc as [|? ? Hc1 Hc2]. destruct disableMultiNIC; cbn; [by repeat constructor|].
    constructor; [done|]. rewrite Forall_forall in *. intros nic [_ Hn]%list_elem_of_filter. by apply Hc2.
Qed.

(** The networks the installer configures, as the kernel shows them in its parameter file, read
    back as the primary interface followed by the others in their order. *)
Theorem lnet_network_read_back file defaultNic nics primaryNic disableMultiNIC blanks a o :
  primaryNic ≠ "" → Forall (λ nic, has_char "," nic = false) (primaryNic :: nics) →
  trim_space blanks = "" → faults o = [] →
  stat_tree (resolve file) (files o) =
    Ok (File (BuildLnetNetworkString nics primaryNic disableMultiNIC +:+ blanks) a) →
  getLnetNetwork file defaultNic o =
    (Ok (if disableMultiNIC then [primaryNic] else primaryNic :: filter (λ nic, nic ≠ primaryNic) nics), o).
Proof. apply getLnetNetwork_configured. Qed.

(** ** Installing on Ubuntu *)
Section ubuntu.
Context {S : Type} `{Host S}.
Implicit Types s : S * list event.

Lemma run_logged dir cmd args s r s' : run dir cmd args s = (r, s') → s'.2 = s.2 ++ [ERun dir cmd args].
Proof. cbn. destruct (run dir cmd args s.1) as [r' h]. by intros [= <- <-]. Qed.

Lemma must_run_logged what dir cmd args s r s' :
  must_run what dir cmd args s = (r, s') → s'.2 = s.2 ++ [ERun dir cmd args].
Proof.
  unfold must_run. destruct (run dir cmd args s) as [r' s1] eqn:E. apply run_logged in E.
  destruct (ExecErr r'); intros [= _ <-]; done.
Qed.

Lemma uname_logged s r s' : uname s = (r, s') → s'.2 = s.2 ++ [ERun None "uname" ["-r"]].
Proof.
  unfold uname. destruct (run None "uname" ["-r"] s) as [r' s1] eqn:E. apply run_logged in E.
  destruct (ExecErr r'); intros [= _ <-]; done.
Qed.

Lemma wrap_inv {A} what (m : M (S * list event) goerr A) s a s' : wrap what m s = (Ok a, s') → m s = (Ok a, s').
Proof. unfold wrap. destruct (m s) as [[b|] s1]; cbn; congruence. Qed.

Lemma mkdir_logged what pattern s d s' :
  wrap what (MkdirTemp pattern) s = (Ok d, s') → s'.2 = s.2 ++ [EMkdir d].
Proof. intros Hm%wrap_inv. cbn in Hm. destruct (MkdirTemp pattern s.1) as [r h]. by simplify_eq/=. Qed.

Lemma readdir_logged what dir s fs s' : wrap what (ReadDir dir) s = (Ok fs, s') → s'.2 = s.2.
Proof. intros Hm%wrap_inv. cbn in Hm. unfold unlogged in Hm. destruct (ReadDir dir s.1) as [r h]. by simplify_eq/=. Qed.

Lemma defer_remove_logged {A} dir (m : M (S * list event) goerr A) s r s' :
  defer_remove dir m s = (r, s') → ∃ s1, m s = (r, s1) ∧ s'.2 = s1.2 ++ [ERemove dir].
Proof.
  unfold defer_remove, state_after. destruct (m s) as [r' s1]. cbn.
  destruct (RemoveTemp dir s1.1) as [r'' h]. intros [= -> <-]. by exists s1.
Qed.

Definition modprobe_event (extractDir : string) (customModuleArgs : list string) (mod_ : string) : event :=
  ERun None "modprobe" (["-d"; extractDir; mod_] ++ module_args mod_ customModuleArgs).

Lemma load_modules_logged extractDir customModuleArgs mods s s' :
  load_modules extractDir customModuleArgs mods s = (Ok (), s') →
  s'.2 = s.2 ++ (modprobe_event extractDir customModuleArgs <$> mods).
Proof.
  revert s. induction mods as [|mod_ mods IH]; intros s.
  - intros [= <-]. by rewrite app_nil_r.
  - cbn [load_modules]. intros ([] & s1 & H1%must_run_logged & H2%IH)%bind_inv.
    rewrite H2, H1. by rewrite <-app_assoc.
Qed.

(** What a complete installation runs, for the kernel [k], the directories and the package it uses. *)
Definition ubuntu_log (enableLegacyPort : bool) (customModuleArgs nics : list string) (disableMultiNIC : bool)
    (primaryNic previewClientVersion k tmpDir debFile extractDir : string) : list event :=
  [ERun None "uname" ["-r"]; ERun None "apt-get" ["update"]; EMkdir tmpDir;
   ERun (Some tmpDir) "apt-get" (buildUbuntuAptDownloadArgs k previewClientVersion);
   EMkdir extractDir; ERun None "dpkg" ["-x"; tmpDir +:+ "/" +:+ debFile; extractDir];
   ERun None "depmod" ["-b"; extractDir; k];
   ERun None "modprobe" (lnet_args extractDir (lnetPort enableLegacyPort)
     (BuildLnetNetworkString nics primaryNic disableMultiNIC) customModuleArgs disableMultiNIC)] ++
  (modprobe_event extractDir customModuleArgs <$> clientModules) ++ [ERemove extractDir; ERemove tmpDir].

Lemma deb_file_found files : deb_file files ≠ "" → (deb_file files, false) ∈ files ∧ has_suffix (deb_file files) ".deb" = true.
Proof.
  induction files as [|[name is_dir] files IH]; [done|]. cbn. destruct (negb is_dir && _) eqn:E.
  - apply andb_true_iff in E as [Hd Hs]. destruct is_dir; [done|]. set_solver.
  - intros [? ?]%IH. set_solver.
Qed.

Lemma ubuntu_install_logged enableLegacyPort customModuleArgs nics disableMultiNIC primaryNic previewClientVersion s s' :
  InstallLustreKmodOnUbuntu enableLegacyPort customModuleArgs nics disableMultiNIC primaryNic previewClientVersion s = (Ok (), s') →
  ∃ k tmpDir debFile extractDir, has_suffix debFile ".deb" = true ∧
    s'.2 = s.2 ++ ubuntu_log enableLegacyPort customModuleArgs nics disableMultiNIC primaryNic previewClientVersion
                    k tmpDir debFile extractDir.
Proof.
  unfold InstallLustreKmodOnUbuntu.
  intros (u & s1 & H1%uname_logged & H2)%bind_inv.
  apply bind_inv in H2 as ([] & s2 & H2%must_run_logged & H3).
  apply bind_inv in H3 as (tmpDir & s3 & H3%mkdir_logged & H4).
  apply defer_remove_logged in H4 as (s4 & H4 & H5).
  apply bind_inv in H4 as ([] & s6 & H6%must_run_logged & H7).
  apply bind_inv in H7 as (fs & s7 & H7%readdir_logged & H8).
  destruct (decide (deb_file fs = "")) as [|Hd]; [done|]. apply deb_file_found in Hd as [_ Hd].
  apply bind_inv in H8 as (extractDir & s8 & H8%mkdir_logged & H9).
  apply defer_remove_logged in H9 as (s9 & H9 & H10).
  apply bind_inv in H9 as ([] & s10 & H11%must_run_logged & H12).
  apply bind_inv in H12 as ([] & s11 & H12%must_run_logged & H13).
  apply bind_inv in H13 as ([] & s12 & H13%must_run_logged & H14%load_modules_logged).
  exists (trim_space u), tmpDir, (deb_file fs), extractDir. split; [done|].
  rewrite H5, H10, H14, H13, H12, H11, H8, H7, H6, H3, H2, H1. unfold ubuntu_log. by rewrite <-!app_assoc.
Qed.

(** ** Temporary directories *)
Lemma balance_events s l : balanced l → ∀ s', s'.2 = s.2 ++ l → balance s s'.
Proof. intros Hl s' Hs. exists l. done. Qed.

Lemma must_run_balance what dir cmd args : keeps balance (must_run what dir cmd args).
Proof.
  intros s. unfold state_after. destruct (must_run what dir cmd args s) as [r s'] eqn:E.
  apply must_run_logged in E. eapply balance_events; [|exact E]. by unfold balanced.
Qed.

Lemma uname_balance : keeps balance uname.
Proof.
  intros s. unfold state_after. destruct (uname s) as [r s'] eqn:E.
  apply uname_logged in E. eapply balance_events; [|exact E]. by unfold balanced.
Qed.

Lemma balance_wrap {A} (P : relation (S * list event)) what (m : M (S * list event) goerr A) :
  keeps P m → keeps P (wrap what m).
Proof. intros Hm s. specialize (Hm s). unfold state_after, wrap in *. by destruct (m s). Qed.

(** A directory that is made, used and removed, however its use ends. *)
Lemma temp_balance {A} what pattern (f : string → M (S * list event) goerr A) :
  (∀ d, keeps balance (f d)) → keeps balance (d ← wrap what (MkdirTemp pattern); defer_remove d (f d)).
Proof.
  intros Hf s. unfold state_after. rewrite bind_unfold. unfold wrap. cbn.
  destruct (MkdirTemp pattern s.1) as [[d|e] h]; cbn; [|exists []; split; [done|by unfold balanced]].
  destruct (defer_remove d (f d) (h, s.2 ++ [EMkdir d])) as [r s'] eqn:E.
  apply defer_remove_logged in E as (s1 & E & Hs'). specialize (Hf d (h, s.2 ++ [EMkdir d])).
  unfold state_after in Hf. rewrite E in Hf. destruct Hf as (l & Hl & Hb). cbn in *.
  exists ([EMkdir d] ++ l ++ [ERemove d]). split; [by rewrite Hs', Hl, <-!app_assoc|].
  unfold balanced, made, removed in *. rewrite !omap_app. cbn. rewrite Hb, app_nil_r. by rewrite Permutation_app_comm.
Qed.

Lemma load_modules_balance extractDir customModuleArgs mods : keeps balance (load_modules extractDir customModuleArgs mods).
Proof.
  induction mods as [|mod_ mods IH]; cbn [load_modules]; [apply keeps_ret; apply _|].
  apply keeps_bind; [apply _|apply must_run_balance|]. by intros [].
Qed.

Lemma readdir_balance what dir : keeps balance (wrap what (ReadDir dir)).
Proof. apply balance_wrap, silent_balance, unlogged_silent. Qed.
End ubuntu.

#[export] Hint Resolve must_run_balance uname_balance load_modules_balance readdir_balance : keeps.

(** ** Arguments of the modules *)

(** The parameters a command loads modules with, as [module.parameter=value]. *)
Definition modprobe_params (e : event) : list string :=
  match e with
  | ERun None cmd (d :: _ :: m :: params) =>
      if decide (cmd = "modprobe" ∧ d = "-d") then (λ p, m +:+ "." +:+ p) <$> params else []
  | _ => []
  end.

Definition cos_params (args : list string) : list string :=
  (λ arg, trim_prefix arg "--module-arg=") <$> filter (λ arg, has_prefix arg "--module-arg=" = true) args.

Definition ubuntu_modules : list string := "lnet" :: clientModules.

(** An argument for one of these modules. *)
Definition arg_for (mods : list string) (arg : string) : bool := existsb (λ m, has_prefix arg (m +:+ ".")) mods.

Lemma module_args_restored m args :
  (λ p, m +:+ "." +:+ p) <$> module_args m args = filter (λ arg, has_prefix arg (m +:+ ".") = true) args.
Proof.
  unfold module_args. induction args as [|arg args IH]; [done|]. rewrite !filter_cons.
  destruct (decide (has_prefix arg (m +:+ ".") = true)) as [Hp|Hp]; [|done].
  rewrite !fmap_cons, IH. f_equal. apply has_prefix_spec in Hp as [t ->]. by rewrite trim_prefix_app, <-app_assoc_str.
Qed.

Lemma filter_or_disjoint {A} (P Q : A → bool) l :
  (∀ x, P x = true → Q x = false) →
  filter (λ x, P x || Q x = true) l ≡ₚ filter (λ x, P x = true) l ++ filter (λ x, Q x = true) l.
Proof.
  intros Hd. induction l as [|x l IH]; [done|]. rewrite !filter_cons. specialize (Hd x).
  destruct (P x), (Q x); cbn [orb] in *; repeat (case_decide; try done); rewrite IH; try done.
  - by specialize (Hd eq_refl).
  - apply Permutation_middle.
Qed.

Lemma prefix_dot_inj m m' arg :
  has_char "." m = false → has_char "." m' = false →
  has_prefix arg (m +:+ ".") = true → has_prefix arg (m' +:+ ".") = true → m = m'.
Proof.
  intros Hm Hm' [t ->]%has_prefix_spec [t' E]%has_prefix_spec. rewrite <-!app_assoc_str, !app_char_str in E.
  pose proof (index_app "." m t Hm) as H1. rewrite E in H1. rewrite index_app in H1 by done. injection H1 as Hl.
  apply (f_equal (str_take (String.length m))) in E. rewrite take_app_length, <-Hl, take_app_length in E. done.
Qed.

Lemma split_by_module mods args :
  NoDup mods → Forall (λ m, has_char "." m = false) mods →
  mods ≫= (λ m, filter (λ arg, has_prefix arg (m +:+ ".") = true) args) ≡ₚ filter (λ arg, arg_for mods arg = true) args.
Proof.
  intros Hn Hd. induction Hd as [|m mods Hm Hd IH]; cbn [mbind list_bind].
  - induction args as [|arg args IH]; [done|]. by rewrite filter_cons.
  - apply NoDup_cons in Hn as [Hnm Hn]. rewrite IH by done. symmetry. apply filter_or_disjoint.
    intros arg Hp. apply not_true_is_false. intros (m' & Hin & Hp')%existsb_exists.
    apply list_elem_of_In in Hin. rewrite Forall_forall in Hd.
    rewrite (prefix_dot_inj m m' arg) in Hnm; auto.
Qed.

Section arguments.
Context {S : Type} `{Host S}.

(** A complete installation on Ubuntu asks for the kernel's version, updates the package lists,
    downloads and unpacks the package in directories of its own, makes the module dependencies, loads lnet
    with the port and the networks and then the client modules in order, and removes both directories. *)
Theorem ubuntu_install_sequence enableLegacyPort customModuleArgs nics disableMultiNIC primaryNic previewClientVersion h s' :
  InstallLustreKmodOnUbuntu enableLegacyPort customModuleArgs nics disableMultiNIC primaryNic previewClientVersion (h, []) = (Ok (), s') →
  ∃ k tmpDir debFile extractDir, has_suffix debFile ".deb" = true ∧
    s'.2 = [ERun None "uname" ["-r"]; ERun None "apt-get" ["update"]; EMkdir tmpDir;
      ERun (Some tmpDir) "apt-get" (buildUbuntuAptDownloadArgs k previewClientVersion);
      EMkdir extractDir; ERun None "dpkg" ["-x"; tmpDir +:+ "/" +:+ debFile; extractDir];
      ERun None "depmod" ["-b"; extractDir; k];
      ERun None "modprobe" (lnet_args extractDir (lnetPort enableLegacyPort)
        (BuildLnetNetworkString nics primaryNic disableMultiNIC) customModuleArgs disableMultiNIC)] ++
      ((λ m, ERun None "modprobe" (["-d"; extractDir; m] ++ module_args m customModuleArgs)) <$>
         ["ksocklnd"; "lustre"; "mgc"; "lmv"; "lov"; "mdc"; "osc"]) ++ [ERemove extractDir; ERemove tmpDir].
Proof. intros (k & tmp & deb & ext & Hd & Hl)%ubuntu_install_logged. by exists k, tmp, deb, ext. Qed.

(** Whatever fails during an installation on Ubuntu, the temporary directories it made are removed
    again, each once. *)
Theorem ubuntu_install_cleans_up enableLegacyPort customModuleArgs nics disableMultiNIC primaryNic previewClientVersion h :
  let log := (state_after (InstallLustreKmodOnUbuntu enableLegacyPort customModuleArgs nics disableMultiNIC primaryNic
                previewClientVersion) (h, [])).2 in
  removed log ≡ₚ made log.
Proof.
  cbn zeta. set (m := InstallLustreKmodOnUbuntu _ _ _ _ _ _).
  assert (keeps balance m) as Hm.
  { unfold m, InstallLustreKmodOnUbuntu. apply keeps_bind; [apply _|eauto with keeps|intros u].
    apply keeps_bind; [apply _|eauto with keeps|intros _]. apply temp_balance. intros tmp.
    apply keeps_bind; [apply _|eauto with keeps|intros _]. apply keeps_bind; [apply _|eauto with keeps|intros fs].
    case_decide; [apply keeps_fail; apply _|]. apply temp_balance. intros ext.
    do 3 (apply keeps_bind; [apply _|eauto with keeps|intros _]). eauto with keeps. }
  destruct (Hm (h, [])) as (l & -> & Hb). exact Hb.
Qed.

(** The parameters of lnet that the installer sets itself. *)
Definition lnet_params (networks : string) (enableLegacyPort disableMultiNIC : bool) : list string :=
  ["lnet.accept_port=" +:+ itoa (lnetPort enableLegacyPort)] ++
  (if disableMultiNIC then [] else ["lnet.lnet_numa_range=1000000"]) ++ ["lnet.networks=" +:+ networks].

Lemma ubuntu_params enableLegacyPort customModuleArgs nics disableMultiNIC primaryNic previewClientVersion k tmpDir debFile extractDir :
  ubuntu_log enableLegacyPort customModuleArgs nics disableMultiNIC primaryNic previewClientVersion k tmpDir debFile extractDir
    ≫= modprobe_params ≡ₚ
  lnet_params (BuildLnetNetworkString nics primaryNic disableMultiNIC) enableLegacyPort disableMultiNIC ++
  filter (λ arg, arg_for ubuntu_modules arg = true) customModuleArgs.
Proof.
  assert (∀ mods, (modprobe_event extractDir customModuleArgs <$> mods) ≫= modprobe_params =
    mods ≫= (λ m, filter (λ arg, has_prefix arg (m +:+ ".") = true) customModuleArgs)) as Hmods.
  { induction mods as [|m mods IH]; [done|]. cbn -[module_args]. rewrite <-module_args_restored. f_equal. exact IH. }
  rewrite <-(split_by_module ubuntu_modules) by decided. cbn [ubuntu_modules mbind list_bind].
  unfold ubuntu_log. rewrite !bind_app, Hmods. cbn -[clientModules BuildLnetNetworkString itoa].
  rewrite fmap_app, app_nil_r, module_args_restored.
  rewrite (decide_False (P := "dpkg" = "modprobe" ∧ _)), (decide_False (P := "depmod" = "modprobe" ∧ _)), decide_True by naive_solver.
  rewrite ?app_nil_r. cbn [app]. rewrite <-?app_assoc.
  destruct disableMultiNIC; cbn -[clientModules BuildLnetNetworkString itoa filter]; [done|]. by apply perm_skip, perm_swap.
Qed.

Lemma cos_params_app l l' : cos_params (l ++ l') = cos_params l ++ cos_params l'.
Proof. unfold cos_params. by rewrite filter_app, fmap_app. Qed.

Lemma cos_params_none l : Forall (λ arg, has_prefix arg "--module-arg=" = false) l → cos_params l = [].
Proof. unfold cos_params. induction 1 as [|arg l Ha Hl IH]; [done|]. by rewrite filter_cons_False by (by rewrite Ha). Qed.

Lemma cos_params_args l : cos_params ((λ arg, "--module-arg=" +:+ arg) <$> l) = l.
Proof.
  unfold cos_params. induction l as [|arg l IH]; [done|]. rewrite fmap_cons, filter_cons_True by apply has_prefix_app.
  by rewrite fmap_cons, IH, trim_prefix_app.
Qed.

Lemma cos_params_spec previewClientVersion enableLegacyPort networks customModuleArgs disableMultiNIC :
  cos_params (buildCosDKMSArgs previewClientVersion (lnetPort enableLegacyPort) networks customModuleArgs disableMultiNIC) =
  lnet_params (dquote +:+ networks +:+ dquote) enableLegacyPort disableMultiNIC ++ customModuleArgs.
Proof.
  unfold buildCosDKMSArgs. rewrite !cos_params_app, cos_params_args, (cos_params_none [_; _]), (cos_params_none (if decide _ then _ else _)).
  - unfold lnet_params. rewrite !app_assoc. f_equal. by destruct disableMultiNIC.
  - repeat case_match; by repeat constructor.
  - case_decide; by repeat constructor.
Qed.

(** On Ubuntu the modules get the parameters of the installer and, of the user's, those for a
    module that is loaded, each exactly once; the others are dropped.  cos-dkms gets them all. *)
Theorem custom_args_delivered enableLegacyPort customModuleArgs nics disableMultiNIC primaryNic previewClientVersion h s' :
  let networks := BuildLnetNetworkString nics primaryNic disableMultiNIC in
  InstallLustreKmodOnUbuntu enableLegacyPort customModuleArgs nics disableMultiNIC primaryNic previewClientVersion (h, []) = (Ok (), s') →
  s'.2 ≫= modprobe_params ≡ₚ
    lnet_params networks enableLegacyPort disableMultiNIC ++ filter (λ arg, arg_for ubuntu_modules arg = true) customModuleArgs ∧
  cos_params (buildCosDKMSArgs previewClientVersion (lnetPort enableLegacyPort) networks customModuleArgs disableMultiNIC) =
    lnet_params (dquote +:+ networks +:+ dquote) enableLegacyPort disableMultiNIC ++ customModuleArgs.
Proof.
  intros networks (k & tmp & deb & ext & _ & Hl)%ubuntu_install_logged. split.
  - rewrite Hl. apply ubuntu_params.
  - apply cos_params_spec.
Qed.
End arguments.

(** ** What is loaded *)

(** The port of the loaded modules: there is one once lnet has its parameters and lustre its directory. *)
Definition loaded_port (acceptPortFile lustreModuleDir : string) (t : tree) : option string :=
  match stat_tree (resolve acceptPortFile) t, stat_tree (resolve lustreModuleDir) t with
  | Ok (File content _), Ok _ => Some (trim_space content)
  | _, _ => None
  end.

Lemma ReadFile_cases p o r o' :
  io_faults o → ReadFile p o = (r, o') →
  files o' = files o ∧ io_faults o' ∧
  match r with
  | Ok content => ∃ a, stat_tree (resolve p) (files o) = Ok (File content a)
  | Err e => is_not_exist e = true → stat_tree (resolve p) (files o) = Err ENOENT
  end.
Proof.
  intros Hio. unfold ReadFile. rewrite bind_unfold.
  destruct (syscall "open" _ _ _ o) as [r1 o1] eqn:E1.
  pose proof E1 as [Hf1 [(f & Hin & -> & Ht)|[-> Ht]]]%syscall_cases.
  - intros [= <- <-]. split_and!; [done|by eapply io_faults_tail|]. intros He.
    unfold io_faults in Hio. rewrite Forall_forall in Hio. specialize (Hio _ Hin). cbn in *.
    destruct (fault_errno f); try done. exfalso. apply Hio. set_solver.
  - cbn in *. destruct (stat_tree (resolve p) (files o)) as [n|e] eqn:Es; cbn.
    + intros [Hf2 [(f & Hin & -> & Ht2)|[-> Ht2]]]%syscall_cases.
      * split_and!; [unfold untouched in *; congruence|by eapply io_faults_tail, io_faults_tail|]. intros He.
        assert (io_faults o1) as Hio1 by (by eapply io_faults_tail).
        unfold io_faults in Hio1. rewrite Forall_forall in Hio1. specialize (Hio1 _ Hin). cbn in *.
        destruct (fault_errno f); try done. exfalso. apply Hio1. set_solver.
      * cbn in *. split_and!; [unfold untouched in *; congruence|by eapply io_faults_tail, io_faults_tail|].
        destruct n; cbn; [done|eauto].
    + intros [= <- <-]. split_and!; [done|by eapply io_faults_tail|]. cbn. intros He. by destruct e.
Qed.

Lemma Stat_cases p o r o' :
  io_faults o → Stat p o = (r, o') →
  files o' = files o ∧
  match r with
  | Ok n => stat_tree (resolve p) (files o) = Ok n
  | Err e => is_not_exist e = true → stat_tree (resolve p) (files o) = Err ENOENT
  end.
Proof.
  intros Hio [_ [(f & Hin & -> & Ht)|[-> Ht]]]%syscall_cases; (split; [done|]).
  - intros He. unfold io_faults in Hio. rewrite Forall_forall in Hio. specialize (Hio _ Hin). cbn in *.
    destruct (fault_errno f); try done. exfalso. apply Hio. set_solver.
  - cbn. destruct (stat_tree _ _) as [n|e]; cbn; [done|]. by destruct e.
Qed.

(** The modules are not loaded: the port's file or the module's directory does not exist. *)
Definition not_loaded (t : tree) : Prop :=
  stat_tree (resolve lnetAcceptPortFile) t = Err ENOENT ∨ stat_tree (resolve lustreModuleDir) t = Err ENOENT.

(** Whatever I/O errors occur, a node is taken to have the modules exactly when they are loaded,
    without an error only with the port that is asked for, and to lack them only when the port's file or the
    module's directory does not exist. *)
Lemma installed_meaning enableLegacyLustrePort acceptPortFile lustreModuleDir o installed err o' :
  io_faults o →
  isLustreKmodInstalled enableLegacyLustrePort acceptPortFile lustreModuleDir o = ((installed, err), o') →
  files o' = files o ∧
  match installed, err with
  | true, None => loaded_port acceptPortFile lustreModuleDir (files o) = Some (itoa (lnetPort enableLegacyLustrePort))
  | true, Some _ => ∃ port, loaded_port acceptPortFile lustreModuleDir (files o) = Some port ∧
      port ≠ itoa (lnetPort enableLegacyLustrePort)
  | false, None => stat_tree (resolve acceptPortFile) (files o) = Err ENOENT ∨
      stat_tree (resolve lustreModuleDir) (files o) = Err ENOENT
  | false, Some err => is_not_exist err = false
  end.
Proof.
  intros Hio. unfold isLustreKmodInstalled, loaded_port.
  destruct (ReadFile _ o) as [r o1] eqn:E1. apply ReadFile_cases in E1 as (Ht1 & Hio1 & Hr); [|done].
  destruct r as [content|e]; [|destruct (is_not_exist e); intros [= <- <- <-]; auto].
  destruct Hr as [a ->]. destruct (Stat _ o1) as [r o2] eqn:E2. apply Stat_cases in E2 as [Ht2 Hr]; [|done].
  rewrite Ht1 in *. destruct r as [n|e]; [rewrite Hr|destruct (is_not_exist e); intros [= <- <- <-]; rewrite Ht2; auto].
  case_decide as Hp; intros [= <- <- <-]; rewrite Ht2; (split; [done|]); [eauto|].
  by f_equal.
Qed.

(** ** The program *)
Section program.
Context {S : Type} `{Host S} `{Netlinker S} `{NodeClient S}.

(** The interfaces are looked at without a command being run. *)
Lemma valid_nics_silent primaryNetwork m nics :
  keeps (S := S * list event) silent (valid_nics primaryNetwork m nics).
Proof. induction nics; cbn [valid_nics]; keeps_tac. Qed.

Lemma find_mac_silent mac nics : keeps (S := S * list event) silent (find_mac mac nics).
Proof. induction nics; cbn [find_mac]; keeps_tac. Qed.

Lemma GetStandardNICs_silent mc : keeps (S := S * list event) silent (GetStandardNICs mc).
Proof. unfold GetStandardNICs, validateNICs. keeps_tac; apply valid_nics_silent. Qed.

Lemma GetPrimaryNIC_silent mc : keeps (S := S * list event) silent (GetPrimaryNIC mc).
Proof. unfold GetPrimaryNIC. keeps_tac; try apply find_mac_silent. apply balance_wrap, unlogged_silent. Qed.

Lemma CheckDisableMultiNIC_silent nodeID nics disable :
  keeps (S := S * list event) silent (CheckDisableMultiNIC nodeID nics disable).
Proof. unfold CheckDisableMultiNIC. keeps_tac. Qed.

Lemma GetNodeLabelValue_silent nodeID key : keeps (S := S * list event) silent (GetNodeLabelValue nodeID key).
Proof. unfold GetNodeLabelValue. keeps_tac. Qed.

(** Steps that run nothing and do not look at the node's files. *)
#[local] Hint Resolve GetStandardNICs_silent GetPrimaryNIC_silent CheckDisableMultiNIC_silent GetNodeLabelValue_silent : keeps.

Definition quiet : relation (@kmodState (S * list event)) := λ s s',
  (kmodHost s').2 = (kmodHost s).2 ∧ kmodOS s' = kmodOS s.

#[local] Instance quiet_preorder : PreOrder quiet.
Proof. split; unfold quiet; [done|]. intros ??? [] []. split; congruence. Qed.

Lemma quiet_host {A} (m : M (S * list event) goerr A) : keeps silent m → keeps quiet (on_host m).
Proof. intros Hm s. specialize (Hm (kmodHost s)). unfold state_after, on_host, silent, quiet in *. by destruct (m (kmodHost s)). Qed.

Lemma quiet_fatal {A} what (m : M (@kmodState (S * list event)) goerr A) : keeps quiet m → keeps quiet (fatal what m).
Proof. intros Hm s. specialize (Hm s). unfold state_after, fatal in *. by destruct (m s). Qed.

(** A quiet step: it ends the program, or the rest runs on. *)
Lemma quiet_bind {A} what (m : M (@kmodState (S * list event)) goerr A) (f : A → M kmodState goerr ()) s r s' :
  keeps quiet m → (fatal what m ≫= f) s = (r, s') →
  (is_ok r = false ∧ quiet s s') ∨ ∃ a s1, m s = (Ok a, s1) ∧ quiet s s1 ∧ f a s1 = (r, s').
Proof.
  intros Hm. specialize (Hm s). unfold state_after, fatal in *. rewrite bind_unfold.
  destruct (m s) as [[a|e] s1]; cbn in *; [by eauto 10|]. intros [= <- <-]. by left.
Qed.

Lemma cos_install_logged enableLegacyPort customModuleArgs nics disableMultiNIC primaryNic previewClientVersion (s : S * list event) r s' :
  InstallLustreKmodOnCos enableLegacyPort customModuleArgs nics disableMultiNIC primaryNic previewClientVersion s = (r, s') →
  s'.2 = s.2 ++ [ERun None "/usr/bin/cos-dkms" (buildCosDKMSArgs previewClientVersion (lnetPort enableLegacyPort)
    (BuildLnetNetworkString nics primaryNic disableMultiNIC) customModuleArgs disableMultiNIC)].
Proof.
  unfold InstallLustreKmodOnCos. destruct (run _ _ _ s) as [r1 s1] eqn:E. apply run_logged in E.
  destruct (ExecErr r1); [|by intros [= _ <-]]. repeat case_match; by intros [= _ <-].
Qed.

(** What an installation for an operating system has run when it succeeds. *)
Definition installed_log (hostOS : string) (enableLegacyLustrePort : bool) (customModuleArgs nics : list string)
    (disableMultiNIC : bool) (primaryNic previewClientVersion : string) (log : list event) : Prop :=
  (hostOS = "cos" ∧ log = [ERun None "/usr/bin/cos-dkms" (buildCosDKMSArgs previewClientVersion
     (lnetPort enableLegacyLustrePort) (BuildLnetNetworkString nics primaryNic disableMultiNIC) customModuleArgs disableMultiNIC)]) ∨
  (hostOS = "ubuntu" ∧ ∃ k tmpDir debFile extractDir,
     log = ubuntu_log enableLegacyLustrePort customModuleArgs nics disableMultiNIC primaryNic previewClientVersion
             k tmpDir debFile extractDir).

Lemma on_host_inv {A} (m : M (S * list event) goerr A) s a s' :
  on_host m s = (Ok a, s') → ∃ h, m (kmodHost s) = (Ok a, h) ∧ s' = MkKmodState (kmodOS s) h.
Proof. unfold on_host. destruct (m (kmodHost s)) as [r h]. intros [= -> <-]. eauto. Qed.

Lemma fatal_inv {A} what (m : M (@kmodState (S * list event)) goerr A) s a s' :
  fatal what m s = (Ok a, s') → m s = (Ok a, s').
Proof. unfold fatal. destruct (m s) as [[b|] s1]; cbn; congruence. Qed.

Lemma install_for_logged hostOS enableLegacyLustrePort customModuleArgs nics disableMultiNIC primaryNic previewClientVersion
    (s : @kmodState (S * list event)) s' :
  install_for hostOS enableLegacyLustrePort customModuleArgs nics disableMultiNIC primaryNic previewClientVersion s = (Ok (), s') →
  (kmodHost s).2 = [] →
  installed_log hostOS enableLegacyLustrePort customModuleArgs nics disableMultiNIC primaryNic previewClientVersion (kmodHost s').2 ∨
  hostOS = "windows" ∧ (kmodHost s').2 = [].
Proof.
  unfold install_for, installed_log. intros Hi Hl. case_decide as Hos.
  { left. left. split; [done|]. apply fatal_inv, on_host_inv in Hi as (h & Hi%cos_install_logged & ->). cbn. by rewrite Hi, Hl. }
  case_decide as Hos2.
  { left; right. split; [done|]. apply bind_inv in Hi as (scopes & s1 & Hs & Hi).
    assert ((kmodHost s1).2 = []) as Hl1.
    { apply attempt_inv in Hs. assert (keeps (S := S * list event) silent Scopes) as Hsc by apply unlogged_silent.
      destruct (quiet_host Scopes Hsc s) as [Hq _].
      unfold state_after in Hq. rewrite Hs in Hq. cbn in Hq. congruence. }
    cbn zeta in Hi. destruct (match scopes with Ok _ => _ | Err _ => _ end); [done|].
    apply fatal_inv, on_host_inv in Hi as (h & (k & tmp & deb & ext & _ & Hi)%ubuntu_install_logged & ->).
    exists k, tmp, deb, ext. cbn. by rewrite Hi, Hl1. }
  case_decide as Hos3; [|done]. right. injection Hi as <-. done.
Qed.

Tactic Notation "quiet_step" hyp(Hm) hyp(Hq) hyp(Hquit) simple_intropattern(a) :=
  let Hq' := fresh in
  apply quiet_bind in Hm as [[? Hq']|(a & ? & ? & Hq' & Hm)];
  [apply Hquit; [destruct Hq, Hq'; congruence|done]
  |pose proof (transitivity Hq Hq'); clear Hq Hq'; rename select (quiet _ _) into Hq
  |apply quiet_host; eauto with keeps].

(** A value that a read of one of the node's labels has given. *)
Definition label_read (nodeID key value : string) : Prop :=
  ∃ labels (h : S), result_in (GetNodeWithRetry nodeID) h = (Ok labels : result goerr (gmap string string)) ∧
    value = trim_space (default "" (labels !! key)).

Lemma label_read_inv nodeID key (s : @kmodState (S * list event)) v s' :
  on_host (GetNodeLabelValue nodeID key) s = (Ok v, s') → label_read nodeID key v.
Proof.
  intros (h2 & Hv & _)%on_host_inv. unfold GetNodeLabelValue in Hv.
  apply bind_inv in Hv as (labels & h3 & Hl & [= <- _]). exists labels, (kmodHost s).1. split; [|done].
  cbn in Hl. unfold unlogged in Hl. unfold result_in. destruct (GetNodeWithRetry nodeID (kmodHost s).1) as [rl h4]. cbn in *. by simplify_eq.
Qed.

Lemma on_host_result {A} (m : M (S * list event) goerr A) s a s' : on_host m s = (Ok a, s') → ∃ h, result_in m h = Ok a.
Proof. intros (h & E & _)%on_host_inv. exists (kmodHost s). unfold result_in. by rewrite E. Qed.

(** Claim C35.  The program runs nothing on a node whose modules are loaded, whatever their port, and whatever I/O errors and failures
    it meets.  When it succeeds, either the modules were loaded with the port that is asked for, and it has run
    nothing; or they were not, and it has run the complete installation for the operating system that it read from the
    node's label, for the interfaces and the client version that it found; or this operating system is Windows, where nothing is
    run and nothing installed. *)
Theorem kmod_main_outcome metadata nodeID enableLegacyLustrePort disableMultiNIC customModuleArgs h o r s' :
  io_faults o →
  main metadata nodeID enableLegacyLustrePort disableMultiNIC customModuleArgs (MkKmodState o (h, [])) = (r, s') →
  ((kmodHost s').2 ≠ [] → not_loaded (files o)) ∧
  (r = Ok () →
     (loaded_port lnetAcceptPortFile lustreModuleDir (files o) = Some (itoa (lnetPort enableLegacyLustrePort)) ∧ (kmodHost s').2 = []) ∨
     not_loaded (files o) ∧ ∃ mc nics primaryNic effectiveDisableMultiNIC hostOS previewClientVersion,
       metadata = Ok mc ∧ nics ≠ [] ∧
       (∃ h1 : S * list event, result_in (GetStandardNICs (Some mc)) h1 = Ok nics) ∧
       (∃ h2 : S * list event, result_in (GetPrimaryNIC (Some mc)) h2 = Ok primaryNic) ∧
       (∃ h3 : S * list event, result_in (CheckDisableMultiNIC nodeID nics disableMultiNIC) h3 = Ok effectiveDisableMultiNIC) ∧
       label_read nodeID OSNodeLabel hostOS ∧ label_read nodeID PreviewClientLabel previewClientVersion ∧
       (installed_log hostOS enableLegacyLustrePort customModuleArgs nics effectiveDisableMultiNIC primaryNic previewClientVersion
          (kmodHost s').2 ∨
        hostOS = "windows" ∧ (kmodHost s').2 = [])).
Proof.
  intros Hio Hm. set (s := MkKmodState o (h, [])) in *. assert (quiet s s) as Hq by done. assert ((kmodHost s).2 = []) as Hs by done.
  match goal with |- ?G => assert ((kmodHost s').2 = [] → is_ok r = false → G) as Hquit
    by (intros Hl Hr; split; [intros Hne; by destruct Hne|by intros ->]) end.
  unfold main in Hm. case_decide; [injection Hm as <- <-; by apply Hquit|].
  rewrite bind_unfold in Hm. destruct metadata as [meta|e]; [|injection Hm as <- <-; by apply Hquit].
  cbn -[GetStandardNICs GetPrimaryNIC GetNodeLabelValue CheckDisableMultiNIC] in Hm. fold s in Hm.
  quiet_step Hm Hq Hquit nics. rename select (on_host (GetStandardNICs _) _ = _) into Hnics.
  case_decide as Hn; [injection Hm as <- <-; apply Hquit; [by apply Hq|done]|].
  quiet_step Hm Hq Hquit primaryNic. rename select (on_host (GetPrimaryNIC _) _ = _) into Hprimary.
  quiet_step Hm Hq Hquit disable. rename select (on_host (CheckDisableMultiNIC _ _ _) _ = _) into Hdisable. destruct Hq as [Hl Ho].
  match type of Hm with _ ?x = _ => rename x into sn end.
  rewrite bind_unfold in Hm. unfold on_os in Hm at 1. rewrite Ho in Hm. cbn [s kmodOS] in Hm.
  destruct (isLustreKmodInstalled enableLegacyLustrePort lnetAcceptPortFile lustreModuleDir o) as [[isInstalled err] o1] eqn:Hfound.
  apply installed_meaning in Hfound as [_ Hfound]; [|done].
  clear Hs. set (s2 := MkKmodState o1 (kmodHost sn)) in Hm.
  assert (quiet s2 s2) as Hq by done. assert ((kmodHost s2).2 = []) as Hs by (cbn; by rewrite Hl).
  destruct err as [err|]; [injection Hm as <- <-; by apply Hquit|].
  quiet_step Hm Hq Hquit hostOS. rename select (on_host (GetNodeLabelValue _ OSNodeLabel) _ = _) into HhostOS.
  quiet_step Hm Hq Hquit preview. rename select (on_host (GetNodeLabelValue _ PreviewClientLabel) _ = _) into Hpreview.
  destruct isInstalled.
  - assert ((kmodHost s').2 = []) as Hlog.
    { rewrite bind_unfold in Hm. unfold on_os in Hm. destruct (getLnetNetwork _ _ _) as [[l|e] o2];
        injection Hm as <- <-; cbn; destruct Hq; congruence. }
    split; [intros Hne; by destruct Hne|]. intros _. by left.
  - split; [by intros _|]. intros ->. right. split; [exact Hfound|]. exists meta, nics, primaryNic, disable, hostOS, preview.
    split_and!; [done|by destruct nics|by eapply on_host_result..|by eapply label_read_inv|by eapply label_read_inv|].
    eapply install_for_logged; [exact Hm|]. destruct Hq; congruence.
Qed.
End program.

(** ** Witnesses *)

(** A node with one interface, whose commands all succeed; the state counts the temporary directories. *)
#[local] Instance test_host : Host nat := {
  run _ cmd _ n := (MkExecResult (if decide (cmd = "uname") then "6.8.0-gke" +:+ newline else "") None false, n);
  MkdirTemp _ n := (Ok ("/tmp/" +:+ itoa (Z.of_nat n)), Datatypes.S n);
  ReadDir _ n := (Ok [("lists", true); ("lustre.deb", false)], n);
  RemoveTemp _ n := (Ok (), n);
  Scopes n := (Ok [cloud_platform_scope], n);
}.

#[local] Instance test_netlinker : Netlinker nat := {
  LinkByName name n := (Ok (MkLink name 2 "42:01:0a:00:00:02"), n);
  AddrList _ n := (Ok [], n);
  RouteList _ n := (Ok [], n);
  RouteReplace _ n := (Ok (), n);
  RuleAdd _ n := (Ok (), n);
  RuleList n := (Ok [], n);
  RouteListFiltered _ n := (Ok [], n);
  nl_GetStandardNICs n := (Ok ["eth0"], n);
}.

Definition test_labels : gmap string string := {[ OSNodeLabel := "ubuntu" ]}.
#[local] Instance test_nodes : NodeClient nat := { GetNodeWithRetry _ n := (Ok test_labels, n) }.

Definition test_args : list string := ["lnet.check_routers_before_use=1"; "ptlrpc.foo=2"; "osc.max_rpcs=8"].

Definition sysfs (port networks : string) : os :=
  let dir := Dir (MkAttr 493 0) in let file c := File c (MkAttr 420 0) in
  MkOS (list_to_map [(["sys"], dir); (["sys"; "module"], dir); (["sys"; "module"; "lustre"], dir);
    (["sys"; "module"; "lnet"], dir); (["sys"; "module"; "lnet"; "parameters"], dir);
    (["sys"; "module"; "lnet"; "parameters"; "accept_port"], file port);
    (["sys"; "module"; "lnet"; "parameters"; "networks"], file networks)]) [].

Lemma lnet_network_read_back_witness :
  getLnetNetwork lnetNetworkParameterFile "eth0" (sysfs "988" ("tcp0(eth1,eth0)" +:+ newline)) =
    (Ok ["eth1"; "eth0"], sysfs "988" ("tcp0(eth1,eth0)" +:+ newline)).
Proof.
  apply (lnet_network_read_back lnetNetworkParameterFile "eth0" ["eth0"; "eth1"] "eth1" false newline (MkAttr 420 0));
    [done|by repeat constructor|reflexivity|reflexivity|vm_compute; reflexivity].
Defined.

Lemma ubuntu_install_sequence_witness :
  let log := (state_after (InstallLustreKmodOnUbuntu false test_args ["eth0"] true "eth0" "") (O, [])).2 in
  ∃ k tmpDir debFile extractDir, has_suffix debFile ".deb" = true ∧
    log = [ERun None "uname" ["-r"]; ERun None "apt-get" ["update"]; EMkdir tmpDir;
      ERun (Some tmpDir) "apt-get" (buildUbuntuAptDownloadArgs k "");
      EMkdir extractDir; ERun None "dpkg" ["-x"; tmpDir +:+ "/" +:+ debFile; extractDir];
      ERun None "depmod" ["-b"; extractDir; k];
      ERun None "modprobe" (lnet_args extractDir (lnetPort false)
        (BuildLnetNetworkString ["eth0"] "eth0" true) test_args true)] ++
      ((λ m, ERun None "modprobe" (["-d"; extractDir; m] ++ module_args m test_args)) <$>
         ["ksocklnd"; "lustre"; "mgc"; "lmv"; "lov"; "mdc"; "osc"]) ++ [ERemove extractDir; ERemove tmpDir].
Proof.
  cbn zeta. apply (ubuntu_install_sequence false test_args ["eth0"] true "eth0" "" O).
  runs (InstallLustreKmodOnUbuntu (S := nat * list event) false test_args ["eth0"] true "eth0" "") (O, []:list event) (Ok () : result goerr ()).
Defined.

Lemma custom_args_delivered_witness :
  let log := (state_after (InstallLustreKmodOnUbuntu false test_args ["eth0"] true "eth0" "") (O, [])).2 in
  log ≫= modprobe_params ≡ₚ
    lnet_params "tcp0(eth0)" false true ++ ["lnet.check_routers_before_use=1"; "osc.max_rpcs=8"] ∧
  cos_params (buildCosDKMSArgs "" (lnetPort false) "tcp0(eth0)" test_args true) =
    lnet_params (dquote +:+ "tcp0(eth0)" +:+ dquote) false true ++ test_args.
Proof.
  cbn zeta. apply (custom_args_delivered false test_args ["eth0"] true "eth0" "" O).
  runs (InstallLustreKmodOnUbuntu (S := nat * list event) false test_args ["eth0"] true "eth0" "") (O, []:list event) (Ok () : result goerr ()).
Defined.

Definition bare_node : @kmodState (nat * list event) := MkKmodState (MkOS ∅ []) (O, []).
Definition one_nic : result goerr (result goerr (list NetworkInterface)) := Ok (Ok [MkNetworkInterface "default" "42:01:0a:00:00:02"]).
Lemma ran_something (l : list event) : match l with [] => false | _ :: _ => true end = true → l ≠ [].
Proof. by destruct l. Qed.
Definition installing := main (S := nat * list event) one_nic "node" false false test_args.

Lemma kmod_main_outcome_witness :
  is_ok (result_in installing bare_node) = true ∧ (kmodHost (state_after installing bare_node)).2 ≠ [] ∧
  not_loaded (files (MkOS ∅ [])) ∧
  ∃ nics primaryNic disable preview,
    installed_log "ubuntu" false test_args nics disable primaryNic preview (kmodHost (state_after installing bare_node)).2.
Proof.
  split; [vm_compute; reflexivity|].
  assert ((kmodHost (state_after installing bare_node)).2 ≠ []) as Hne.
  { apply ran_something. vm_compute. reflexivity. }
  split; [exact Hne|].
  destruct (kmod_main_outcome one_nic "node" false false test_args O (MkOS ∅ []) (Ok ()) (state_after installing bare_node))
    as [Hrun Hok].
  - by constructor.
  - pose proof (run_state installing bare_node (Ok ())) as Hr. apply Hr. vm_compute; reflexivity.
  - split; [by apply Hrun|]. destruct (Hok eq_refl) as [[_ Hl]|(_ & mc & nics & primaryNic & disable & hostOS & preview & _ & _ & _ & _ & _ & Hos & _ & Hlog)];
      [by destruct (Hne Hl)|]. exists nics, primaryNic, disable, preview.
    destruct Hos as (labels & n & Hlabels & ->). cbn in Hlabels. injection Hlabels as <-.
    destruct Hlog as [Hlog|[_ Hlog]]; [exact Hlog|by destruct (Hne Hlog)].
Defined.
