(* ===== verification/UpcallInstall.v ===== *)
(** * Setting the host up for upcalls: pkg/upcall/installer.go

    The driver's container copies the proxy and a udev rule to the host, links the proxy under the name of
    the IAM upcall and points a kernel tunable to it.  The filesystem is that of FS.v, and here it also has
    symbolic links: a table of their own, by path. *)
From S2P Require Import Prelude GoStr Regex GoErr Json FS Upcall.

Local Open Scope string_scope.
Local Open Scope list_scope.
Local Open Scope Z_scope.

(** ** Constants *)
Definition containerProxyPath := "/usr/bin/lustre-host-proxy".
Definition hostUdevDir := "/host_etc_udev".
Definition hostProxyPath := hostUdevDir +:+ "/lustre-host-proxy".
Definition hostRulesPath := hostUdevDir +:+ "/rules.d/99-lustre.rules".
Definition hostUpcallSymlinkPath := hostUdevDir +:+ "/" +:+ iamUpcallBinary.
Definition hostTargetProxyPath := "/etc/udev/lustre-host-proxy".
Definition hostUpcallSymlinkTarget := "/etc/udev/l_gssiam_upcall".

(** A value between double quotes. *)
Definition quoted (s : string) : string := dquote +:+ s +:+ dquote.

Definition udevRuleContent : string :=
  "# Generated by Lustre CSI Driver Node Init. Do not edit." +:+ newline +:+
  "SUBSYSTEM==" +:+ quoted "lustre" +:+ ", ACTION==" +:+ quoted "change" +:+ ", ENV{PARAM}==" +:+ quoted "?*" +:+
  ", RUN+=" +:+ quoted "/etc/udev/lustre-host-proxy /usr/sbin/lctl set_param $env{PARAM}=$env{SETTING}" +:+ newline.

(** [filepath.Dir] of an absolute path. *)
Definition filepath_Dir (p : string) : string := path_string (parent (resolve p)).

(** ** The host *)
Record host (S : Type) : Type := MkHost {
  host_os : os;
  symlinks : gmap path string;
  commands : S;   (* what the commands act on *)
}.
Arguments MkHost {S} _ _ _.
Arguments host_os {S} _.
Arguments symlinks {S} _.
Arguments commands {S} _.

(** ** Versions (k8s.io/apimachinery/pkg/util/version, vendored)

    A generic version is the list of its numbers. *)
Module Version.
Fixpoint take_digits (s : string) : string :=
  match s with
  | String c s' => if is_digit c then String c (take_digits s') else ""
  | "" => ""
  end.

(** Numbers between dots at the start of a text that starts with a digit, as many as there are, and the rest. *)
Fixpoint components (fuel : nat) (s : string) : list string * string :=
  let rest := skip_digits s in
  match fuel, rest with
  | Datatypes.S fuel', String "." rest' =>
      if next_is is_digit rest' then
        let '(cs, extra) := components fuel' rest' in (take_digits s :: cs, extra)
      else ([take_digits s], rest)
  | _, _ => ([take_digits s], rest)
  end.

(** The spaces of a regular expression. *)
Fixpoint skip_spaces (s : string) : string :=
  match s with
  | String c s' => if decide (ascii_val c ∈ [9; 10; 12; 13; 32]) then skip_spaces s' else s
  | "" => ""
  end.

(** [versionMatchRE]: spaces, perhaps a v, numbers between dots, and anything on the same line. *)
Definition split_numbers (str : string) : option (list string) :=
  let s := drop_if (one_of ["v"]%char) (skip_spaces str) in
  if next_is is_digit s then
    let '(cs, extra) := components (String.length s) s in
    if has_char "010" extra then None else Some cs
  else None.

(** The numbers; the first must not start with a needless zero. *)
Fixpoint parse_components (str : string) (first : bool) (cs : list string) : result goerr (list Z) :=
  match cs with
  | [] => Ok []
  | comp :: cs =>
      if first && has_prefix comp "0" && negb (bool_decide (comp = "0")) then
        Err (ErrText ("illegal zero-prefixed version component " +:+ quote comp +:+ " in " +:+ quote str))
      else
        match parse_uint comp with
        | Some num =>
            if decide (num < 2^64) then
              nums ← parse_components str false cs; Ok (num :: nums)
            else Err (ErrText ("illegal non-numeric version component " +:+ quote comp +:+ " in " +:+ quote str +:+
              ": strconv.ParseUint: parsing " +:+ quote comp +:+ ": value out of range"))
        | None => Err (ErrText ("illegal non-numeric version component " +:+ quote comp +:+ " in " +:+ quote str +:+
              ": strconv.ParseUint: parsing " +:+ quote comp +:+ ": invalid syntax"))
        end
  end.

Definition ParseGeneric (str : string) : result goerr (list Z) :=
  match split_numbers str with
  | None => Err (ErrText ("could not parse " +:+ quote str +:+ " as version"))
  | Some cs =>
      if decide (length cs < 2)%nat then Err (ErrText ("illegal version string " +:+ quote str))
      else parse_components str true cs
  end.

Fixpoint compareInternal (v other : list Z) : Z :=
  match v, other with
  | x :: v', y :: other' => if decide (y < x) then 1 else if decide (y > x) then -1 else compareInternal v' other'
  | [], _ => if existsb (λ n, bool_decide (n ≠ 0)) other then -1 else 0
  | _, [] => if existsb (λ n, bool_decide (n ≠ 0)) v then 1 else 0
  end.

Definition LessThan (v other : list Z) : bool := bool_decide (compareInternal v other = -1).
End Version.

Definition minGSSIAMVersion : list Z := [2; 16; 0].

Section install.
Context {S : Type} `{Runner S}.
(** [os.Environ()] in the container *)
Context (Environ : list string).

Definition on_files {A} (m : M os goerr A) : M (host S) goerr A := λ s,
  let '(r, o) := m (host_os s) in (r, MkHost o (symlinks s) (commands s)).

Definition on_commands {A} (m : S → A * S) : M (host S) goerr A := λ s,
  let '(a, c) := m (commands s) in (Ok a, MkHost (host_os s) (symlinks s) c).

(** [os.Remove] of a path that may be a symbolic link. *)
Definition RemoveLink (p : string) : M (host S) goerr () := λ s,
  match symlinks s !! resolve p with
  | Some _ =>
      let '(r, o) := syscall "remove" p untouched (λ t, (Ok (), t)) (host_os s) in
      (r, MkHost o (match r with Ok _ => delete (resolve p) (symlinks s) | Err _ => symlinks s end) (commands s))
  | None => on_files (Remove p) s
  end.

(** [os.Symlink] *)
Definition Symlink (target p : string) : M (host S) goerr () := λ s,
  let exists_ := bool_decide (is_Some (symlinks s !! resolve p)) in
  let '(r, o) := syscall "symlink" (target +:+ " " +:+ p) untouched
    (λ t, ((if (exists_ || bool_decide (is_Some (look t (resolve p)))) then Err EEXIST
            else match look t (parent (resolve p)) with Some (Dir _) => Ok () | _ => Err (missing t (resolve p)) end), t))
    (host_os s) in
  (r, MkHost o (match r with Ok _ => <[resolve p := target]> (symlinks s) | Err _ => symlinks s end) (commands s)).

(** The copy is not atomic: the destination is emptied and then written. *)
Definition copyFile (src dst : string) : M os goerr () :=
  _ ← syscall "open" src untouched (λ t, (stat_tree (resolve src) t, t));
  _ ← syscall "open" dst untouched (put_file (resolve dst) "" 493);
  content ← syscall "read" src untouched
    (λ t, (match look t (resolve src) with Some (File c _) => Ok c | _ => Err EISDIR end, t));
  _ ← syscall "write" dst (λ n t, (put_file (resolve dst) (str_take n content) 493 t).2)
    (put_file (resolve dst) content 493);
  syscall "sync" dst untouched (λ t, (Ok (), t)).

Definition lustreSupportsGSSIAM (verOut : string) : bool * string * option goerr :=
  let verStr := trim_prefix (trim_space verOut) "version=" in
  match Version.ParseGeneric verStr with
  | Err err => (false, verStr, Some err)
  | Ok v => (negb (Version.LessThan v minGSSIAMVersion), verStr, None)
  end.

(** The error of a command. *)
Definition run_error_err (e : run_error) : goerr :=
  match e with ExitError code => ErrText ("exit status " +:+ itoa code) | OtherError text => ErrText text end.

Definition configureGSSIAMUpcallTunable : M (host S) goerr () :=
  r ← on_commands (run_command lctlPath ["get_param"; "-n"; "version"] Environ);
  match RunErr r with
  | Some e =>
      let err := run_error_err e in
      fail (ErrWrap ("querying lustre version: " +:+ error_text err +:+ " (output: " +:+ trim_space (RunStdout r) +:+ ")") err)
  | None =>
      let '(ok, verStr, err) := lustreSupportsGSSIAM (RunStdout r) in
      match err with
      | Some err => fail (ErrWrap ("parsing lustre version " +:+ quote verStr +:+ ": " +:+ error_text err) err)
      | None =>
          if negb ok then mret () else
          let paramArg := "sptlrpc.gssiam.gssiam_upcall=" +:+ hostUpcallSymlinkTarget in
          r ← on_commands (run_command lctlPath ["set_param"; paramArg] Environ);
          match RunErr r with
          | Some e =>
              let err := run_error_err e in
              fail (ErrWrap ("setting " +:+ paramArg +:+ ": " +:+ error_text err +:+ " (output: " +:+
                trim_space (RunStdout r +:+ RunStderr r) +:+ ")") err)
          | None => mret ()
          end
      end
  end.

(** An error of a step of the setup. *)
Definition step {A} (what : string) (m : M os goerr A) : M (host S) goerr A := λ s,
  let '(r, s') := on_files m s in (map_err (λ err, ErrWrap (what +:+ ": " +:+ error_text err) err) r, s').

(** The IAM upcall's link and tunable; what goes wrong is only logged. *)
Definition setup_iam_upcall : M (host S) goerr () :=
  r ← attempt (RemoveLink hostUpcallSymlinkPath);
  let failed := match r with Err err => negb (is_not_exist err) | Ok _ => false end in
  if (failed : bool) then mret () else
  r ← attempt (Symlink hostTargetProxyPath hostUpcallSymlinkPath);
  match r with
  | Err _ => mret ()
  | Ok _ =>
      _ ← attempt configureGSSIAMUpcallTunable;
      mret ()
  end.

Definition SetupHostArtifacts : M (host S) goerr () :=
  _ ← step ("host udev mount directory " +:+ hostUdevDir +:+ " missing or inaccessible") (Stat hostUdevDir);
  _ ← step "failed to copy proxy binary to host" (copyFile containerProxyPath hostProxyPath);
  _ ← step "failed to set executable permissions on host proxy" (Chmod hostProxyPath 493);
  let rulesDir := filepath_Dir hostRulesPath in
  _ ← step ("failed to create host rules directory " +:+ rulesDir) (MkdirAll rulesDir 493);
  _ ← step ("failed to write udev rules to host at " +:+ hostRulesPath) (WriteFile hostRulesPath udevRuleContent 420);
  setup_iam_upcall.
End install.
