(* ===== verification/UpcallInstallSpec.v ===== *)
(** * What the setup of the host leaves

    Once the setup reports success the host has the proxy, executable and with the contents of the
    container's copy, and the udev rule; the kernel tunable of the IAM upcall is touched only when the link
    it names is there and the client is new enough. *)
From S2P Require Import Prelude GoStr Regex Numerals GoErr Json JsonSpec FS Upcall UpcallInstall.

Local Open Scope string_scope.
Local Open Scope list_scope.
Local Open Scope Z_scope.

Section setup.
Context {S : Type} `{Runner S} (Environ : list string).
Implicit Types s : host S.

(** The paths, component by component. *)
Definition proxy_path : path := ["host_etc_udev"; "lustre-host-proxy"].
Definition rules_path : path := ["host_etc_udev"; "rules.d"; "99-lustre.rules"].
Definition link_path : path := ["host_etc_udev"; "l_gssiam_upcall"].

(** A step of the setup: it ends it, or the rest goes on; the links and the commands are left alone. *)
Definition same s s' : Prop := commands s' = commands s ∧ symlinks s' = symlinks s.

Lemma step_bind {A B} what (m : M os goerr A) (f : A → M (host S) goerr B) s0 s r s' :
  same s0 s → (step what m ≫= f) s = (r, s') →
  (∃ e, r = Err e ∧ same s0 s') ∨
  (∃ a s1, m (host_os s) = (Ok a, host_os s1) ∧ same s0 s1 ∧ f a s1 = (r, s')).
Proof.
  unfold same. intros [Hc Hl]. rewrite bind_unfold. unfold step, on_files.
  destruct (m (host_os s)) as [[a|e] o] eqn:E; cbn; [|intros [= <- <-]; left; eauto].
  intros Hf. right. by exists a, (MkHost o (symlinks s) (commands s)).
Qed.

Lemma mkdirs_keeps a from todo t q n : t !! q = Some n → (mkdirs a from todo t).2 !! q = Some n.
Proof.
  revert from t. induction todo as [|c todo IH]; intros from t Hq; cbn; [done|].
  destruct (look t (from ++ [c])) as [[]|] eqn:E; [by apply IH|done|].
  apply IH. rewrite look_nonroot in E by (by destruct from). rewrite lookup_insert_ne by congruence. done.
Qed.

(** What a copy that succeeds leaves. *)
Lemma copyFile_ok src dst o o' :
  resolve src ≠ resolve dst → copyFile src dst o = (Ok (), o') →
  ∃ content b a t, look (files o) (resolve src) = Some (File content b) ∧ files o' = <[resolve dst := File content a]> t ∧
    ∀ q, q ≠ resolve dst → t !! q = files o !! q.
Proof.
  intros Hne. unfold copyFile.
  intros (n & o1 & H1%syscall_ok & H2)%bind_inv. apply bind_inv in H2 as ([] & o2 & H2%syscall_ok & H3).
  apply bind_inv in H3 as (content & o3 & H3%syscall_ok & H4). apply bind_inv in H4 as ([] & o4 & H4%syscall_ok & H5%syscall_ok).
  injection H1 as _ H1. injection H5 as H5.
  apply put_file_spec in H2 as [(_ & a2 & H2)|(? & ? & _)]; [|done].
  apply put_file_spec in H4 as [(_ & a4 & H4)|(? & ? & _)]; [|done].
  destruct (look (files o2) (resolve src)) as [[|c b]|] eqn:E; [done| |done]. injection H3 as <- H3.
  exists c, b, a4, (files o3). split_and!; [|by rewrite <-H5|].
  - rewrite H2, <-H1 in E. unfold look in *. destruct (resolve src) as [|x l] eqn:Es; [by rewrite lookup_insert_ne in E|].
    by rewrite lookup_insert_ne in E.
  - intros q Hq. by rewrite <-H3, H2, lookup_insert_ne, <-H1.
Qed.

Lemma on_commands_keeps {A} (m : S → A * S) s r s' :
  on_commands m s = (r, s') → host_os s' = host_os s ∧ symlinks s' = symlinks s.
Proof. unfold on_commands. destruct (m (commands s)). by intros [= <- <-]. Qed.

Lemma tunable_keeps s r s' :
  configureGSSIAMUpcallTunable Environ s = (r, s') → host_os s' = host_os s ∧ symlinks s' = symlinks s.
Proof.
  unfold configureGSSIAMUpcallTunable. rewrite bind_unfold.
  destruct (on_commands _ s) as [[r1|e] s1] eqn:E1; apply on_commands_keeps in E1 as [Ho1 Hs1]; [|by intros [= <- <-]].
  destruct (RunErr r1); [by intros [= <- <-]|]. destruct (lustreSupportsGSSIAM _) as [[ok verStr] [e|]]; [by intros [= <- <-]|].
  destruct ok; [|by intros [= <- <-]]. cbn [negb]. rewrite bind_unfold.
  destruct (on_commands _ s1) as [[r2|e] s2] eqn:E2; apply on_commands_keeps in E2 as [Ho2 Hs2]; [|intros [= <- <-]; split; congruence].
  destruct (RunErr r2); intros [= <- <-]; split; congruence.
Qed.

Lemma RemoveLink_spec p s r s' :
  RemoveLink p s = (r, s') →
  commands s' = commands s ∧ ∀ q, q ≠ resolve p → files (host_os s') !! q = files (host_os s) !! q.
Proof.
  unfold RemoveLink. destruct (symlinks s !! resolve p).
  - destruct (syscall _ _ _ _ _) as [r' o] eqn:E. intros [= <- <-]. split; [done|]. intros q _.
    apply syscall_cases in E as [_ [(f & _ & _ & Ht)|[_ Ht]]]; cbn in *; by rewrite Ht.
  - unfold on_files. destruct (Remove p (host_os s)) as [r' o] eqn:E. intros [= <- <-]. split; [done|]. intros q Hq. cbn.
    apply Remove_spec in E as [(_ & -> & _)|(e & _ & -> & _)]; [|done]. by rewrite lookup_delete_ne.
Qed.

Lemma Symlink_spec target p s r s' :
  Symlink target p s = (r, s') →
  commands s' = commands s ∧ files (host_os s') = files (host_os s) ∧
  (is_ok r = true → symlinks s' !! resolve p = Some target).
Proof.
  unfold Symlink. destruct (syscall _ _ _ _ _) as [r' o] eqn:E. intros [= <- <-]. split_and!; [done| |].
  - apply syscall_cases in E as [_ [(f & _ & _ & Ht)|[_ Ht]]]; cbn in *; by rewrite Ht.
  - cbn. destruct r'; [|done]. intros _. apply lookup_insert_eq.
Qed.

(** The IAM upcall's part of the setup: it never fails. *)
Lemma iam_part s r s' :
  setup_iam_upcall Environ s = (r, s') →
  r = Ok () ∧ (∀ q, q ≠ link_path → files (host_os s') !! q = files (host_os s) !! q) ∧
  (commands s' = commands s ∨ symlinks s' !! link_path = Some hostTargetProxyPath).
Proof.
  unfold setup_iam_upcall. rewrite bind_unfold. unfold attempt. destruct (RemoveLink _ s) as [r1 s1] eqn:E1.
  apply RemoveLink_spec in E1 as [Hc1 Hf1]. change (resolve hostUpcallSymlinkPath) with link_path in Hf1.
  destruct (match r1 with Ok _ => false | Err _ => _ end); [intros [= <- <-]; auto|]. rewrite bind_unfold.
  destruct (Symlink _ _ s1) as [r2 s2] eqn:E2. apply Symlink_spec in E2 as (Hc2 & Hf2 & Hl2).
  change (resolve hostUpcallSymlinkPath) with link_path in Hl2.
  destruct r2 as [[]|e]; [|intros [= <- <-]; rewrite Hc2, Hf2; auto]. rewrite bind_unfold.
  destruct (configureGSSIAMUpcallTunable _ s2) as [r3 s3] eqn:E3. apply tunable_keeps in E3 as [Ho3 Hs3].
  intros [= <- <-]. rewrite Ho3, Hf2, Hs3. auto.
Qed.

(** When the setup succeeds the host has the container's proxy, executable, and the udev rule, and
    a command has been run only if the link to the proxy is in place.  When it fails, it has run nothing and
    changed no link. *)
Theorem setup_installs_host s r s' :
  SetupHostArtifacts Environ s = (r, s') →
  match r with
  | Ok _ => ∃ content b a a',
      look (files (host_os s)) ["usr"; "bin"; "lustre-host-proxy"] = Some (File content b) ∧
      files (host_os s') !! proxy_path = Some (File content a) ∧ perm a = 493 ∧
      files (host_os s') !! rules_path = Some (File udevRuleContent a') ∧
      (commands s' = commands s ∨ symlinks s' !! link_path = Some hostTargetProxyPath)
  | Err _ => commands s' = commands s ∧ symlinks s' = symlinks s
  end.
Proof.
  unfold SetupHostArtifacts. intros Hm. assert (same s s) as H0s by done.
  apply (step_bind _ _ _ s) in Hm as [(e & -> & ?)|(n & s1 & H1%syscall_ok & Hs1 & Hm)]; [done| |done].
  apply (step_bind _ _ _ s) in Hm as [(e & -> & ?)|([] & s2 & H2 & Hs2 & Hm)]; [done| |done].
  apply (step_bind _ _ _ s) in Hm as [(e & -> & ?)|([] & s3 & H3%syscall_ok & Hs3 & Hm)]; [done| |done].
  apply (step_bind _ _ _ s) in Hm as [(e & -> & ?)|([] & s4 & H4%syscall_ok & Hs4 & Hm)]; [done| |done].
  apply (step_bind _ _ _ s) in Hm as [(e & -> & ?)|([] & s5 & H5%WriteFile_spec & Hs5 & Hm)]; [done| |done].
  apply copyFile_ok in H2 as (content & b & a & t & Hc & H2 & _); [|by vm_compute].
  destruct H5 as [_ [(_ & a5 & H5)|(e & ? & _)]]; [|done].
  apply iam_part in Hm as (-> & Hf & Hc').
  change (resolve hostProxyPath) with proxy_path in *. change (resolve hostRulesPath) with rules_path in *.
  injection H1 as _ H1. exists content, b, (MkAttr 493 (owner a)), a5.
  split_and!; [by rewrite H1|rewrite Hf by done| |rewrite Hf, H5 by done; apply lookup_insert_eq|].
  - rewrite H5, lookup_insert_ne by done. pose proof (f_equal snd H4) as H4'. cbn [snd] in H4'. rewrite <-H4'. apply mkdirs_keeps.
    unfold change_attr in H3. rewrite H2 in H3. rewrite look_nonroot, lookup_insert_eq in H3 by done.
    injection H3 as <-. apply lookup_insert_eq.
  - done.
  - destruct Hs5 as [Hc5 _]. rewrite <-Hc5. exact Hc'.
Qed.
End setup.

(** ** Witness *)

(** A host whose client has the version 2.16.1. *)
#[local] Instance test_runner : Runner nat := {
  run_command _ args _ n := (MkRunResult (if decide (args = ["get_param"; "-n"; "version"]) then "version=2.16.1" else "") "" None, Datatypes.S n);
}.
Definition test_container : host nat :=
  let dir := Dir (MkAttr 493 0) in
  MkHost (MkOS (list_to_map [(["usr"], dir); (["usr"; "bin"], dir); (["usr"; "bin"; "lustre-host-proxy"], File "ELF" (MkAttr 493 0));
    (["host_etc_udev"], dir)]) []) ∅ O.

Lemma setup_installs_host_witness :
  let s' := state_after (SetupHostArtifacts []) test_container in
  commands s' = 2%nat ∧
  ∃ content b a a',
      look (files (host_os test_container)) ["usr"; "bin"; "lustre-host-proxy"] = Some (File content b) ∧
      files (host_os s') !! proxy_path = Some (File content a) ∧ perm a = 493 ∧
      files (host_os s') !! rules_path = Some (File udevRuleContent a') ∧
      (commands s' = commands test_container ∨ symlinks s' !! link_path = Some hostTargetProxyPath).
Proof.
  cbn zeta. split; [vm_compute; reflexivity|].
  apply (setup_installs_host (S := nat) [] test_container (Ok ())).
  runs (SetupHostArtifacts []) test_container (Ok () : result goerr ()).
Defined.

(** ** The version check *)
Section version.
Import Version.

Lemma take_digits_app d rest : all_chars is_digit d = true → next_is is_digit rest = false → take_digits (d +:+ rest) = d.
Proof.
  intros Hd Hr. induction d as [|c d IH].
  - rewrite app_nil_l_str. destruct rest as [|c rest]; [done|]. cbn in *. by rewrite Hr.
  - cbn in Hd. apply andb_true_iff in Hd as [Hc Hd]. rewrite app_cons_str. cbn. rewrite Hc. by rewrite IH.
Qed.

Lemma itoa_digits z : 0 ≤ z → ∃ c t, itoa z = String c t ∧ is_digit c = true ∧ all_chars is_digit (itoa z) = true ∧
  (has_prefix (itoa z) "0" = true → itoa z = "0").
Proof.
  intros Hz. destruct (itoa_shape z Hz) as [[-> _]|(c & t & -> & Hc & H0 & Ht)]; [by exists "0"%char, ""|].
  exists c, t. cbn [all_chars]. rewrite Hc, Ht. split_and!; [done..|]. intros [u [= -> _]]%has_prefix_spec. done.
Qed.

(** A component and a dot, and more to come. *)
Lemma components_more fuel z r :
  0 ≤ z → next_is is_digit r = true →
  (components (Datatypes.S fuel) (itoa z +:+ "." +:+ r)).1 = itoa z :: (components fuel r).1.
Proof.
  intros Hz Hr. destruct (itoa_digits z Hz) as (_ & _ & _ & _ & Hd & _).
  cbn [components]. rewrite app_char_str, skip_digits_app, take_digits_app by done. rewrite Hr.
  by destruct (components fuel r).
Qed.

Lemma components_first fuel z r :
  0 ≤ z → next_is is_digit r = false → ∃ cs, (components fuel (itoa z +:+ r)).1 = itoa z :: cs.
Proof.
  intros Hz Hr. destruct (itoa_digits z Hz) as (_ & _ & _ & _ & Hd & _).
  destruct fuel as [|fuel]; cbn [components]; rewrite take_digits_app by done; [by eexists|].
  repeat case_match; by eexists.
Qed.

Lemma parse_digits_nonneg acc s n : 0 ≤ acc → parse_digits acc s = Some n → 0 ≤ n.
Proof.
  revert acc. induction s as [|c s IH]; intros acc Ha; cbn; [by intros [= <-]|].
  destruct (is_digit c) eqn:E; [|done]. apply IH. unfold is_digit in E. apply bool_decide_eq_true in E. lia.
Qed.

Lemma parse_components_nonneg str first cs nums :
  parse_components str first cs = Ok nums → Forall (λ n, 0 ≤ n) nums.
Proof.
  revert first nums. induction cs as [|comp cs IH]; intros first nums; cbn; [by intros [= <-]|].
  destruct (_ && _ && _); [done|]. destruct (parse_uint comp) as [n|] eqn:E; [|done]. case_decide; [|done].
  rewrite bind_ok. intros (nums' & Hn%IH & [= <-]). constructor; [|done].
  unfold parse_uint in E. destruct comp; [done|]. by eapply parse_digits_nonneg; [|exact E].
Qed.

Lemma parse_components_itoa str first z cs nums :
  0 ≤ z → parse_components str first (itoa z :: cs) = Ok nums → ∃ nums', nums = z :: nums' ∧ parse_components str false cs = Ok nums'.
Proof.
  intros Hz. cbn. destruct (_ && _ && _); [done|]. rewrite parse_uint_itoa by done. case_decide; [|done].
  rewrite bind_ok. intros (nums' & Hn & [= <-]). eauto.
Qed.

Lemma less_than_2_16 a b nums :
  Forall (λ n, 0 ≤ n) nums → LessThan (a :: b :: nums) minGSSIAMVersion = false ↔ 2 < a ∨ a = 2 ∧ 16 ≤ b.
Proof.
  intros Hn. unfold LessThan, minGSSIAMVersion. rewrite bool_decide_eq_false. cbn [compareInternal].
  repeat case_decide; try lia. destruct nums as [|c nums]; cbn [compareInternal].
  { change (existsb _ [0]) with false. lia. }
  inversion_clear Hn. repeat case_decide; try lia. destruct nums; cbn [compareInternal]; [cbn; lia|].
  destruct (existsb _ _); lia.
Qed.

(** The tunable of the IAM upcall is taken to be there exactly from version 2.16 on, whatever
    follows the two numbers. *)
Theorem gssiam_from_2_16 verOut a b extra ok verStr :
  0 ≤ a → 0 ≤ b → next_is is_digit extra = false →
  trim_prefix (trim_space verOut) "version=" = itoa a +:+ "." +:+ itoa b +:+ extra →
  lustreSupportsGSSIAM verOut = (ok, verStr, None) →
  ok = true ↔ 2 < a ∨ a = 2 ∧ 16 ≤ b.
Proof.
  intros Ha Hb He Hv. unfold lustreSupportsGSSIAM. rewrite Hv. unfold ParseGeneric, split_numbers.
  set (str := itoa a +:+ "." +:+ itoa b +:+ extra).
  destruct (itoa_digits a Ha) as (c & t & Ea & Hc & _). destruct (itoa_digits b Hb) as (c' & t' & Eb & Hc' & _).
  assert (skip_spaces str = str ∧ drop_if (one_of ["v"]%char) str = str ∧ next_is is_digit str = true) as (-> & -> & ->).
  { unfold str. rewrite Ea, app_cons_str. unfold drop_if. cbn [skip_spaces next_is].
    assert (48 ≤ ascii_val c ≤ 57) as Hr by (by apply bool_decide_eq_true in Hc).
    rewrite decide_False by set_solver by lia. unfold one_of. rewrite bool_decide_false; [done|].
    rewrite list_elem_of_singleton. intros ->. done. }
  assert (∃ cs, (components (String.length str) str).1 = itoa a :: itoa b :: cs) as [cs Hcs].
  { assert (∃ fuel, String.length str = Datatypes.S fuel) as [fuel ->] by (unfold str; rewrite Ea, app_cons_str; cbn; eauto).
    unfold str. rewrite components_more; [|done|by rewrite Eb, app_cons_str].
    destruct (components_first fuel b extra Hb He) as [cs ->]. by eexists. }
  destruct (components _ str) as [comps ex]. cbn [fst] in Hcs. subst comps. destruct (has_char _ ex); [done|].
  cbn [length]. rewrite decide_False by lia.
  destruct (parse_components str true _) as [nums|e] eqn:Hp; [|done].
  pose proof (parse_components_nonneg _ _ _ _ Hp) as Hn.
  apply parse_components_itoa in Hp as (nums' & -> & Hp); [|done]. apply parse_components_itoa in Hp as (nums2 & -> & _); [|done].
  intros [= <- _]. rewrite negb_true_iff. apply less_than_2_16. by apply Forall_cons in Hn as [_ [_ Hn]%Forall_cons].
Qed.
End version.

Lemma gssiam_from_2_16_witness : true = true ↔ 2 < 2 ∨ 2 = 2 ∧ 16 ≤ 17.
Proof.
  apply (gssiam_from_2_16 ("version=2.17.0_12_g1234" +:+ newline) 2 17 ".0_12_g1234" true "2.17.0_12_g1234"); [lia|lia|done|done|].
  vm_compute. reflexivity.
Defined.
