(* ===== verification/Metrics.v ===== *)
(** * The metrics of the driver: pkg/metrics/metrics.go

    Three metrics are variables of the package; a manager has a registry, and what is registered there is what a
    scrape of the manager's endpoint shows.  A metric that has not been registered anywhere counts nothing (package
    k8s.io/component-base/metrics: metrics come into being when they are registered). *)
From S2P Require Import Prelude GoStr GoErr Json.

Local Open Scope string_scope.
Local Open Scope list_scope.
Local Open Scope Z_scope.

Definition envGKELustreCSIVersion := "GKE_LUSTRECSI_VERSION".

(** ** The variables and a registry *)

(** The metrics by their names [multi_nic], [component_version] and [labeled_volumes_total]. *)
Inductive metric : Type := MultiNic | ComponentVersion | LabeledVolumes.

#[export] Instance metric_eq_dec : EqDecision metric.
Proof. solve_decision. Defined.

(** The gauges by the value of their label, the counter, each once it has been created, and what the manager has registered. *)
Record metricsState : Type := MkMetrics {
  usingMultiNic : option (gmap string Z);
  gkeComponentVersion : option (gmap string Z);
  successfullyLabeledVolumes : option Z;
  registry : list metric;
}.

(** The state in which the program starts, with the registry of [NewMetricsManager]. *)
Definition NewMetricsManager : metricsState := MkMetrics None None None [].

(** ** Package metrics of component-base *)

(** A metric is created the first time it is registered. *)
Definition create (m : metric) (s : metricsState) : metricsState :=
  match m with
  | MultiNic => MkMetrics (Some (default ∅ (usingMultiNic s))) (gkeComponentVersion s) (successfullyLabeledVolumes s) (registry s)
  | ComponentVersion => MkMetrics (usingMultiNic s) (Some (default ∅ (gkeComponentVersion s))) (successfullyLabeledVolumes s) (registry s)
  | LabeledVolumes => MkMetrics (usingMultiNic s) (gkeComponentVersion s) (Some (default 0 (successfullyLabeledVolumes s))) (registry s)
  end.

Definition panic {S A} (msg : string) : M S goerr A := fail (ErrText ("panic: " +:+ msg)).

(** [MustRegister], which panics if the registry has the metric already; the failures of these computations are panics. *)
Definition MustRegister (m : metric) : M metricsState goerr () :=
  _ ← modify (create m);
  s ← gets id;
  if decide (m ∈ registry s) then panic "duplicate metrics collector registration attempted" else
  modify (λ s, MkMetrics (usingMultiNic s) (gkeComponentVersion s) (successfullyLabeledVolumes s) (m :: registry s)).

(** [utf8.ValidString], for which every character takes at most one round. *)
Fixpoint valid_utf8 (n : nat) (s : string) : bool :=
  match n, s with
  | _, "" => true
  | O, _ => false
  | Datatypes.S n', _ => match utf8_width s with O => false | w => valid_utf8 n' (str_drop w s) end
  end.
Definition ValidString (s : string) : bool := valid_utf8 (String.length s) s.

(** [WithLabelValues(v).Set(1.0)] on a gauge, which panics if [v] is not text. *)
Definition set_gauge (v : string) (gauge : option (gmap string Z)) : result goerr (option (gmap string Z)) :=
  match gauge with
  | None => Ok None
  | Some values =>
      if ValidString v then Ok (Some (<[v := 1]> values))
      else Err (ErrText ("panic: label value " +:+ quote v +:+ " is not valid UTF-8"))
  end.

(** ** The manager *)
Definition registerComponentVersionMetric : M metricsState goerr () := MustRegister ComponentVersion.
Definition registerUsingMultiNicMetric : M metricsState goerr () := MustRegister MultiNic.
Definition RegisterSuccessfullyLabeledVolumeMetric : M metricsState goerr () := MustRegister LabeledVolumes.

(** A counter is a number of 64 bits. *)
Definition RecordSuccessfullyLabeledVolume (s : metricsState) : metricsState :=
  MkMetrics (usingMultiNic s) (gkeComponentVersion s) ((λ n, (n + 1) `mod` 2 ^ 64) <$> successfullyLabeledVolumes s) (registry s).

(** [os.LookupEnv] of a variable with the value [env]. *)
Definition getEnvVar (env : option string) : string := default "" env.
Definition IsGKEComponentVersionAvailable (env : option string) : bool := negb (bool_decide (getEnvVar env = "")).

(** The inner result is the error that the function returns. *)
Definition recordComponentVersionMetric (env : option string) : M metricsState goerr (result goerr ()) :=
  let v := getEnvVar env in
  if decide (v = "") then
    mret (Err (ErrText ("failed to register GKE component version metric, env variable " +:+ envGKELustreCSIVersion +:+ " not defined")))
  else
    s ← gets id;
    g ← lift (set_gauge v (gkeComponentVersion s));
    _ ← modify (λ s, MkMetrics (usingMultiNic s) g (successfullyLabeledVolumes s) (registry s));
    mret (Ok ()).

Definition EmitGKEComponentVersion (env : option string) : M metricsState goerr (result goerr ()) :=
  _ ← registerComponentVersionMetric;
  recordComponentVersionMetric env.

Definition recordUsingMultiNicMetric (env : option string) : M metricsState goerr (result goerr ()) :=
  let v := getEnvVar env in
  if decide (v = "") then
    mret (Err (ErrText ("failed to record multi nic metric, env variable " +:+ envGKELustreCSIVersion +:+ " not defined")))
  else
    s ← gets id;
    g ← lift (set_gauge v (usingMultiNic s));
    _ ← modify (λ s, MkMetrics g (gkeComponentVersion s) (successfullyLabeledVolumes s) (registry s));
    mret (Ok ()).

Definition EmitUsingMultiNic (env : option string) : M metricsState goerr (result goerr ()) :=
  _ ← registerUsingMultiNicMetric;
  recordUsingMultiNicMetric env.

(** ** The endpoint *)

(** What a scrape shows of one metric. *)
Inductive sample : Type :=
| Gauge (name component_version : string) (value : Z)
| Counter (name : string) (value : Z).

#[export] Instance sample_eq_dec : EqDecision sample.
Proof. solve_decision. Defined.

Definition gauge_samples (name : string) (gauge : option (gmap string Z)) : list sample :=
  (λ '(v, z), Gauge name v z) <$> map_to_list (default ∅ gauge).

Definition collect (s : metricsState) (m : metric) : list sample :=
  match m with
  | MultiNic => gauge_samples "multi_nic" (usingMultiNic s)
  | ComponentVersion => gauge_samples "component_version" (gkeComponentVersion s)
  | LabeledVolumes => match successfullyLabeledVolumes s with Some n => [Counter "labeled_volumes_total" n] | None => [] end
  end.

(** [Gather] of the registry; the order of the metrics is that of their names, which plays no role here. *)
Definition Gather (s : metricsState) : list sample := registry s ≫= collect s.

(** Package net/http: the first registration of a pattern with a new multiplexer, which may panic. *)
Class ServeMux : Type := {
  Handle : string → result goerr ();
}.

(** The goroutine of [InitializeHTTPHandler], whose failure to listen ends the program: the address and the path that it serves. *)
Record metricsServer : Type := MkMetricsServer { metrics_address : string; metrics_path : string }.

Definition registerToServer `{ServeMux} (metricsPath : string) : result goerr () := Handle metricsPath.

Definition InitializeHTTPHandler `{ServeMux} (address path : string) : result goerr metricsServer :=
  _ ← registerToServer path;
  Ok (MkMetricsServer address path).
