(* ===== verification/Label.v ===== *)
(** * The label controller: pkg/labelcontroller/label_controller.go

    A reconciler over the cluster's PersistentVolumes: the Lustre instance behind a volume of this driver
    gets a label that says who manages it, unless it carries that label or the one the driver sets when
    it creates an instance.  The counter is the one of pkg/metrics/metrics.go. *)
From S2P Require Import Prelude GoStr GoErr Util Instance Params Csi Driver Service Controller Metrics.

Local Open Scope string_scope.
Local Open Scope list_scope.
Local Open Scope Z_scope.

Definition managedByLabelKey := "storage_gke_io_managed-by".
Definition createdByLabelKey := "storage_gke_io_created-by".
Definition lustreCSILabelValue := "lustre_csi_storage_gke_io".
Definition csiDriverName := "lustre.csi.storage.gke.io".

(** A PersistentVolume: its CSI source, if it has one. *)
Record CSISource : Type := MkCSISource { PvDriver : string; VolumeHandle : string }.
Record PersistentVolume : Type := MkPersistentVolume { PvName : string; PvCSI : option CSISource }.

(** What the cluster answers for a request. *)
Inductive pv_lookup : Type :=
| PvFound (pv : PersistentVolume)
| PvNotFound
| PvError (err : goerr).

(** The cloud and the metrics. *)
Record reconcilerState (S : Type) : Type := MkReconcilerState {
  lustreService : S;
  metricsManager : metricsState;
}.
Arguments MkReconcilerState {S} _ _.
Arguments lustreService {S} _.
Arguments metricsManager {S} _.

Section reconciler.
Context {S : Type} `{LustreService S}.

Definition on_service {A} (m : M S goerr A) : M (reconcilerState S) goerr A := λ s,
  let '(r, svc) := m (lustreService s) in (r, MkReconcilerState svc (metricsManager s)).

Definition record_labeled : M (reconcilerState S) goerr () :=
  modify (λ s, MkReconcilerState (lustreService s) (RecordSuccessfullyLabeledVolume (metricsManager s))).

(** The loop over the two keys. *)
Definition has_driver_label (instance : ServiceInstance) : bool :=
  existsb (λ key, bool_decide (Labels instance !! key = Some lustreCSILabelValue)) [managedByLabelKey; createdByLabelKey].

(** The volume's instance, labelled. *)
Definition label_instance (pv : PersistentVolume) (lustreInstance : ServiceInstance) : M (reconcilerState S) goerr () :=
  if has_driver_label lustreInstance then mret () else
  let lustreInstance := set_Labels (<[managedByLabelKey := lustreCSILabelValue]> (Labels lustreInstance)) lustreInstance in
  r ← attempt (on_service (UpdateInstance lustreInstance));
  match r with
  | Err err => fail (ErrWrap ("failed to update lustre instance for PV " +:+ PvName pv +:+ ": " +:+ error_text err) err)
  | Ok _ => record_labeled
  end.

Definition Reconcile (request : string) (get : pv_lookup) : M (reconcilerState S) goerr () :=
  match get with
  | PvNotFound => mret ()
  | PvError err => fail (ErrWrap ("failed to get PV " +:+ request +:+ ": " +:+ error_text err) err)
  | PvFound pv =>
      match PvCSI pv with
      | None => mret ()
      | Some csi =>
          if decide (PvDriver csi ≠ csiDriverName) then mret () else
          match volumeIDToInstance (VolumeHandle csi) with
          | Err err => fail (ErrWrap ("failed to get lustre instance for PV " +:+ PvName pv +:+ ": " +:+ error_text err) err)
          | Ok instance =>
              r ← attempt (on_service (GetInstance instance));
              match r with
              | Err err =>
                  if LustreErr.IsNotFoundErr err then mret ()
                  else if LustreErr.IsPermissionDeniedErr err then mret ()
                  else fail (ErrWrap ("failed to get lustre instance for PV " +:+ PvName pv +:+ ": " +:+ error_text err) err)
              | Ok lustreInstance => label_instance pv lustreInstance
              end
          end
      end
  end.
End reconciler.

(** ** [Start] *)
Definition leaderElectionID := "lustre-csi-label-controller-leader-election".

Record ManagerOptions : Type := MkManagerOptions {
  LeaderElection : bool;
  LeaderElectionID : string;
  LeaderElectionNamespace : string;
  MetricsBindAddress : string;
}.

(** Package controller-runtime: the cluster's configuration, a manager, a controller of it for PersistentVolumes, and its run, which
    lasts until the program ends it or it fails. *)
Class ControllerRuntime (S : Type) : Type := {
  RestConfig : Type;
  GetConfig : M S goerr RestConfig;
  NewManager : RestConfig → ManagerOptions → M S goerr ();
  Complete : M S goerr ();
  StartManager : M S goerr ();
}.

Definition Start {S} `{ControllerRuntime S} (leaderElectionNamespace : string) : M S goerr () :=
  cfg ← wrap "unable to load kubernetes config" GetConfig;
  _ ← wrap "unable to start manager" (NewManager cfg (MkManagerOptions true leaderElectionID leaderElectionNamespace "0"));
  _ ← wrap "unable to create controller" Complete;
  wrap "problem running manager" StartManager.

(** ** What the reconciler relies on: in the states [service_inv] describes, a change of labels that the
    service accepts is there when the instance is read again. *)
Class LabelLaws (S : Type) `{LustreService S} : Type := {
  service_inv : S → Prop;
  label_get i s j s1 l s2 :
    service_inv s → GetInstance i s = (Ok j, s1) → UpdateInstance (set_Labels l j) s1 = (Ok (), s2) →
    GetInstance i s2 = (Ok (set_Labels l j), s2) ∧ service_inv s2;
  inv_get i s r s1 : service_inv s → GetInstance i s = (r, s1) → service_inv s1;
}.

(** The fake service keeps every instance under its own name. *)
Definition fake_inv (sm : Fake.t) : Prop := map_Forall (λ name i, Name i = name) sm.

#[export] Instance fake_label_laws : @LabelLaws Fake.t Fake.service.
Proof.
  refine {| service_inv := fake_inv |}.
  - intros i sm j s1 l s2 Hinv. cbn. unfold Fake.GetInstance, Fake.UpdateInstance.
    destruct (sm !! Name i) as [k|] eqn:E; [|done]. intros [= <- <-]. pose proof (Hinv _ _ E) as Hn. cbn in *.
    rewrite Hn, E. intros [= <-]. rewrite lookup_insert_eq. split; [by destruct k|].
    apply map_Forall_insert_2; [by destruct k|done].
  - intros i sm r s1 Hinv. cbn. unfold Fake.GetInstance. by case_match; intros [= <- <-].
Defined.
