(* ===== verification/LabelSpec.v ===== *)
(** * What the label controller does

    An instance behind a volume of the driver ends up with a label of the driver, once; instances the
    driver created are left alone, which ties the controller's tags (Controller.v) to the reconciler;
    and a reconcile is retried in exactly the cases listed. *)
From S2P Require Import Prelude GoStr GoErr Util Instance Params Csi Driver Service Controller ControllerSpec Metrics Label.

Local Open Scope string_scope.
Local Open Scope list_scope.
Local Open Scope Z_scope.

Definition relabelled (j : ServiceInstance) : ServiceInstance :=
  set_Labels (<[managedByLabelKey := lustreCSILabelValue]> (Labels j)) j.

Lemma relabelled_has_label j : has_driver_label (relabelled j) = true.
Proof. unfold has_driver_label, relabelled. cbn. by rewrite lookup_insert_eq, bool_decide_true. Qed.

Lemma has_created_by_label j : Labels j !! createdByLabelKey = Some lustreCSILabelValue → has_driver_label j = true.
Proof. intros Hj. unfold has_driver_label. cbn. rewrite Hj. rewrite (bool_decide_true (Some _ = _)) by done. by rewrite orb_true_r. Qed.

(** A volume of the driver and the instance its handle names. *)
Definition volume_of (pv : PersistentVolume) (i : ServiceInstance) : Prop :=
  ∃ handle, PvCSI pv = Some (MkCSISource csiDriverName handle) ∧ volumeIDToInstance handle = Ok i.

Section reconcile.
Context {S : Type} `{LustreService S}.
Implicit Types s : reconcilerState S.

Lemma Reconcile_volume request pv i s :
  volume_of pv i →
  Reconcile request (PvFound pv) s =
    match GetInstance i (lustreService s) with
    | (Ok j, svc) => label_instance pv j (MkReconcilerState svc (metricsManager s))
    | (Err err, svc) =>
        (if LustreErr.IsNotFoundErr err || LustreErr.IsPermissionDeniedErr err then Ok ()
         else Err (ErrWrap ("failed to get lustre instance for PV " +:+ PvName pv +:+ ": " +:+ error_text err) err),
         MkReconcilerState svc (metricsManager s))
    end.
Proof.
  intros (handle & Hc & Hi). unfold Reconcile. rewrite Hc. cbn [PvDriver VolumeHandle].
  rewrite decide_False by (intros Hn; by apply Hn). rewrite Hi, bind_unfold. unfold attempt, on_service.
  destruct (GetInstance i (lustreService s)) as [[j|err] svc]; [done|].
  by destruct (LustreErr.IsNotFoundErr err), (LustreErr.IsPermissionDeniedErr err).
Qed.

Lemma label_instance_labelled pv j s : has_driver_label j = true → label_instance pv j s = (Ok (), s).
Proof. intros Hj. unfold label_instance. by rewrite Hj. Qed.

(** A label that is missing is set, and counted once it is. *)
Lemma label_instance_missing pv j s r s' :
  has_driver_label j = false → label_instance pv j s = (r, s') →
  ∃ svc, (UpdateInstance (relabelled j) (lustreService s)).2 = svc ∧
    is_ok r = is_ok (UpdateInstance (relabelled j) (lustreService s)).1 ∧
    s' = MkReconcilerState svc ((if is_ok r then RecordSuccessfullyLabeledVolume else id) (metricsManager s)).
Proof.
  intros Hj. unfold label_instance. rewrite Hj, bind_unfold. unfold attempt, on_service. fold (relabelled j).
  destruct (UpdateInstance (relabelled j) (lustreService s)) as [[[]|e] svc]; intros [= <- <-]; by exists svc.
Qed.

(** A reconcile fails, and is tried again, exactly when the volume cannot be read, its handle
    names no instance, the service refuses to read the instance for another reason than that it does not
    exist or is not accessible, or it refuses the label. *)
Theorem reconcile_fails_iff request get s :
  is_ok (result_in (Reconcile request get) s) = false ↔
  (∃ err, get = PvError err) ∨
  ∃ pv handle, get = PvFound pv ∧ PvCSI pv = Some (MkCSISource csiDriverName handle) ∧
    match volumeIDToInstance handle with
    | Err _ => True
    | Ok i =>
        match GetInstance i (lustreService s) with
        | (Err err, _) => LustreErr.IsNotFoundErr err = false ∧ LustreErr.IsPermissionDeniedErr err = false
        | (Ok j, svc) => has_driver_label j = false ∧ is_ok (UpdateInstance (relabelled j) svc).1 = false
        end
    end.
Proof.
  unfold result_in. destruct get as [pv| |err].
  2: { cbn. split; [done|]. intros [[? ?]|(? & ? & ? & _)]; done. }
  2: { cbn. split; [eauto|done]. }
  destruct (PvCSI pv) as [[driver handle]|] eqn:Hc; cycle 1.
  { unfold Reconcile. rewrite Hc. split; [done|]. intros [[? ?]|(pv' & ? & [= <-] & ? & _)]; congruence. }
  destruct (decide (driver = csiDriverName)) as [->|Hd]; cycle 1.
  { unfold Reconcile. rewrite Hc. cbn [PvDriver]. rewrite decide_True by done.
    split; [done|]. intros [[? ?]|(pv' & ? & [= <-] & ? & _)]; congruence. }
  transitivity (match volumeIDToInstance handle with
    | Err _ => True
    | Ok i => match GetInstance i (lustreService s) with
        | (Err err, _) => LustreErr.IsNotFoundErr err = false ∧ LustreErr.IsPermissionDeniedErr err = false
        | (Ok j, svc) => has_driver_label j = false ∧ is_ok (UpdateInstance (relabelled j) svc).1 = false
        end
    end); cycle 1.
  { split; [intros Hm; right; by exists pv, handle|]. intros [[? ?]|(pv' & h' & [= <-] & Hc' & Hm)]; [done|].
    rewrite Hc in Hc'. injection Hc' as <-. exact Hm. }
  destruct (volumeIDToInstance handle) as [i|e] eqn:Hi; cycle 1.
  { unfold Reconcile. rewrite Hc. cbn [PvDriver VolumeHandle]. rewrite decide_False by (intros Hn; by apply Hn). by rewrite Hi. }
  rewrite (Reconcile_volume _ _ i) by (by exists handle).
  destruct (GetInstance i (lustreService s)) as [[j|err] svc].
  - destruct (has_driver_label j) eqn:Hj; [by rewrite label_instance_labelled by done; naive_solver|].
    destruct (label_instance _ _ _) as [r s'] eqn:E. apply label_instance_missing in E as (? & _ & Hok & _); [|done].
    cbn in *. rewrite Hok. tauto.
  - destruct (LustreErr.IsNotFoundErr err), (LustreErr.IsPermissionDeniedErr err); cbn; naive_solver.
Qed.

(** After a successful reconcile of a volume whose instance exists, the instance carries a label
    of the driver and is otherwise as it was; the counter went up if the label was new; and another
    reconcile of the volume changes nothing. *)
Theorem reconcile_labels_instance `{!LustreServiceLaws S, !LabelLaws S} request pv i j s s' :
  service_inv (lustreService s) → volume_of pv i → result_in (GetInstance i) (lustreService s) = Ok j →
  Reconcile request (PvFound pv) s = (Ok (), s') →
  let j' := if has_driver_label j then j else relabelled j in
  has_driver_label j' = true ∧ GetInstance i (lustreService s') = (Ok j', lustreService s') ∧
  metricsManager s' = (if has_driver_label j then id else RecordSuccessfullyLabeledVolume) (metricsManager s) ∧
  Reconcile request (PvFound pv) s' = (Ok (), s').
Proof.
  intros Hinv Hv Hj. rewrite (Reconcile_volume _ _ i) by done.
  apply run_state in Hj. rewrite Hj. set (svc := state_after _ _).
  destruct (has_driver_label j) eqn:El.
  - rewrite label_instance_labelled by done. intros [= <-]. cbn [lustreService metricsManager].
    apply get_repeatable in Hj. rewrite (Reconcile_volume _ _ i) by done. cbn [lustreService metricsManager]. fold svc in Hj. rewrite Hj.
    rewrite label_instance_labelled by done. split_and!; [done..].
  - intros Hm. apply label_instance_missing in Hm as (svc' & Hu & Hok & ->); [|done].
    cbn [lustreService metricsManager is_ok] in *.
    destruct (UpdateInstance (relabelled j) svc) as [[[]|e] svc2] eqn:E; [cbn [snd] in Hu; subst svc'|done].
    destruct (label_get i _ _ _ _ _ Hinv Hj E) as [Hg _]. fold (relabelled j) in Hg.
    split_and!; [apply relabelled_has_label|done|done|].
    rewrite (Reconcile_volume _ _ i) by done. cbn [lustreService]. rewrite Hg. apply label_instance_labelled, relabelled_has_label.
Qed.

(** An instance with the labels that CreateVolume gives it is left alone by the label controller. *)
Theorem created_volumes_not_relabelled `{!MapRange} input params m request pv i j svc s :
  normalizeParams input = Ok params → extractLabels params DefaultName = Ok m →
  volume_of pv i → GetInstance i (lustreService s) = (Ok j, svc) → Labels j = m →
  Reconcile request (PvFound pv) s = (Ok (), MkReconcilerState svc (metricsManager s)).
Proof.
  intros Hn Hm Hv Hg Hl. rewrite (Reconcile_volume _ _ i), Hg by done. apply label_instance_labelled, has_created_by_label.
  apply (extractLabels_ok _ _ _ _ Hn) in Hm as (sc & _ & Hd & ->). rewrite Hl. apply lookup_union_Some_r; [done|].
  by rewrite created_by_label.
Qed.
End reconcile.

(** ** Witnesses, on the fake cloud *)
#[local] Existing Instance Fake.service.
#[local] Existing Instance Fake.laws.
#[local] Existing Instance map_range_default.

Definition test_pv : PersistentVolume :=
  MkPersistentVolume "pv" (Some (MkCSISource csiDriverName "test-project/us-central1-a/existing-instance")).
Definition test_ref : ServiceInstance := instance_ref "test-project" "us-central1-a" "existing-instance".
Definition test_cloud : reconcilerState Fake.t := MkReconcilerState Fake.existingInstances NewMetricsManager.

Lemma test_volume : volume_of test_pv test_ref.
Proof. eexists. split; [done|]. vm_compute. reflexivity. Qed.

Lemma reconcile_labels_instance_witness :
  let j := Fake.existing "existing-instance" "existing" "192.168.1.1" Fake.activeState in
  let s' := state_after (Reconcile "pv" (PvFound test_pv)) test_cloud in
  let j' := if has_driver_label j then j else relabelled j in
  has_driver_label j' = true ∧ GetInstance test_ref (lustreService s') = (Ok j', lustreService s') ∧
  metricsManager s' = (if has_driver_label j then id else RecordSuccessfullyLabeledVolume) (metricsManager test_cloud) ∧
  Reconcile "pv" (PvFound test_pv) s' = (Ok (), s').
Proof.
  cbn zeta.
  apply (reconcile_labels_instance "pv" test_pv test_ref
    (Fake.existing "existing-instance" "existing" "192.168.1.1" Fake.activeState) test_cloud).
  - decided.
  - apply test_volume.
  - vm_compute. reflexivity.
  - runs (Reconcile "pv" (PvFound test_pv)) test_cloud (Ok () : result goerr ()).
Defined.

Lemma created_volumes_not_relabelled_witness :
  let params : gmap string string := ∅ in
  let m : gmap string string := {[ tagKeyCreatedBy := lustreCSILabelValue ]} in
  let j := set_Labels m (Fake.existing "existing-instance" "existing" "192.168.1.1" Fake.activeState) in
  let s := MkReconcilerState (<["existing-instance" := j]> Fake.existingInstances) NewMetricsManager in
  Reconcile "pv" (PvFound test_pv) s = (Ok (), s).
Proof.
  cbn zeta.
  apply (created_volumes_not_relabelled ∅ ∅ {[ tagKeyCreatedBy := lustreCSILabelValue ]} "pv" test_pv test_ref
    (set_Labels {[ tagKeyCreatedBy := lustreCSILabelValue ]}
       (Fake.existing "existing-instance" "existing" "192.168.1.1" Fake.activeState))).
  - vm_compute. reflexivity.
  - vm_compute. reflexivity.
  - apply test_volume.
  - cbn. unfold Fake.GetInstance. change (Name test_ref) with "existing-instance". by rewrite lookup_insert_eq.
  - reflexivity.
Defined.
