(* ===== verification/LabelRun.v ===== *)
(** * The label controller as it runs

    The manager that [Start] sets up takes the volumes of the cluster from a queue, one at a time, and puts one whose
    reconcile failed back.  Everything that can happen is a step, also whatever anybody else does to the instances: that
    takes note of the volumes whose instance it changes.  What holds in every state that the steps reach is that a volume
    that is not in the queue and whose instance nobody else changed since its last reconcile needs nothing any more. *)
From stdpp Require Import relations.
From S2P Require Import Prelude GoStr GoErr Util Instance Params Csi Driver Service Metrics Label LabelSpec.

Local Open Scope string_scope.
Local Open Scope list_scope.
Local Open Scope Z_scope.

(** ** What is relied on: reading changes nothing that can be read, and an update of an instance's labels, also one that fails,
    nothing but labels that it sets *)
Class LabelRunLaws (S : Type) `{LabelLaws S} : Prop := {
  get_same i i' s : service_inv s → (GetInstance i' (GetInstance i s).2).1 = (GetInstance i' s).1;
  label_others i i' s j s1 l :
    service_inv s → GetInstance i s = (Ok j, s1) →
    let s2 := (UpdateInstance (set_Labels l j) s1).2 in
    service_inv s2 ∧
    ((GetInstance i' s2).1 = (GetInstance i' s1).1 ∨ ∃ k, (GetInstance i' s2).1 = Ok (set_Labels l k));
}.

#[export] Instance fake_label_run_laws : @LabelRunLaws Fake.t Fake.service fake_label_laws.
Proof.
  split.
  - intros i i' sm _. cbn. unfold Fake.GetInstance. by destruct (sm !! Name i).
  - intros i i' sm j s1 l Hinv. cbn. unfold Fake.GetInstance, Fake.UpdateInstance.
    destruct (sm !! Name i) as [k|] eqn:E; [|done]. intros [= <- <-]. pose proof (Hinv _ _ E) as Hn. cbn in *.
    rewrite Hn, E. cbn. split; [apply map_Forall_insert_2; [by destruct k|done]|].
    destruct (decide (Name i' = Name i)) as [->|Hi].
    + rewrite lookup_insert_eq. right. by exists k.
    + rewrite lookup_insert_ne by done. left. by destruct (sm !! Name i').
Qed.

(** ** The manager *)
Inductive phase : Type := Candidate | Leading | Stopped.

Record labelManager (S : Type) : Type := MkLabelManager {
  leader : phase;
  cache : gmap string PersistentVolume;   (* the cluster's volumes, as the manager knows them *)
  queue : gset string;
  disturbed : gset string;                (* the volumes whose instance somebody else changed since their last reconcile: not
                                             in the code, no step looks at it *)
  reconciler : reconcilerState S;
}.
Arguments MkLabelManager {S} _ _ _ _ _.
Arguments leader {S} _.
Arguments cache {S} _.
Arguments queue {S} _.
Arguments disturbed {S} _.
Arguments reconciler {S} _.

(** What a read of a volume may give. *)
Definition may_read (cache : gmap string PersistentVolume) (name : string) (get : pv_lookup) : Prop :=
  match get with
  | PvFound pv => cache !! name = Some pv
  | PvNotFound => cache !! name = None
  | PvError _ => True
  end.

Section run.
Context {S : Type} `{LabelLaws S}.
Implicit Types rs : reconcilerState S.

(** Nothing is left to do for a volume. *)
Definition settled (pv : PersistentVolume) (s : S) : Prop :=
  match PvCSI pv with
  | None => True
  | Some csi =>
      PvDriver csi = csiDriverName →
      ∃ i, volumeIDToInstance (VolumeHandle csi) = Ok i ∧
        match (GetInstance i s).1 with
        | Ok j => has_driver_label j = true
        | Err err => LustreErr.IsNotFoundErr err = true ∨ LustreErr.IsPermissionDeniedErr err = true
        end
  end.

(** Somebody else changes what is read of no volume of the cluster but of those that [ns] names. *)
Definition disturbs (c : gmap string PersistentVolume) (ns : gset string) (s s' : S) : Prop :=
  ∀ name pv i, c !! name = Some pv → name ∉ ns → volume_of pv i → (GetInstance i s').1 = (GetInstance i s).1.

Inductive manager_step : labelManager S → labelManager S → Prop :=
| step_elected c q d rs :   (* the controller starts with every volume *)
    manager_step (MkLabelManager Candidate c q d rs) (MkLabelManager Leading c (dom c) d rs)
| step_applied p c q d rs name pv :   (* a volume appears, changes, or is seen again *)
    manager_step (MkLabelManager p c q d rs) (MkLabelManager p (<[name := pv]> c) ({[ name ]} ∪ q) d rs)
| step_deleted p c q d rs name :
    manager_step (MkLabelManager p c q d rs) (MkLabelManager p (delete name c) ({[ name ]} ∪ q) d rs)
| step_reconciled c q d rs name get rs' :
    name ∈ q → may_read c name get → Reconcile name get rs = (Ok (), rs') →
    manager_step (MkLabelManager Leading c q d rs) (MkLabelManager Leading c (q ∖ {[ name ]}) (d ∖ {[ name ]}) rs')
| step_requeued c q d rs name get err rs' :
    name ∈ q → may_read c name get → Reconcile name get rs = (Err err, rs') →
    manager_step (MkLabelManager Leading c q d rs) (MkLabelManager Leading c q d rs')
| step_cloud p c q d rs s' ns :   (* anybody else does anything to the cloud *)
    service_inv s' → disturbs c ns (lustreService rs) s' →
    manager_step (MkLabelManager p c q d rs) (MkLabelManager p c q (ns ∪ d) (MkReconcilerState s' (metricsManager rs)))
| step_stopped p c q d rs : manager_step (MkLabelManager p c q d rs) (MkLabelManager Stopped c q d rs).

(** ** What a reconcile leaves *)
Context `{!LabelRunLaws S}.

(** A change of the service that keeps volumes settled. *)
Definition keeps_settled (s s' : S) : Prop := service_inv s' ∧ ∀ pv, settled pv s → settled pv s'.

#[local] Instance keeps_settled_trans : Transitive keeps_settled.
Proof. intros s1 s2 s3 [_ H1] [Hi H2]. split; auto. Qed.

Lemma settled_reads pv s s' :
  (∀ i, (GetInstance i s').1 = (GetInstance i s).1 ∨ ∃ j, (GetInstance i s').1 = Ok j ∧ has_driver_label j = true) →
  settled pv s → settled pv s'.
Proof.
  unfold settled. destruct (PvCSI pv) as [csi|]; [|done]. intros Hr Hs Hd. destruct (Hs Hd) as (i & Hi & Hj).
  exists i. split; [done|]. destruct (Hr i) as [->|(j & -> & ?)]; done.
Qed.

Lemma get_keeps i s : service_inv s → keeps_settled s (GetInstance i s).2.
Proof.
  intros Hs. split.
  - destruct (GetInstance i s) as [r s1] eqn:E. by eapply inv_get.
  - intros pv. apply settled_reads. intros i'. left. by apply get_same.
Qed.

Lemma label_keeps i s j s1 :
  service_inv s → GetInstance i s = (Ok j, s1) → keeps_settled s1 (UpdateInstance (relabelled j) s1).2.
Proof.
  intros Hs Hj. split; [by apply (label_others i i s j s1 _ Hs Hj)|]. intros pv. apply settled_reads. intros i'.
  destruct (label_others i i' s j s1 (<[managedByLabelKey:=lustreCSILabelValue]> (Labels j)) Hs Hj) as [_ [Hr|[k Hk]]]; [by left|right]. exists (set_Labels (<[managedByLabelKey:=lustreCSILabelValue]> (Labels j)) k).
  split; [exact Hk|]. unfold has_driver_label. cbn. by rewrite lookup_insert_eq, bool_decide_true.
Qed.

Lemma disturbs_settled c ns s s' name pv :
  disturbs c ns s s' → c !! name = Some pv → name ∉ ns → settled pv s → settled pv s'.
Proof.
  unfold settled. destruct (PvCSI pv) as [[drv handle]|] eqn:Hv; [|done]. cbn. intros Hd Hc Hn Hs ->.
  destruct (Hs eq_refl) as (i & Hi & Hj). exists i. split; [done|]. rewrite (Hd name pv i Hc Hn); [done|].
  by exists handle.
Qed.

(** A reconcile keeps what is settled, and what it succeeds on is. *)
Lemma Reconcile_settles name get rs r rs' :
  service_inv (lustreService rs) → Reconcile name get rs = (r, rs') →
  keeps_settled (lustreService rs) (lustreService rs') ∧
  (r = Ok () → ∀ pv, get = PvFound pv → settled pv (lustreService rs')).
Proof.
  intros Hinv. assert (keeps_settled (lustreService rs) (lustreService rs)) as Hrefl by by split.
  unfold Reconcile, settled. destruct get as [pv| |err]; [|by intros [= <- <-]..].
  destruct (PvCSI pv) as [csi|] eqn:Hc; [|intros [= <- <-]; split; [done|]; intros _ ? [= <-]; by rewrite Hc].
  case_decide as Hd; [intros [= <- <-]; split; [done|]; intros _ ? [= <-]; by rewrite Hc|].
  destruct (volumeIDToInstance (VolumeHandle csi)) as [i|e] eqn:Hi; [|by intros [= <- <-]].
  rewrite bind_unfold. unfold attempt, on_service. pose proof (get_keeps i _ Hinv) as Hk.
  pose proof (get_same i i _ Hinv) as Hs. destruct (GetInstance i (lustreService rs)) as [[j|e] s1] eqn:Hg; cbn [fst snd] in *; cycle 1.
  { intros Hr. assert (rs' = MkReconcilerState s1 (metricsManager rs)) as -> by (by repeat case_match; injection Hr).
    split; [done|]. intros -> ? [= <-]. rewrite Hc. intros _. exists i. split; [done|]. cbn [lustreService]. rewrite Hs.
    destruct (LustreErr.IsNotFoundErr e); [by left|]. destruct (LustreErr.IsPermissionDeniedErr e); [by right|done]. }
  destruct (has_driver_label j) eqn:Hj.
  { rewrite label_instance_labelled by done. intros [= <- <-]. split; [done|]. intros _ ? [= <-]. rewrite Hc.
    intros _. exists i. split; [done|]. cbn [lustreService]. by rewrite Hs. }
  intros Hr. apply label_instance_missing in Hr as (svc & <- & Hok & ->); [|done]. cbn [lustreService] in *.
  split; [etrans; [exact Hk|]; by eapply label_keeps|].
  intros -> ? [= <-]. rewrite Hc. intros _. exists i. split; [done|].
  destruct (UpdateInstance (relabelled j) s1) as [[[]|e] s2] eqn:E; [|done]. cbn [snd].
  destruct (label_get i _ _ _ _ _ Hinv Hg E) as [Hl _]. rewrite Hl. apply relabelled_has_label.
Qed.

(** ** The invariant *)
Definition manager_inv (m : labelManager S) : Prop :=
  service_inv (lustreService (reconciler m)) ∧
  (leader m = Leading → ∀ name pv, cache m !! name = Some pv → name ∉ queue m → name ∉ disturbed m →
     settled pv (lustreService (reconciler m))).

Lemma manager_step_inv m m' : manager_inv m → manager_step m m' → manager_inv m'.
Proof.
  intros [Hinv Hq] Hst. unfold manager_inv.
  destruct Hst as [c q d rs|p c q d rs name pv|p c q d rs name|c q d rs name get rs' Hn Hm Hr
    |c q d rs name get err rs' Hn Hm Hr|p c q d rs s' ns Hs Hk|p c q d rs];
    cbn [leader cache queue disturbed reconciler lustreService] in *.
  - split; [done|]. intros _ name pv Hc. apply elem_of_dom_2 in Hc. done.
  - split; [done|]. intros Hl name' pv'. destruct (decide (name' = name)) as [->|]; [set_solver|].
    rewrite lookup_insert_ne by done. intros Hc Hn. apply (Hq Hl _ _ Hc). set_solver.
  - split; [done|]. intros Hl name' pv' [? Hc]%lookup_delete_Some Hn. apply (Hq Hl _ _ Hc). set_solver.
  - destruct (Reconcile_settles _ _ _ _ _ Hinv Hr) as [[Hi Hk] Hs]. split; [done|]. intros Hl name' pv' Hc Hn' Hd.
    destruct (decide (name' = name)) as [->|]; [|apply Hk, (Hq Hl _ _ Hc); set_solver].
    destruct get as [pv| |err]; cbn in Hm; [apply Hs; congruence|congruence|by injection Hr].
  - apply Reconcile_settles in Hr as [[Hi Hk] _]; [|done]. split; [done|]. intros Hl name' pv' Hc Hn' Hd. by apply Hk, (Hq Hl _ _ Hc).
  - split; [done|]. intros Hl name' pv' Hc Hn' Hd. eapply disturbs_settled; [exact Hk|exact Hc|set_solver|].
    apply (Hq Hl _ _ Hc Hn'). set_solver.
  - by split.
Qed.

Lemma manager_reachable_inv m m' : manager_inv m → rtc manager_step m m' → manager_inv m'.
Proof. intros Hm Hst. revert Hm. induction Hst; eauto using manager_step_inv. Qed.

(** What a read of a volume gives when it succeeds. *)
Definition cached (c : gmap string PersistentVolume) (name : string) : pv_lookup :=
  match c !! name with Some pv => PvFound pv | None => PvNotFound end.

Lemma drain c q d rs :
  (∀ name rs, service_inv (lustreService rs) → is_ok (result_in (Reconcile name (cached c name)) rs) = true) →
  service_inv (lustreService rs) →
  ∃ rs', rtc manager_step (MkLabelManager Leading c q d rs) (MkLabelManager Leading c ∅ (d ∖ q) rs').
Proof.
  intros Hok. revert d rs. induction q as [|name q Hn IH] using set_ind_L; intros d rs Hinv.
  { exists rs. by rewrite difference_empty_L. }
  pose proof (Hok name rs Hinv) as [u Hr]%is_ok_true. destruct u. apply run_state in Hr.
  destruct (Reconcile_settles _ _ _ _ _ Hinv Hr) as [[Hi _] _]. destruct (IH (d ∖ {[ name ]}) _ Hi) as [rs' Hst]. exists rs'.
  rewrite <- difference_difference_l_L in *. eapply rtc_l; [|exact Hst].
  replace q with (({[ name ]} ∪ q) ∖ {[ name ]}) at 2 by set_solver.
  eapply step_reconciled; [set_solver| |exact Hr]. unfold cached. by destruct (c !! name) eqn:E.
Qed.

(** What is settled is labelled, if it can be read. *)
Lemma settled_label pv i j s svc :
  settled pv s → volume_of pv i → GetInstance i s = (Ok j, svc) → has_driver_label j = true.
Proof.
  intros Hs (handle & Hv & Hi) Hg. unfold settled in Hs. rewrite Hv in Hs. destruct (Hs eq_refl) as (i' & Hi' & Hj).
  cbn [VolumeHandle] in Hi'. rewrite Hi in Hi'. injection Hi' as <-. by rewrite Hg in Hj.
Qed.

(** Claim C37. Whatever happens to the cluster, and whatever anybody else does to the cloud, once the controller leads, the
    instance of a volume that is not in the queue, and that nobody else changed since the volume's last
    reconcile, carries a label of the driver, if it can be read; and if reconciles succeed, the controller can go
    on until the queue is empty, and then the instances of all volumes carry one but of those that
    somebody else changed without the volume being put back into the queue. *)
Theorem unqueued_volumes_labelled c q d rs m :
  service_inv (lustreService rs) → rtc manager_step (MkLabelManager Candidate c q d rs) m → leader m = Leading →
  (∀ name pv i j svc, cache m !! name = Some pv → name ∉ queue m → name ∉ disturbed m → volume_of pv i →
     GetInstance i (lustreService (reconciler m)) = (Ok j, svc) → has_driver_label j = true) ∧
  ((∀ name rs, service_inv (lustreService rs) → is_ok (result_in (Reconcile name (cached (cache m) name)) rs) = true) →
   ∃ rs', rtc manager_step m (MkLabelManager Leading (cache m) ∅ (disturbed m ∖ queue m) rs') ∧
     ∀ name pv i j svc, cache m !! name = Some pv → (name ∈ queue m ∨ name ∉ disturbed m) → volume_of pv i →
       GetInstance i (lustreService rs') = (Ok j, svc) → has_driver_label j = true).
Proof.
  intros Hinv Hst Hl. assert (manager_inv m) as Hm.
  { eapply manager_reachable_inv; [|exact Hst]. by split. }
  split; [intros name pv i j svc Hc Hn Hd; apply settled_label; by apply (proj2 Hm Hl name)|].
  intros Hok. destruct m as [p c' q' d' rs1]. cbn [leader cache queue disturbed] in *. subst p.
  destruct (drain c' q' d' rs1 Hok (proj1 Hm)) as [rs' Hd]. exists rs'. split; [exact Hd|].
  intros name pv i j svc Hc Hn. apply settled_label.
  apply (proj2 (manager_reachable_inv _ _ Hm Hd) eq_refl name pv Hc); cbn; set_solver.
Qed.
End run.

(** ** A witness on the fake cloud, with one volume *)
#[local] Existing Instance Fake.service.

Definition test_cache : gmap string PersistentVolume := {[ "pv" := test_pv ]}.
Definition test_elected : labelManager Fake.t := MkLabelManager Leading test_cache (dom test_cache) ∅ test_cloud.
Definition test_settled : labelManager Fake.t :=
  MkLabelManager Leading test_cache ∅ ∅ (state_after (Reconcile "pv" (PvFound test_pv)) test_cloud).

Lemma elected_reached : rtc manager_step (MkLabelManager Candidate test_cache ∅ ∅ test_cloud) test_elected.
Proof. apply rtc_once, step_elected. Qed.

Lemma settled_reached : rtc manager_step (MkLabelManager Candidate test_cache ∅ ∅ test_cloud) test_settled.
Proof.
  eapply rtc_r; [apply elected_reached|]. unfold test_elected, test_settled.
  replace (MkLabelManager Leading test_cache ∅ ∅) with
    (MkLabelManager (S:=Fake.t) Leading test_cache (dom test_cache ∖ {[ "pv" ]}) (∅ ∖ {[ "pv" ]}))
    by (unfold test_cache; rewrite dom_singleton_L; f_equal; set_solver).
  eapply (step_reconciled _ _ _ _ "pv" (PvFound test_pv)); [by apply elem_of_dom|done|].
  runs (Reconcile "pv" (PvFound test_pv)) test_cloud (Ok () : result goerr ()).
Qed.

(** Somebody takes the labels of the instance away: the volume is disturbed, and stays without label until it is seen again. *)
Definition test_stripped : labelManager Fake.t :=
  MkLabelManager Leading test_cache ∅ {[ "pv" ]}
    (MkReconcilerState (lustreService test_cloud) (metricsManager (reconciler test_settled))).
Definition test_seen : labelManager Fake.t :=
  MkLabelManager Leading test_cache {[ "pv" ]} {[ "pv" ]} (reconciler test_stripped).

Lemma test_cloud_inv : service_inv (lustreService test_cloud).
Proof. decided. Qed.

Lemma seen_reached : rtc manager_step (MkLabelManager Candidate test_cache ∅ ∅ test_cloud) test_seen.
Proof.
  eapply rtc_r; [eapply rtc_r; [apply settled_reached|]|].
  - unfold test_settled. eapply (step_cloud _ _ _ _ _ _ {[ "pv" ]}); [exact test_cloud_inv|].
    intros name pv i Hc Hn. unfold test_cache in Hc. apply lookup_singleton_Some in Hc as [<- _]. set_solver.
  - unfold test_stripped, test_seen. cbn [reconciler].
    replace ({[ "pv" ]} ∪ ∅ : gset string) with ({[ "pv" ]} : gset string) by set_solver.
    replace (MkLabelManager (S:=Fake.t) Leading test_cache {[ "pv" ]}) with
      (MkLabelManager (S:=Fake.t) Leading (<["pv" := test_pv]> test_cache) ({[ "pv" ]} ∪ ∅))
      by (unfold test_cache; rewrite insert_singleton_eq; f_equal; set_solver).
    apply step_applied.
Qed.

Lemma test_reconciles name (rs : reconcilerState Fake.t) :
  fake_inv (lustreService rs) → is_ok (result_in (Reconcile name (cached test_cache name)) rs) = true.
Proof.
  intros Hinv. unfold cached. destruct (test_cache !! name) as [pv|] eqn:E; [|done].
  unfold test_cache in E. apply lookup_singleton_Some in E as [_ <-]. unfold result_in. rewrite (Reconcile_volume _ _ test_ref) by apply test_volume.
  cbn. unfold Fake.GetInstance. destruct (lustreService rs !! Name test_ref) as [k|] eqn:Ek; [|done].
  destruct (has_driver_label k) eqn:Hl; [by rewrite label_instance_labelled|].
  destruct (label_instance _ _ _) as [r s'] eqn:El. apply label_instance_missing in El as (? & _ & Hok & _); [|done].
  cbn [fst]. rewrite Hok. cbn. unfold Fake.UpdateInstance. cbn. pose proof (Hinv _ _ Ek) as Hn. cbn in Hn. rewrite Hn.
  cbn in Ek. by rewrite Ek.
Qed.

Lemma unqueued_volumes_labelled_witness :
  (∀ j svc, GetInstance test_ref (lustreService (reconciler test_settled)) = (Ok j, svc) → has_driver_label j = true) ∧
  ∃ rs', rtc manager_step test_seen (MkLabelManager Leading test_cache ∅ ({[ "pv" ]} ∖ {[ "pv" ]}) rs') ∧
    ∀ j svc, GetInstance test_ref (lustreService rs') = (Ok j, svc) → has_driver_label j = true.
Proof.
  split.
  - intros j svc.
    refine (proj1 (unqueued_volumes_labelled test_cache ∅ ∅ test_cloud test_settled test_cloud_inv settled_reached eq_refl)
      "pv" test_pv test_ref j svc _ _ _ test_volume).
    + reflexivity.
    + cbn. set_solver.
    + cbn. set_solver.
  - destruct (proj2 (unqueued_volumes_labelled test_cache ∅ ∅ test_cloud test_seen test_cloud_inv seen_reached eq_refl) test_reconciles)
      as (rs' & Hst & Hl).
    exists rs'. split; [exact Hst|]. intros j svc.
    apply (Hl "pv" test_pv test_ref j svc); [reflexivity|left; cbn; set_solver|apply test_volume].
Defined.
