(* ===== verification/SharedCloud.v ===== *)
(** * The cloud shared with others

    While a handler of the controller runs, other handlers and the label controller call the same service.  Here a service
    comes with what the others do before each of the handler's calls, so that every theorem about handlers on any service
    is one about handlers that are interrupted at every call. *)
From S2P Require Import Prelude GoStr GoErr Util Instance Params Csi Driver Service Controller CloudSpec ControllerSpec Metrics Label LabelSpec.

Local Open Scope string_scope.
Local Open Scope list_scope.
Local Open Scope Z_scope.

(** ** A service and the others' steps on it, the next one first *)
Record shared (S : Type) : Type := MkShared {
  svc : S;
  others : list (S → S);
}.
Arguments MkShared {S} _ _.
Arguments svc {S} _.
Arguments others {S} _.

(** The service as the next call finds it. *)
Definition found {S} (s : shared S) : S := match others s with f :: _ => f (svc s) | [] => svc s end.

Definition interrupted {S A} (m : M S goerr A) : M (shared S) goerr A := λ s,
  let '(r, svc') := m (found s) in (r, MkShared svc' (tail (others s))).

#[export] Instance shared_service {S} `{LustreService S} : LustreService (shared S) := {
  CreateInstance i := interrupted (CreateInstance i);
  DeleteInstance i := interrupted (DeleteInstance i);
  ResizeInstance i := interrupted (ResizeInstance i);
  UpdateInstance i := interrupted (UpdateInstance i);
  GetInstance i := interrupted (GetInstance i);
  ListInstance f := interrupted (ListInstance f);
  GetCreateInstanceOp i := interrupted (GetCreateInstanceOp i);
  ListLocations f := interrupted (ListLocations f);
  IsOperationInProgress i verb := interrupted (IsOperationInProgress i verb);
}.

(** ** What the others may do *)

(** The same instance up to its labels, or an instance that cannot be read. *)
Definition alike (r r' : result goerr ServiceInstance) : Prop :=
  match r, r' with
  | Ok i, Ok j => set_Labels ∅ i = set_Labels ∅ j
  | Err _, Err _ => True
  | _, _ => False
  end.

#[export] Instance alike_equiv : Equivalence alike.
Proof.
  split.
  - by intros [i|e].
  - intros [i|e] [j|e']; cbn; auto.
  - intros [i|e] [j|e'] [k|e'']; cbn; try done. congruence.
Qed.

(** A service on which calls about one instance leave the others alone: reads change nothing that can be read, an update
    changes labels, and what is done to an instance concerns instances of its name. *)
Class ApartLaws (S : Type) `{LustreService S} : Prop := {
  get_apart i i' s : alike (GetInstance i (GetInstance i' s).2).1 (GetInstance i s).1;
  op_apart i i' s : alike (GetInstance i (GetCreateInstanceOp i' s).2).1 (GetInstance i s).1;
  progress_apart i i' verb s : alike (GetInstance i (IsOperationInProgress i' verb s).2).1 (GetInstance i s).1;
  locations_apart i f s : alike (GetInstance i (ListLocations f s).2).1 (GetInstance i s).1;
  instances_apart i f s : alike (GetInstance i (ListInstance f s).2).1 (GetInstance i s).1;
  update_apart i i' s : alike (GetInstance i (UpdateInstance i' s).2).1 (GetInstance i s).1;
  create_apart i i' s : Name i' ≠ Name i → alike (GetInstance i (CreateInstance i' s).2).1 (GetInstance i s).1;
  resize_apart i i' s : Name i' ≠ Name i → alike (GetInstance i (ResizeInstance i' s).2).1 (GetInstance i s).1;
  delete_apart i i' s : Name i' ≠ Name i → alike (GetInstance i (DeleteInstance i' s).2).1 (GetInstance i s).1;
}.

Section others.
Context {S : Type} `{LustreService S}.

(** The steps of others that a handler for [inst] may meet: reconciles of the label controller, and the calls of handlers for
    instances of another name. *)
Inductive other_step (inst : ServiceInstance) : (S → S) → Prop :=
| other_reconcile request get mm :
    other_step inst (λ s, lustreService (state_after (Reconcile request get) (MkReconcilerState s mm)))
| other_get i : other_step inst (λ s, (GetInstance i s).2)
| other_op i : other_step inst (λ s, (GetCreateInstanceOp i s).2)
| other_progress i verb : other_step inst (λ s, (IsOperationInProgress i verb s).2)
| other_locations f : other_step inst (λ s, (ListLocations f s).2)
| other_instances f : other_step inst (λ s, (ListInstance f s).2)
| other_create i : Name i ≠ Name inst → other_step inst (λ s, (CreateInstance i s).2)
| other_resize i : Name i ≠ Name inst → other_step inst (λ s, (ResizeInstance i s).2)
| other_delete i : Name i ≠ Name inst → other_step inst (λ s, (DeleteInstance i s).2)
| other_both f g : other_step inst f → other_step inst g → other_step inst (λ s, g (f s)).

Context `{!ApartLaws S}.

Lemma reconcile_spares inst request get (rs : reconcilerState S) :
  alike (GetInstance inst (lustreService (Reconcile request get rs).2)).1 (GetInstance inst (lustreService rs)).1.
Proof.
  unfold Reconcile. destruct get as [pv| |e]; [|done..]. destruct (PvCSI pv) as [csi|]; [|done]. case_decide; [done|].
  destruct (volumeIDToInstance _) as [i|]; [|done]. rewrite bind_unfold. unfold attempt, on_service.
  pose proof (get_apart inst i (lustreService rs)) as Hg. destruct (GetInstance i (lustreService rs)) as [[j|e] s1]; cbn in *.
  - unfold label_instance. destruct (has_driver_label j); [done|]. rewrite bind_unfold. unfold attempt, on_service. cbn [lustreService].
    pose proof (update_apart inst (relabelled j) s1) as Hu. fold (relabelled j).
    destruct (UpdateInstance (relabelled j) s1) as [[u|e] s2]; cbn in *; by etrans.
  - by repeat case_match.
Qed.

Lemma other_spares inst f s : other_step inst f → alike (GetInstance inst (f s)).1 (GetInstance inst s).1.
Proof.
  intros Hf. revert s. induction Hf as [| | | | | | | | |f g _ IHf _ IHg]; intros s;
    eauto using get_apart, op_apart, progress_apart, locations_apart, instances_apart, create_apart, resize_apart, delete_apart.
  - apply (reconcile_spares inst request get (MkReconcilerState s mm)).
  - etrans; [apply IHg|apply IHf].
Qed.

Lemma found_spares inst s : Forall (other_step inst) (others s) → alike (GetInstance inst (found s)).1 (GetInstance inst (svc s)).1.
Proof. unfold found. destruct (others s) as [|f fs]; [done|]. intros [Hf _]%Forall_cons. by apply other_spares. Qed.
End others.

(** ** CreateVolume among others *)
Lemma alike_labels i j : alike (Ok i) (Ok j) → i = set_Labels (Labels i) j.
Proof. destruct i, j. cbn. by intros [= -> -> -> -> -> -> -> -> -> -> -> ->]. Qed.

Section create.
Context {S : Type} `{LustreServiceLaws S} `{!ApartLaws S} `{MapRange}.
Context (driver : LustreDriver) (cloud : Cloud).
Implicit Types s : controllerState (shared S).

(** What the service says of an instance that has been created or found, whatever the others did. *)
Lemma created_among params inst s vol s' :
  identified inst → created driver params inst s vol s' →
  ∃ j, vol = instanceToCSIVolume j ∧ CompareInstances inst j = None ∧ State j = "ACTIVE" ∧
    (GetInstance inst (svc (service s'))).1 = Ok j.
Proof.
  intros Hid [j svc1 Hg Hc Hs|e svc1 op svc2 labels fs s3 j svc4 ? ? ? ? ? ? Hc]; exists j.
  - split_and!; [done..|]. cbn in Hg. unfold interrupted in Hg. destruct (GetInstance inst (found (service s))) as [r s1] eqn:E.
    injection Hg as -> <-. cbn. by rewrite (get_repeatable _ _ _ _ E).
  - cbn in Hc. unfold interrupted in Hc. destruct (CreateInstance _ (found (service s3))) as [r s1] eqn:E.
    injection Hc as -> <-. pose proof E as Hr. apply create_as_requested in Hr as ((? & ? & ?) & ? & ? & ?); [|done].
    split_and!; [done|by apply CompareInstances_None|done|]. cbn.
    rewrite (get_by_identity _ (set_Filesystem fs (set_Labels labels inst))) by done. by rewrite (create_get _ _ _ _ E).
Qed.

(** A request for an instance that is there. *)
Lemma CreateVolume_found req s name params inst j svc1 :
  create_args driver cloud req = Ok (name, params, inst) → name ∉ volumeLocks s →
  GetInstance inst (service s) = (Ok j, svc1) → CompareInstances inst j = None → State j = "ACTIVE" →
  ∃ locks, CreateVolume driver cloud req s = (Ok (Some (instanceToCSIVolume j)), MkControllerState locks svc1 (reader s)).
Proof.
  intros Ha Hn Hg Hc Hs. unfold CreateVolume. rewrite Ha, with_lock_free by done.
  rewrite bind_attempt_call. cbn [service locked]. rewrite Hg. unfold create_existing. rewrite Hc, Hs.
  rewrite decide_False by done. rewrite decide_False by tauto. eexists. reflexivity.
Qed.

(** Claim C2. [CreateVolume] among others: a volume that it reports is the one the service has by then, under the identity and with the
    size of the request, whatever anybody did to the service between the calls of the handler; and a repetition of the request
    reports the same volume and leaves the instance as it is, when all that happens around it are
    reconciles of the label controller and calls of handlers for instances of other names. *)
Theorem create_volume_among_others req s vol s' name params inst locks later numbers :
  CreateVolume driver cloud req s = (Ok (Some vol), s') →
  create_args driver cloud req = Ok (name, params, inst) → identified inst →
  Forall (other_step inst) later → name ∉ locks →
  (∃ j, (GetInstance inst (svc (service s'))).1 = Ok j ∧ vol = instanceToCSIVolume j ∧
     same_identity inst j ∧ CapacityGib j = CapacityGib inst ∧ State j = "ACTIVE") ∧
  let again := CreateVolume driver cloud req (MkControllerState locks (MkShared (svc (service s')) later) numbers) in
  again.1 = Ok (Some vol) ∧
  alike (GetInstance inst (svc (service again.2))).1 (GetInstance inst (svc (service s'))).1.
Proof.
  intros (name' & params' & inst' & s1 & Ha & _ & Hcr & ->)%CreateVolume_ok Ha' Hid Hlater Hn.
  rewrite Ha' in Ha. injection Ha as <- <- <-. cbn [service].
  apply created_among in Hcr as (j & -> & Hc & Hs & Hg); [|done].
  pose proof Hc as (En & Ep & El & Hcap & Hnet)%CompareInstances_None. split.
  { exists j. by split_and!. }
  set (sh := MkShared (svc (service s1)) later).
  pose proof (found_spares inst sh Hlater) as Hf. change (svc sh) with (svc (service s1)) in Hf. rewrite Hg in Hf.
  destruct (GetInstance inst (found sh)) as [r s2] eqn:E. cbn [fst] in Hf. destruct r as [k|]; [|done].
  assert (GetInstance inst (service (MkControllerState locks sh numbers)) = (Ok k, MkShared s2 (tail later))) as Hk.
  { cbn. unfold interrupted. by rewrite E. }
  apply alike_labels in Hf.
  destruct (CreateVolume_found req (MkControllerState locks sh numbers) name params inst k _ Ha' Hn Hk) as [l ->].
  - apply CompareInstances_None. rewrite Hf. by split_and!.
  - by rewrite Hf.
  - split; [by rewrite Hf|]. cbn [snd service svc]. rewrite (get_repeatable _ _ _ _ E), Hg, Hf. done.
Qed.
End create.

(** ** On the fake cloud *)
#[local] Existing Instance Fake.service.
#[local] Existing Instance Fake.laws.
#[local] Existing Instance map_range_default.

#[local] Instance fake_apart : ApartLaws Fake.t.
Proof.
  assert (∀ i k (sm : Fake.t) j, (∀ j', sm !! k = Some j' → Name i = k → alike (Ok j) (Ok j')) → (Name i = k → is_Some (sm !! k)) →
    alike (Fake.GetInstance i (<[k := j]> sm)).1 (Fake.GetInstance i sm).1) as Hins.
  { intros i k sm j Hj Hk. unfold Fake.GetInstance. destruct (decide (Name i = k)) as [<-|Hne].
    - rewrite lookup_insert_eq. destruct (Hk eq_refl) as [j' E]. rewrite E. by apply Hj.
    - rewrite lookup_insert_ne by done. by destruct (sm !! Name i). }
  split; cbn; intros; try reflexivity.
  - unfold Fake.GetInstance at 2. by destruct (s !! Name i').
  - unfold Fake.IsOperationInProgress. by case_decide.
  - unfold Fake.UpdateInstance. destruct (s !! Name i') as [k|] eqn:E; [|done]. cbn [snd].
    apply Hins; [|by rewrite E]. intros j' Hj _. rewrite E in Hj. injection Hj as <-. by destruct k.
  - apply Hins; congruence.
  - unfold Fake.ResizeInstance. destruct (s !! Name i') as [k|]; [|done]. apply Hins; congruence.
Qed.

(** Another volume's instance, and the reconcile of the volume that is being created. *)
Definition other_instance : ServiceInstance := set_Filesystem "lfs00000" (instance_ref "test-project" "us-central1-a" "other-vol").
Definition new_pv : PersistentVolume := MkPersistentVolume "pv-new" (Some (MkCSISource csiDriverName (VolumeId ex_volume))).
Definition create_other : Fake.t → Fake.t := λ s, (CreateInstance other_instance s).2.
Definition relabel_new : Fake.t → Fake.t := λ s,
  lustreService (state_after (Reconcile "pv-new" (PvFound new_pv)) (MkReconcilerState s NewMetricsManager)).

Definition busy_state : controllerState (shared Fake.t) :=
  MkControllerState ∅ (MkShared Fake.existingInstances [create_other; relabel_new; create_other]) (reader ex_state).
Definition busy_after := state_after (CreateVolume ex_driver ex_cloud (ex_request "New-Vol")) busy_state.

Lemma create_volume_among_others_witness :
  let again := CreateVolume ex_driver ex_cloud (ex_request "New-Vol")
    (MkControllerState ∅ (MkShared (svc (service busy_after)) [λ s, create_other (relabel_new s)]) [7]) in
  again.1 = Ok (Some ex_volume) ∧
  alike (GetInstance ex_inst (svc (service again.2))).1 (GetInstance ex_inst (svc (service busy_after))).1.
Proof.
  apply (create_volume_among_others ex_driver ex_cloud (ex_request "New-Vol") busy_state ex_volume busy_after
    "new-vol" ex_params ex_inst ∅ [λ s, create_other (relabel_new s)] [7]).
  - runs (CreateVolume (S := shared Fake.t) ex_driver ex_cloud (ex_request "New-Vol")) busy_state (@Ok goerr _ (Some ex_volume)).
  - vm_compute; reflexivity.
  - decided.
  - apply Forall_singleton. apply other_both; [apply other_reconcile|apply other_create; decided].
  - decided.
Defined.
