(* ===== verification/Server.v ===== *)
(** * The gRPC server: pkg/csi_driver/server.go and [ParseEndpoint] of pkg/util

    The endpoint is a URL, which package net/url takes apart; the server listens there and serves in a
    goroutine of its own, which the rest of the program starts, stops and waits for. *)
From S2P Require Import Prelude GoStr GoErr Csi Driver FS.

Local Open Scope string_scope.
Local Open Scope list_scope.
Local Open Scope Z_scope.

(** ** Package net/url *)
Module Url.

Record URL : Type := MkURL {
  Scheme : string;
  Opaque : string;
  Host : string;
  Path : string;
}.

(** The host of an authority [user@host:port] under a scheme, or why it is refused. *)
Class Authority : Type := {
  parseAuthority : string → string → result string string;
}.

Definition is_letter (c : ascii) : bool := is_lower c || is_upper c.

Definition is_control (c : ascii) : bool := bool_decide (ascii_val c < 32) || bool_decide (ascii_val c = 127).

Fixpoint contains_control (s : string) : bool :=
  match s with String c s' => is_control c || contains_control s' | "" => false end.

(** [strings.Cut] *)
Definition before (c : ascii) (s : string) : string :=
  match index c s with Some n => str_take n s | None => s end.
Definition after (c : ascii) (s : string) : string :=
  match index c s with Some n => str_drop (n + 1) s | None => "" end.

(** The scheme, which has been read up to [s], and what follows the colon. *)
Fixpoint scheme_loop (rawURL acc s : string) : result string (string * string) :=
  match s with
  | "" => Ok ("", rawURL)
  | String c s' =>
      if is_letter c then scheme_loop rawURL (acc +:+ String c "") s'
      else if is_digit c || bool_decide (c ∈ ["+"; "-"; "."]%char) then
        if decide (acc = "") then Ok ("", rawURL) else scheme_loop rawURL (acc +:+ String c "") s'
      else if decide (c = ":"%char) then
        if decide (acc = "") then Err "missing protocol scheme" else Ok (acc, s')
      else Ok ("", rawURL)
  end.

Definition getScheme (rawURL : string) : result string (string * string) := scheme_loop rawURL "" rawURL.

Definition EscapeError (s : string) : string := "invalid URL escape " +:+ quote s.

(** [unescape] of a path or a fragment. *)
Fixpoint unescape (s : string) : result string string :=
  match s with
  | "" => Ok ""
  | String "%" (String a (String b s') as s2) =>
      match hex_value a, hex_value b with
      | Some x, Some y => t ← unescape s'; Ok (String (ascii_of_N (Z.to_N (16 * x + y))) t)
      | _, _ => Err (EscapeError (str_take 3 s))
      end
  | String "%" _ => Err (EscapeError s)
  | String c s' => t ← unescape s'; Ok (String c t)
  end.

Section parse.
Context `{Authority}.

Definition parse (rawURL : string) : result string URL :=
  if contains_control rawURL then Err "net/url: invalid control character in URL" else
  if decide (rawURL = "*") then Ok (MkURL "" "" "" "*") else
  '(scheme, rest) ← getScheme rawURL;
  let scheme := to_lower scheme in
  let rest := before "?" rest in
  if negb (has_prefix rest "/") && bool_decide (scheme ≠ "") then Ok (MkURL scheme rest "" "") else
  if negb (has_prefix rest "/") && has_char ":" (before "/" rest) then
    Err "first path segment in URL cannot contain colon" else
  if (bool_decide (scheme ≠ "") || negb (has_prefix rest "///")) && has_prefix rest "//" then
    let authority := str_drop 2 rest in
    host ← parseAuthority scheme (before "/" authority);
    path ← unescape (str_drop (String.length (before "/" authority)) authority);
    Ok (MkURL scheme "" host path)
  else
    path ← unescape rest;
    Ok (MkURL scheme "" "" path).

Definition parse_error (u err : string) : goerr := ErrText ("parse " +:+ quote u +:+ ": " +:+ err).

Definition Parse (rawURL : string) : result goerr URL :=
  let u := before "#" rawURL in
  let frag := after "#" rawURL in
  url ← map_err (parse_error u) (parse u);
  if decide (frag = "") then Ok url else
  _ ← map_err (parse_error rawURL) (unescape frag);
  Ok url.
End parse.
End Url.

(** ** [ParseEndpoint] *)

(** [os.Remove], which finds nothing at the empty path. *)
Definition remove_path (p : string) : M os goerr () :=
  if decide (p = "") then fail (ErrPath "remove" p ENOENT) else Remove p.

(** Every error is fatal for the program. *)
Definition ParseEndpoint `{Url.Authority} (endpoint : string) (cleanupSocket : bool) : M os goerr (string * string) :=
  u ← lift (Url.Parse endpoint);
  if decide (Url.Scheme u = "unix") then
    let addr := Url.Path u in
    _ ← (if cleanupSocket then
           r ← attempt (remove_path addr);
           match r with
           | Ok _ => mret ()
           | Err err =>
               if negb (is_not_exist err) then
                 fail (ErrText ("Failed to remove " +:+ addr +:+ ", error: " +:+ error_text err))
               else mret ()
           end
         else mret ());
    mret (Url.Scheme u, addr)
  else if decide (Url.Scheme u = "tcp") then mret (Url.Scheme u, Url.Host u)
  else fail (ErrText (Url.Scheme u +:+ " endpoint scheme not supported")).

(** ** The server *)
Inductive service : Type := IdentityService | ControllerService | NodeService.

#[export] Instance service_eq_dec : EqDecision service.
Proof. solve_decision. Defined.

(** Sockets: [net.Listen]. *)
Class Sockets (S : Type) : Type := {
  Listen : string → string → M (os * S) goerr ();
}.

(** [nonBlockingGRPCServer.serve] up to its call of [server.Serve]: where it listens and what it has registered. *)
Definition on_fs {S A : Type} (m : M os goerr A) : M (os * S) goerr A := λ s,
  let '(r, o) := m s.1 in (r, (o, s.2)).

Definition registered (ids cs ns : bool) : list service :=
  (if ids then [IdentityService] else []) ++ (if cs then [ControllerService] else []) ++ (if ns then [NodeService] else []).

Definition serve {S : Type} `{Sockets S} `{Url.Authority} (endpoint : string) (ids cs ns : bool)
    : M (os * S) goerr (string * string * list service) :=
  '(scheme, addr) ← on_fs (ParseEndpoint endpoint true);
  r ← attempt (Listen scheme addr);
  match r with
  | Err err => fail (ErrText ("Failed to listen: " +:+ error_text err))
  | Ok _ => mret (scheme, addr, registered ids cs ns)
  end.

(** The goroutine of [serve]. *)
Inductive task : Type :=
| Idle
| Starting (endpoint : string) (ids cs ns : bool)
| Serving (network address : string) (services : list service)
| Returned.

(** The whole program: the server's wait group and its field [server] (whether it is set), its goroutine, and the rest; a program that
    has met a fatal error or a panic has [Exited]. *)
Inductive program (S : Type) : Type :=
| Running (wg : Z) (server : bool) (goroutine : task) (env : os * S)
| Exited.
Arguments Running {S} _ _ _ _.
Arguments Exited {S}.

Inductive server_step {S : Type} `{Sockets S} `{Url.Authority} : program S → program S → Prop :=
| step_Start wg server env endpoint ids cs ns :
    server_step (Running wg server Idle env) (Running (wg + 1) server (Starting endpoint ids cs ns) env)
| step_serve wg server env endpoint ids cs ns network address services env' :
    serve endpoint ids cs ns env = (Ok (network, address, services), env') →
    server_step (Running wg server (Starting endpoint ids cs ns) env) (Running wg true (Serving network address services) env')
| step_fatal wg server env endpoint ids cs ns err env' :
    serve endpoint ids cs ns env = (Err err, env') →
    server_step (Running wg server (Starting endpoint ids cs ns) env) Exited
| step_Serve_fails wg server env network address services :
    server_step (Running wg server (Serving network address services) env) Exited
| step_Stop wg env network address services :   (* [Serve] returns nil after [GracefulStop] and [Stop] *)
    server_step (Running wg true (Serving network address services) env) (Running wg true Returned env)
| step_Stop_again wg env : server_step (Running wg true Returned env) (Running wg true Returned env)
| step_Stop_nil wg goroutine env : server_step (Running wg false goroutine env) Exited
| step_request wg server goroutine env env' :   (* whatever else goes on, requests included *)
    server_step (Running wg server goroutine env) (Running wg server goroutine env').

(** [Wait] returns when the counter of the wait group is zero. *)
Definition Wait_returns {S : Type} (p : program S) : bool :=
  match p with Running wg _ _ _ => bool_decide (wg = 0) | Exited => false end.

(** [LustreDriver.Run]: [Start], and then [Wait]. *)
Definition run_start {S : Type} (driver : LustreDriver) (endpoint : string) (env : os * S) : program S :=
  Running 1 false (Starting endpoint true (has_cs driver) (has_ns driver)) env.

(** [logGRPC], which writes a request and its outcome to the log. *)
Definition logGRPC {S Req Resp : Type} (handler : Req → M S goerr Resp) (req : Req) : M S goerr Resp :=
  r ← attempt (handler req);
  match r with Ok resp => mret resp | Err err => fail err end.
