(* ===== verification/ServerSpec.v ===== *)
(** * What the gRPC server guarantees

    Theorems about Server.v: how endpoints are read, what a running driver serves, and that it waits for ever. *)
From stdpp Require Import relations.
From S2P Require Import Prelude GoStr Regex GoErr Csi Driver FS Server.

Local Open Scope string_scope.
Local Open Scope list_scope.
Local Open Scope Z_scope.

(** ** Endpoints *)

(** A character that stands for itself in the path of a URL. *)
Definition url_char (c : ascii) : bool :=
  negb (Url.is_control c) && negb (bool_decide (c ∈ ["%"; "?"; "#"]%char)).

Lemma url_char_free c s : all_chars url_char s = true → url_char c = false → has_char c s = false.
Proof.
  intros Hs Hc. induction s as [|a s IH]; cbn in *; [done|]. apply andb_true_iff in Hs as [Ha Hs]. rewrite IH by done.
  rewrite bool_decide_false; [done|]. congruence.
Qed.

Lemma url_no_control s : all_chars url_char s = true → Url.contains_control s = false.
Proof.
  induction s as [|c s IH]; cbn; [done|]. intros [Hc Hs]%andb_true_iff. rewrite IH by done.
  unfold url_char in Hc. by destruct (Url.is_control c).
Qed.

Lemma unescape_plain s : has_char "%" s = false → Url.unescape s = Ok s.
Proof.
  induction s as [|c s IH]; [done|]. cbn [has_char]. rewrite orb_false_iff, bool_decide_eq_false. intros [Hc Hs].
  assert (Url.unescape (String c s) = (t ← Url.unescape s; Ok (String c t))) as ->.
  { destruct c as [[] [] [] [] [] [] [] []]; first [reflexivity|by destruct Hc]. }
  by rewrite IH.
Qed.

Lemma before_all c s : has_char c s = false → Url.before c s = s.
Proof. intros Hs. unfold Url.before. by rewrite (proj2 (index_None c s) Hs). Qed.

Lemma after_none c s : has_char c s = false → Url.after c s = "".
Proof. intros Hs. unfold Url.after. by rewrite (proj2 (index_None c s) Hs). Qed.

Section endpoint.
Context `{Url.Authority}.

(** A URL without a fragment. *)
Lemma Parse_plain u : has_char "#" u = false → Url.Parse u = map_err (Url.parse_error u) (Url.parse u).
Proof. intros Hu. unfold Url.Parse. rewrite before_all, after_none by done. by destruct (Url.parse u). Qed.

Lemma unix_scheme s : Url.getScheme ("unix:" +:+ s) = Ok ("unix", s).
Proof. reflexivity. Qed.

Lemma unix_plain s : all_chars url_char s = true →
  Url.contains_control ("unix:" +:+ s) = false ∧ has_char "#" ("unix:" +:+ s) = false ∧ Url.before "?" s = s ∧ "unix:" +:+ s ≠ "*".
Proof.
  intros Hs. split_and!.
  - cbn. by apply url_no_control.
  - rewrite has_char_app. cbn. by apply (url_char_free _ s).
  - apply before_all. by apply (url_char_free _ s).
  - done.
Qed.

(** The three ways to write a socket's endpoint. *)
Lemma Parse_unix_path p : all_chars url_char p = true → has_prefix p "/" = true → has_prefix p "//" = false →
  Url.Parse ("unix:" +:+ p) = Ok (Url.MkURL "unix" "" "" p).
Proof.
  intros Hp H1 H2. destruct (unix_plain p Hp) as (Hc & Hh & Hb & Hs). rewrite Parse_plain by done.
  unfold Url.parse. rewrite Hc, decide_False, unix_scheme by done. cbn [mbind result_bind].
  change (to_lower "unix") with "unix". rewrite Hb, H1, H2. cbn [negb andb]. rewrite andb_false_r.
  by rewrite unescape_plain by (by apply (url_char_free _ p)).
Qed.

Lemma Parse_unix_authority p : Url.parseAuthority "unix" "" = Ok "" →
  all_chars url_char p = true → has_prefix p "/" = true →
  Url.Parse ("unix://" +:+ p) = Ok (Url.MkURL "unix" "" "" p).
Proof.
  intros Ha Hp H1. change ("unix://" +:+ p) with ("unix:" +:+ ("//" +:+ p)).
  assert (all_chars url_char ("//" +:+ p) = true) as Hp' by exact Hp.
  destruct (unix_plain _ Hp') as (Hc & Hh & Hb & Hs). rewrite Parse_plain by done.
  unfold Url.parse. rewrite Hc, decide_False, unix_scheme by done. cbn [mbind result_bind].
  change (to_lower "unix") with "unix". rewrite Hb. apply has_prefix_spec in H1 as [q ->].
  change (has_prefix ("//" +:+ "/" +:+ q) "/") with true. change (has_prefix ("//" +:+ "/" +:+ q) "//") with true.
  rewrite bool_decide_true by done. cbn [negb andb orb].
  change (str_drop 2 ("//" +:+ "/" +:+ q)) with ("/" +:+ q). change (Url.before "/" ("/" +:+ q)) with "".
  rewrite Ha. cbn [mbind result_bind String.length str_drop].
  by rewrite unescape_plain by (by apply (url_char_free _ ("/" +:+ q))).
Qed.

Lemma Parse_unix_relative p : all_chars url_char p = true → has_prefix p "/" = false →
  Url.Parse ("unix:" +:+ p) = Ok (Url.MkURL "unix" p "" "").
Proof.
  intros Hp H1. destruct (unix_plain p Hp) as (Hc & Hh & Hb & Hs). rewrite Parse_plain by done.
  unfold Url.parse. rewrite Hc, decide_False, unix_scheme by done. cbn [mbind result_bind].
  change (to_lower "unix") with "unix". by rewrite Hb, H1.
Qed.

(** A host and a port. *)
Lemma Parse_tcp a host : all_chars url_char a = true → has_char "/" a = false → Url.parseAuthority "tcp" a = Ok host →
  Url.Parse ("tcp://" +:+ a) = Ok (Url.MkURL "tcp" "" host "").
Proof.
  intros Ha Hs Hh. rewrite Parse_plain by (cbn; by apply (url_char_free _ a)).
  unfold Url.parse. assert (Url.contains_control ("tcp://" +:+ a) = false) as -> by (cbn; by apply url_no_control).
  rewrite decide_False by done. change (Url.getScheme ("tcp://" +:+ a)) with (Ok (E := string) ("tcp", "//" +:+ a)).
  cbn [mbind result_bind]. change (to_lower "tcp") with "tcp".
  rewrite (before_all "?") by (cbn; by apply (url_char_free _ a)).
  change (has_prefix ("//" +:+ a) "/") with true. change (has_prefix ("//" +:+ a) "//") with (has_prefix a "").
  rewrite (proj2 (has_prefix_spec a "")) by (by exists a). rewrite bool_decide_true by done. cbn [negb andb orb].
  change (str_drop 2 ("//" +:+ a)) with a. rewrite before_all by done. rewrite Hh. cbn [mbind result_bind].
  replace (str_drop (String.length a) a) with "" by (rewrite <-(app_nil_r_str a) at 2; by rewrite drop_app_length). done.
Qed.

(** A socket's endpoint, from what its URL is. *)
Lemma ParseEndpoint_unix endpoint opaque host p o r o' :
  Url.Parse endpoint = Ok (Url.MkURL "unix" opaque host p) → ParseEndpoint endpoint true o = (r, o') →
  (r = Ok ("unix", p) ∧ (∀ q, q ≠ resolve p ∨ p = "" → files o' !! q = files o !! q) ∧
   (io_faults o → p ≠ "" → resolve p ≠ [] → files o' !! resolve p = None)) ∨
  (∃ e, r = Err e ∧ files o' = files o).
Proof.
  intros Hu. unfold ParseEndpoint. rewrite Hu. rewrite bind_unfold. cbn [lift Url.Scheme Url.Path].
  rewrite decide_True by done. rewrite bind_unfold, bind_unfold. unfold attempt, remove_path. case_decide as Hp.
  { intros [= <- <-]. left. by split_and!. }
  destruct (Remove p o) as [r1 o1] eqn:E. apply Remove_spec in E as [(-> & Ho & _)|(e & -> & Ho & Hn)].
  - intros [= <- <-]. left. rewrite Ho. split_and!; [done| |intros; apply lookup_delete_eq].
    intros q [Hq| ->]; [|done]. by rewrite lookup_delete_ne.
  - destruct (is_not_exist e) eqn:Ee; cbn [negb]; intros [= <- <-]; [left|right; eauto]. rewrite Ho.
    split_and!; [done..|]. intros Hio _ Hr. rewrite <-look_nonroot by done. by apply Hn.
Qed.

(** An endpoint [unix:/path] or [unix:///path] with an absolute path of ordinary characters is the socket at the path, and
    whatever was at the path is gone and nothing else touched; a removal that fails leaves the files alone and is
    fatal.  A path that does not start with a slash is lost: the address is empty.  An endpoint [tcp://host:port] is the host
    and port, and no file is touched.  No endpoint gives another network than unix and tcp. *)
Theorem endpoints_read p o r o' :
  all_chars url_char p = true → Url.parseAuthority "unix" "" = Ok "" →
  (∀ endpoint, has_prefix p "/" = true →
     endpoint = "unix://" +:+ p ∨ endpoint = "unix:" +:+ p ∧ has_prefix p "//" = false →
     ParseEndpoint endpoint true o = (r, o') →
     (r = Ok ("unix", p) ∧ (∀ q, q ≠ resolve p → files o' !! q = files o !! q) ∧
      (io_faults o → resolve p ≠ [] → files o' !! resolve p = None)) ∨
     (∃ e, r = Err e ∧ files o' = files o)) ∧
  (has_prefix p "/" = false → ParseEndpoint ("unix:" +:+ p) true o = (r, o') → r = Ok ("unix", "") ∧ files o' = files o) ∧
  (has_char "/" p = false → ∀ addr, Url.parseAuthority "tcp" p = Ok addr →
     ParseEndpoint ("tcp://" +:+ p) true o = (r, o') → r = Ok ("tcp", addr) ∧ o' = o) ∧
  (∀ endpoint cleanup network addr, ParseEndpoint endpoint cleanup o = (Ok (network, addr), o') → network ∈ ["unix"; "tcp"]).
Proof.
  intros Hp Ha. split_and!.
  - intros endpoint H1 He Hr.
    assert (Url.Parse endpoint = Ok (Url.MkURL "unix" "" "" p)) as Hu.
    { destruct He as [->|[-> ?]]; [by apply Parse_unix_authority|by apply Parse_unix_path]. }
    eapply ParseEndpoint_unix in Hr as [(-> & Hq & Hg)|?]; [|by right|exact Hu]. left.
    assert (p ≠ "") by (by intros ->). split_and!; auto.
  - intros H1 Hr. unfold ParseEndpoint in Hr. rewrite Parse_unix_relative in Hr by done. injection Hr as <- <-. done.
  - intros Hs addr Hh Hr. unfold ParseEndpoint in Hr. rewrite (Parse_tcp _ _ Hp Hs Hh) in Hr. by injection Hr as <- <-.
  - intros endpoint cleanup network addr (u & s1 & _ & Hr)%bind_inv. case_decide as H1.
    + apply bind_inv in Hr as ([] & s2 & _ & Hr). injection Hr as <- <- <-. rewrite H1. set_solver.
    + case_decide as H2; [|done]. injection Hr as <- <- <-. rewrite H2. set_solver.
Qed.
End endpoint.

(** ** The life of the server *)
Section life.
Context {S : Type} `{Sockets S} `{Url.Authority}.
Context (driver : LustreDriver) (endpoint : string).

(** What can become of a program that runs the driver: it holds the wait group at one, and serves what [serve] set up. *)
Inductive life : program S → Prop :=
| life_starting server env : life (Running 1 server (Starting endpoint true (has_cs driver) (has_ns driver)) env)
| life_serving env network address services env1 env2 :
    serve endpoint true (has_cs driver) (has_ns driver) env1 = (Ok (network, address, services), env2) →
    life (Running 1 true (Serving network address services) env)
| life_returned env : life (Running 1 true Returned env)
| life_exited : life Exited.

Lemma life_step p p' : life p → server_step p p' → life p'.
Proof.
  intros Hp Hst. destruct Hp as [server env|env network address services env1 env2 Hs|env|]; inversion Hst; subst;
    econstructor; eassumption.
Qed.

Lemma life_reachable env p : rtc server_step (run_start driver endpoint env) p → life p.
Proof.
  intros Hr. assert (life (run_start driver endpoint env)) as Hl by constructor. revert Hl.
  induction Hr; eauto using life_step.
Qed.

Lemma serve_services env network address services env' :
  serve endpoint true (has_cs driver) (has_ns driver) env = (Ok (network, address, services), env') →
  services = registered true (has_cs driver) (has_ns driver) ∧ network ∈ ["unix"; "tcp"].
Proof.
  unfold serve. intros ([scheme addr] & s1 & Hp & Hr)%bind_inv.
  apply bind_inv in Hr as ([u|] & s2 & _ & Hr); [|done]. injection Hr as <- <- <- _. split; [done|].
  unfold on_fs in Hp. destruct (ParseEndpoint endpoint true env.1) as [r o] eqn:E. injection Hp as -> _.
  apply bind_inv in E as (url & o1 & _ & Hr). case_decide as H1.
  - apply bind_inv in Hr as ([] & o2 & _ & Hr). injection Hr as <- <- _. rewrite H1. set_solver.
  - case_decide as H2; [|done]. injection Hr as <- <- _. rewrite H2. set_solver.
Qed.
End life.

Lemma NewLustreDriver_servers cfg driver :
  NewLustreDriver cfg = Ok driver → has_cs driver = RunController cfg ∧ has_ns driver = RunNode cfg.
Proof.
  unfold NewLustreDriver. do 2 (case_decide; [done|]). destruct (_ && _); [done|]. intros [= <-].
  by destruct (RunNode cfg), (RunController cfg).
Qed.

(** Claim C39.  A driver that runs: whatever happens and however often it is stopped, the wait group stays at one, so [Wait], and with it [Run], never
    returns; and when it serves, it serves the identity service, the controller service exactly if it was configured to run
    the controller and the node service exactly if it was configured to run the node, on a network that is unix or tcp. *)
Theorem run_serves_and_waits {S} `{Sockets S} `{Url.Authority} cfg driver endpoint (env : os * S) p :
  NewLustreDriver cfg = Ok driver → rtc server_step (run_start driver endpoint env) p →
  Wait_returns p = false ∧
  ∀ wg server network address services env',
    p = Running wg server (Serving network address services) env' →
    (network = "unix" ∨ network = "tcp") ∧ IdentityService ∈ services ∧
    (ControllerService ∈ services ↔ RunController cfg = true) ∧ (NodeService ∈ services ↔ RunNode cfg = true).
Proof.
  intros [Hc Hn]%NewLustreDriver_servers Hr%life_reachable. split; [by destruct Hr|].
  intros wg server network address services env' ->. inversion Hr as [|? ? ? ? ? ? Hs| |]; subst.
  apply serve_services in Hs as [-> Hnet]. split; [set_solver|]. rewrite <-Hc, <-Hn. unfold registered.
  destruct (has_cs driver), (has_ns driver); cbn; rewrite !elem_of_cons, !elem_of_nil; naive_solver.
Qed.

(** ** Witnesses: plain hosts, and sockets that can always be listened on *)
#[local] Instance plain_authority : Url.Authority := {| Url.parseAuthority _ a := Ok a |}.
#[local] Instance free_sockets : Sockets () := {| Listen _ _ := mret () |}.

(** A stale socket of an earlier run. *)
Definition stale_socket : os :=
  MkOS {[ ["tmp"] := Dir (MkAttr 511 0); ["tmp"; "csi.sock"] := File "" (MkAttr 511 0); ["etc"] := Dir (MkAttr 493 0) ]} [].

Lemma endpoints_read_witness :
  let r := result_in (ParseEndpoint "unix:/tmp/csi.sock" true) stale_socket in
  let o' := state_after (ParseEndpoint "unix:/tmp/csi.sock" true) stale_socket in
  is_Some (files stale_socket !! ["tmp"; "csi.sock"]) ∧ r = Ok ("unix", "/tmp/csi.sock") ∧
  (∀ q, q ≠ ["tmp"; "csi.sock"] → files o' !! q = files stale_socket !! q) ∧ files o' !! ["tmp"; "csi.sock"] = None.
Proof.
  cbn zeta. split; [decided|].
  assert (result_in (ParseEndpoint "unix:/tmp/csi.sock" true) stale_socket = Ok ("unix", "/tmp/csi.sock")) as Hok by (vm_compute; reflexivity).
  assert (Url.parseAuthority "unix" "" = Ok (E := string) "") as Ha by reflexivity.
  destruct (endpoints_read "/tmp/csi.sock" stale_socket (result_in (ParseEndpoint "unix:/tmp/csi.sock" true) stale_socket)
    (state_after (ParseEndpoint "unix:/tmp/csi.sock" true) stale_socket) eq_refl Ha) as (Hu & _).
  destruct (Hu "unix:/tmp/csi.sock" eq_refl (or_intror (conj eq_refl eq_refl)) (run_pair _ _)) as [(Hr & Hq & Hg)|(e & He & _)].
  - split; [exact Hr|]. split; [exact Hq|]. apply Hg; [constructor|discriminate].
  - rewrite Hok in He. discriminate He.
Defined.

Definition controller_config : LustreDriverConfig :=
  {| ConfigName := DefaultName; ConfigVersion := "v1"; NodeID := ""; RunController := true; RunNode := false;
     Metadata := MkMetadataService "us-central1-a" "test-project" []; EnableLegacyLustrePort := false; AdditionalNics := [] |}.
Definition controller_driver : LustreDriver :=
  match NewLustreDriver controller_config with Ok d => d | Err _ => MkDriver controller_config ∅ [] [] false false end.
Definition serving : program () :=
  Running 1 true (Serving "unix" "/tmp/csi.sock" [IdentityService; ControllerService])
    (state_after (ParseEndpoint "unix:/tmp/csi.sock" true) stale_socket, ()).

Lemma serving_reached : rtc server_step (run_start controller_driver "unix:/tmp/csi.sock" (stale_socket, ())) serving.
Proof. apply rtc_once. apply step_serve. vm_compute. reflexivity. Qed.

Lemma run_serves_and_waits_witness :
  Wait_returns serving = false ∧
  (("unix" = "unix" ∨ "unix" = "tcp") ∧ IdentityService ∈ [IdentityService; ControllerService] ∧
   (ControllerService ∈ [IdentityService; ControllerService] ↔ RunController controller_config = true) ∧
   (NodeService ∈ [IdentityService; ControllerService] ↔ RunNode controller_config = true)).
Proof.
  destruct (run_serves_and_waits controller_config controller_driver "unix:/tmp/csi.sock" (stale_socket, ()) serving eq_refl serving_reached)
    as [Hw Hs].
  split; [exact Hw|]. exact (Hs _ _ _ _ _ _ eq_refl).
Defined.
