(* ===== verification/UpcallServe.v ===== *)
(** * The upcall server's life: [StartServer] of pkg/upcall/server.go

    The server makes its socket, lets only root use it, and accepts connections until its context is done; every connection is
    handled in a goroutine of its own (Upcall.v).  What can happen from then on is a step relation. *)
From stdpp Require Import relations.
From S2P Require Import Prelude GoStr GoErr Json FS Server Upcall UpcallSpec.

Local Open Scope string_scope.
Local Open Scope list_scope.
Local Open Scope Z_scope.

Definition containerSocketPath := "/csi/ipc.sock".

(** [listener.Close] *)
Class Listeners (N : Type) : Type := {
  Close : M (os * N) goerr ();
}.

(** A connection, as what can be read from it. *)
Record connection : Type := MkConnection {
  conn_id : nat;
  conn_input : string;
  conn_error : option goerr;
}.

#[export] Instance connection_inhabited : Inhabited connection := populate (MkConnection 0 "" None).

Section serve.
Context {N S : Type} `{Sockets N} `{Listeners N} `{Runner S}.
(** [os.Environ()] in the container *)
Context (Environ : list string).

(** [StartServer] up to its loop. *)
Definition StartServer : M (os * N) goerr () :=
  r ← attempt (on_fs (Remove containerSocketPath));
  match r with
  | Err err =>
      if is_not_exist err then mret () else fail (ErrText ("failed to remove existing socket: " +:+ error_text err))
  | Ok _ => mret ()
  end;;
  _ ← wrap ("failed to listen on unix socket " +:+ containerSocketPath) (Listen "unix" containerSocketPath);
  r ← attempt (on_fs (Chmod containerSocketPath 384));
  match r with
  | Err err => _ ← attempt Close; fail (ErrWrap ("failed to chmod socket: " +:+ error_text err) err)
  | Ok _ => mret ()
  end.

(** The goroutine that waits for the context: it closes the listener and then removes the socket. *)
Inductive watcher : Type := Waiting | Closed | Done.

Record upcallServer : Type := MkUpcallServer {
  env : os * N;
  host : S;                                  (* what the commands act on *)
  cancelled : bool;
  watching : watcher;
  accepted : list connection;
  pending : list connection;                 (* their goroutines have not run yet *)
  answered : list (connection * string);
  returned : option (result goerr ());       (* what the loop has returned *)
}.

Definition serving (e : os * N) (h : S) : upcallServer := MkUpcallServer e h false Waiting [] [] [] None.

(** The node at the socket's path. *)
Definition socket (e : os * N) : option node := files e.1 !! resolve containerSocketPath.

(** What happens while the server runs, once its socket has its mode.  Handling a connection is one step; the code does it in a
    goroutine of its own, in which the command runs while others are handled. *)
Inductive upcall_step : upcallServer → upcallServer → Prop :=
| step_accept e h c acc pend ans conn :
    upcall_step (MkUpcallServer e h c Waiting acc pend ans None) (MkUpcallServer e h c Waiting (acc ++ [conn]) (pend ++ [conn]) ans None)
| step_accept_error e h c w acc pend ans :   (* logged *)
    upcall_step (MkUpcallServer e h c w acc pend ans None) (MkUpcallServer e h c w acc pend ans None)
| step_accept_closed e h c w acc pend ans :
    w ≠ Waiting → upcall_step (MkUpcallServer e h c w acc pend ans None) (MkUpcallServer e h c w acc pend ans (Some (Ok ())))
| step_handle e h c w acc pend1 conn pend2 ans r out h' :
    handleConnection Environ (conn_input conn) (conn_error conn) h = (out, h') →
    upcall_step (MkUpcallServer e h c w acc (pend1 ++ conn :: pend2) ans r)
                (MkUpcallServer e h' c w acc (pend1 ++ pend2) (ans ++ [(conn, out)]) r)
| step_cancel e h c w acc pend ans r :
    upcall_step (MkUpcallServer e h c w acc pend ans r) (MkUpcallServer e h true w acc pend ans r)
| step_close e h acc pend ans r :
    upcall_step (MkUpcallServer e h true Waiting acc pend ans r)
                (MkUpcallServer (state_after (attempt Close : M _ goerr _) e) h true Closed acc pend ans r)
| step_remove e h acc pend ans r :
    upcall_step (MkUpcallServer e h true Closed acc pend ans r)
                (MkUpcallServer (state_after (attempt (on_fs (Remove containerSocketPath)) : M _ goerr _) e) h true Done acc pend ans r)
| step_others e e' h c w acc pend ans r :   (* the rest of the node, which leaves the socket alone *)
    socket e' = socket e →
    upcall_step (MkUpcallServer e h c w acc pend ans r) (MkUpcallServer e' h c w acc pend ans r).
End serve.
Arguments upcallServer : clear implicits.

(** ** What the server guarantees *)
Section spec.
Context {N S : Type} `{Sockets N} `{Listeners N} `{Runner S}.
Context (Environ : list string).
Implicit Types st : upcallServer N S.

(** A socket that only its owner can use. *)
Definition private (n : option node) : Prop := ∃ m, n = Some m ∧ perm (node_attr m) = 384.

(** One whitelisted command has run for some request. *)
Definition ran (h h' : S) : Prop :=
  ∃ req arg0 args env r,
    Upcall.Args req = arg0 :: args ∧ whitelisted (route arg0) args ∧ command_env Environ req env ∧
    run_command (route arg0) args env h = (r, h').

Lemma StartServer_private e e' : StartServer e = (Ok (), e') → private (socket e').
Proof.
  unfold StartServer. intros (removed & e0 & _ & Hm)%bind_inv. apply bind_inv in Hm as ([] & e1 & _ & Hm).
  apply bind_inv in Hm as ([] & e2 & _ & Hm).
  apply bind_inv in Hm as (r & e3 & Hc%attempt_inv & Hm). destruct r as [[]|err]; cycle 1.
  { by apply bind_inv in Hm as (? & ? & _ & ?). }
  injection Hm as <-. unfold on_fs in Hc. destruct (Chmod containerSocketPath 384 e2.1) as [r o] eqn:E.
  injection Hc as -> <-. unfold socket. cbn [fst]. unfold Chmod in E.
  apply syscall_cases in E as [_ [(f & _ & ? & _)|[Hr ->]]]; [done|]. unfold change_attr in *.
  rewrite look_nonroot in * by done. destruct (files e2.1 !! resolve containerSocketPath) as [n|]; [|done].
  cbn [snd]. rewrite lookup_insert_eq. eexists. split; [done|]. by destruct n.
Qed.

(** What holds from the moment the loop starts. *)
Record upcall_inv (h0 : S) st : Prop := {
  inv_private : watching st = Waiting → private (socket (env st));
  inv_ran : rtc ran h0 (host st);
  inv_answered : accepted st ≡ₚ (answered st).*1 ++ pending st;
  inv_answers : Forall (λ a, ∃ h h', handleConnection Environ (conn_input a.1) (conn_error a.1) h = (a.2, h')) (answered st);
  inv_cancelled : watching st ≠ Waiting → cancelled st = true;
  inv_returned r : returned st = Some r → r = Ok () ∧ cancelled st = true;
}.

Lemma handled_ran conn h out h' :
  handleConnection Environ (conn_input conn) (conn_error conn) h = (out, h') → rtc ran h h'.
Proof.
  intros [->|(req & arg0 & args & env & r & ?)]%handleConnection_runs; [done|]. apply rtc_once.
  by exists req, arg0, args, env, r.
Qed.

Lemma upcall_step_inv h0 st st' : upcall_inv h0 st → upcall_step Environ st st' → upcall_inv h0 st'.
Proof.
  intros [Hp Hr Ha Hs Hc Hret] Hst. destruct Hst; cbn [env host cancelled watching accepted pending answered returned] in *;
    split; cbn [env host cancelled watching accepted pending answered returned]; try done; auto.
  - by rewrite Ha, <-app_assoc.
  - intros ? [= <-]. auto.
  - etrans; [exact Hr|]. by eapply handled_ran.
  - rewrite Ha, fmap_app, <-app_assoc. cbn. by rewrite <-(Permutation_middle pend1 pend2).
  - apply Forall_app. split; [done|]. apply Forall_singleton. eauto.
  - intros r' Hr'. by destruct (Hret r' Hr').
  - intros Hw. match goal with Hs : socket e' = _ |- _ => rewrite Hs end. auto.
Qed.

Lemma upcall_reachable_inv h0 st st' : upcall_inv h0 st → rtc (upcall_step Environ) st st' → upcall_inv h0 st'.
Proof. intros Hi Hst. revert Hi. induction Hst; eauto using upcall_step_inv. Qed.

(** The connections that wait can all be handled. *)
Lemma handle_all e h c w acc pend ans r :
  ∃ h' ans', rtc (upcall_step Environ) (MkUpcallServer e h c w acc pend ans r) (MkUpcallServer e h' c w acc [] ans' r).
Proof.
  revert h ans. induction pend as [|conn pend IH]; intros h ans; [by exists h, ans|].
  destruct (handleConnection Environ (conn_input conn) (conn_error conn) h) as [out h1] eqn:E.
  destruct (IH h1 (ans ++ [(conn, out)])) as (h' & ans' & Hst). exists h', ans'. eapply rtc_l; [|exact Hst].
  by apply (step_handle Environ e h c w acc [] conn pend).
Qed.

Lemma watcher_ends st :
  cancelled st = true → ∃ e', rtc (upcall_step Environ) st
    (MkUpcallServer e' (host st) true Done (accepted st) (pending st) (answered st) (returned st)).
Proof.
  destruct st as [e h c w acc pend ans r]. cbn. intros ->. destruct w; [| |by eexists].
  - eexists. eapply rtc_l; [apply step_close|]. apply rtc_once, step_remove.
  - eexists. apply rtc_once, step_remove.
Qed.

(** Claim C19. From the moment the upcall server accepts connections and as long as it listens, only its owner can use the
    socket; whatever connections arrive and in whatever order they are handled, only whitelisted commands are
    run, every connection is handled once and gets the answer that [handleConnection] gives; errors of [Accept] do not
    end the server, which returns only, and without an error, when its context is done, and then it can, with
    every connection handled. *)
Theorem upcall_server_serves e0 e1 h0 st :
  StartServer e0 = (Ok (), e1) → rtc (upcall_step Environ) (serving e1 h0) st →
  (watching st = Waiting → private (socket (env st))) ∧
  rtc ran h0 (host st) ∧
  accepted st ≡ₚ (answered st).*1 ++ pending st ∧
  (∀ conn out, (conn, out) ∈ answered st → ∃ h h', handleConnection Environ (conn_input conn) (conn_error conn) h = (out, h')) ∧
  (∀ r, returned st = Some r → r = Ok () ∧ cancelled st = true) ∧
  (cancelled st = true → ∃ st', rtc (upcall_step Environ) st st' ∧
     returned st' = Some (Ok ()) ∧ watching st' = Done ∧ pending st' = [] ∧ accepted st' = accepted st).
Proof.
  intros Hs Hst. assert (upcall_inv h0 (serving e1 h0)) as Hi.
  { split; cbn; [|done..]. intros _. by eapply StartServer_private. }
  eapply upcall_reachable_inv in Hi; [|exact Hst]. destruct Hi as [Hp Hr Ha Hans Hc Hret].
  split_and!; [done..| |done|].
  { intros conn out Hin. rewrite Forall_forall in Hans. apply (Hans _ Hin). }
  intros Hcan. destruct (watcher_ends st Hcan) as [e' Hw].
  destruct (handle_all e' (host st) true Done (accepted st) (pending st) (answered st) (returned st)) as (h' & ans' & Hh).
  exists (MkUpcallServer e' h' true Done (accepted st) [] ans' (Some (Ok ()))). split_and!; [|done..].
  etrans; [exact Hw|]. etrans; [exact Hh|]. destruct (returned st) as [r|]; [by destruct (Hret r eq_refl) as [-> _]|].
  by apply rtc_once, step_accept_closed.
Qed.
End spec.

(** ** A witness: sockets are made as files, commands print their arguments *)
#[local] Instance file_sockets : Sockets () := {|
  Listen _ p := λ e, (Ok (), (MkOS (<[resolve p := File "" (MkAttr 493 0)]> (files e.1)) (faults e.1), e.2));
|}.
#[local] Instance file_listeners : Listeners () := {| Close := mret () |}.

Definition ex_files : os * () := (MkOS {[ ["csi"] := Dir (MkAttr 493 0) ]} [], ()).
Definition ex_listening : os * () := state_after StartServer ex_files.
Definition ex_connection : connection := MkConnection 1 ex_input None.
Definition ex_handled := handleConnection ex_environ ex_input None [].
Definition ex_server := MkUpcallServer ex_listening ex_handled.2 true Waiting [ex_connection] [] [(ex_connection, ex_handled.1)] None.

Lemma ex_reached : rtc (upcall_step ex_environ) (serving ex_listening []) ex_server.
Proof.
  eapply rtc_l; [apply (step_accept _ _ _ _ _ _ _ ex_connection)|].
  eapply rtc_l; [apply (step_handle _ _ _ _ _ _ [] ex_connection [] _ _ ex_handled.1 ex_handled.2); apply surjective_pairing|].
  apply rtc_once, step_cancel.
Qed.

Lemma upcall_server_serves_witness :
  private (socket (env ex_server)) ∧ rtc (ran ex_environ) [] (host ex_server) ∧ length (host ex_server) = 1%nat ∧
  ∃ st', rtc (upcall_step ex_environ) ex_server st' ∧ returned st' = Some (Ok ()).
Proof.
  assert (StartServer ex_files = (Ok (), ex_listening)) as Hs by (vm_compute; reflexivity).
  destruct (upcall_server_serves ex_environ ex_files ex_listening [] ex_server Hs ex_reached) as (Hp & Hr & _ & _ & _ & Hend).
  split; [by apply Hp|]. split; [exact Hr|]. split; [vm_compute; reflexivity|].
  destruct (Hend eq_refl) as (st' & Hst & Hret & _). exists st'. by split.
Defined.
