(* ===== verification/Auth.v ===== *)
(** * The alternate token source: pkg/cloud_provider/auth/token_source.go

    Tokens for the Lustre API come from a URL, at a limited rate, and a token is used again until shortly before it expires
    (package golang.org/x/oauth2, vendored).  Times are nanoseconds since the zero [time.Time]. *)
From S2P Require Import Prelude GoStr GoErr Json JsonSpec.

Local Open Scope string_scope.
Local Open Scope list_scope.
Local Open Scope Z_scope.

Record oauthToken : Type := MkToken {
  AccessToken : string;
  Expiry : Z;
}.

Record httpResponse : Type := MkHttpResponse {
  StatusCode : Z;
  ResponseBody : string;
  BodyError : option goerr;   (* what reading beyond the body gives, if not its end *)
}.

(** HTTP with the credentials of the machine, the rate limiter, the clock, the decoder of a [time.Time], and the error that
    [googleapi.CheckResponse] makes of a response. *)
Class TokenHost (S : Type) : Type := {
  NewRequest : string → string → result goerr ();
  Do : string → string → M S goerr httpResponse;
  Accept : S → S;
  timeNow : S → Z;
  unmarshal_time : json → result goerr Z;
  ErrorReply : httpResponse → goerr;
}.

Record AltTokenSource : Type := MkAltTokenSource {
  tokenURL : string;
  tokenBody : string;
}.

Section source.
Context {S : Type} `{TokenHost S}.

Definition CheckResponse (res : httpResponse) : result goerr () :=
  if decide (200 ≤ StatusCode res ≤ 299) then Ok () else Err (ErrorReply res).

(** The members of the answer, in their order. *)
Fixpoint store_oauth_token (members : list (string * json)) (tok : oauthToken) : result goerr oauthToken :=
  match members with
  | [] => Ok tok
  | (key, v) :: rest =>
      tok ← (if decide (fold_name key = "accesstoken") then
               s ← store_string "" "accessToken" v (AccessToken tok); Ok (MkToken s (Expiry tok))
             else if decide (fold_name key = "expiretime") then
               match v with
               | JNull => Ok tok
               | v => t ← unmarshal_time v; Ok (MkToken (AccessToken tok) t)
               end
             else Ok tok);
      store_oauth_token rest tok
  end.

Definition oauth_token_type : string :=
  "struct { AccessToken string " +:+ quoted_tag "accessToken" +:+ "; ExpireTime time.Time " +:+ quoted_tag "expireTime" +:+ " }".

Definition decode_oauth_token (res : httpResponse) : result goerr oauthToken :=
  v ← decode_stream (ResponseBody res) (BodyError res);
  match v with
  | JNull => Ok (MkToken "" 0)
  | JObject ms => store_oauth_token ms (MkToken "" 0)
  | v => Err (type_error v "value" oauth_token_type)
  end.

Definition token (a : AltTokenSource) : M S goerr oauthToken :=
  _ ← lift (NewRequest (tokenURL a) (tokenBody a));
  res ← Do (tokenURL a) (tokenBody a);
  _ ← lift (CheckResponse res);
  lift (decode_oauth_token res).

(** [AltTokenSource.Token] *)
Definition AltToken (a : AltTokenSource) : M S goerr oauthToken :=
  _ ← modify Accept;
  token a.

(** ** Package oauth2: a token is valid until ten seconds before it expires, and always if it does not *)
Definition defaultExpiryDelta : Z := 10 * 1000 * 1000 * 1000.

Definition expired (t : oauthToken) (now : Z) : bool :=
  bool_decide (Expiry t ≠ 0) && bool_decide (Expiry t - defaultExpiryDelta < now).

Definition Valid (t : option oauthToken) (now : Z) : bool :=
  match t with
  | None => false
  | Some t => negb (bool_decide (AccessToken t = "")) && negb (expired t now)
  end.

(** [reuseTokenSource.Token]; the state has the token that is held, and a mutex makes the calls one after another. *)
Definition ReuseToken (a : AltTokenSource) : M (option oauthToken * S) goerr oauthToken := λ s,
  let '(t, h) := s in
  match t with
  | Some tok => if Valid t (timeNow h) then (Ok tok, s) else
      match AltToken a h with (Ok tok', h') => (Ok tok', (Some tok', h')) | (Err err, h') => (Err err, (t, h')) end
  | None => match AltToken a h with (Ok tok', h') => (Ok tok', (Some tok', h')) | (Err err, h') => (Err err, (t, h')) end
  end.

(** The source in [oauth2.ReuseTokenSource], which holds no token yet. *)
Definition NewAltTokenSource (tokenURL tokenBody : string) : AltTokenSource * option oauthToken :=
  (MkAltTokenSource tokenURL tokenBody, None).

(** ** What a source gives *)

(** A call: the host before it, what it gives, the host after it. *)
Definition call : Type := S * result goerr oauthToken * S.

(** A source in use: its calls, and whatever else happens to the host in between, to states of which [during] holds. *)
Inductive uses (during : S → Prop) (a : AltTokenSource) : option oauthToken * S → list call → option oauthToken * S → Prop :=
| uses_end s : uses during a s [] s
| uses_time t h h' calls s : during h' → uses during a (t, h') calls s → uses during a (t, h) calls s
| uses_call t h r t' h' calls s :
    ReuseToken a (t, h) = (r, (t', h')) → uses during a (t', h') calls s → uses during a (t, h) ((h, r, h') :: calls) s.

Lemma ReuseToken_valid a tok h : Valid (Some tok) (timeNow h) = true → ReuseToken a (Some tok, h) = (Ok tok, (Some tok, h)).
Proof. intros Hv. unfold ReuseToken. by rewrite Hv. Qed.

Lemma ReuseToken_stale a t h : Valid t (timeNow h) = false →
  ReuseToken a (t, h) = match AltToken a h with (Ok tok, h') => (Ok tok, (Some tok, h')) | (Err err, h') => (Err err, (t, h')) end.
Proof. intros Hv. unfold ReuseToken. destruct t as [tok|]; [by rewrite Hv|done]. Qed.

Lemma AltToken_ok a h tok h' : AltToken a h = (Ok tok, h') →
  ∃ res, Do (tokenURL a) (tokenBody a) (Accept h) = (Ok res, h') ∧ 200 ≤ StatusCode res ≤ 299 ∧ decode_oauth_token res = Ok tok.
Proof.
  unfold AltToken, token. rewrite bind_unfold. cbn [modify]. intros (u & h1 & Hn & Hm)%bind_inv. injection Hn as _ <-.
  apply bind_inv in Hm as (res & h2 & Hd & Hm). apply bind_inv in Hm as (u' & h3 & Hc & Hm). injection Hc as Hc <-.
  injection Hm as Hm <-. unfold CheckResponse in Hc. case_decide; [|done]. eauto.
Qed.

Lemma uses_valid during a tok s0 calls s :
  (∀ h, during h → Valid (Some tok) (timeNow h) = true) → uses during a s0 calls s → s0.1 = Some tok → during s0.2 →
  Forall (λ '(before, r, after), r = Ok tok ∧ after = before) calls ∧ s.1 = Some tok.
Proof.
  intros Hval Hu. induction Hu as [s|t h h2 calls s Hd2 Hu IH|t h r t2 h2 calls s Hr Hu IH]; cbn [fst snd] in *.
  - intros ? _. by split.
  - intros Ht _. auto.
  - intros -> Hd. rewrite ReuseToken_valid in Hr by auto. injection Hr as <- <- <-. destruct IH as [Hc Hs]; [done..|].
    split; [|done]. by apply Forall_cons.
Qed.

(** A call without a valid token waits for its turn and asks the URL: the new token is what a response of success says
    and is kept, and an error leaves the source with the token it had.  From then on, for as long as the token is
    valid, whatever else happens, every call gives this token and asks nobody. *)
Theorem token_source_reuses a t h r t' h' during calls s :
  ReuseToken a (t, h) = (r, (t', h')) → Valid t (timeNow h) = false →
  match r with
  | Err _ => t' = t
  | Ok tok =>
      (∃ res, Do (tokenURL a) (tokenBody a) (Accept h) = (Ok res, h') ∧ 200 ≤ StatusCode res ≤ 299 ∧
         decode_oauth_token res = Ok tok) ∧
      (uses during a (t', h') calls s → during h' → (∀ h, during h → Valid (Some tok) (timeNow h) = true) →
       Forall (λ '(before, r, after), r = Ok tok ∧ after = before) calls ∧ s.1 = Some tok)
  end.
Proof.
  intros Hr Hv. rewrite ReuseToken_stale in Hr by done. destruct (AltToken a h) as [[tok|err] h1] eqn:E; injection Hr as <- <- <-; [|done].
  split; [by apply AltToken_ok|]. intros Hu Hd Hval. by apply (uses_valid during a tok (Some tok, h1)).
Qed.

(** A token's document is read as it is written. *)
Definition oauth_document (accessToken expireTime : string) : json :=
  JObject [("accessToken", JString accessToken); ("expireTime", JString expireTime)].

Lemma decode_oauth_document accessToken expireTime expiry rest e :
  is_ascii accessToken = true → is_ascii expireTime = true → unmarshal_time (JString expireTime) = Ok expiry → closing rest →
  decode_oauth_token (MkHttpResponse 200 (print_json (oauth_document accessToken expireTime) +:+ rest) e) =
    Ok (MkToken accessToken expiry).
Proof.
  intros Ha Ht He Hr. unfold decode_oauth_token. cbn [ResponseBody BodyError]. rewrite decode_stream_print; [|clear He|done].
  - unfold oauth_document. cbn [mbind result_bind store_oauth_token]. change (fold_name "accessToken") with "accesstoken".
    change (fold_name "expireTime") with "expiretime". cbn. by rewrite He.
  - apply print_object; [done|]. repeat (apply Forall_cons; split; [split; [reflexivity|by apply print_str]|]). by apply Forall_nil_2.
Qed.
End source.

(** ** A witness: a server whose tokens expire at one time, with a clock and a count of the requests *)
#[local] Instance test_token_host : TokenHost (Z * nat) := {|
  NewRequest _ _ := Ok ();
  Do _ _ := λ '(now, n), (Ok (MkHttpResponse 200 (print_json (oauth_document "secret" "2030-01-01T00:00:00Z") +:+ newline) None), (now, Datatypes.S n));
  Accept s := s;
  timeNow := fst;
  unmarshal_time v := match v with JString _ => Ok (2 ^ 40) | _ => Err (ErrText "not a string") end;
  ErrorReply res := ErrGoogle (StatusCode res) (ResponseBody res) None;
|}.

Definition test_source : AltTokenSource := MkAltTokenSource "https://tokens.example/token" "{}".
Definition test_tok : oauthToken := MkToken "secret" (2 ^ 40).

Lemma test_fetch : ReuseToken test_source (None, (0, 0%nat)) = (Ok test_tok, (Some test_tok, (0, 1%nat))).
Proof. vm_compute. reflexivity. Qed.

Lemma test_uses : uses (λ h : Z * nat, h.1 < 2 ^ 40 - defaultExpiryDelta) test_source (Some test_tok, (0, 1%nat))
  [((5, 1%nat), Ok test_tok, (5, 1%nat))] (Some test_tok, (5, 1%nat)).
Proof.
  apply (uses_time _ _ _ _ (5, 1%nat)); [reflexivity|]. eapply uses_call; [|apply uses_end]. vm_compute. reflexivity.
Qed.

Lemma token_source_reuses_witness :
  (∃ res, Do (tokenURL test_source) (tokenBody test_source) (Accept (0, 0%nat)) = (Ok res, (0, 1%nat)) ∧
     200 ≤ StatusCode res ≤ 299 ∧ decode_oauth_token res = Ok test_tok) ∧
  Forall (λ '(before, r, after), r = Ok test_tok ∧ after = before) [((5, 1%nat), Ok test_tok, (5, 1%nat)) : call].
Proof.
  destruct (token_source_reuses test_source None (0, 0%nat) (Ok test_tok) (Some test_tok) (0, 1%nat)
    (λ h : Z * nat, h.1 < 2 ^ 40 - defaultExpiryDelta) [((5, 1%nat), Ok test_tok, (5, 1%nat))] (Some test_tok, (5, 1%nat))
    test_fetch eq_refl) as [Hres Huse].
  split; [exact Hres|]. apply (Huse test_uses); [reflexivity|].
  intros [now n] Hn. unfold Valid, expired. cbn in *. rewrite (bool_decide_false (_ < now)) by (unfold defaultExpiryDelta in *; lia). reflexivity.
Defined.
