(* ===== verification/Main.v ===== *)
(** * Starting the driver: cmd/csi_driver/main.go and what it sets up

    The metadata of the instance (pkg/cloud_provider/metadata/metadata.go), the node getter with its retries
    (pkg/k8sclient/node.go), the connection to the cloud (pkg/cloud_provider/lustre/cloud.go) and the program, which
    puts the node's network together with what the kernel module installer configured, sets up the metrics and starts
    the servers. *)
From S2P Require Import Prelude GoStr Regex GoErr Csi Driver Instance Service Network Json FS Kmod Metrics Auth Server.

Local Open Scope string_scope.
Local Open Scope list_scope.
Local Open Scope Z_scope.

(** ** The instance's metadata *)

(** The metadata server (cloud.google.com/go/compute/metadata). *)
Class MetadataServer (S : Type) : Type := {
  MetadataZone : M S goerr string;
  MetadataProjectID : M S goerr string;
  MetadataGet : string → M S goerr string;
}.

(** One object of [json:"network"] and [json:"mac"], over an element decoded before. *)
Fixpoint store_interface (members : list (string * json)) (nic : NetworkInterface) : result goerr NetworkInterface :=
  match members with
  | [] => Ok nic
  | (key, v) :: rest =>
      nic ← (if decide (fold_name key = "network") then
               s ← store_string "NetworkInterface" "network" v (NicNetwork nic); Ok (MkNetworkInterface s (Mac nic))
             else if decide (fold_name key = "mac") then
               s ← store_string "NetworkInterface" "mac" v (Mac nic); Ok (MkNetworkInterface (NicNetwork nic) s)
             else Ok nic);
      store_interface rest nic
  end.

Fixpoint store_interfaces (l : list json) : result goerr (list NetworkInterface) :=
  match l with
  | [] => Ok []
  | v :: l =>
      nic ← match v with
            | JNull => Ok (MkNetworkInterface "" "")
            | JObject ms => store_interface ms (MkNetworkInterface "" "")
            | v => Err (type_error v "value" "metadata.NetworkInterface")
            end;
      nics ← store_interfaces l;
      Ok (nic :: nics)
  end.

(** [json.Unmarshal([]byte(nicsJSON), &nics)] *)
Definition unmarshal_interfaces (s : string) : result goerr (list NetworkInterface) :=
  match parse_document s with
  | Err e => Err (ErrText (syntax_error_text e))
  | Ok JNull => Ok []
  | Ok (JArray l) => store_interfaces l
  | Ok v => Err (type_error v "value" "[]metadata.NetworkInterface")
  end.

Definition NewMetadataService {S} `{MetadataServer S} : M S goerr MetadataService :=
  zone ← wrap "failed to get current zone" MetadataZone;
  projectID ← wrap "failed to get project" MetadataProjectID;
  nicsJSON ← wrap "failed to get network interfaces" (MetadataGet "instance/network-interfaces/?recursive=true");
  nics ← wrap "failed to unmarshal network interfaces" (lift (unmarshal_interfaces nicsJSON));
  mret (MkMetadataService zone projectID nics).

(** ** The node getter *)

(** client-go: the configuration and the client, and one request for a node's labels. *)
Class KubeClient (S : Type) : Type := {
  NewForConfig : M S goerr ();
  NodesGet : string → M S goerr (gmap string string);
}.

Definition ErrWaitTimeout : goerr := ErrText "timed out waiting for the condition".
Definition backoff_steps : nat := 5.

Section kube.
Context {S : Type} `{KubeClient S}.

(** [wait.ExponentialBackoffWithContext] (vendored) around the getter, with [steps] attempts left; the
    context is never cancelled. *)
Fixpoint get_node (steps : nat) (nodeName : string) : M S goerr (gmap string string) :=
  match steps with
  | O => fail ErrWaitTimeout
  | Datatypes.S steps' =>
      r ← attempt (NodesGet nodeName);
      match r with
      | Ok node => mret node
      | Err _ => get_node steps' nodeName
      end
  end.

Definition getNodeWithRetry (nodeName : string) : M S goerr (gmap string string) := get_node backoff_steps nodeName.

Definition k8s_GetNodeWithRetry (nodeName : string) : M S goerr (gmap string string) :=
  _ ← NewForConfig;
  getNodeWithRetry nodeName.

(** [k8sNodeClient] of pkg/network/network.go *)
#[export] Instance NewK8sClient : NodeClient S := { GetNodeWithRetry := k8s_GetNodeWithRetry }.
End kube.

(** ** cloud.go *)
Record ConfigGlobal : Type := MkConfigGlobal {
  TokenURL : string;
  TokenBody : string;
  CfgProjectID : string;
  CfgZone : string;
}.

Inductive token_source : Type :=
| AltSource (source : AltTokenSource) (held : option oauthToken)
| DefaultTokenSource.

(** Files of the gcfg format, Google's default credentials and their tokens, and the REST client for an address. *)
Class CloudHost (S : Type) : Type := {
  OpenConfig : string → M S goerr string;
  ReadInto : string → result goerr ConfigGlobal;
  FindDefaultCredentials : M S goerr ();
  DefaultToken : M S goerr ();
  NewRESTClient : string → M S goerr ();
}.

Section cloud.
Context {S : Type} `{CloudHost S} `{TokenHost S} `{MetadataServer S}.

Definition maybeReadConfig (configPath : string) : M S goerr (option ConfigGlobal) :=
  if decide (configPath = "") then mret None else
  reader ← wrap ("couldn't open cloud provider configuration at " +:+ configPath) (OpenConfig configPath);
  cfg ← wrap ("couldn't read cloud provider configuration at " +:+ configPath) (lift (ReadInto reader));
  mret (Some cfg).

Definition generateTokenSource (configFile : option ConfigGlobal) : M S goerr token_source :=
  let default_source := _ ← FindDefaultCredentials; mret DefaultTokenSource in
  match configFile with
  | Some cfg =>
      if decide (TokenURL cfg ≠ "" ∧ TokenURL cfg ≠ "nil") then
        let '(source, held) := NewAltTokenSource (TokenURL cfg) (TokenBody cfg) in mret (AltSource source held)
      else default_source
  | None => default_source
  end.

(** The first token is fetched at once, and an error ends the polling; the client has the token that an alternate source
    then holds. *)
Definition newOauthClient (tokenSource : token_source) : M S goerr (option oauthToken) :=
  match tokenSource with
  | AltSource a held => λ s, let '(r, (t, s')) := ReuseToken a (held, s) in (match r with Ok _ => Ok t | Err err => Err err end, s')
  | DefaultTokenSource => _ ← DefaultToken; mret None
  end.

(** A setting of the file, or the metadata server's. *)
Definition setting (value : option string) (from_server : M S goerr string) : M S goerr string :=
  match value with
  | Some v => if decide (v = "") then from_server else mret v
  | None => from_server
  end.

Definition getProjectAndZone (config : option ConfigGlobal) : M S goerr (string * string) :=
  zone ← setting (CfgZone <$> config) MetadataZone;
  projectID ← setting (CfgProjectID <$> config) MetadataProjectID;
  mret (projectID, zone).

Definition NewLustreService (endpoint : string) : M S goerr () :=
  address ← lift (Manager.service_address endpoint);
  NewRESTClient address.

Definition NewCloud (configPath endpoint : string) : M S goerr Cloud :=
  configFile ← maybeReadConfig configPath;
  tokenSource ← generateTokenSource configFile;
  _ ← newOauthClient tokenSource;
  _ ← NewLustreService endpoint;
  '(project, zone) ← wrap "failed to initialize project information" (getProjectAndZone configFile);
  mret (MkCloud project zone).
End cloud.

(** ** The program *)
Record flags : Type := MkFlags {
  endpoint : string;
  nodeID : string;
  runController : bool;
  runNode : bool;
  lustreAPIEndpoint : string;
  cloudConfigFilePath : string;
  enableLegacyLustrePort : bool;
  enableLabelController : bool;
  httpEndpoint : string;
  metricsPath : string;
  leaderElectionNamespace : string;
}.

(** What runs once the driver is up. *)
Record started : Type := MkStarted {
  driver : LustreDriver;
  cloud : option Cloud;
  upcalls : bool;                     (* the host's setup and the upcall server *)
  label_controller : option string;   (* the namespace of its leader election *)
  metrics_server : option metricsServer;
  mm : metricsState;
}.

Section main.
Context {S : Type} `{Netlinker S} `{NodeClient S} `{CloudHost S} `{TokenHost S} `{MetadataServer S}.

Definition node_main (f : flags) : M (@kmodState S) goerr (MetadataService * list string * bool) :=
  if decide (nodeID f = "") then fatalf "NodeID cannot be empty for node service" else
  meta ← fatal "Failed to set up metadata service" (on_host NewMetadataService);
  hostOS ← fatal "Failed to read OS Host Info" (on_host (GetNodeLabelValue (nodeID f) OSNodeLabel));
  defaultNic ← fatal "Failed to identify primary NIC" (on_host (GetPrimaryNIC (Some (GetNetworkInterfaces meta))));
  r ← on_os (getLnetNetwork lnetNetworkParameterFile defaultNic);
  match r with
  | Err err => fatalf ("Failed to get LNET network parameters: " +:+ error_text err)
  | Ok nics =>
      let additionalNics := filter (λ nic, nic ≠ defaultNic) nics in
      mret (meta, additionalNics, bool_decide (hostOS = "cos"))
  end.

(** A call of the metrics manager, whose failures are panics. *)
Definition on_metrics {A} (m : M metricsState goerr A) (mm : metricsState) : M (@kmodState S) goerr (A * metricsState) :=
  let '(r, mm') := m mm in a ← lift r; mret (a, mm').

Definition controller_main (f : flags) (env : option string) (mm : metricsState)
    : M (@kmodState S) goerr (Cloud * option string * metricsState) :=
  mm ← (if IsGKEComponentVersionAvailable env then
          '(_, mm) ← on_metrics (EmitGKEComponentVersion env) mm; mret mm   (* an error is logged *)
        else mret mm);
  let endpoint := if decide (lustreAPIEndpoint f = "") then "prod" else lustreAPIEndpoint f in
  cloud ← fatal "Failed to initialize cloud provider" (on_host (NewCloud (cloudConfigFilePath f) endpoint));
  if enableLabelController f then
    '(_, mm) ← on_metrics RegisterSuccessfullyLabeledVolumeMetric mm;
    mret (cloud, Some (leaderElectionNamespace f), mm)
  else mret (cloud, None, mm).

(** The fields of the configuration that no service that runs reads stay empty. *)
Definition driver_main `{ServeMux} (f : flags) (version : string) (env : option string) : M (@kmodState S) goerr started :=
  server ← (if decide (httpEndpoint f = "") then mret None else
              server ← lift (InitializeHTTPHandler (httpEndpoint f) (metricsPath f)); mret (Some server));
  '(meta, nics, upcalls) ← (if runNode f then node_main f else mret (MkMetadataService "" "" [], [], false));
  '(cloud, labels, mm) ← (if runController f then
      '(c, l, mm) ← controller_main f env NewMetricsManager; mret (Some c, l, mm) else mret (None, None, NewMetricsManager));
  driver ← fatal "Failed to initialize Lustre CSI Driver" (lift (NewLustreDriver
    (MkConfig DefaultName version (if runNode f then nodeID f else "") (runController f) (runNode f) meta
       (enableLegacyLustrePort f) nics)));
  mret (MkStarted driver cloud upcalls labels server mm).

(** [lustreDriver.Run] with the endpoint of the flags. *)
Definition main_runs {T} (f : flags) (st : started) (env : os * T) : program T := run_start (driver st) (endpoint f) env.
End main.
