(* ===== verification/MainSpec.v ===== *)
(** * What the driver starts with

    The node getter's retries, the metadata's interfaces as they are read, and the interfaces a node's driver
    uses besides the primary one, which are those the kernel module installer configured. *)
From S2P Require Import Prelude GoStr Regex GoErr Csi Driver Instance Service Network Json JsonSpec FS Kmod KmodSpec Metrics Auth Server Main.

Local Open Scope string_scope.
Local Open Scope list_scope.
Local Open Scope Z_scope.

(** ** The node getter *)
Section kube.
Context {S : Type} `{KubeClient S} (nodeName : string).

(** [n] requests in a row that fail. *)
Inductive requests_fail : nat → S → S → Prop :=
| no_request s : requests_fail 0 s s
| one_more n s err s1 s' :
    NodesGet nodeName s = (Err err, s1) → requests_fail n s1 s' → requests_fail (Datatypes.S n) s s'.

Lemma get_node_fails n steps s s' :
  requests_fail n s s' → get_node (n + steps) nodeName s = get_node steps nodeName s'.
Proof.
  intros Hf. induction Hf as [s|n s err s1 s' Hg Hf IH]; [done|].
  cbn [Nat.add get_node]. rewrite bind_unfold. unfold attempt. by rewrite Hg.
Qed.

(** The node getter gives the node as soon as one of its first five requests is answered, and
    gives up with a timeout after five failures. *)
Theorem node_getter_retries k s s' :
  requests_fail k s s' →
  (∀ labels s'', (k < 5)%nat → NodesGet nodeName s' = (Ok labels, s'') → getNodeWithRetry nodeName s = (Ok labels, s'')) ∧
  (k = 5%nat → getNodeWithRetry nodeName s = (Err ErrWaitTimeout, s')).
Proof.
  intros Hf. unfold getNodeWithRetry. split.
  - intros labels s'' Hk Hg. replace backoff_steps with (k + Datatypes.S (4 - k))%nat by (unfold backoff_steps; lia).
    rewrite (get_node_fails _ _ _ _ Hf). cbn [get_node]. rewrite bind_unfold. unfold attempt. by rewrite Hg.
  - intros ->. change backoff_steps with (5 + 0)%nat. by rewrite (get_node_fails _ _ _ _ Hf).
Qed.
End kube.

(** ** The interfaces in the metadata *)
Definition interfaces_json (nics : list NetworkInterface) : json :=
  JArray ((λ nic, JObject [("network", JString (NicNetwork nic)); ("mac", JString (Mac nic))]) <$> nics).

Lemma store_interfaces_json nics :
  store_interfaces ((λ nic, JObject [("network", JString (NicNetwork nic)); ("mac", JString (Mac nic))]) <$> nics) = Ok nics.
Proof.
  induction nics as [|[network mac] nics IH]; [done|]. rewrite fmap_cons. cbn [store_interfaces NicNetwork Mac].
  assert (store_interface [("network", JString network); ("mac", JString mac)] (MkNetworkInterface "" "") =
    Ok (MkNetworkInterface network mac)) as -> by reflexivity.
  cbn [mbind result_bind]. by rewrite IH.
Qed.

Lemma unmarshal_interfaces_print nics :
  Forall (λ nic, is_ascii (NicNetwork nic) = true ∧ is_ascii (Mac nic) = true) nics →
  unmarshal_interfaces (print_json (interfaces_json nics)) = Ok nics.
Proof.
  intros Hn. unfold unmarshal_interfaces. rewrite parse_print; [apply store_interfaces_json|].
  apply print_array; [done|]. apply Forall_fmap. eapply Forall_impl; [exact Hn|]. intros nic [Ha Hb].
  apply print_object; [done|]. repeat (apply Forall_cons; split; [split; [reflexivity|by apply print_str]|]). by apply Forall_nil_2.
Qed.

Lemma NewMetadataService_reads {S} `{MetadataServer S} (s s1 s2 s3 : S) zone project nics :
  Forall (λ nic, is_ascii (NicNetwork nic) = true ∧ is_ascii (Mac nic) = true) nics →
  MetadataZone s = (Ok zone, s1) → MetadataProjectID s1 = (Ok project, s2) →
  MetadataGet "instance/network-interfaces/?recursive=true" s2 = (Ok (print_json (interfaces_json nics)), s3) →
  NewMetadataService s = (Ok (MkMetadataService zone project nics), s3).
Proof.
  intros Hn H1 H2 H3.
  unfold NewMetadataService, wrap. rewrite bind_unfold, H1. cbn [map_err]. rewrite bind_unfold, H2. cbn [map_err].
  rewrite bind_unfold, H3. cbn [map_err]. rewrite bind_unfold. unfold lift. by rewrite unmarshal_interfaces_print.
Qed.

(** The interfaces in the metadata server's document are read as they are written, and the service
    holds them with the zone and the project. *)
Theorem metadata_read {S} `{MetadataServer S} (s s1 s2 s3 : S) zone project nics :
  Forall (λ nic, is_ascii (NicNetwork nic) = true ∧ is_ascii (Mac nic) = true) nics →
  MetadataZone s = (Ok zone, s1) → MetadataProjectID s1 = (Ok project, s2) →
  MetadataGet "instance/network-interfaces/?recursive=true" s2 = (Ok (print_json (interfaces_json nics)), s3) →
  NewMetadataService s = (Ok (MkMetadataService zone project nics), s3).
Proof. apply NewMetadataService_reads. Qed.

(** ** The interfaces of a node *)
Section driver.
Context {S : Type} `{Netlinker S} `{NodeClient S} `{CloudHost S} `{TokenHost S} `{MetadataServer S} `{ServeMux}.
Implicit Types s : @kmodState S.

Lemma host_step {A} what (m : M S goerr A) s a s' :
  fatal what (on_host m) s = (Ok a, s') → ∃ h, m (kmodHost s) = (Ok a, h) ∧ s' = MkKmodState (kmodOS s) h.
Proof.
  unfold fatal, on_host. destruct (m (kmodHost s)) as [[b|e] h]; cbn; [|done]. intros [= -> <-]. eauto.
Qed.

Lemma node_main_ok f s meta nics upcalls s' :
  node_main f s = (Ok (meta, nics, upcalls), s') →
  ∃ primary configured h h' h0 h1, NewMetadataService h0 = (Ok meta, h1) ∧ GetPrimaryNIC (Some (GetNetworkInterfaces meta)) h = (Ok primary, h') ∧
    (getLnetNetwork lnetNetworkParameterFile primary (kmodOS s)).1 = Ok configured ∧
    nics = filter (λ nic, nic ≠ primary) configured.
Proof.
  unfold node_main. case_decide; [done|].
  intros (m & s1 & (h1 & Hmeta & ->)%host_step & Hm)%bind_inv.
  apply bind_inv in Hm as (hostOS & s2 & (h2 & _ & ->)%host_step & Hm).
  apply bind_inv in Hm as (primary & s3 & (h3 & Hp & ->)%host_step & Hm). cbn [kmodOS kmodHost] in *.
  rewrite bind_unfold in Hm. unfold on_os in Hm. cbn [kmodOS] in Hm.
  destruct (getLnetNetwork _ primary (kmodOS s)) as [[configured|e] o] eqn:El; [|done].
  injection Hm as <- <- _ _. exists primary, configured, h2, h3, (kmodHost s), h1. by rewrite El.
Qed.

Lemma NewLustreDriver_config cfg d : NewLustreDriver cfg = Ok d → config d = cfg.
Proof. unfold NewLustreDriver. repeat case_match; intros [= <-]; done. Qed.

(** The parts of a start that has succeeded. *)
Lemma driver_main_ok f version env s st s' :
  driver_main f version env s = (Ok st, s') →
  (runNode f = true → ∃ meta upcalls s1, node_main f s = (Ok (meta, AdditionalNics (config (driver st)), upcalls), s1)) ∧
  (if runController f then ∃ c s1 s2, controller_main f env NewMetricsManager s1 = (Ok (c, label_controller st, mm st), s2)
   else label_controller st = None ∧ mm st = NewMetricsManager).
Proof.
  unfold driver_main. intros (server & s0 & Hserver & Hm)%bind_inv.
  assert (s0 = s) as ->.
  { case_decide; [by injection Hserver|]. apply bind_inv in Hserver as (? & ? & Hl & Hr). injection Hl as _ <-. by injection Hr. }
  apply bind_inv in Hm as ([[meta nics] upcalls] & s1 & Hnode & Hm).
  apply bind_inv in Hm as ([[cloud labels] mm'] & s2 & Hc & Hm).
  apply bind_inv in Hm as (d & s3 & Hd & [= <- _]). cbn [driver label_controller mm].
  unfold fatal, lift in Hd. destruct (NewLustreDriver _) as [d'|] eqn:E; [|done]. apply NewLustreDriver_config in E.
  injection Hd as <- _. rewrite E. cbn [AdditionalNics]. split.
  - intros Hn. rewrite Hn in Hnode. eauto.
  - destruct (runController f); [|by injection Hc as _ <- <- _].
    apply bind_inv in Hc as ([[c l] m] & s4 & Hc & [= _ <- <- _]). eauto.
Qed.

(** ** The metrics of a driver *)

Lemma on_metrics_ok {A} (m : M metricsState goerr A) mm s a mm' s' :
  on_metrics m mm s = (Ok (a, mm'), s') → m mm = (Ok a, mm') ∧ s' = s.
Proof. unfold on_metrics. destruct (m mm) as [[b|e] mm1]; [|done]. by intros [= <- <- <-]. Qed.

Lemma EmitGKEComponentVersion_ok env r mm' :
  EmitGKEComponentVersion env NewMetricsManager = (Ok r, mm') → getEnvVar env ≠ "" →
  mm' = MkMetrics None (Some {[ getEnvVar env := 1 ]}) None [ComponentVersion].
Proof.
  intros (u & s1 & Hr & He)%bind_inv Hv. injection Hr as _ <-. unfold recordComponentVersionMetric in He.
  rewrite decide_False in He by done. apply bind_inv in He as (s2 & s3 & [= <- <-] & He).
  apply bind_inv in He as (g & s4 & Hg & He). unfold lift in Hg. cbn in Hg. destruct (ValidString _); [|done].
  injection Hg as <- <-. by injection He as _ <-.
Qed.

(** What a scrape shows once the controller has started. *)
Lemma controller_main_metrics f env s c labels mm s' :
  controller_main f env NewMetricsManager s = (Ok (c, labels, mm), s') →
  mm = MkMetrics None (if decide (getEnvVar env = "") then None else Some {[ getEnvVar env := 1 ]})
    (if enableLabelController f then Some 0 else None)
    ((if enableLabelController f then [LabeledVolumes] else []) ++
     (if decide (getEnvVar env = "") then [] else [ComponentVersion])).
Proof.
  intros (mm1 & s1 & He & Hm)%bind_inv.
  assert (mm1 = MkMetrics None (if decide (getEnvVar env = "") then None else Some {[ getEnvVar env := 1 ]}) None
    (if decide (getEnvVar env = "") then [] else [ComponentVersion])) as ->.
  { unfold IsGKEComponentVersionAvailable in He. destruct (decide (getEnvVar env = "")) as [Hv|Hv].
    - rewrite bool_decide_true in He by done. by injection He as <- _.
    - rewrite bool_decide_false in He by done. apply bind_inv in He as ([r m] & s2 & He & [= <- _]).
      apply on_metrics_ok in He as [He _]. by apply EmitGKEComponentVersion_ok in He as ->. }
  apply bind_inv in Hm as (cl & s2 & _ & Hm). destruct (enableLabelController f); [|by injection Hm as _ _ <- _].
  apply bind_inv in Hm as ([u m] & s3 & Hr & [= _ _ <- _]). apply on_metrics_ok in Hr as [Hr _].
  cbn in Hr. by case_decide; injection Hr as _ <-.
Qed.

(** Volumes that are labelled later on are counted. *)
Lemma iter_record (k : nat) mm :
  Nat.iter k RecordSuccessfullyLabeledVolume mm =
  MkMetrics (usingMultiNic mm) (gkeComponentVersion mm)
    ((λ n, if decide (k = 0%nat) then n else (n + Z.of_nat k) `mod` 2 ^ 64) <$> successfullyLabeledVolumes mm) (registry mm).
Proof.
  induction k as [|k IH]; [by destruct mm as [? ? [] ?]|]. rewrite Nat.iter_succ, IH.
  destruct mm as [g v [n|] r]; [|done]. unfold RecordSuccessfullyLabeledVolume. cbn. do 2 f_equal.
  destruct (decide (k = 0%nat)) as [->|]; [done|].
  rewrite Zplus_mod_idemp_l. f_equal. lia.
Qed.

(** Claim C38. What a scrape shows of a driver that has started and since then labelled [k] volumes: nothing on a node;
    on a controller the version of the component, if the environment names one, and the number of volumes, if the label
    controller runs, as a number of 64 bits.  The metric for several interfaces, [multi_nic], is never shown. *)
Theorem driver_metrics f version env s st s' (k : nat) sm :
  driver_main f version env s = (Ok st, s') →
  sm ∈ Gather (Nat.iter k RecordSuccessfullyLabeledVolume (mm st)) ↔
  runController f = true ∧
  (getEnvVar env ≠ "" ∧ sm = Gauge "component_version" (getEnvVar env) 1 ∨
   enableLabelController f = true ∧ sm = Counter "labeled_volumes_total" (Z.of_nat k `mod` 2 ^ 64)).
Proof.
  intros [_ Hc]%driver_main_ok. rewrite iter_record. destruct (runController f); cycle 1.
  { destruct Hc as [_ ->]. cbn. set_solver. }
  destruct Hc as (c & s1 & s2 & ->%controller_main_metrics).
  assert ((if decide (k = 0%nat) then 0 else (0 + Z.of_nat k) `mod` 2 ^ 64) = Z.of_nat k `mod` 2 ^ 64) as Hk by (by case_decide; [subst|]).
  unfold Gather. cbn [registry usingMultiNic gkeComponentVersion successfullyLabeledVolumes].
  destruct (enableLabelController f), (decide (getEnvVar env = "")); cbn; unfold gauge_samples; cbn;
    rewrite ?map_to_list_singleton; cbn; rewrite ?Hk, ?elem_of_cons, ?elem_of_nil; naive_solver.
Qed.

(** Claim C36. On a node where the installer configured LNet, the driver uses, besides the primary interface,
    exactly the other interfaces the installer was given, in their order, or none if it was told to use one. *)
Theorem driver_uses_configured_nics f version env s st s' primaryNic nics disableMultiNIC blanks a :
  runNode f = true → driver_main f version env s = (Ok st, s') →
  (∀ h0 h1 meta h d h', NewMetadataService h0 = (Ok meta, h1) → GetPrimaryNIC (Some (GetNetworkInterfaces meta)) h = (Ok d, h') → d = primaryNic) →
  primaryNic ≠ "" → Forall (λ nic, has_char "," nic = false) (primaryNic :: nics) →
  trim_space blanks = "" → faults (kmodOS s) = [] →
  stat_tree (resolve lnetNetworkParameterFile) (files (kmodOS s)) =
    Ok (File (BuildLnetNetworkString nics primaryNic disableMultiNIC +:+ blanks) a) →
  AdditionalNics (config (driver st)) = if disableMultiNIC then [] else filter (λ nic, nic ≠ primaryNic) nics.
Proof.
  intros Hf Hm Hprim Hne Hc Hb Hfaults Hs. apply driver_main_ok in Hm as [(meta & upcalls & s1 & Hn)%(λ H, H Hf) _].
  apply node_main_ok in Hn as (d & configured & h & h' & h0 & h1 & Hmeta & Hd & Hl & ->).
  apply (Hprim _ _ _ _ _ _ Hmeta) in Hd as ->.
  rewrite (getLnetNetwork_configured _ _ _ _ _ _ _ _ Hne Hc Hb Hfaults Hs) in Hl. injection Hl as <-.
  destruct disableMultiNIC; rewrite filter_cons_False by (by intros Hn; apply Hn); [done|].
  rewrite list_filter_filter_l; [done|]. auto.
Qed.
End driver.

(** ** Witnesses *)

(** A node with two interfaces, of which the metadata names the second as the primary one; the state counts
    how many requests the cluster still refuses. *)
Definition test_nics : list NetworkInterface := [MkNetworkInterface "vpc" "42:01:0a:00:00:03"; MkNetworkInterface "vpc" "42:01:0a:00:00:02"].
#[local] Instance test_metadata : MetadataServer nat := {
  MetadataZone n := (Ok "us-central1-a", n);
  MetadataProjectID n := (Ok "test-project", n);
  MetadataGet _ n := (Ok (print_json (interfaces_json test_nics)), n);
}.
#[local] Instance test_netlinker : Netlinker nat := {
  LinkByName name n := (Ok (MkLink name 2 (if decide (name = "eth0") then "42:01:0a:00:00:02" else "42:01:0a:00:00:03")), n);
  AddrList _ n := (Ok [], n);
  RouteList _ n := (Ok [], n);
  RouteReplace _ n := (Ok (), n);
  RuleAdd _ n := (Ok (), n);
  RuleList n := (Ok [], n);
  RouteListFiltered _ n := (Ok [], n);
  nl_GetStandardNICs n := (Ok ["eth0"; "eth1"], n);
}.
#[local] Instance test_cloud : CloudHost nat := {
  OpenConfig _ n := (Ok "", n);
  ReadInto _ := Ok (MkConfigGlobal "" "" "" "");
  FindDefaultCredentials n := (Ok (), n);
  DefaultToken n := (Ok (), n);
  NewRESTClient _ n := (Ok (), n);
}.
#[local] Instance test_tokens : TokenHost nat := {
  NewRequest _ _ := Ok ();
  Do _ _ n := (Ok (MkHttpResponse 200 "{}" None), n);
  Accept n := n;
  timeNow _ := 0;
  unmarshal_time _ := Ok 0;
  ErrorReply res := ErrGoogle (StatusCode res) (ResponseBody res) None;
}.
#[local] Instance test_kube : KubeClient nat := {
  NewForConfig n := (Ok (), n);
  NodesGet _ n := match n with O => (Ok {[ OSNodeLabel := "cos" ]}, O) | Datatypes.S n' => (Err (ErrText "refused"), n') end;
}.

Lemma node_getter_retries_witness :
  getNodeWithRetry "node" 4%nat = (Ok {[ OSNodeLabel := "cos" ]}, O) ∧ getNodeWithRetry "node" 7%nat = (Err ErrWaitTimeout, 2%nat).
Proof.
  assert (∀ k n, requests_fail "node" k (k + n)%nat n) as Hf.
  { induction k as [|k IH]; intros n; [apply no_request|]. by eapply one_more; [|apply IH]. }
  split.
  - apply (node_getter_retries "node" 4 4%nat O (Hf 4%nat O)); [lia|reflexivity].
  - apply (node_getter_retries "node" 5 7%nat 2%nat (Hf 5%nat 2%nat)). reflexivity.
Defined.

Lemma metadata_read_witness :
  NewMetadataService O = (Ok (MkMetadataService "us-central1-a" "test-project" test_nics), O).
Proof. apply (metadata_read O O O O); [by repeat constructor|reflexivity..]. Defined.

Lemma test_metadata_read h : NewMetadataService h = (Ok (MkMetadataService "us-central1-a" "test-project" test_nics), h).
Proof. apply (NewMetadataService_reads h h h h); [by repeat constructor|reflexivity..]. Qed.

#[local] Instance test_mux : ServeMux := {| Handle _ := Ok () |}.

Definition test_flags : flags := MkFlags "unix:/tmp/csi.sock" "node" false true "" "" false true "" "/metrics" "".
Definition test_node : @kmodState nat :=
  let dir := Dir (MkAttr 493 0) in
  MkKmodState (MkOS (list_to_map [(["sys"], dir); (["sys"; "module"], dir); (["sys"; "module"; "lnet"], dir);
    (["sys"; "module"; "lnet"; "parameters"], dir);
    (["sys"; "module"; "lnet"; "parameters"; "networks"], File ("tcp0(eth1,eth0)" +:+ newline) (MkAttr 420 0))]) []) 3%nat.

Definition test_started : started :=
  match result_in (driver_main test_flags "v1" None) test_node with
  | Ok st => st
  | Err _ => MkStarted (MkDriver (MkConfig "" "" "" false false (MkMetadataService "" "" []) false []) ∅ [] [] false false) None false None None NewMetricsManager
  end.

Lemma driver_uses_configured_nics_witness : AdditionalNics (config (driver test_started)) = ["eth0"].
Proof.
  apply (driver_uses_configured_nics test_flags "v1" None test_node test_started (state_after (driver_main test_flags "v1" None) test_node)
    "eth1" ["eth0"; "eth1"] false newline (MkAttr 420 0)).
  - reflexivity.
  - apply run_state. unfold test_started. by destruct (result_in _ _) eqn:E; [|vm_compute in E].
  - intros h0 h1 meta h d h' Hm. rewrite test_metadata_read in Hm. injection Hm as <- <-. vm_compute. congruence.
  - done.
  - by repeat constructor.
  - reflexivity.
  - reflexivity.
  - vm_compute. reflexivity.
Defined.

Definition controller_flags : flags := MkFlags "unix:/tmp/csi.sock" "" true false "" "" false true ":8080" "/metrics" "".
Definition test_controller : started :=
  match result_in (driver_main controller_flags "v1" (Some "1.2.3")) test_node with Ok st => st | Err _ => test_started end.

Lemma driver_metrics_witness :
  Counter "labeled_volumes_total" 2 ∈ Gather (Nat.iter 2 RecordSuccessfullyLabeledVolume (mm test_controller)) ∧
  Gauge "component_version" "1.2.3" 1 ∈ Gather (mm test_controller).
Proof.
  assert (driver_main controller_flags "v1" (Some "1.2.3") test_node =
    (Ok test_controller, state_after (driver_main controller_flags "v1" (Some "1.2.3")) test_node)) as Hm.
  { apply run_state. unfold test_controller. by destruct (result_in _ _) eqn:E; [|vm_compute in E]. }
  split.
  - apply (driver_metrics controller_flags "v1" (Some "1.2.3") _ _ _ 2 _ Hm). split; [reflexivity|]. right. by split.
  - apply (driver_metrics controller_flags "v1" (Some "1.2.3") _ _ _ 0 _ Hm). split; [reflexivity|]. left. by split.
Defined.
