(* ===== verification/NodeTree.v ===== *)
(** * The node's filesystem stays a tree

    The well-formedness of the model of the filesystem (FS.v): what has a place has a directory above it.
    Every call keeps it, served or failing on its way, and so does every handler of the node server. *)
From S2P Require Import Prelude GoStr Regex GoErr Util Instance Params Csi Driver Network FS Node NodeHost NodeFrame.

Local Open Scope string_scope.
Local Open Scope list_scope.
Local Open Scope Z_scope.

(** The root is no file, and whatever else there is lies in a directory. *)
Definition well_formed (t : tree) : Prop :=
  is_file (look t []) = false ∧ map_Forall (λ p _, p ≠ [] → is_dir (look t (parent p)) = true) t.

#[export] Instance well_formed_dec t : Decision (well_formed t).
Proof. unfold well_formed. apply _. Defined.

Lemma well_formed_root t : well_formed t → is_dir (look t []) = true.
Proof. intros [Hr _]. cbn in *. by destruct (default _ _). Qed.

Lemma parent_snoc (p : path) c : parent (p ++ [c]) = p.
Proof. unfold parent. apply removelast_last. Qed.

Lemma look_insert_same t p n : look (<[p := n]> t) p = Some n.
Proof. unfold look. destruct p; by rewrite lookup_insert_eq. Qed.

Lemma look_insert_other t p q n : q ≠ p → look (<[p := n]> t) q = look t q.
Proof. intros Hq. unfold look. destruct q; by rewrite lookup_insert_ne. Qed.

Lemma look_delete_other t p q : q ≠ p → look (delete p t) q = look t q.
Proof. intros Hq. unfold look. destruct q; by rewrite lookup_delete_ne. Qed.

(** Something new in a directory, or the same kind of thing in an old place. *)
Lemma well_formed_insert t p n :
  well_formed t → is_dir (look t (parent p)) = true →
  (p = [] → is_file (Some n) = false) → (is_dir (look t p) = true → is_dir (Some n) = true) →
  well_formed (<[p := n]> t).
Proof.
  intros [Hr Ht] Hp H0 Hd. split.
  - destruct p; [rewrite look_insert_same; by apply H0|by rewrite look_insert_other].
  - intros q m Hq Hne.
    assert (is_dir (look t (parent q)) = true) as Hpar.
    { destruct (decide (q = p)) as [->|]; [done|]. rewrite lookup_insert_ne in Hq by done. by eapply Ht. }
    destruct (decide (parent q = p)) as [<-|]; [by rewrite look_insert_same; apply Hd|by rewrite look_insert_other].
Qed.

(** Something goes that nothing lies in. *)
Lemma well_formed_delete t p :
  well_formed t → (∀ q, q ≠ [] → is_Some (t !! q) → parent q ≠ p) → well_formed (delete p t).
Proof.
  intros [Hr Ht] Hl. split.
  - destruct (decide ([] = p)) as [<-|]; [by cbn; rewrite lookup_delete_eq|by rewrite look_delete_other].
  - intros q n Hq Hne. apply lookup_delete_Some in Hq as [Hqp Hq].
    rewrite look_delete_other by (by apply Hl). by eapply Ht.
Qed.

Lemma below_parent (q : path) p : q ≠ [] → parent q = p → below p q = true.
Proof.
  intros Hne <-. destruct (exists_last Hne) as (l & c & ->). rewrite parent_snoc. apply below_spec. by exists c, [].
Qed.

Lemma well_formed_delete_leaf t p : well_formed t → descendants t p = [] → well_formed (delete p t).
Proof.
  intros Ht Hd. apply well_formed_delete; [done|]. intros q Hne Hs Hq.
  assert (q ∈ descendants t p) as Hin by (apply elem_of_descendants; split; [done|by apply below_parent]).
  rewrite Hd in Hin. by apply elem_of_nil in Hin.
Qed.

(** Nothing lies in a file. *)
Lemma well_formed_delete_file t p : well_formed t → is_file (look t p) = true → well_formed (delete p t).
Proof.
  intros Ht Hf. apply well_formed_delete; [done|]. intros q Hne [n Hq] <-. destruct Ht as [_ Ht].
  specialize (Ht _ _ Hq Hne). by destruct (look t (parent q)) as [[]|].
Qed.

(** What lies above something is a directory. *)
Lemma dir_above t l r : well_formed t → r ≠ [] → is_Some (t !! (l ++ r)) → is_dir (look t l) = true.
Proof.
  intros Ht. induction r as [|x r IH] using rev_ind; [done|]. intros _ [n Hn].
  assert (is_dir (look t (l ++ r)) = true) as Hd.
  { rewrite <-(parent_snoc (l ++ r) x). rewrite app_assoc in Hn. eapply Ht; [exact Hn|]. by destruct (l ++ r). }
  destruct r as [|y r]; [by rewrite app_nil_r in Hd|]. apply IH; [done|].
  rewrite look_nonroot in Hd by (by destruct l). by destruct (t !! (l ++ y :: r)).
Qed.

Lemma some_above t l n r : well_formed t → is_Some (t !! (l ++ n :: r)) → is_Some (t !! (l ++ [n])).
Proof.
  intros Ht Hs. destruct r as [|c r]; [done|]. rewrite cons_middle, app_assoc in Hs.
  apply dir_above in Hs; [|done..]. rewrite look_nonroot in Hs by (by destruct l). by destruct (t !! (l ++ [n])).
Qed.

(** ** The calls *)
Lemma well_formed_mkdirs a from todo t :
  well_formed t → is_dir (look t from) = true → well_formed (mkdirs a from todo t).2.
Proof.
  revert from t. induction todo as [|c todo IH]; intros from t Ht Hd; cbn; [done|].
  destruct (look t (from ++ [c])) as [[]|] eqn:E; [apply IH; by rewrite ?E|done|].
  apply IH; [|by rewrite look_insert_same]. apply well_formed_insert; [done|by rewrite parent_snoc|by destruct from|].
  by rewrite E.
Qed.

Lemma well_formed_put p content mode t : well_formed t → well_formed (put_file p content mode t).2.
Proof.
  intros Ht. unfold put_file. destruct (look t (parent p)) as [[]|] eqn:Ep, (look t p) as [[]|] eqn:E; cbn; try done.
  all: apply well_formed_insert; rewrite ?Ep, ?E; try done; intros ->; cbn in *; congruence.
Qed.

Lemma well_formed_rename old new t : well_formed t → well_formed (rename_tree old new t).2.
Proof.
  intros Ht. unfold rename_tree. destruct (look t old) as [[|content a]|] eqn:Eo; cbn; [done| |done].
  destruct (look t (parent new)) as [[]|] eqn:Ep, (look t new) as [[]|] eqn:E; cbn; try done.
  all: assert (parent new ≠ old) as Hne by (intros <-; congruence).
  all: apply well_formed_insert;
    [apply well_formed_delete_file; [done|by rewrite Eo]|by rewrite look_delete_other, Ep
    |intros ->; cbn in *; congruence|].
  all: destruct (decide (new = old)) as [->|]; [|by rewrite look_delete_other, E].
  all: destruct old; [cbn in Eo, Ep; congruence|cbn; rewrite lookup_delete_eq; done].
Qed.

Lemma well_formed_remove p t : well_formed t → well_formed (remove_tree p t).2.
Proof.
  intros Ht. unfold remove_tree. destruct (look t p); cbn; [|done].
  destruct (descendants t p) eqn:E; cbn; [by apply well_formed_delete_leaf|done].
Qed.

Lemma well_formed_change p f t : well_formed t → well_formed (change_attr p f t).2.
Proof.
  intros Ht. unfold change_attr. destruct (look t p) as [n|] eqn:E; cbn; [|done].
  apply well_formed_insert; [done| | |].
  - destruct (decide (p = [])) as [->|Hp]; [by apply well_formed_root|]. rewrite look_nonroot in E by done. by eapply Ht.
  - intros ->. destruct Ht as [Hr _]. rewrite E in Hr. by destruct n.
  - rewrite E. by destruct n.
Qed.

Lemma well_formed_delete_all l t :
  well_formed t → (∀ q, q ≠ [] → is_Some (t !! q) → parent q ∈ l → q ∈ l) → well_formed (delete_all l t).
Proof.
  intros [Hr Ht] Hl. split.
  - change (is_file (Some (default (Dir (MkAttr 493 0)) (delete_all l t !! []))) = false).
    rewrite lookup_delete_all. case_decide; [done|exact Hr].
  - intros q n Hq Hne. rewrite lookup_delete_all in Hq. case_decide as Hin; [done|].
    assert (parent q ∉ l) as Hp by (intros Hp; by apply Hin, Hl).
    specialize (Ht _ _ Hq Hne). unfold look in *. destruct (parent q); by rewrite lookup_delete_all, decide_False.
Qed.

#[local] Instance deeper_trans : Transitive deeper.
Proof. intros p q r. unfold deeper. lia. Qed.
#[local] Instance deeper_total : Total deeper.
Proof. intros p q. unfold deeper. lia. Qed.

(** A removal works from the bottom up, so whatever it has come to it leaves no orphans. *)
Lemma subtree_closed t p n q :
  q ≠ [] → is_Some (t !! q) → parent q ∈ take n (subtree t p) → q ∈ take n (subtree t p).
Proof.
  intros Hne Hq Hp.
  assert (StronglySorted deeper (subtree t p)) as Hs by apply (StronglySorted_merge_sort deeper).
  assert (q ∈ subtree t p) as Hin.
  { assert (parent q ∈ subtree t p) as Hp' by (apply elem_of_take in Hp as (i & Hi & _); by eapply list_elem_of_lookup_2).
    destruct (exists_last Hne) as (l & c & ->). rewrite parent_snoc in *.
    unfold subtree. rewrite merge_sort_Permutation. rewrite elem_of_cons. right. apply elem_of_descendants. split; [done|].
    apply below_spec. apply elem_of_subtree in Hp' as [->|(c' & r & ->)%below_spec]; [by exists c, []|].
    exists c', (r ++ [c]). by rewrite <-app_assoc. }
  rewrite <-(take_drop n (subtree t p)) in Hs, Hin. apply elem_of_app in Hin as [?|Hin]; [done|]. exfalso.
  assert (deeper (parent q) q) as Hd by (by eapply StronglySorted_app_1_elem_of).
  destruct (exists_last Hne) as (l & c & ->). rewrite parent_snoc in Hd. unfold deeper in Hd. rewrite length_app in Hd.
  cbn in Hd. lia.
Qed.

Lemma well_formed_remove_all t p n : well_formed t → well_formed (delete_all (take n (subtree t p)) t).
Proof. intros Ht. apply well_formed_delete_all; [done|]. intros q. apply subtree_closed. Qed.

(** A call keeps a tree if what it does and what it leaves half done keep it. *)
Lemma syscall_tree {A : Type} (op p : string) (partial : nat → tree → tree) (f : tree → result errno A * tree) (o : os) :
  (∀ t, well_formed t → well_formed (f t).2) → (∀ n t, well_formed t → well_formed (partial n t)) →
  well_formed (files o) → well_formed (files (state_after (syscall op p partial f) o)).
Proof.
  intros Hf Hp Ho. unfold state_after. destruct (syscall op p partial f o) as [r o'] eqn:E.
  apply syscall_cases in E as [_ [(x & _ & _ & Ht)|[_ Ht]]]; cbn [snd]; rewrite Ht; auto.
Qed.

Lemma os_call_tree {A : Type} (m : M os goerr A) (o : os) :
  os_call m → well_formed (files o) → well_formed (files (state_after m o)).
Proof.
  intros Hm. destruct Hm; try (intros Ho; apply syscall_tree; [..|exact Ho]; try (unfold untouched; done)).
  - intros t Ht. by apply well_formed_mkdirs, well_formed_root.
  - intros n t Ht. by apply well_formed_mkdirs, well_formed_root.
  - intros t. apply well_formed_put.
  - intros [|n] t Ht; [done|by apply well_formed_put].
  - intros t. apply well_formed_rename.
  - intros t. apply well_formed_remove.
  - intros t Ht. change (well_formed (delete_all (subtree t (resolve p)) t)). rewrite <-(firstn_all (subtree t (resolve p))). by apply well_formed_remove_all.
  - intros n t. apply well_formed_remove_all.
  - intros t. apply well_formed_change.
  - intros t. apply well_formed_change.
  - intros Ho. unfold state_after, Glob. destruct (forallb _ _); [|done]. by destruct (faults o) as [|[]].
Qed.

(** ** The pieces of the handlers *)
Section handlers.
Context {S : Type} `{Mounter S} `{Netlinker S} `{MapRange}.

Definition tree_kept : relation (nodeState S) := λ s s', well_formed (files (nodeOS s)) → well_formed (files (nodeOS s')).

#[export] Instance tree_kept_preorder : PreOrder tree_kept.
Proof. unfold tree_kept. split; [by intros ?|intros ???; tauto]. Qed.

Lemma tree_sys {A : Type} (m : M os goerr A) : os_call m → keeps tree_kept (sys m).
Proof.
  intros Hm s. unfold state_after, tree_kept, sys. pose proof (os_call_tree m (nodeOS s) Hm) as Ht.
  unfold state_after in Ht. by destruct (m (nodeOS s)).
Qed.

Lemma tree_host {A : Type} (m : M S goerr A) : keeps tree_kept (host m).
Proof. intros s. unfold state_after, tree_kept, host. by destruct (m (nodeHost s)). Qed.

Lemma tree_host_pair {A : Type} (m : S → A * S) : keeps tree_kept (host_pair m).
Proof. intros s. unfold state_after, tree_kept, host_pair. by destruct (m (nodeHost s)). Qed.

Lemma tree_locked_on {A : Type} key busy (m : M (nodeState S) goerr A) :
  keeps tree_kept m → keeps tree_kept (locked_on key busy m).
Proof.
  intros Hm s. unfold state_after, locked_on, node_TryAcquire, VolumeLocks.TryAcquire.
  rewrite bind_unfold. case_decide as Hin; [by intros Hs|]. cbn. unfold node_defer_Release.
  set (s2 := MkNodeState _ _ _). specialize (Hm s2). unfold state_after in Hm. by destruct (m s2).
Qed.
End handlers.

(** The files of the node are a tree after every handler of the node server if they were one
    before, whatever the request and whichever calls fail or stop half way. *)
Theorem node_keeps_tree {S} `{Mounter S} `{Netlinker S} `{MapRange} driver (s : nodeState S) :
  well_formed (files (nodeOS s)) →
  (∀ req, well_formed (files (nodeOS (state_after (NodeStageVolume driver req) s)))) ∧
  (∀ id t, well_formed (files (nodeOS (state_after (NodeUnstageVolume id t) s)))) ∧
  (∀ req, well_formed (files (nodeOS (state_after (NodePublishVolume driver req) s)))) ∧
  (∀ t, well_formed (files (nodeOS (state_after (NodeUnpublishVolume t) s)))) ∧
  (∀ id p, well_formed (files (nodeOS (state_after (NodeGetVolumeStats id p) s)))).
Proof.
  intros Hs.
  destruct (handlers_keep driver tree_kept) as (Hst & Hun & Hpu & Hup & Hst').
  - intros A m. apply tree_sys.
  - intros A m. apply tree_host.
  - intros A m. apply tree_host_pair.
  - intros A key busy m. apply tree_locked_on.
  - split_and!; intros *; [by apply Hst|by apply Hun|by apply Hpu|by apply Hup|by apply Hst'].
Qed.

(** A node whose first call fails half way. *)
Definition faulty_node : nodeState host_state :=
  MkNodeState ∅ (MkOS (list_to_map [(["var"], Dir (MkAttr 493 0)); (["var"; "lib"], Dir (MkAttr 493 0))])
    [Some (MkFault EIO 3)]) (nodeHost fresh_node).

Lemma faulty_node_keeps_tree :
  let s := faulty_node in
  well_formed (files (nodeOS s)) ∧
  ((∀ req, well_formed (files (nodeOS (state_after (NodeStageVolume node_driver req) s)))) ∧
   (∀ id t, well_formed (files (nodeOS (state_after (NodeUnstageVolume id t) s)))) ∧
   (∀ req, well_formed (files (nodeOS (state_after (NodePublishVolume node_driver req) s)))) ∧
   (∀ t, well_formed (files (nodeOS (state_after (NodeUnpublishVolume t) s)))) ∧
   (∀ id p, well_formed (files (nodeOS (state_after (NodeGetVolumeStats id p) s))))).
Proof. cbn zeta. split; [decided|]. apply (node_keeps_tree node_driver faulty_node). decided. Defined.
