(* ===== verification/NodeSteps.v ===== *)
(** * What single steps of the node do to references, tokens and global mounts

    The calls that a handler makes for its target path, and whole the parts it runs under the lock of an IAM key:
    what each may change of what the references of pods stand for ([effect]), whatever fails. *)
From stdpp Require Import relations.
From S2P Require Import Prelude GoStr Regex GoErr Util Instance Params Csi Driver Network NetworkSpec Sha256 Json FS Node NodeHost NodeFrame NodeSpec.

Local Open Scope string_scope.
Local Open Scope list_scope.
Local Open Scope Z_scope.

(** ** What the calls of the filesystem touch *)
(** A call changes only some paths of the tree. *)
Definition touches (W : path → Prop) {A : Type} (m : M os goerr A) : Prop :=
  ∀ o p, ¬ W p → files (state_after m o) !! p = files o !! p.

Lemma touches_same {A : Type} (op p : string) (run : tree → result errno A * tree) W :
  (∀ t q, ¬ W q → (run t).2 !! q = t !! q) → touches W (syscall op p untouched run).
Proof.
  intros Hrun o q Hq. unfold state_after. destruct (syscall _ _ _ _ o) as [r o'] eqn:E.
  apply syscall_cases in E as [_ [(f & _ & _ & Ho)|[_ Ho]]]; cbn; rewrite Ho; [done|by apply Hrun].
Qed.

Lemma touches_Remove p : touches (eq (resolve p)) (Remove p).
Proof.
  intros o q Hq. unfold state_after. destruct (Remove p o) as [r o'] eqn:E.
  apply Remove_spec in E as [(_ & Ho & _)|(? & _ & Ho & _)]; cbn; rewrite Ho; [by rewrite lookup_delete_ne|done].
Qed.

Lemma touches_WriteFile p content mode : touches (eq (resolve p)) (WriteFile p content mode).
Proof.
  intros o q Hq. unfold state_after. destruct (WriteFile p content mode o) as [r o'] eqn:E.
  apply WriteFile_spec in E as [_ [(_ & a & Ho)|(e & _ & [Ho|(c & a & Ho)])]]; cbn; rewrite Ho;
    rewrite ?lookup_insert_ne; done.
Qed.

Lemma touches_Rename old new : touches (λ q, q = resolve old ∨ q = resolve new) (Rename old new).
Proof.
  intros o q Hq. unfold state_after. destruct (Rename old new o) as [r o'] eqn:E.
  apply Rename_spec in E as [(_ & c & a & _ & Ho)|(e & _ & Ho)]; cbn; rewrite Ho; [|done].
  rewrite lookup_insert_ne, lookup_delete_ne by naive_solver. done.
Qed.

Lemma touches_MkdirAll p mode : touches (λ q, q `prefix_of` resolve p) (MkdirAll p mode).
Proof.
  intros o q Hq. unfold state_after. destruct (MkdirAll p mode o) as [r o'] eqn:E.
  apply syscall_cases in E as [_ [(f & _ & _ & Ho)|[_ Ho]]]; cbn; rewrite Ho; apply mkdirs_other; cbn; [|done].
  intros Hp. apply Hq. etransitivity; [exact Hp|]. apply prefix_take.
Qed.

Lemma touches_RemoveAll p : touches (λ q, resolve p `prefix_of` q) (RemoveAll p).
Proof.
  intros o q Hq. unfold state_after. destruct (RemoveAll p o) as [r o'] eqn:E.
  assert (q ∉ subtree (files o) (resolve p)) as Hs.
  { intros [->|(c & l & ->)%below_spec]%elem_of_subtree; apply Hq; [done|by apply prefix_app_r]. }
  apply syscall_cases in E as [_ [(f & _ & _ & Ho)|[_ Ho]]]; cbn [snd] in *; rewrite Ho, lookup_delete_all, decide_False; try done.
  intros Hin. by apply subseteq_take in Hin.
Qed.

Lemma touches_Glob pattern : touches (λ _, False) (Glob pattern).
Proof. intros o q _. unfold state_after, Glob. destruct (forallb _ _); [|done]. by destruct (faults o) as [|[f|]]. Qed.

Lemma touches_change (op p : string) (f : attr → attr) :
  touches (eq (resolve p)) (syscall op p untouched (change_attr (resolve p) f)).
Proof.
  apply touches_same. intros t q Hq. unfold change_attr.
  destruct (look t (resolve p)); cbn; [|done]. by rewrite lookup_insert_ne.
Qed.

Lemma touches_Stat p W : touches W (Stat p).
Proof. by apply touches_same. Qed.
Lemma touches_Lstat p W : touches W (Lstat p).
Proof. by apply touches_same. Qed.

(** ** Frames

    [frame Q K s s']: the paths of [Q] are untouched and the global mounts of the keys of [K] stay. *)
Section frames.
Context {S : Type} `{MounterLaws S}.
Context (Q : path → Prop) (K : string → Prop).
Implicit Types s : nodeState S.

Definition frame : relation (nodeState S) := λ s s',
  (∀ p, Q p → tree_of s' !! p = tree_of s !! p) ∧
  (∀ k, K k → mounted (nodeHost s) (globalMountPath k) → mounted (nodeHost s') (globalMountPath k)).

#[export] Instance frame_preorder : PreOrder frame.
Proof.
  split; [by intros s|]. intros s1 s2 s3 [T1 M1] [T2 M2]. split; [|auto]. intros p Hp. by rewrite T2, T1.
Qed.

Lemma frame_locks l s : frame s (MkNodeState l (nodeOS s) (nodeHost s)).
Proof. done. Qed.

Lemma frame_sys {A : Type} W (m : M os goerr A) : touches W m → (∀ p, Q p → ¬ W p) → keeps frame (sys m).
Proof.
  intros Hm Hd s. specialize (Hm (nodeOS s)). unfold state_after, sys in *.
  destruct (m (nodeOS s)) as [r o]. split; cbn in *; auto.
Qed.

Lemma frame_host {A : Type} (m : M S goerr A) :
  (∀ h k, K k → mounted h (globalMountPath k) → mounted (state_after m h) (globalMountPath k)) → keeps frame (host m).
Proof.
  intros Hm s. specialize (Hm (nodeHost s)). unfold state_after, host in *.
  destruct (m (nodeHost s)) as [r h]. split; cbn in *; auto.
Qed.

Lemma frame_host_pair {A : Type} (m : S → A * S) :
  (∀ h k, K k → mounted h (globalMountPath k) → mounted (m h).2 (globalMountPath k)) → keeps frame (host_pair m).
Proof.
  intros Hm s. specialize (Hm (nodeHost s)). unfold state_after, host_pair in *.
  destruct (m (nodeHost s)) as [r h]. split; cbn in *; auto.
Qed.

Lemma frame_status {A : Type} c msg : keeps frame (status c msg : M _ _ A).
Proof. apply keeps_fail. apply _. Qed.
Lemma frame_or_status {A : Type} c msg (r : result goerr A) : keeps frame (or_status c msg r).
Proof. destruct r; [apply keeps_ret; apply _|apply frame_status]. Qed.

Lemma frame_locked_on {A : Type} key busy (m : M (nodeState S) goerr A) :
  keeps frame m → keeps frame (locked_on key busy m).
Proof.
  intros Hm s. unfold state_after, locked_on, node_TryAcquire, VolumeLocks.TryAcquire.
  rewrite bind_unfold. case_decide; cbn; [done|]. unfold node_defer_Release.
  set (s1 := MkNodeState _ _ _). specialize (Hm s1). unfold state_after in Hm. by destruct (m s1).
Qed.

(** *** The helpers of the handlers *)
Lemma frame_likely p : keeps frame (host_pair (IsLikelyNotMountPoint p)).
Proof. apply frame_host_pair. intros h k _. by rewrite likely_reads. Qed.

Lemma frame_umount timeout args :
  (∀ k, K k → last args ≠ Some (globalMountPath k)) → keeps frame (host_pair (umount timeout args)).
Proof. intros Ha. apply frame_host_pair. intros h k Hk. by apply umount_others, Ha. Qed.

Lemma frame_mount src tgt fs opts : keeps frame (host (MountSensitiveWithoutSystemd src tgt fs opts)).
Proof. apply frame_host. intros h k _. apply mount_keeps. Qed.

Lemma frame_list : keeps frame (host List).
Proof. apply frame_host. intros h k _. by rewrite list_reads. Qed.

(** A path that is none of the protected ones and carries none of the protected mounts. *)
Definition apart (t : string) : Prop := ¬ Q (resolve t) ∧ ∀ k, K k → globalMountPath k ≠ t.

Lemma frame_unmountPath t : apart t → keeps frame (unmountPath t).
Proof.
  intros [Hq Hk]. unfold unmountPath, removeDir.
  assert (∀ l a, keeps frame (host_pair (umount l (a ++ [t])))) as Hu.
  { intros l a. apply frame_umount. intros k Hk'. rewrite last_snoc. intros [= ->]. by apply (Hk k). }
  pose proof (λ l, Hu l []) as Hu1. pose proof (λ l, Hu l ["-f"]) as Hu2. pose proof (λ l, Hu l ["-l"]) as Hu3. cbn in *.
  pose proof (frame_likely t).
  assert (keeps frame (sys (Remove t))) by (eapply frame_sys; [apply touches_Remove|congruence]).
  keeps_tac; apply frame_status.
Qed.

Lemma frame_makeDir t : (∀ p, Q p → ¬ p `prefix_of` resolve t) → keeps frame (makeDir t).
Proof.
  intros Hq. unfold makeDir.
  assert (keeps frame (sys (MkdirAll t 493))) by (eapply frame_sys; [apply touches_MkdirAll|auto]). keeps_tac.
Qed.

Lemma frame_pathExists t : keeps frame (pathExists t).
Proof.
  unfold pathExists.
  assert (keeps frame (sys (Stat t))) by (eapply frame_sys; [apply (touches_Stat _ (λ _, False))|auto]). keeps_tac.
Qed.

Lemma frame_isMounted t : (∀ k, K k → globalMountPath k ≠ t) → keeps frame (isMounted t).
Proof.
  intros Hk. unfold isMounted. pose proof (frame_likely t). pose proof (frame_pathExists t).
  assert (keeps frame (host (Unmount t))) by (apply frame_host; intros h k Hk'; by apply Unmount_others, Hk).
  keeps_tac; apply frame_status.
Qed.

Lemma frame_ownership d g ro : ¬ Q (resolve d) → keeps frame (setVolumeOwnershipTopLevel d g ro).
Proof.
  intros Hq. unfold setVolumeOwnershipTopLevel.
  assert (∀ op f, keeps frame (sys (syscall op d untouched (change_attr (resolve d) f)))) as Hc.
  { intros op f. eapply (frame_sys (eq (resolve d))); [apply touches_change|congruence]. }
  assert (keeps frame (sys (Lstat d))) by (eapply frame_sys; [apply (touches_Lstat _ (λ _, False))|auto]).
  keeps_tac; try apply Hc.
Qed.
End frames.

(** ** The promise of a reference *)

(** The look at a path fails, and not because there is no such path: the mount may be corrupted. *)
Definition unreadable {S : Type} `{Mounter S} (target : string) (h : S) : bool :=
  match (IsLikelyNotMountPoint target h).1 with
  | (_, Some err) => negb (is_not_exist err)
  | _ => false
  end.

(** What the node documents of its mounts besides [MounterLaws]: setting up routes and asking for statistics leave them
    alone, and at a global mount that is there the look says so or fails, as at a corrupted mount; it does not
    say that the path is no mount point or that there is none (the three cases that node.go's [isMounted] documents). *)
Class GlobalMountLaws (S : Type) `{MounterLaws S} `{Netlinker S} : Prop := {
  routes_keep ip (nics : list string) (h : S) p : mounted h p → mounted (state_after (setUpMultiNIC ip nics) h) p;
  stats_keep t (h : S) p : mounted h p → mounted (state_after (Statfs t) h) p;
  global_looked_at key (h : S) :
    bare key → mounted h (globalMountPath key) →
    (IsLikelyNotMountPoint (globalMountPath key) h).1 = (false, None) ∨ unreadable (globalMountPath key) h = true;
}.

Section promise.
Context {S : Type} `{GlobalMountLaws S} `{MapRange}.
Context (driver : LustreDriver).
Implicit Types s : nodeState S.

(** A path outside the directories of the global mounts. *)
Definition outside (t : string) : Prop := below mount_root (resolve t) = false.

(** The paths of the other keys. *)
Definition foreign (key : string) (p : path) : Prop := ∃ k rest, p = mount_root ++ k :: rest ∧ k ≠ key.

Definition outer : relation (nodeState S) := frame (λ p, below mount_root p = true) bare.
Definition elsewhere (key : string) : relation (nodeState S) := frame (foreign key) (λ k, bare k ∧ k ≠ key).

(** The paths of the other keys and the references of the other pods. *)
Definition theirs (key uid : string) (p : path) : Prop :=
  foreign key p ∨ ∃ uid', uid' ≠ uid ∧ p = mount_root ++ [key; "refs"; uid'].

Definition beside (key uid : string) : relation (nodeState S) := frame (theirs key uid) (λ k, bare k ∧ k ≠ key).

Definition has_reference (key uid : string) s : Prop := is_Some (tree_of s !! (mount_root ++ [key; "refs"; uid])).
Definition referenced (key : string) s : Prop := ∃ uid, has_reference key uid s.
Definition has_token (key : string) s : Prop := ∃ token a, tree_of s !! (mount_root ++ [key; "token"]) = Some (File token a).
Definition served (key : string) s : Prop := mounted (nodeHost s) (globalMountPath key) ∧ has_token key s.

(** A key that a pod refers to has a token, and if [F] its filesystem is mounted as well. *)
Definition tokened (key : string) s : Prop := referenced key s → has_token key s.
Definition promise (key : string) s : Prop := referenced key s → served key s.
Definition kept (F : Prop) (key : string) s : Prop := tokened key s ∧ (F → promise key s).

Lemma bare_path key : bare key → resolve (globalMountPath key) = mount_root ++ [key; "mount"].
Proof. intros [Hk _]. by apply resolve_globalMountPath. Qed.

Lemma outside_not_global key t : bare key → outside t → globalMountPath key ≠ t.
Proof. intros Hk Ho <-. unfold outside in Ho. by rewrite bare_path in Ho. Qed.

Lemma outside_apart t : outside t → apart (λ p, below mount_root p = true) bare t.
Proof. intros Ho. split; [by rewrite Ho|]. intros k Hk. by apply outside_not_global. Qed.

Lemma outside_apart_key key t : outside t → apart (foreign key) (λ k, bare k ∧ k ≠ key) t.
Proof.
  intros Ho. split; [|intros k [Hk _]; by apply outside_not_global].
  intros (k & rest & E & _). unfold outside in Ho. rewrite E in Ho.
  assert (below mount_root (mount_root ++ k :: rest) = true) by (apply below_spec; eauto). congruence.
Qed.

Lemma below_prefix (p q r : path) : below p q = true → q `prefix_of` r → below p r = true.
Proof. intros (c & l & ->)%below_spec [k ->]. apply below_spec. exists c, (l ++ k). by rewrite <-app_assoc. Qed.

Lemma outside_beside key uid t : outside t → apart (theirs key uid) (λ k, bare k ∧ k ≠ key) t.
Proof.
  intros Ho. destruct (outside_apart_key key t Ho) as [Hf Hk]. split; [|done]. intros [?|(u & _ & E)]; [done|].
  unfold outside in Ho. rewrite E in Ho. by rewrite (proj2 (below_spec _ _)) in Ho by eauto.
Qed.

(** The paths of a key are not those of the others. *)
Lemma own_path key rest p : foreign key p → p `prefix_of` mount_root ++ key :: rest → False.
Proof. intros (k & l & -> & Hne) [q Hq]. rewrite <-app_assoc in Hq. apply app_inv_head in Hq. cbn in Hq. congruence. Qed.

Lemma own_path_inv key rest p : foreign key p → mount_root ++ key :: rest `prefix_of` p → False.
Proof. intros (k & l & -> & Hne) [q Hq]. rewrite <-app_assoc in Hq. apply app_inv_head in Hq. cbn in Hq. congruence. Qed.

Lemma own_mount key k : bare key → bare k ∧ k ≠ key → globalMountPath k ≠ globalMountPath key.
Proof. intros Hk [Hk' Hne] E. by apply (globalMountPath_inj key Hk) in E; [|apply Hk']. Qed.

(** *** Frames and the invariant *)
Lemma frame_served (Q : path → Prop) K key s s' :
  frame Q K s s' → Q (mount_root ++ [key; "token"]) → K key → served key s → served key s'.
Proof. intros [T M] Hq Hk [Hm (token & a & Ht)]. split; [auto|]. exists token, a. by rewrite T. Qed.

Lemma frame_token (Q : path → Prop) K key s s' :
  frame Q K s s' → Q (mount_root ++ [key; "token"]) → has_token key s → has_token key s'.
Proof. intros [T _] Hq (token & a & Ht). exists token, a. by rewrite T. Qed.

Lemma kept_weaker F key s s' :
  (∀ p, below (mount_root ++ [key; "refs"]) p = true → is_Some (tree_of s' !! p) → is_Some (tree_of s !! p)) →
  (has_token key s → has_token key s') → (served key s → served key s') → kept F key s → kept F key s'.
Proof.
  intros Hr Ht Hs [Hk Hp]. assert (referenced key s' → referenced key s) as Href.
  { intros [uid Hu]. exists uid. apply Hr; [|done]. apply below_spec. by exists uid, []. }
  split; [intros Hu; auto|]. intros HF Hu. by apply Hs, Hp, Href.
Qed.

(** What touches neither the references nor the token nor the mount of a key. *)
Lemma kept_frame (Q : path → Prop) K F key s s' :
  frame Q K s s' → (∀ l, (l = ["token"] ∨ ∃ c r, l = "refs" :: c :: r) → Q (mount_root ++ key :: l)) → K key →
  kept F key s → kept F key s'.
Proof.
  intros HF HQ HK. assert (Q (mount_root ++ [key; "token"])) as Htok by (apply HQ; by left). apply kept_weaker.
  - intros p (c & l & ->)%below_spec. rewrite <-app_assoc. cbn [app]. destruct HF as [T _]. rewrite T; [done|]. apply HQ. right. eauto.
  - by eapply frame_token.
  - intros Hs. by eapply frame_served.
Qed.

Lemma kept_outer F key s s' : bare key → outer s s' → kept F key s → kept F key s'.
Proof. intros Hk Hf. apply (kept_frame _ _ _ _ _ _ Hf); [|done]. intros l _. apply below_spec; eauto. Qed.

Lemma kept_elsewhere F key k s s' : bare k → k ≠ key → elsewhere key s s' → kept F k s → kept F k s'.
Proof. intros Hk Hne Hf. apply (kept_frame _ _ _ _ _ _ Hf); [|done]. intros l _. by exists k, l. Qed.

(** The names of the keys stay proper. *)
Lemma outer_keys s s' : outer s s' → keys_bare (tree_of s) → keys_bare (tree_of s').
Proof.
  intros [T _] Hk k Hs. apply Hk. rewrite <-T; [done|]. apply below_spec. eauto.
Qed.

Lemma elsewhere_keys key s s' : bare key → elsewhere key s s' → keys_bare (tree_of s) → keys_bare (tree_of s').
Proof.
  intros Hb [T _] Hk k Hs. destruct (decide (k = key)) as [->|Hne]; [done|]. apply Hk. rewrite <-T; [done|]. by eexists k, _.
Qed.

(** *** The calls on a target *)
Lemma frame_routes Q K ip : keeps (frame Q K) (set_up_multi_nic driver ip).
Proof. apply frame_host. intros h k _. apply routes_keep. Qed.

Lemma outer_makeDir t : outside t → keeps outer (makeDir t).
Proof.
  intros Ho. apply frame_makeDir. intros p Hp Hpre. unfold outside in Ho.
  pose proof (below_prefix _ _ _ Hp Hpre). congruence.
Qed.

Lemma post_locked_on {A : Type} (I P : nodeState S → Prop) (Q : A → nodeState S → Prop) k busy (m : M (nodeState S) goerr A) :
  (∀ s, P s → I s) → (∀ l s, I s → I (MkNodeState l (nodeOS s) (nodeHost s))) →
  (∀ l s, P s → P (MkNodeState l (nodeOS s) (nodeHost s))) →
  (∀ a l s, Q a s → Q a (MkNodeState l (nodeOS s) (nodeHost s))) →
  post I P m Q → post I P (locked_on k busy m) Q.
Proof.
  intros HPI Hl HlP HlQ Hm s Hs. unfold locked_on, node_TryAcquire, VolumeLocks.TryAcquire. rewrite bind_unfold.
  case_decide; cbn; [by apply Hl, HPI|]. unfold node_defer_Release. set (s1 := MkNodeState _ _ _).
  assert (P s1) as Hs1 by by apply HlP. specialize (Hm s1 Hs1). destruct (m s1) as [[a|e] s2]; [by apply HlQ|by apply Hl].
Qed.

(** *** The section of a publication *)
Section key.
Context (key : string) (key_bare : bare key).

Lemma key_not_foreign l : ¬ foreign key (mount_root ++ key :: l).
Proof. intros Hf. by eapply own_path. Qed.

Lemma key_sys {A : Type} W (m : M os goerr A) :
  touches W m → (∀ p, W p → ¬ foreign key p) → keeps (elsewhere key) (sys m).
Proof. intros Hm Hw. eapply frame_sys; [exact Hm|]. intros p Hf Hp. by eapply Hw. Qed.

Section pod.
Context (uid : string) (uid_plain : plain uid).

(** What the other keys and pods have at or above a path of the key. *)
Lemma theirs_above l p : theirs key uid p → p `prefix_of` mount_root ++ key :: l →
  ∃ uid' rest, uid' ≠ uid ∧ l = "refs" :: uid' :: rest.
Proof.
  intros [Hf|(u & Hu & ->)] Hp; [by apply own_path in Hp|]. destruct Hp as [k Hk]. rewrite <-app_assoc in Hk.
  apply app_inv_head in Hk. cbn in Hk. injection Hk as ->. eauto.
Qed.

Lemma theirs_at l p : theirs key uid p → p = mount_root ++ key :: l → ∃ uid', uid' ≠ uid ∧ l = ["refs"; uid'].
Proof.
  intros [Hf|(u & Hu & ->)] Hp; [subst p; by apply key_not_foreign in Hf|]. apply app_inv_head in Hp.
  injection Hp as <-. eauto.
Qed.

Lemma beside_sys {A : Type} W (m : M os goerr A) :
  touches W m → (∀ p, W p → ∃ l, p = mount_root ++ key :: l ∧ ∀ uid', l = ["refs"; uid'] → uid' = uid) →
  keeps (beside key uid) (sys m).
Proof.
  intros Hm Hw. eapply frame_sys; [exact Hm|]. intros p Hf (l & El & Hl)%Hw.
  destruct (theirs_at _ _ Hf El) as (u & Hu & ->). by apply Hu, Hl.
Qed.

Lemma beside_elsewhere s s' : beside key uid s s' → elsewhere key s s'.
Proof. intros [T M]. split; [|exact M]. intros p Hp. apply T. by left. Qed.

Lemma key_makeDirs : keeps (beside key uid) (makeGlobalDirs key).
Proof.
  unfold makeGlobalDirs. eapply keeps_bind; [apply _| |intros _]; apply frame_makeDir; intros p Hp Hpre.
  - rewrite bare_path in Hpre by done. by destruct (theirs_above _ _ Hp Hpre) as (? & ? & _ & ?).
  - rewrite resolve_refsDir in Hpre by apply key_bare. by destruct (theirs_above _ _ Hp Hpre) as (? & ? & _ & ?).
Qed.

Lemma key_token token : keeps (beside key uid) (updateTokenFile key token).
Proof.
  unfold updateTokenFile. pose proof (resolve_tokenPath key ltac:(apply key_bare)) as Ht.
  pose proof (resolve_tmpPath key ltac:(apply key_bare)) as Htmp.
  assert (keeps (beside key uid) (sys (WriteFile (tokenPath key +:+ ".tmp") token 384))).
  { eapply beside_sys; [apply touches_WriteFile|]. rewrite Htmp. intros p <-. by eexists. }
  assert (keeps (beside key uid) (sys (Rename (tokenPath key +:+ ".tmp") (tokenPath key)))).
  { eapply beside_sys; [apply touches_Rename|]. intros p [->| ->]; rewrite ?Htmp, ?Ht; by eexists. }
  assert (keeps (beside key uid) (sys (Remove (tokenPath key +:+ ".tmp")))).
  { eapply beside_sys; [apply touches_Remove|]. rewrite Htmp. intros p <-. by eexists. }
  keeps_tac.
Qed.

Lemma key_isMounted : keeps (beside key uid) (isMounted (globalMountPath key)).
Proof. apply frame_isMounted. intros k. by apply own_mount. Qed.

Lemma key_unmount : keeps (beside key uid) (unmountPath (globalMountPath key)).
Proof.
  apply frame_unmountPath. split; [|intros k; by apply own_mount].
  rewrite bare_path by done. intros Hp. by destruct (theirs_at _ _ Hp eq_refl) as (? & _ & ?).
Qed.

Lemma key_mount principal vc cap : keeps (beside key uid) (mountGlobalIAM driver (globalMountPath key) principal key vc cap).
Proof.
  unfold mountGlobalIAM. pose proof key_unmount. pose proof (frame_routes (theirs key uid) (λ k, bare k ∧ k ≠ key)) as Hr.
  pose proof (frame_mount (theirs key uid) (λ k, bare k ∧ k ≠ key)) as Hm.
  pose proof (@frame_or_status S _ _ (theirs key uid) (λ k, bare k ∧ k ≠ key)) as Ho.
  pose proof (@frame_status S _ _ (theirs key uid) (λ k, bare k ∧ k ≠ key)) as Hs.
  keeps_tac; first [apply Ho|apply Hr|apply Hm|apply Hs].
Qed.

Lemma key_reference v : keeps (beside key uid) (addPodReference key uid v).
Proof.
  unfold addPodReference.
  assert (keeps (beside key uid) (pathExists (refPath key uid))) by apply frame_pathExists.
  assert (keeps (beside key uid) (sys (WriteFile (refPath key uid) v 420))).
  { eapply beside_sys; [apply touches_WriteFile|]. rewrite resolve_refPath by (done || apply key_bare).
    intros p <-. eexists. split; [done|]. by intros u [= ->]. }
  keeps_tac.
Qed.

Lemma key_unreference : keeps (beside key uid) (removePodReference key uid).
Proof.
  unfold removePodReference.
  assert (keeps (beside key uid) (sys (Remove (refPath key uid)))).
  { eapply beside_sys; [apply touches_Remove|]. rewrite resolve_refPath by (done || apply key_bare).
    intros p <-. eexists. split; [done|]. by intros u [= ->]. }
  keeps_tac.
Qed.
End pod.

(** Mounting the global path leaves the token. *)
Lemma key_mount_token principal vc cap s :
  has_token key s → has_token key (state_after (mountGlobalIAM driver (globalMountPath key) principal key vc cap) s).
Proof.
  set (Q := λ p, p = mount_root ++ [key; "token"]).
  assert (keeps (frame Q (λ _, False)) (mountGlobalIAM driver (globalMountPath key) principal key vc cap)) as Hk;
    [|by apply (frame_token _ _ _ _ _ (Hk s))].
  assert (keeps (frame Q (λ _, False)) (unmountPath (globalMountPath key))).
  { apply frame_unmountPath. split; [|done]. rewrite bare_path by done. intros E. apply app_inv_head in E. discriminate E. }
  unfold mountGlobalIAM. keeps_tac;
    first [apply frame_or_status|apply frame_routes|apply frame_mount|apply frame_status].
Qed.

Lemma key_cleanUp uid :
  plain uid → keeps (elsewhere key) (cleanUpIAMReferenceForKey key (path_string (mount_root ++ [key; "refs"; uid]))).
Proof.
  intros Hu. unfold cleanUpIAMReferenceForKey.
  assert (keeps (elsewhere key) (sys (Remove (path_string (mount_root ++ [key; "refs"; uid]))))) as Hr.
  { eapply key_sys; [apply touches_Remove|]. rewrite resolve_path_string.
    - intros p <-. apply key_not_foreign.
    - apply Forall_app. split; [apply mount_root_plain|]. repeat constructor; try done; apply key_bare || apply Hu. }
  assert (keeps (elsewhere key) (sys (Remove (refsDir key)))) as Hd.
  { eapply key_sys; [apply touches_Remove|]. rewrite resolve_refsDir by apply key_bare. intros p <-. apply key_not_foreign. }
  assert (keeps (elsewhere key) (sys (RemoveAll (keyDir key)))) as Ha.
  { eapply key_sys; [apply touches_RemoveAll|]. rewrite resolve_keyDir by apply key_bare.
    intros p Hp Hf. by eapply own_path_inv. }
  assert (keeps (elsewhere key) (unmountPath (globalMountPath key))) by (intros s; by apply (beside_elsewhere uid), key_unmount).
  apply frame_locked_on. keeps_tac.
Qed.

(** Cleaning up only takes files away. *)
Definition deletes : relation (nodeState S) := λ s s', tree_of s' ⊆ tree_of s.

#[local] Instance deletes_preorder : PreOrder deletes.
Proof. split; [intros s; unfold deletes; reflexivity|]. intros s1 s2 s3 H12 H23. unfold deletes in *. by etransitivity. Qed.

Lemma deletes_cleanUp ref : keeps deletes (cleanUpIAMReferenceForKey key ref).
Proof.
  assert (∀ p, keeps deletes (sys (Remove p))) as Hr.
  { intros p s. unfold deletes, state_after. destruct (sys (Remove p) s) as [r s1] eqn:E. apply sys_inv in E as (o & E & ->).
    apply Remove_spec in E as [(_ & Ho & _)|(_ & _ & Ho & _)]; cbn; rewrite Ho; [apply delete_subseteq|done]. }
  assert (∀ p, keeps deletes (sys (RemoveAll p))) as Ha.
  { intros p s. unfold deletes, state_after. destruct (sys (RemoveAll p) s) as [r s1] eqn:E. apply sys_inv in E as (o & E & ->).
    apply map_subseteq_spec. intros q n.
    apply syscall_cases in E as [_ [(f & _ & _ & Ho)|[_ Ho]]]; cbn [nodeOS snd] in *; rewrite Ho, lookup_delete_all;
      by case_decide. }
  assert (∀ (A : Type) (m : S → A * S), keeps deletes (host_pair m)) as Hh.
  { intros A m s. unfold deletes, state_after, host_pair. by destruct (m (nodeHost s)). }
  assert (keeps deletes (unmountPath (globalMountPath key))).
  { unfold unmountPath, removeDir, status. keeps_tac. }
  unfold cleanUpIAMReferenceForKey. intros s. unfold state_after, locked_on, node_TryAcquire, VolumeLocks.TryAcquire.
  rewrite bind_unfold. case_decide; cbn [negb fst snd]; [unfold deletes; reflexivity|]. unfold node_defer_Release.
  match goal with |- context [?m (MkNodeState ?l _ _)] => set (body := m); set (s1 := MkNodeState l _ _) end.
  assert (keeps deletes body) as Hb by (subst body; keeps_tac). specialize (Hb s1). unfold state_after in Hb.
  destruct (body s1) as [r s2]. exact Hb.
Qed.

(** *** What a key keeps *)

(** Removing paths of the key other than its token. *)
Lemma kept_remove F p : resolve p ≠ mount_root ++ [key; "token"] →
  keeps (λ s s', kept F key s → kept F key s') (sys (Remove p)).
Proof.
  intros Hp s. unfold state_after. destruct (sys (Remove p) s) as [r s1] eqn:E. apply sys_inv in E as (o & E & ->).
  assert (has_token key s → has_token key (MkNodeState (nodeLocks s) o (nodeHost s))) as Ht.
  { intros (token & a & Ht). exists token, a. cbn.
    apply Remove_spec in E as [(_ & Ho & _)|(_ & _ & Ho & _)]; rewrite Ho; [by rewrite lookup_delete_ne|done]. }
  apply kept_weaker; [|exact Ht|intros [Hm Hs]; split; [done|by apply Ht]].
  intros q _. cbn. apply Remove_spec in E as [(_ & -> & _)|(_ & _ & -> & _)]; [|done].
  intros [n Hn]. apply lookup_delete_Some in Hn as [_ Hn]. eauto.
Qed.

(** What is not referred to stays so while nothing is added. *)
Lemma unreferenced_shrinks s s' : shrinks s s' → ¬ referenced key s → ¬ referenced key s'.
Proof. intros Hs Hn [uid Hu]. apply Hn. exists uid. by apply Hs. Qed.

Lemma served_kept F s : served key s → kept F key s.
Proof. intros Hs. split; [by intros _; apply Hs|by intros _ _]. Qed.

Lemma unreferenced_kept F s : ¬ referenced key s → kept F key s.
Proof. intros Hn. split; [by intros ?|by intros _ ?]. Qed.

Lemma served_frame (Q : path → Prop) K F : Q (mount_root ++ [key; "token"]) → K key →
  ∀ s s', served key s → frame Q K s s' → served key s' ∧ kept F key s'.
Proof. intros HQ HK s s' Hs Hf. pose proof (frame_served _ _ _ _ _ Hf HQ HK Hs). split; [done|by apply served_kept]. Qed.

(** *** A publication, from the look that it will have at the global path *)
Section publication.
Context (h0 : S) (F : Prop) (readable : F → unreadable (globalMountPath key) h0 = false).

Definition before_look s : Prop := kept F key s ∧ nodeHost s = h0.

Lemma host_of_sys {A : Type} (m : M os goerr A) s : nodeHost (state_after (sys m) s) = nodeHost s.
Proof. unfold state_after, sys. by destruct (m (nodeOS s)). Qed.

Definition same_host : relation (nodeState S) := λ s s', nodeHost s' = nodeHost s.
#[local] Instance same_host_preorder : PreOrder same_host.
Proof. split; [by intros ?|]. unfold same_host. by intros ??? -> ->. Qed.
Lemma same_host_sys {A : Type} (m : M os goerr A) : keeps same_host (sys m).
Proof. intros s. apply host_of_sys. Qed.

Lemma post_makeDirs : post (kept F key) before_look (makeGlobalDirs key) (λ _, before_look).
Proof.
  set (Q := λ p, ¬ p `prefix_of` mount_root ++ [key; "mount"] ∧ ¬ p `prefix_of` mount_root ++ [key; "refs"]).
  set (R := λ s s', frame Q (eq key) s s' ∧ same_host s s').
  eapply (post_keeps _ R).
  - intros s. split; revert s; unfold makeGlobalDirs.
    + eapply keeps_bind; [apply _| |intros _]; apply frame_makeDir; intros p [H1' H2']; [by rewrite bare_path|].
      by rewrite resolve_refsDir by apply key_bare.
    + pose proof (@same_host_sys ()). unfold makeDir. intros s. apply (keeps_bind same_host); [|intros _]; keeps_tac.
  - intros s s' [Hp Hh] [Hf Hs]. assert (kept F key s') as Hp'; [|by split; [split; [|rewrite Hs]|]].
    revert Hp. apply (kept_frame _ _ _ _ _ _ Hf); [|done].
    intros l Hl. unfold Q. split; intros [k Hk]; destruct Hl as [->|(c & r & ->)]; rewrite <-app_assoc in Hk;
      apply app_inv_head in Hk; discriminate Hk.
Qed.

Lemma updateTokenFile_host token s : nodeHost (state_after (updateTokenFile key token) s) = nodeHost s.
Proof.
  assert (keeps same_host (updateTokenFile key token)) as Hk; [|apply Hk].
  pose proof (@same_host_sys ()). unfold updateTokenFile. keeps_tac.
Qed.

Lemma post_token token :
  post (kept F key) before_look (updateTokenFile key token) (λ _ s, before_look s ∧ has_token key s).
Proof.
  intros s [Hp Hs0]. pose proof (updateTokenFile_host token s) as Hh. unfold state_after in Hh.
  destruct (updateTokenFile key token s) as [r s'] eqn:E. cbn in Hh.
  apply updateTokenFile_spec in E as [Ht Hother]; [|apply key_bare].
  assert (has_token key s → has_token key s') as Hkeep.
  { intros (token' & a & Hs). destruct (is_ok r); [|exists token', a; by rewrite Ht]. destruct Ht as [a' Ht]. by exists token, a'. }
  assert (kept F key s') as Hp'.
  { revert Hp. apply kept_weaker; [|done|].
    - intros p (c & l & ->)%below_spec. rewrite <-app_assoc, Hother; [done|..]; intros E; apply app_inv_head in E; discriminate E.
    - intros [Hm Hs]. unfold served. rewrite Hh. split; [done|by apply Hkeep]. }
  destruct r; [|done]. destruct Ht as [b Ht]. split; [split; [done|by rewrite Hh]|]. by exists token, b.
Qed.

Lemma shrinks_mount principal vc cap : keeps shrinks (mountGlobalIAM driver (globalMountPath key) principal key vc cap).
Proof.
  assert (∀ (A : Type) (m : M S goerr A), keeps shrinks (host m)) as Hh.
  { intros A m s q. unfold state_after, host. by destruct (m (nodeHost s)). }
  pose proof (shrinks_unmountPath (globalMountPath key)). unfold mountGlobalIAM, set_up_multi_nic, or_status, status.
  keeps_tac; apply Hh.
Qed.

(** A readable global path that is not reported as mounted belongs to a key without references; nothing is said of
    the mount when it is unreadable. *)
Lemma post_isMounted :
  post (kept F key) (λ s, before_look s ∧ has_token key s) (isMounted (globalMountPath key))
    (λ b s, has_token key s ∧ if b then mounted (nodeHost s) (globalMountPath key) else F → ¬ referenced key s).
Proof.
  intros s [[[_ Hp] Hh] Ht]. subst h0.
  pose proof (λ Hm, global_looked_at key (nodeHost s) key_bare Hm) as Hd.
  destruct (isMounted (globalMountPath key) s) as [r s'] eqn:E. pose proof E as (Htree & _ & Hm)%isMounted_inv.
  assert (has_token key s') as Ht' by (unfold has_token; by rewrite Htree).
  destruct r as [[]|e]; [by auto| |].
  - split; [done|]. intros HF Hr. unfold referenced, has_reference in Hr. rewrite Htree in Hr. destruct (Hp HF Hr) as [Hmt _].
    specialize (readable HF). destruct (Hd Hmt) as [Hl|Hl]; [|congruence].
    revert E. unfold isMounted. rewrite bind_unfold. unfold host_pair.
    destruct (IsLikelyNotMountPoint (globalMountPath key) (nodeHost s)) as [r h]. cbn in Hl. by subst r.
  - split; [by intros _|]. intros HF Hr. exfalso. specialize (readable HF). revert E readable. unfold isMounted, unreadable.
    rewrite bind_unfold. unfold host_pair.
    destruct (IsLikelyNotMountPoint (globalMountPath key) (nodeHost s)) as [[notMnt [err|]] h]; cbn; [|done].
    by destruct (is_not_exist err).
Qed.

Lemma post_mount principal vc cap :
  post (kept F key) (λ s, has_token key s ∧ (F → ¬ referenced key s))
    (mountGlobalIAM driver (globalMountPath key) principal key vc cap) (λ _ s, served key s).
Proof.
  intros s [Ht Hn]. pose proof (shrinks_mount principal vc cap s) as Hs. unfold state_after in Hs.
  pose proof (key_mount_token principal vc cap s Ht) as Htok. unfold state_after in Htok.
  destruct (mountGlobalIAM _ _ _ _ _ _ s) as [[[]|e] s'] eqn:E.
  - apply mountGlobalIAM_ok in E as (Htree & Hm & _); [|apply routes_keep]. split; [done|]. unfold has_token. by rewrite Htree.
  - split; [by intros _|]. intros HF Hr. by apply (unreferenced_shrinks _ _ Hs) in Hr; [|apply Hn].
Qed.

Lemma post_addReference uid v : plain uid →
  post (kept F key) (served key) (addPodReference key uid v) (λ _, served key).
Proof.
  intros Hu. eapply (post_keeps _ (frame (λ p, p ≠ mount_root ++ [key; "refs"; uid]) (eq key)));
    [|by apply served_frame].
  unfold addPodReference. pose proof (frame_pathExists (λ p, p ≠ mount_root ++ [key; "refs"; uid]) (eq key) (refPath key uid)).
  assert (keeps (frame (λ p, p ≠ mount_root ++ [key; "refs"; uid]) (eq key)) (sys (WriteFile (refPath key uid) v 420))).
  { eapply frame_sys; [apply touches_WriteFile|]. rewrite resolve_refPath by (done || apply key_bare). auto. }
  keeps_tac.
Qed.

(** The bind mount at the target, and the way back if it fails. *)
Lemma post_bind_mount uid target opts (err : goerr → goerr) : plain uid → outside target →
  post (kept F key) (served key)
    (r ← attempt (host (MountSensitiveWithoutSystemd (globalMountPath key) target "lustre" opts));
     match r with
     | Ok _ => mret ()
     | Err e =>
         _ ← attempt (E' := goerr) (removePodReference key uid);
         _ ← attempt (unmountPath target); fail (err e)
     end) (λ _, served key).
Proof.
  intros Hu Ho. set (R := frame (λ p, p = mount_root ++ [key; "token"]) (eq key)).
  assert (∀ s s', served key s → R s s' → served key s' ∧ kept F key s') as HR by by apply served_frame.
  eapply (post_keeps _ R); [|exact HR].
  assert (keeps R (host (MountSensitiveWithoutSystemd (globalMountPath key) target "lustre" opts))) by apply frame_mount.
  assert (keeps R (sys (Remove (refPath key uid)))).
  { eapply frame_sys; [apply touches_Remove|]. rewrite resolve_refPath by (done || apply key_bare).
    intros p -> E. apply app_inv_head in E. discriminate E. }
  assert (keeps R (removePodReference key uid)) by (unfold removePodReference; keeps_tac).
  assert (keeps R (unmountPath target)).
  { apply frame_unmountPath. split; [|intros k <-; by apply outside_not_global].
    intros E. unfold outside in Ho. rewrite E in Ho. by rewrite (proj2 (below_spec _ _)) in Ho by eauto. }
  keeps_tac.
Qed.
End publication.
End key.

Lemma iam_key_bare v ns sa : bare (iam_key v ns sa).
Proof.
  split; [apply iam_key_plain|]. unfold iam_key. destruct (computeHash_form (v +:+ (ns +:+ "/" +:+ sa))) as [_ Hh].
  unfold has_meta. by rewrite !all_hex_no_char.
Qed.

Lemma post_or_status {A : Type} (I P : nodeState S → Prop) c msg (r : result goerr A) :
  (∀ s, P s → I s) → post I P (or_status c msg r) (λ a s, r = Ok a ∧ P s).
Proof. intros HI. destruct r; [by intros s Hs|by apply post_fail]. Qed.

(** A publication that succeeds leaves its key mounted and with a token.  One that fails leaves a key with references its
    token, and its mount as well unless the look at the global path failed. *)
Lemma post_publish h0 F v target b vc opts cap :
  let key := iam_key v (get vc (normalize keyPodNamespace)) (get vc (normalize keyServiceAccount)) in
  (F → unreadable (globalMountPath key) h0 = false) → outside target → plain (get vc (normalize keyPodUID)) →
  post (kept F key) (before_look key h0 F) (publishIAMVolume driver v target b vc opts cap) (λ _, served key).
Proof.
  intros key HF Ho Hu. unfold publishIAMVolume. do 3 (case_decide; [by apply post_fail; intros s [? _]|]). fold key.
  pose proof (iam_key_bare v (get vc (normalize keyPodNamespace)) (get vc (normalize keyServiceAccount))) as Hk. fold key in Hk.
  assert (∀ s, before_look key h0 F s → kept F key s) as Hb by by intros s [? _].
  apply post_locked_on; [done..|].
  eapply post_bind; [apply post_attempt, post_makeDirs, Hk|]. intros [d|e]; [|by apply post_fail].
  destruct (vc !! normalize keyServiceToken) as [json|]; [|by apply post_fail].
  eapply post_bind; [by apply post_or_status|]. intros token.
  eapply post_bind; [eapply post_weaken; [apply post_attempt, post_token, Hk|by intros ? [_ ?]|done]|].
  intros [u|e]; [|by apply post_fail].
  eapply post_bind; [by apply post_isMounted|]. intros g.
  eapply (post_bind _ _ _ (λ _, served key)).
  { destruct g; cbn [negb].
    - intros s [Ht Hm]. by split.
    - eapply post_weaken; [by apply post_mount|by intros s [? ?]|done]. }
  intros ?. eapply post_bind; [by apply post_attempt, post_addReference|]. intros [w|e]; [|by apply post_fail].
  destruct b; [by intros s Hs|]. by apply post_bind_mount.
Qed.

(** Removing the directory of references succeeds only when nothing is referred to. *)
Lemma refsDir_removed key s s' :
  bare key → sys (Remove (refsDir key)) s = (Ok (), s') → ¬ referenced key s ∧ ¬ referenced key s'.
Proof.
  intros Hk (o & E & ->)%sys_inv. apply Remove_spec in E as [(_ & Ho & _ & Hd)|(? & ? & _)]; [|done].
  rewrite resolve_refsDir in Hd, Ho by apply Hk. assert (¬ referenced key s) as Hn.
  { intros [uid Hr].
    assert (mount_root ++ [key; "refs"; uid] ∈ descendants (tree_of s) (mount_root ++ [key; "refs"])) as Hin.
    { apply elem_of_descendants. split; [eauto|]. apply below_spec. by exists uid, []. }
    rewrite Hd in Hin. by apply elem_of_nil in Hin. }
  split; [done|]. intros [uid [n Hr]]. apply Hn. exists uid. cbn in Hr. rewrite Ho in Hr.
  apply lookup_delete_Some in Hr as [_ Hr]. by exists n.
Qed.

(** A cleanup after a pod, for a property of states that its two removals keep and that holds where nothing is referred to. *)
Lemma post_cleanUp (I : nodeState S → Prop) key uid :
  bare key → plain uid → (∀ l s, I s → I (MkNodeState l (nodeOS s) (nodeHost s))) →
  post I I (sys (Remove (path_string (mount_root ++ [key; "refs"; uid])))) (λ _, I) →
  post I I (sys (Remove (refsDir key))) (λ _, I) →
  (∀ s s', I s → ¬ referenced key s → shrinks s s' → I s') →
  post I I (cleanUpIAMReferenceForKey key (path_string (mount_root ++ [key; "refs"; uid]))) (λ _, I).
Proof.
  intros Hk Hu Hl Href Hrefs Hnone. unfold cleanUpIAMReferenceForKey. apply post_locked_on; [done..|].
  eapply post_bind; [apply post_attempt, Href|].
  intros removed. apply (post_weaken _ I _ _ (λ _, I)); [|by intros; destruct removed|done].
  destruct (match removed with Ok _ => None | Err err => if is_not_exist err then None else Some err end); [by apply post_fail|].
  apply (post_bind _ _ _ (λ r s, I s ∧ match r with Ok _ => ¬ referenced key s | Err _ => True end)).
  { intros s1 H1'. unfold attempt. specialize (Hrefs s1 H1'). destruct (sys (Remove (refsDir key)) s1) as [[[]|e] s2] eqn:E; [|done].
    by apply refsDir_removed in E as [_ ?]. }
  intros [u|err].
  - apply (post_keeps _ shrinks).
    + assert (keeps shrinks (sys (RemoveAll (keyDir key)) : M (nodeState S) goerr ())) as Ha.
      { intros s1 p. unfold state_after. destruct (sys _ s1) as [r s2] eqn:E. apply sys_inv in E as (o & E & ->).
        apply syscall_cases in E as [_ [(f & _ & _ & Ho)|[_ Ho]]]; cbn [nodeOS snd] in *; rewrite Ho, lookup_delete_all;
          case_decide; (done || by intros [? ?]). }
      pose proof (shrinks_unmountPath (globalMountPath key)). keeps_tac.
    + intros s1 s2 [Hi Hn] Hsh. split; by eapply Hnone.
  - destruct (is_not_exist err); [by intros s1 [? _]|].
    repeat case_match; first [by apply post_fail; intros ? [? _]|by intros s1 [? _]].
Qed.

Lemma resolve_ref_path key uid : bare key → plain uid → resolve (path_string (mount_root ++ [key; "refs"; uid])) = mount_root ++ [key; "refs"; uid].
Proof.
  intros Hk Hu. apply resolve_path_string, Forall_app. split; [apply mount_root_plain|]. repeat constructor; try done; apply Hk || apply Hu.
Qed.

Lemma cleanUp_kept F key uid : bare key → plain uid →
  keeps (λ s s', kept F key s → kept F key s')
    (cleanUpIAMReferenceForKey key (path_string (mount_root ++ [key; "refs"; uid]))).
Proof.
  intros Hk Hu s Hs. eapply (post_after (kept F key) (kept F key)); [|exact Hs].
  assert (∀ p, resolve p ≠ mount_root ++ [key; "token"] →
    post (kept F key) (kept F key) (sys (Remove p)) (λ _, kept F key)) as Hrm.
  { intros p Hp. eapply post_keeps; [by apply (kept_remove key F)|cbn; tauto]. }
  apply post_cleanUp; [done..| | |].
  - apply Hrm. rewrite resolve_ref_path by done. intros E. apply app_inv_head in E. discriminate E.
  - apply Hrm. rewrite resolve_refsDir by apply Hk. intros E. apply app_inv_head in E. discriminate E.
  - intros s1 s2 _ Hn Hsh. by apply unreferenced_kept, (unreferenced_shrinks key s1).
Qed.

(** The references of the other pods stay. *)
Lemma cleanUp_others key uid uid' : bare key → plain uid → uid' ≠ uid →
  keeps (λ s s', has_reference key uid' s → has_reference key uid' s')
    (cleanUpIAMReferenceForKey key (path_string (mount_root ++ [key; "refs"; uid]))).
Proof.
  intros Hk Hu Hne s Hs. eapply (post_after (has_reference key uid') (has_reference key uid')); [|exact Hs].
  assert (∀ p, resolve p ≠ mount_root ++ [key; "refs"; uid'] →
    post (has_reference key uid') (has_reference key uid') (sys (Remove p)) (λ _, has_reference key uid')) as Hrm.
  { intros p Hp s1 [n Hn]. unfold has_reference. destruct (sys (Remove p) s1) as [r s2] eqn:E.
    assert (is_Some (tree_of s2 !! (mount_root ++ [key; "refs"; uid']))) as Hx; [|by destruct r].
    apply sys_inv in E as (o & E & ->). cbn. apply Remove_spec in E as [(_ & -> & _)|(_ & _ & -> & _)]; [|by exists n].
    rewrite lookup_delete_ne by done. by exists n. }
  apply post_cleanUp; [done..| | |].
  - apply Hrm. rewrite resolve_ref_path by done. intros E. apply app_inv_head in E. congruence.
  - apply Hrm. rewrite resolve_refsDir by apply Hk. intros E. apply app_inv_head in E. discriminate E.
  - intros s1 s2 Hr Hn _. destruct Hn. by exists uid'.
Qed.

(** ** What the calls of the handlers do to the references of pods

    A call leaves the references alone, or it is the part of a handler that runs under the lock of an IAM key: it
    publishes for a pod under the key, or cleans up after one. *)
Inductive work : Type :=
| Quiet
| Publishes (key uid : string)
| CleansUp (key uid : string).

(** What has come of it. *)
Inductive event : Type :=
| Rests
| Published (key uid : string)
| Failed (key uid : string)
| Lost (key uid : string)   (* failed, and the look at the global path failed *)
| Cleaned (key uid : string).

Definition event_of (w : work) (ok : bool) s : event :=
  match w with
  | Quiet => Rests
  | Publishes key uid =>
      if ok then Published key uid
      else if unreadable (globalMountPath key) (nodeHost s) then Lost key uid else Failed key uid
  | CleansUp key uid => Cleaned key uid
  end.

(** What may have changed then. *)
Definition effect (e : event) (s s' : nodeState S) : Prop :=
  match e with
  | Rests => outer s s'
  | Published key uid =>
      bare key ∧ beside key uid s s' ∧ served key s' ∧ has_reference key uid s'
  | Lost key uid => bare key ∧ beside key uid s s' ∧ (tokened key s → tokened key s')
  | Failed key uid => bare key ∧ beside key uid s s' ∧ ∀ F, kept F key s → kept F key s'
  | Cleaned key uid =>
      bare key ∧ elsewhere key s s' ∧ (∀ F, kept F key s → kept F key s') ∧
      tree_of s' ⊆ tree_of s ∧ ∀ uid', uid' ≠ uid → has_reference key uid' s → has_reference key uid' s'
  end.

Definition acts (w : work) {A : Type} (m : M (nodeState S) goerr A) : Prop :=
  ∀ s, effect (event_of w (is_ok (result_in m s)) s) s (state_after m s).

Lemma acts_quiet {A : Type} (m : M (nodeState S) goerr A) : keeps outer m → acts Quiet m.
Proof. intros Hm s. apply Hm. Qed.

Lemma acts_sys {A : Type} (m : M os goerr A) : touches (λ _, False) m → acts Quiet (sys m).
Proof. intros Hm. apply acts_quiet. eapply frame_sys; [exact Hm|auto]. Qed.

Lemma acts_makeDir t : outside t → acts Quiet (makeDir t).
Proof.
  intros Ho. apply acts_quiet, frame_makeDir. intros p Hp Hpre. unfold outside in Ho.
  pose proof (below_prefix _ _ _ Hp Hpre). congruence.
Qed.

Lemma acts_isMounted t : outside t → acts Quiet (isMounted t).
Proof. intros Ho. apply acts_quiet, frame_isMounted. intros k Hk. by apply outside_not_global. Qed.

Lemma acts_unmountPath t : outside t → acts Quiet (unmountPath t).
Proof. intros Ho. apply acts_quiet, frame_unmountPath. by apply outside_apart. Qed.

Lemma acts_ownership t g ro : outside t → acts Quiet (setVolumeOwnershipTopLevel t g ro).
Proof. intros Ho. apply acts_quiet, frame_ownership. by rewrite Ho. Qed.

Lemma acts_list : acts Quiet (host List).
Proof. apply acts_quiet, frame_list. Qed.

Lemma acts_routes ip : acts Quiet (set_up_multi_nic driver ip).
Proof. apply acts_quiet, frame_routes. Qed.

Lemma acts_mount src t fs opts : acts Quiet (host (MountSensitiveWithoutSystemd src t fs opts)).
Proof. apply acts_quiet, frame_mount. Qed.

Lemma acts_stats t : acts Quiet (host (Statfs t)).
Proof. apply acts_quiet, frame_host. intros h k _. apply stats_keep. Qed.

Lemma acts_lstat t : acts Quiet (sys (Lstat t)).
Proof. apply acts_sys, touches_Lstat. Qed.

Lemma acts_glob pattern : acts Quiet (sys (Glob pattern)).
Proof. apply acts_sys, touches_Glob. Qed.

Lemma acts_acquire key : acts Quiet (node_TryAcquire key).
Proof. intros s. unfold state_after, node_TryAcquire, VolumeLocks.TryAcquire. by case_decide. Qed.

Lemma section_publish v t b vc opts cap :
  let key := iam_key v (get vc (normalize keyPodNamespace)) (get vc (normalize keyServiceAccount)) in
  outside t → plain (get vc (normalize keyPodUID)) →
  keeps (beside key (get vc (normalize keyPodUID))) (publishIAMVolume driver v t b vc opts cap).
Proof.
  intros key Ho Hu. set (uid := get vc (normalize keyPodUID)). unfold publishIAMVolume. do 3 (case_decide; [apply frame_status|]). fold key.
  pose proof (iam_key_bare v (get vc (normalize keyPodNamespace)) (get vc (normalize keyServiceAccount))) as Hk. fold key in Hk.
  pose proof (key_makeDirs key Hk uid). pose proof (key_token key Hk uid). pose proof (key_isMounted key Hk uid).
  pose proof (key_mount key Hk uid) as Hm. pose proof (key_reference key Hk uid Hu v).
  pose proof (key_unreference key Hk uid Hu).
  assert (keeps (beside key uid) (unmountPath t)) by (apply frame_unmountPath; by apply outside_beside).
  apply frame_locked_on. keeps_tac;
    first [apply frame_or_status|apply frame_status|apply Hm|apply frame_mount].
Qed.

Lemma acts_publish v t b vc opts cap :
  outside t → plain (get vc (normalize keyPodUID)) →
  acts (Publishes (iam_key v (get vc (normalize keyPodNamespace)) (get vc (normalize keyServiceAccount)))
          (get vc (normalize keyPodUID))) (publishIAMVolume driver v t b vc opts cap).
Proof.
  intros Ho Hu s. pose proof (iam_key_bare v (get vc (normalize keyPodNamespace)) (get vc (normalize keyServiceAccount))) as Hk.
  pose proof (section_publish v t b vc opts cap Ho Hu s) as Hb.
  pose proof (λ F HF, post_publish (nodeHost s) F v t b vc opts cap HF Ho Hu s) as Hp.
  pose proof (λ s', publishIAMVolume_ok driver routes_keep v t b vc opts cap s s') as Hok.
  unfold event_of, result_in, state_after, before_look in *. cbv zeta in Hp, Hok. revert Hk Hb Hp Hok.
  generalize (iam_key v (get vc (normalize keyPodNamespace)) (get vc (normalize keyServiceAccount))). intros key Hk Hb Hp Hok.
  destruct (publishIAMVolume driver v t b vc opts cap s) as [[[]|err] s']; cbn [is_ok fst snd] in *.
  - destruct (Hok s' eq_refl Hu) as (Hr & (? & token & a & _ & _ & Ht) & Hm & _); [intros E; by apply (outside_not_global key t)|].
    split_and!; [done..| |done]. split; [done|by exists token, a].
  - destruct (unreadable (globalMountPath key) (nodeHost s)); (split_and!; [done..|]).
    + intros Ht. destruct (Hp False) as [? _]; [done|by split|done].
    + intros F Hf. by apply (Hp F).
Qed.

Lemma acts_cleanUp key uid :
  bare key → plain uid →
  acts (CleansUp key uid) (cleanUpIAMReferenceForKey key (path_string (mount_root ++ [key; "refs"; uid]))).
Proof.
  intros Hk Hu s. split_and!; [done|by apply key_cleanUp|intros F; by apply cleanUp_kept|by apply deletes_cleanUp|].
  intros uid' Hne. by apply cleanUp_others.
Qed.
End promise.

(** ** On the node in memory *)
#[export] Instance host_global_mounts : GlobalMountLaws host_state.
Proof.
  split; [intros ip nics h p; apply host_multi_nic|done|].
  intros key h _ Hm. unfold unreadable, IsLikelyNotMountPoint, host_mounter. case_decide; [by right|]. left. cbn.
  by rewrite bool_decide_false by naive_solver.
Qed.
