(* ===== verification/NodePool.v ===== *)
(** * Node handlers that run at the same time

    The requests of a node run in goroutines of their own.  Here every handler of node.go is written once more as a
    program, a tree of the calls it makes, whose run is the handler of Node.v; a pool of such programs steps one
    call at a time, in any order, while requests arrive.  What a handler does under the lock of an IAM
    key is one step, which the lock makes exclusive among the handlers of the key (Concurrency.v), or is refused
    because another handler holds the lock. *)
From stdpp Require Import relations.
From S2P Require Import Prelude GoStr Regex GoErr Util Instance Params Csi Driver Network NetworkSpec Sha256 Json FS Node NodeHost NodeFrame NodeSpec NodeSteps.

Local Open Scope string_scope.
Local Open Scope list_scope.
Local Open Scope Z_scope.

(** ** Programs *)
Section programs.
Context {S : Type}.

(** A program is done, or makes a call and goes on with its result.  A call is marked with the work it does on references. *)
Inductive program (T : Type) : Type :=
| Done (r : result goerr T)
| Do (w : work) {A : Type} (m : M (nodeState S) goerr A) (k : result goerr A → program T).
Arguments Done {T} _.
Arguments Do {T} _ {A} _ _.

(** Without interruption. *)
Fixpoint run_alone {T : Type} (p : program T) : M (nodeState S) goerr T :=
  match p with
  | Done r => lift r
  | Do _ m k => λ s, let '(r, s') := m s in run_alone (k r) s'
  end.

#[export] Instance program_ret : MRet program := λ T a, Done (Ok a).
#[export] Instance program_bind : MBind program := λ A B f,
  fix bind p :=
    match p with
    | Done (Ok a) => f a
    | Done (Err e) => Done (Err e)
    | Do w m k => Do w m (λ r, bind (k r))
    end.

Definition call {A : Type} (m : M (nodeState S) goerr A) : program A := Do Quiet m Done.
Definition section {A : Type} (w : work) (m : M (nodeState S) goerr A) : program A := Do w m Done.

Fixpoint try {T : Type} (p : program T) : program (result goerr T) :=
  match p with
  | Done r => Done (Ok r)
  | Do w m k => Do w m (λ r, try (k r))
  end.

Definition fails {T : Type} (c : grpc_code) (msg : string) : program T := Done (Err (ErrStatus c msg)).
Definition or_fails {T : Type} (c : grpc_code) (msg : goerr → string) (r : result goerr T) : program T :=
  match r with Ok a => mret a | Err err => fails c (msg err) end.

Definition node_Release (key : string) : M (nodeState S) goerr () :=
  modify (λ s, MkNodeState (VolumeLocks.Release key (nodeLocks s)) (nodeOS s) (nodeHost s)).

(** The lock of a target: taken, and released when the body has returned, or refused. *)
Fixpoint then_release {T : Type} (key : string) (p : program T) : program T :=
  match p with
  | Done r => Do Quiet (node_Release key) (λ _, Done r)
  | Do w m k => Do w m (λ r, then_release key (k r))
  end.

Definition with_lock_on {T : Type} (key : string) (busy : goerr) (p : program T) : program T :=
  acquired ← call (node_TryAcquire key);
  if negb acquired then Done (Err busy) else then_release key p.

(** *** What programs run as *)
Definition runs_as {T : Type} (p : program T) (m : M (nodeState S) goerr T) : Prop := ∀ s, run_alone p s = m s.

Lemma runs_done {T : Type} (r : result goerr T) : runs_as (Done r) (lift r).
Proof. done. Qed.

Lemma runs_call {A : Type} (m : M (nodeState S) goerr A) : runs_as (call m) m.
Proof. intros s. cbn. by destruct (m s). Qed.

Lemma runs_section {A : Type} w (m : M (nodeState S) goerr A) : runs_as (section w m) m.
Proof. intros s. cbn. by destruct (m s). Qed.

Lemma runs_bind {A B : Type} (p : program A) (f : A → program B) m g :
  runs_as p m → (∀ a, runs_as (f a) (g a)) → runs_as (p ≫= f) (m ≫= g).
Proof.
  intros Hp Hf s. rewrite bind_unfold, <-Hp. clear Hp. revert s.
  induction p as [[a|e]|w X m' k IH]; intros s; cbn; [apply Hf|done|]. destruct (m' s) as [r s']. apply IH.
Qed.

Lemma runs_try {T : Type} (p : program T) m : runs_as p m → runs_as (try p) (attempt m).
Proof.
  intros Hp s. unfold attempt. rewrite <-Hp. clear Hp. revert s.
  induction p as [r|w X m' k IH]; intros s; cbn; [done|]. destruct (m' s) as [r s']. apply IH.
Qed.

Lemma runs_or_fails {T : Type} c msg (r : result goerr T) : runs_as (or_fails c msg r) (or_status c msg r).
Proof. by destruct r. Qed.

Lemma runs_lock {T : Type} key busy (p : program T) m : runs_as p m → runs_as (with_lock_on key busy p) (locked_on key busy m).
Proof.
  intros Hp. apply runs_bind; [apply runs_call|]. intros [|]; [|done]. intros s. unfold node_defer_Release. cbn [negb].
  rewrite <-Hp. clear Hp. revert s. induction p as [r|w X m' k IH]; intros s; cbn; [done|]. destruct (m' s) as [r s']. apply IH.
Qed.
End programs.
Arguments program S T : clear implicits.
Arguments Done {S T} _.
Arguments Do {S T} _ {A} _ _.

Create HintDb runs.
#[export] Hint Resolve runs_done runs_call runs_section runs_or_fails : runs.

(** Walk a program along the handler it is to run as. *)
Ltac runs_step :=
  lazymatch goal with
  | |- runs_as (mbind _ _) (mbind _ _) => apply runs_bind; [|intros ?]
  | |- runs_as (try _) (attempt _) => apply runs_try
  | |- runs_as (with_lock_on _ _ _) (locked_on _ _ _) => apply runs_lock
  | |- runs_as (match ?x with _ => _ end) (match ?x with _ => _ end) => destruct x
  | |- runs_as (let '(_, _) := ?x in _) _ => destruct x
  end.
Ltac runs_tac := repeat first [runs_step | solve [eauto with runs] | done].

(** ** The handlers *)
Section handlers.
Context {S : Type} `{Mounter S} `{Netlinker S} `{MapRange}.
Context (driver : LustreDriver).

Abbreviation code T := (program S T).

Definition removeDir_code (target : string) : code () :=
  r ← try (call (sys (Remove target)));
  match r with
  | Ok _ => mret ()
  | Err err =>
      if is_not_exist err then mret ()
      else fails Internal ("failed to remove mount directory " +:+ quote target +:+ ": " +:+ error_text err)
  end.

Definition unmountPath_code (target : string) : code () :=
  '(notMnt, err) ← call (host_pair (IsLikelyNotMountPoint target));
  let notMnt :=
    match err with
    | Some err => if negb (is_not_exist err) then false else notMnt
    | None => notMnt
    end in
  if (notMnt : bool) then removeDir_code target else
  r ← call (host_pair (umount DefaultUnmountTimeout [target]));
  if unmounted r then removeDir_code target else
  r ← call (host_pair (umount DefaultForceUnmountTimeout ["-f"; target]));
  if unmounted r then removeDir_code target else
  r ← call (host_pair (umount DefaultLazyUnmountTimeout ["-l"; target]));
  if unmounted r then removeDir_code target else
  fails Internal ("failed to unmount target " +:+ quote target +:+
    " after standard, force, and lazy attempts: " +:+ opt_text r.2 +:+ " (output: " +:+ r.1 +:+ ")").

Definition makeDir_code (pathname : string) : code () :=
  r ← try (call (sys (MkdirAll pathname 493)));
  match r with
  | Ok _ => mret ()
  | Err err => if negb (is_exist err) then Done (Err err) else mret ()
  end.

Definition pathExists_code (path : string) : code bool :=
  r ← try (call (sys (Stat path)));
  match r with
  | Ok _ => mret true
  | Err err => if is_not_exist err then mret false else Done (Err err)
  end.

Definition isMounted_code (target : string) : code bool :=
  '(notMnt, err) ← call (host_pair (IsLikelyNotMountPoint target));
  match err with
  | Some err =>
      if is_not_exist err then mret false
      else
        exists_ ← try (pathExists_code target);
        match exists_ with
        | Err pathErr =>
            if IsCorruptedMnt pathErr then
              r ← try (call (host (Unmount target)));
              match r with
              | Err mntErr =>
                  fails Internal ("Unable to unmount the target " +:+ quote target +:+ " : " +:+ error_text mntErr)
              | Ok _ => mret false
              end
            else
              fails Internal ("Could not check if " +:+ quote target +:+ " is a mount point: " +:+
                error_text err +:+ ", " +:+ error_text pathErr)
        | Ok _ =>
            fails Internal ("Could not check if " +:+ quote target +:+ " is a mount point: " +:+
              error_text err +:+ ", <nil>")
        end
  | None => mret (negb notMnt)
  end.

Definition hasMountWithSameFSName_code (fsname : string) : code bool :=
  mountedFS ← call (host List);
  mret (existsb (λ m, bool_decide (extractFSName (Device m) = fsname)) mountedFS).

Definition NodeStageVolume_code (req : NodeStageVolumeRequest) : code () :=
  let volumeID := StageVolumeId req in
  if decide (slen volumeID = 0) then fails InvalidArgument "Volume ID not provided" else
  vc ← or_fails InvalidArgument error_text (normalizeVolumeContext (StageContext req));
  let iamAccessControlEnabled := get vc (normalize keyIAMAccessControlEnabled) in
  '(ip, fsname) ← or_fails InvalidArgument error_text (mount_source vc);
  if decide (to_lower iamAccessControlEnabled = "true") then mret () else
  let source := lustre_source ip fsname in
  let target := StageTargetPath req in
  if decide (slen target = 0) then fails InvalidArgument "Target path not provided" else
  match StageCapability req with
  | None => fails InvalidArgument "Volume capability not provided"
  | Some volCap =>
      _ ← or_fails InvalidArgument (λ err, "Volume capability validation failed: " +:+ error_text err)
            (validateVolumeCapabilities driver [Some volCap]);
      with_lock_on target (aborted target) (
        let mountOptions := add_flags [] (mount_flags volCap) in
        let nodeName := NodeID (config driver) in
        mounted ← try (isMounted_code target);
        match mounted with
        | Err err =>
            fails Internal ("Could not check if " +:+ quote target +:+ " is mounted on node " +:+
              nodeName +:+ ": " +:+ error_text err)
        | Ok true => mret ()
        | Ok false =>
            hasFSName ← try (hasMountWithSameFSName_code fsname);
            match hasFSName with
            | Err err =>
                fails Internal ("Could not check if there is an existing mountpoint with the same Lustre filesystem name " +:+
                  fsname +:+ " on node " +:+ nodeName +:+ ": " +:+ error_text err)
            | Ok true =>
                fails AlreadyExists ("A mountpoint with the same lustre filesystem name " +:+ quote fsname +:+
                  " already exists on node " +:+ nodeName +:+ ". Please mount different lustre filesystems")
            | Ok false =>
                _ ← call (set_up_multi_nic driver ip);
                made ← try (makeDir_code target);
                match made with
                | Err err =>
                    fails Internal ("Could not create dir " +:+ target +:+ " on node " +:+ nodeName +:+ ": " +:+ error_text err)
                | Ok _ =>
                    r ← try (call (host (MountSensitiveWithoutSystemd source target "lustre" mountOptions)));
                    match r with
                    | Ok _ => mret ()
                    | Err err =>
                        _ ← try (unmountPath_code target);
                        fails Internal ("Could not mount " +:+ quote source +:+ " at " +:+ quote target +:+
                          " on node " +:+ nodeName +:+ ": " +:+ error_text err)
                    end
                end
            end
        end)
  end.

Definition NodeUnstageVolume_code (volumeID target : string) : code () :=
  if decide (slen volumeID = 0) then fails InvalidArgument "Volume ID not provided" else
  if decide (slen target = 0) then fails InvalidArgument "Staging target path not provided" else
  with_lock_on target (aborted target) (unmountPath_code target).

(** *** Publishing *)
Definition setVolumeOwnershipTopLevel_code (dir fsGroup : string) (readOnly : bool) : code () :=
  if readOnly then mret () else
  if decide (fsGroup = "") then mret () else
  match atoi fsGroup with
  | None =>
      let err := ErrText (atoi_error fsGroup) in
      Done (Err (ErrWrap ("invalid fsGroup " +:+ fsGroup +:+ ", must a numeric string: " +:+ error_text err) err))
  | Some gid =>
      info ← call (sys (Lstat dir));
      _ ← call (sys (Lchown_group dir gid));
      let mask := if readOnly then roMask else rwMask in
      let mask := Z.lor mask (Z.lor ModeSetgid execMask) in
      call (sys (Chmod dir (Z.lor (Mode info) mask)))
  end.

Definition NodePublishVolume_code (req : NodePublishVolumeRequest) : code () :=
  let volumeID := PubVolumeId req in
  if decide (slen volumeID = 0) then fails InvalidArgument "Volume ID not provided" else
  let stagingTargetPath := PubStagingPath req in
  if decide (slen stagingTargetPath = 0) then fails InvalidArgument "Staging target path not provided" else
  let targetPath := PubTargetPath req in
  if decide (slen targetPath = 0) then fails InvalidArgument "Target path not provided" else
  match PubCapability req with
  | None => fails InvalidArgument "Volume capability not provided"
  | Some volCap =>
      _ ← or_fails InvalidArgument error_text (validateVolumeCapabilities driver [Some volCap]);
      vc ← or_fails InvalidArgument error_text (normalizeVolumeContext (PubContext req));
      let isIAM := equal_fold (get vc (normalize keyIAMAccessControlEnabled)) "true" in
      with_lock_on targetPath (aborted targetPath) (
        let ro := PubReadonly req in
        let mountOptions := add_flags ("bind" :: (if ro then ["ro"] else [])) (mount_flags volCap) in
        let fsGroup := match GetMount volCap with Some m => VolumeMountGroup m | None => "" end in
        let nodeName := NodeID (config driver) in
        made ← try (makeDir_code targetPath);
        match made with
        | Err err =>
            fails Internal ("Could not create dir " +:+ quote targetPath +:+ " on node " +:+ nodeName +:+ ": " +:+ error_text err)
        | Ok _ =>
            targetMounted ← isMounted_code targetPath;
            _ ← (if isIAM then
                   section (Publishes (iam_key volumeID (get vc (normalize keyPodNamespace)) (get vc (normalize keyServiceAccount)))
                             (get vc (normalize keyPodUID)))
                     (publishIAMVolume driver volumeID targetPath targetMounted vc mountOptions volCap)
                 else if negb targetMounted then
                   r ← try (call (host (MountSensitiveWithoutSystemd stagingTargetPath targetPath "lustre" mountOptions)));
                   match r with
                   | Ok _ => mret ()
                   | Err err => fails Internal ("Legacy bind mount failed: " +:+ error_text err)
                   end
                 else mret ());
            owned ← try (setVolumeOwnershipTopLevel_code targetPath fsGroup ro);
            match owned with
            | Ok _ => mret ()
            | Err err => _ ← try (unmountPath_code targetPath); fails Internal (error_text err)
            end
        end)
  end.

Fixpoint clean_up_refs_code (podUID : string) (matches : list string) : code (list goerr) :=
  match matches with
  | [] => mret []
  | refPath :: rest =>
      match find_submatch iamKeyExtractRegex refPath with
      | None => clean_up_refs_code podUID rest
      | Some match_ =>
          r ← try (section (CleansUp (group 1 match_) podUID) (cleanUpIAMReferenceForKey (group 1 match_) refPath));
          errs ← clean_up_refs_code podUID rest;
          mret (match r with Ok _ => errs | Err err => err :: errs end)
      end
  end.

Definition cleanUpIAMReference_code (targetPath : string) : code () :=
  match getPodUIDFromTargetPath targetPath with
  | Err _ => mret ()
  | Ok podUID =>
      found ← try (call (sys (Glob (Join [GlobalMountRoot; "*"; "refs"; podUID]))));
      match found with
      | Err err => Done (Err (ErrWrap ("failed to glob pod references: " +:+ error_text err) err))
      | Ok matches =>
          errs ← clean_up_refs_code podUID matches;
          if decide (0 < length errs)%nat then Done (Err (join_errors errs)) else mret ()
      end
  end.

Definition NodeUnpublishVolume_code (targetPath : string) : code () :=
  if decide (slen targetPath = 0) then
    fails InvalidArgument "NodeUnpublishVolume target path must be provided" else
  with_lock_on targetPath (aborted targetPath) (
    _ ← unmountPath_code targetPath;
    r ← try (cleanUpIAMReference_code targetPath);
    match r with
    | Ok _ => mret ()
    | Err err => fails Internal ("failed to clean up IAM reference directories: " +:+ error_text err)
    end).

(** *** Statistics *)
Definition getFSStat_code (path : string) : code FSStat :=
  r ← try (call (host (Statfs path)));
  match r with
  | Err err => Done (Err (ErrWrap ("failed to get fs info on path " +:+ path +:+ ": " +:+ error_text err) err))
  | Ok statfs => mret (fs_stat statfs)
  end.

Definition NodeGetVolumeStats_code (volumeID volumePath : string) : code FSStat :=
  if decide (slen volumeID = 0) then fails InvalidArgument "NodeGetVolumeStats volume ID was empty" else
  if decide (slen volumePath = 0) then fails InvalidArgument "NodeGetVolumeStats volume path was empty" else
  r ← try (call (sys (Lstat volumePath)));
  match r with
  | Err err =>
      if is_not_exist err then fails NotFound ("path " +:+ volumePath +:+ " does not exist")
      else fails Internal ("unknown error when stat on " +:+ volumePath +:+ ": " +:+ error_text err)
  | Ok _ =>
      st ← try (getFSStat_code volumePath);
      match st with
      | Err err => fails Internal ("failed to get fs info on path " +:+ volumePath +:+ ": " +:+ error_text err)
      | Ok st => mret st
      end
  end.
End handlers.

(** ** The programs run as the handlers *)
Section equivalence.
Context {S : Type} `{Mounter S} `{Netlinker S} `{MapRange}.
Context (driver : LustreDriver).

Lemma runs_removeDir t : runs_as (removeDir_code t) (removeDir t : M (nodeState S) goerr ()).
Proof. unfold removeDir_code, removeDir. runs_tac. Qed.
#[local] Hint Resolve runs_removeDir : runs.

Lemma runs_unmountPath t : runs_as (unmountPath_code t) (unmountPath t : M (nodeState S) goerr ()).
Proof. unfold unmountPath_code, unmountPath. runs_tac. Qed.

Lemma runs_makeDir t : runs_as (makeDir_code t) (makeDir t : M (nodeState S) goerr ()).
Proof. unfold makeDir_code, makeDir. runs_tac. Qed.

Lemma runs_isMounted t : runs_as (isMounted_code t) (isMounted t : M (nodeState S) goerr bool).
Proof. unfold isMounted_code, isMounted, pathExists_code, pathExists. runs_tac. Qed.
#[local] Hint Resolve runs_unmountPath runs_makeDir runs_isMounted : runs.

Lemma runs_ownership d g ro : runs_as (setVolumeOwnershipTopLevel_code d g ro) (setVolumeOwnershipTopLevel d g ro : M (nodeState S) goerr ()).
Proof. unfold setVolumeOwnershipTopLevel_code, setVolumeOwnershipTopLevel. runs_tac. Qed.

Lemma runs_clean_up_refs uid matches :
  runs_as (clean_up_refs_code uid matches) (clean_up_refs matches : M (nodeState S) goerr (list goerr)).
Proof. induction matches; cbn [clean_up_refs_code clean_up_refs]; runs_tac. Qed.
#[local] Hint Resolve runs_ownership runs_clean_up_refs : runs.

Lemma runs_stage req : runs_as (NodeStageVolume_code driver req) (NodeStageVolume driver req : M (nodeState S) goerr ()).
Proof. unfold NodeStageVolume_code, NodeStageVolume, hasMountWithSameFSName_code, hasMountWithSameFSName. runs_tac. Qed.

Lemma runs_unstage id t : runs_as (NodeUnstageVolume_code id t) (NodeUnstageVolume id t : M (nodeState S) goerr ()).
Proof. unfold NodeUnstageVolume_code, NodeUnstageVolume. runs_tac. Qed.

Lemma runs_publish req : runs_as (NodePublishVolume_code driver req) (NodePublishVolume driver req : M (nodeState S) goerr ()).
Proof. unfold NodePublishVolume_code, NodePublishVolume. runs_tac. Qed.

Lemma runs_unpublish t : runs_as (NodeUnpublishVolume_code t) (NodeUnpublishVolume t : M (nodeState S) goerr ()).
Proof. unfold NodeUnpublishVolume_code, NodeUnpublishVolume, cleanUpIAMReference_code, cleanUpIAMReference. runs_tac. Qed.

Lemma runs_stats id p : runs_as (NodeGetVolumeStats_code id p) (NodeGetVolumeStats id p : M (nodeState S) goerr FSStat).
Proof. unfold NodeGetVolumeStats_code, NodeGetVolumeStats, getFSStat_code, getFSStat. runs_tac. Qed.

(** The programs that the pool interleaves are the handlers: run without interruption, each gives the result of its
    handler and the state it leaves, from every state and on every path. *)
Theorem programs_run_as_handlers s :
  (∀ req, run_alone (NodeStageVolume_code driver req) s = NodeStageVolume driver req s) ∧
  (∀ id t, run_alone (NodeUnstageVolume_code id t) s = NodeUnstageVolume id t s) ∧
  (∀ req, run_alone (NodePublishVolume_code driver req) s = NodePublishVolume driver req s) ∧
  (∀ t, run_alone (NodeUnpublishVolume_code t) s = NodeUnpublishVolume t s) ∧
  (∀ id p, run_alone (NodeGetVolumeStats_code id p) s = NodeGetVolumeStats id p s).
Proof.
  split_and!; intros *; [apply runs_stage|apply runs_unstage|apply runs_publish|apply runs_unpublish|apply runs_stats].
Qed.
End equivalence.

(** ** The pool *)
Inductive request : Type :=
| Stage (req : NodeStageVolumeRequest)
| Unstage (volumeID target : string)
| Publish (req : NodePublishVolumeRequest)
| Unpublish (target : string)
| Stats (volumeID path : string).

Section pool.
Context {S : Type} `{Mounter S} `{Netlinker S} `{MapRange}.
Context (driver : LustreDriver).

Definition code_of (r : request) : program S () :=
  match r with
  | Stage req => NodeStageVolume_code driver req
  | Unstage id t => NodeUnstageVolume_code id t
  | Publish req => NodePublishVolume_code driver req
  | Unpublish t => NodeUnpublishVolume_code t
  | Stats id p => _ ← NodeGetVolumeStats_code id p; mret ()
  end.

(** The requests that have arrived, each with what is left of its program, and the node. *)
Record pool : Type := MkPool {
  threads : list (request * program S ());
  node : nodeState S;
}.

(** The key whose lock a call takes. *)
Definition work_key (w : work) : option string :=
  match w with Quiet => None | Publishes key _ | CleansUp key _ => Some key end.

Definition holding (key : string) (s : nodeState S) : nodeState S :=
  MkNodeState ({[key]} ∪ nodeLocks s) (nodeOS s) (nodeHost s).

(** A request arrives; a handler makes its next call; the call finds the lock of its key held by another handler and
    gets its error, which changes nothing. *)
Inductive pool_step (admits : request → Prop) : event → relation pool :=
| step_arrives r ts s :
    admits r → pool_step admits Rests (MkPool ts s) (MkPool (ts ++ [(r, code_of r)]) s)
| step_calls i r w A (m : M (nodeState S) goerr A) k ts s x s' :
    ts !! i = Some (r, Do w m k) → m s = (x, s') →
    pool_step admits (event_of w (is_ok x) s) (MkPool ts s) (MkPool (<[i := (r, k x)]> ts) s')
| step_refused i r w A (m : M (nodeState S) goerr A) k ts s key :
    ts !! i = Some (r, Do w m k) → work_key w = Some key →
    pool_step admits Rests (MkPool ts s) (MkPool (<[i := (r, k (result_in m (holding key s)))]> ts) s).

(** What has happened on the way, in order. *)
Inductive pool_run (admits : request → Prop) : list event → relation pool :=
| pool_stays p : pool_run admits [] p p
| pool_goes es e p1 p2 p3 : pool_run admits es p1 p2 → pool_step admits e p2 p3 → pool_run admits (es ++ [e]) p1 p3.

Lemma pool_run_trans admits es es' p1 p2 p3 :
  pool_run admits es p1 p2 → pool_run admits es' p2 p3 → pool_run admits (es ++ es') p1 p3.
Proof.
  intros H12. induction 1; [by rewrite app_nil_r|]. rewrite app_assoc. econstructor; eauto.
Qed.

Lemma pool_run_mono (P Q : request → Prop) es p p' :
  (∀ r, P r → Q r) → pool_run P es p p' → pool_run Q es p p'.
Proof.
  intros HPQ. induction 1 as [p|es e p1 p2 p3 Hr IH Hs]; [constructor|]. econstructor; [by apply IH|].
  destruct Hs; econstructor; eauto.
Qed.

(** *** Schedules, to run the pool with *)
Definition arrive (rs : list request) (p : pool) : pool := MkPool (threads p ++ ((λ r, (r, code_of r)) <$> rs)) (node p).

(** The threads that step, in turn. *)
Fixpoint schedule (turns : list nat) (p : pool) : list event * pool :=
  match turns with
  | [] => ([], p)
  | i :: turns =>
      match threads p !! i with
      | Some (r, Do w m k) =>
          let '(x, s) := m (node p) in
          let '(es, p') := schedule turns (MkPool (<[i := (r, k x)]> (threads p)) s) in
          (event_of w (is_ok x) (node p) :: es, p')
      | _ => schedule turns p
      end
  end.

Lemma arrive_run admits rs p : Forall admits rs → pool_run admits (replicate (length rs) Rests) p (arrive rs p).
Proof.
  intros Hrs. destruct p as [ts s]. revert ts. induction Hrs as [|r rs Hr _ IH]; intros ts; unfold arrive; cbn.
  - rewrite app_nil_r. constructor.
  - specialize (IH (ts ++ [(r, code_of r)])). unfold arrive in IH. cbn in IH. rewrite <-app_assoc in IH.
    change (Rests :: replicate (length rs) Rests) with ([Rests] ++ replicate (length rs) Rests).
    eapply pool_run_trans; [|exact IH]. apply (pool_goes _ [] _ _ (MkPool ts s)); [constructor|by constructor].
Qed.

Lemma schedule_run admits turns p : pool_run admits (schedule turns p).1 p (schedule turns p).2.
Proof.
  revert p. induction turns as [|i turns IH]; intros p; cbn; [constructor|].
  destruct (threads p !! i) as [[r [x|w A m k]]|] eqn:Hi; [apply IH| |apply IH].
  destruct (m (node p)) as [x s] eqn:Hm. specialize (IH (MkPool (<[i := (r, k x)]> (threads p)) s)).
  destruct (schedule turns _) as [es p']. cbn [fst snd] in *.
  change (?e :: es) with ([e] ++ es). eapply pool_run_trans; [|exact IH].
  apply (pool_goes _ [] _ _ p); [constructor|]. destruct p as [ts s0]. by econstructor.
Qed.
End pool.
Arguments pool S : clear implicits.

(** ** What the pool keeps *)
Section invariant.
Context {S : Type} `{GlobalMountLaws S} `{MapRange}.
Context (driver : LustreDriver).
Implicit Types s : nodeState S.

(** A program that does what its marks say, on a node whose keys have proper names, and does no other work than is allowed. *)
Fixpoint abides (allowed : work → Prop) {T : Type} (p : program S T) : Prop :=
  match p with
  | Done _ => True
  | Do w m k => acts w m ∧ allowed w ∧ ∀ s, keys_bare (tree_of s) → abides allowed (k (result_in m s))
  end.

Section abides.
Context (allowed : work → Prop) (quiet : allowed Quiet).

Lemma abides_bind {A B : Type} (p : program S A) (f : A → program S B) :
  abides allowed p → (∀ a, abides allowed (f a)) → abides allowed (p ≫= f).
Proof.
  intros Hp Hf. induction p as [[a|e]|w X m k IH]; cbn in *; [apply Hf|done|].
  destruct Hp as (Hm & Hw & Hk). split_and!; [done..|]. intros s Hs. by apply IH, Hk.
Qed.

Lemma abides_try {T : Type} (p : program S T) : abides allowed p → abides allowed (try p).
Proof.
  intros Hp. induction p as [r|w X m k IH]; cbn in *; [done|].
  destruct Hp as (Hm & Hw & Hk). split_and!; [done..|]. intros s Hs. by apply IH, Hk.
Qed.

Lemma abides_call {A : Type} (m : M (nodeState S) goerr A) : acts Quiet m → abides allowed (call m).
Proof. by intros Hm. Qed.

Lemma abides_section {A : Type} w (m : M (nodeState S) goerr A) : acts w m → allowed w → abides allowed (section w m).
Proof. by intros Hm Hw. Qed.

Lemma abides_or_fails {T : Type} c msg (r : result goerr T) : abides allowed (or_fails c msg r : program S T).
Proof. by destruct r. Qed.

Lemma abides_lock {T : Type} key busy (p : program S T) : abides allowed p → abides allowed (with_lock_on key busy p).
Proof.
  intros Hp. apply abides_bind; [apply abides_call, acts_acquire|]. intros [|]; cbn [negb]; [|done].
  induction p as [r|w X m k IH]; cbn in *.
  - split_and!; [|done..]. intros s. done.
  - destruct Hp as (Hm & Hw & Hk). split_and!; [done..|]. intros s Hs. by apply IH, Hk.
Qed.

#[local] Hint Resolve abides_or_fails acts_makeDir acts_isMounted acts_unmountPath acts_list acts_routes acts_mount acts_stats
  acts_lstat acts_glob : abides.

Ltac abides_step :=
  lazymatch goal with
  | |- abides _ (mbind _ _) => apply abides_bind; [|intros ?]
  | |- abides _ (try _) => apply abides_try
  | |- abides _ (with_lock_on _ _ _) => apply abides_lock
  | |- abides _ (match ?x with _ => _ end) => destruct x
  | |- abides _ (call _) => apply abides_call
  end.
Ltac abides_tac := repeat first [abides_step | solve [eauto with abides] | done].

Lemma acts_Stat t : acts Quiet (sys (Stat t)).
Proof. apply acts_sys, touches_Stat. Qed.
Lemma acts_likely t : acts Quiet (host_pair (IsLikelyNotMountPoint t)).
Proof. apply acts_quiet, frame_likely. Qed.

(** The calls on a target outside the global mounts. *)
Section target.
Context (t : string) (t_outside : outside t).

Lemma acts_Remove : acts Quiet (sys (Remove t)).
Proof. apply acts_quiet. eapply frame_sys; [apply touches_Remove|]. intros p Hp <-. unfold outside in *. congruence. Qed.

Lemma acts_MkdirAll mode : acts Quiet (sys (MkdirAll t mode)).
Proof.
  apply acts_quiet. eapply frame_sys; [apply touches_MkdirAll|]. intros p Hp Hpre. unfold outside in *.
  pose proof (below_prefix _ _ _ Hp Hpre). congruence.
Qed.

Lemma acts_umount timeout args : last args = Some t → acts Quiet (host_pair (umount timeout args)).
Proof. intros Hl. apply acts_quiet, frame_umount. intros k Hk. rewrite Hl. intros [= E]. by apply (outside_not_global k t). Qed.

Lemma acts_Unmount : acts Quiet (host (Unmount t)).
Proof. apply acts_quiet, frame_host. intros h k Hk Hm. apply Unmount_others; [|done]. by apply outside_not_global. Qed.

Lemma acts_change op f : acts Quiet (sys (syscall op t untouched (change_attr (resolve t) f))).
Proof. apply acts_quiet. eapply frame_sys; [apply touches_change|]. intros p Hp <-. unfold outside in *. congruence. Qed.

#[local] Hint Resolve acts_Stat acts_likely acts_Remove acts_MkdirAll acts_umount acts_Unmount acts_change : abides.

Lemma abides_unmountPath : abides allowed (unmountPath_code t).
Proof. unfold unmountPath_code, removeDir_code. abides_tac. Qed.

Lemma abides_makeDir : abides allowed (makeDir_code t).
Proof. unfold makeDir_code. abides_tac. Qed.

Lemma abides_isMounted : abides allowed (isMounted_code t).
Proof. unfold isMounted_code, pathExists_code. abides_tac. Qed.

Lemma abides_ownership g ro : abides allowed (setVolumeOwnershipTopLevel_code t g ro).
Proof.
  pose proof (λ gid, acts_change _ _ : acts Quiet (sys (Lchown_group t gid))) as Hl.
  pose proof (λ m, acts_change _ _ : acts Quiet (sys (Chmod t m))) as Hc.
  unfold setVolumeOwnershipTopLevel_code. abides_tac.
Qed.
End target.
#[local] Hint Resolve abides_unmountPath abides_makeDir abides_isMounted abides_ownership : abides.

Lemma abides_stage req : outside (StageTargetPath req) → abides allowed (NodeStageVolume_code driver req).
Proof. intros Ho. unfold NodeStageVolume_code, hasMountWithSameFSName_code. abides_tac. Qed.

Lemma abides_unstage id t : outside t → abides allowed (NodeUnstageVolume_code id t).
Proof. intros Ho. unfold NodeUnstageVolume_code. abides_tac. Qed.

Lemma abides_stats id p : abides allowed (NodeGetVolumeStats_code id p).
Proof. unfold NodeGetVolumeStats_code, getFSStat_code. abides_tac. Qed.
End abides.

(** *** The requests

    What is asked of a request: a target outside the directories of the global mounts, and a pod with a proper UID; and
    the references that its handler works on: a publication on its pod's under the key of the volume and the principal,
    an unpublication on its pod's under any key, the others on none. *)
Definition proper (r : request) : Prop :=
  match r with
  | Stage req => outside (StageTargetPath req)
  | Unstage _ t => outside t
  | Publish req =>
      outside (PubTargetPath req) ∧
      ∀ vc, normalizeVolumeContext (PubContext req) = Ok vc → plain (get vc (normalize keyPodUID))
  | Unpublish t => outside t ∧ ∀ uid, getPodUIDFromTargetPath t = Ok uid → bare uid
  | Stats _ _ => True
  end.

Definition works_on (r : request) (key uid : string) : Prop :=
  match r with
  | Publish req => ∃ vc, normalizeVolumeContext (PubContext req) = Ok vc ∧ get vc (normalize keyPodUID) = uid ∧
      key = iam_key (PubVolumeId req) (get vc (normalize keyPodNamespace)) (get vc (normalize keyServiceAccount))
  | Unpublish t => getPodUIDFromTargetPath t = Ok uid
  | _ => False
  end.

(** The work on references that a request may do. *)
Definition does (r : request) (w : work) : Prop :=
  match w with
  | Quiet => True
  | Publishes key uid => (∃ req, r = Publish req) ∧ works_on r key uid
  | CleansUp key uid => (∃ t, r = Unpublish t) ∧ works_on r key uid
  end.

Lemma abides_publish req : proper (Publish req) → abides (does (Publish req)) (NodePublishVolume_code driver req).
Proof.
  intros [Ho Hu]. unfold NodePublishVolume_code.
  do 3 (case_decide; [done|]). destruct (PubCapability req) as [cap|]; [|done].
  apply abides_bind; [apply abides_or_fails|]. intros _.
  destruct (normalizeVolumeContext (PubContext req)) as [vc|] eqn:Evc; [|done]. specialize (Hu vc eq_refl). cbn [or_fails].
  change (mret vc ≫= ?f) with (f vc).
  apply abides_lock; [done|]. apply abides_bind; [apply abides_try, abides_makeDir; done|]. intros [d|e]; [|done].
  apply abides_bind; [by apply abides_isMounted|]. intros tm. apply abides_bind; [|intros _].
  - case_match; [apply abides_section; [by apply acts_publish|split; [by eexists|by exists vc]]|].
    destruct (negb tm); [|done]. apply abides_bind; [apply abides_try, abides_call; [done|apply acts_mount]|by intros []].
  - apply abides_bind; [by apply abides_try, abides_ownership|]. intros [u|e]; [done|].
    apply abides_bind; [by apply abides_try, abides_unmountPath|done].
Qed.

Lemma abides_clean_up_refs t uid matches :
  getPodUIDFromTargetPath t = Ok uid →
  bare uid → Forall (λ m, ∃ key, bare key ∧ m = path_string (mount_root ++ [key; "refs"; uid])) matches →
  abides (does (Unpublish t)) (clean_up_refs_code uid matches : program S (list goerr)).
Proof.
  intros Hid Hu. induction 1 as [|m matches (key & Hk & ->) Hf IH]; cbn [clean_up_refs_code]; [done|].
  destruct (find_submatch _ _) as [c|] eqn:E; [|done]. rewrite (iam_key_of_ref _ _ _ Hk Hu E).
  apply abides_bind; [apply abides_try, abides_section|intros r; by apply abides_bind].
  - apply acts_cleanUp; [done|apply Hu].
  - split; [by eexists|done].
Qed.

Lemma abides_unpublish t : proper (Unpublish t) → abides (does (Unpublish t)) (NodeUnpublishVolume_code t : program S ()).
Proof.
  intros [Ho Hu]. unfold NodeUnpublishVolume_code. case_decide; [done|].
  apply abides_lock; [done|]. apply abides_bind; [by apply abides_unmountPath|]. intros _.
  apply abides_bind; [apply abides_try|by intros []]. unfold cleanUpIAMReference_code.
  destruct (getPodUIDFromTargetPath t) as [uid|] eqn:Hid; [|done]. specialize (Hu uid eq_refl).
  split_and!; [apply acts_glob|done|]. intros s Hs. unfold result_in. destruct (sys (Glob _) s) as [[matches|err] s1] eqn:E; [|done].
  apply sys_inv in E as (o & E & ->). cbn -[clean_up_refs_code].
  apply abides_bind; [|intros errs; by case_decide].
  apply (abides_clean_up_refs t uid); [done|done|]. apply Forall_forall. intros m Hm.
  apply (Glob_sound _ _ _ _ _ E) in Hm as (_ & p & -> & Hp).
  apply refs_pattern in Hp as (key & ? & ->); [by eauto|done|exact Hs].
Qed.

Lemma abides_request r : proper r → abides (does r) (code_of driver r).
Proof.
  destruct r as [req|id t|req|t|id p]; cbn [code_of]; intros Hr.
  - by apply abides_stage.
  - by apply abides_unstage.
  - by apply abides_publish.
  - by apply abides_unpublish.
  - apply abides_bind; [by apply abides_stats|done].
Qed.

(** ** Steps of the pool *)
Definition concerns (e : event) (key uid : string) : Prop :=
  match e with
  | Rests => False
  | Published k u | Failed k u | Lost k u | Cleaned k u => k = key ∧ u = uid
  end.

Lemma event_concerns w ok s key uid : concerns (event_of w ok s) key uid → ∀ r, does r w → works_on r key uid.
Proof.
  destruct w as [|k u|k u]; cbn; [done|..].
  - destruct ok; [|destruct (unreadable _ _)]; cbn; intros [-> ->] r [_ Hr]; exact Hr.
  - intros [-> ->] r [_ Hr]. exact Hr.
Qed.

Definition finished {T : Type} (q : program S T) : bool := match q with Done _ => true | _ => false end.

(** The state of the pool: proper names of keys, and running programs that abide by their requests. *)
Record pool_inv (admits : request → Prop) (p : pool S) : Prop := {
  inv_keys : keys_bare (tree_of (node p));
  inv_threads r q : (r, q) ∈ threads p → finished q = false → admits r ∧ abides (does r) q;
}.

Lemma effect_keys e s s' : effect e s s' → keys_bare (tree_of s) → keys_bare (tree_of s').
Proof.
  destruct e as [|key uid|key uid|key uid|key uid]; cbn.
  - apply outer_keys.
  - intros (Hk & Hb & _). apply (elsewhere_keys key); [done|by eapply beside_elsewhere].
  - intros (Hk & Hb & _). apply (elsewhere_keys key); [done|by eapply beside_elsewhere].
  - intros (Hk & Hb & _). apply (elsewhere_keys key); [done|by eapply beside_elsewhere].
  - intros (Hk & He & _). by apply (elsewhere_keys key).
Qed.

Lemma threads_insert i r q q' (ts : list (request * program S ())) admits :
  ts !! i = Some (r, q) → finished q = false →
  (∀ r q, (r, q) ∈ ts → finished q = false → admits r ∧ abides (does r) q) → (abides (does r) q → abides (does r) q') →
  ∀ r' q'', (r', q'') ∈ <[i := (r, q')]> ts → finished q'' = false → admits r' ∧ abides (does r') q''.
Proof.
  intros Hi Hf Hts Hq r' q'' (j & Hj)%list_elem_of_lookup Hf''. apply list_lookup_insert_Some in Hj as [(-> & [= <- <-] & _)|[_ Hj]].
  - destruct (Hts r q) as [? ?]; [by eapply list_elem_of_lookup_2|done|]. auto.
  - apply Hts; [by eapply list_elem_of_lookup_2|done].
Qed.

Lemma step_effect admits e p p' :
  (∀ r, admits r → proper r) → pool_step driver admits e p p' → pool_inv admits p →
  pool_inv admits p' ∧ effect e (node p) (node p') ∧
  ∀ key uid, concerns e key uid → ∃ r, admits r ∧ works_on r key uid.
Proof.
  intros Hproper Hs [Hk Hts]. destruct Hs as [r ts s Hr|i r w A m k ts s x s' Hi Hm|i r w A m k ts s key Hi Hw]; cbn in *.
  - split_and!; [|cbn; reflexivity|done]. split; [done|]. cbn. intros r' q [Hq|Hq]%elem_of_app Hf; [by apply Hts|].
    apply list_elem_of_singleton in Hq as [= -> ->]. split; [done|]. by apply abides_request, Hproper.
  - destruct (Hts r (Do w m k)) as [Hr (Hm' & Hw & Hk')]; [by eapply list_elem_of_lookup_2|done|].
    specialize (Hm' s). unfold result_in, state_after in Hm'. rewrite Hm in Hm'. cbn [fst snd] in Hm'.
    split_and!; [|done|].
    + split; [by eapply effect_keys|]. cbn. eapply threads_insert; [exact Hi|done|done|]. intros _.
      specialize (Hk' s Hk). unfold result_in in Hk'. by rewrite Hm in Hk'.
    + intros key uid Hc. exists r. split; [done|]. by eapply event_concerns.
  - split_and!; [|cbn; reflexivity|done]. split; [done|]. cbn. eapply threads_insert; [exact Hi|done|done|]. intros (_ & _ & Hk').
    by apply Hk'.
Qed.

Lemma run_inv admits es p p' :
  (∀ r, admits r → proper r) → pool_run driver admits es p p' → pool_inv admits p → pool_inv admits p'.
Proof.
  intros Hproper. induction 1 as [p|es e p1 p2 p3 Hr IH Hs]; [done|]. intros Hp. by eapply step_effect in Hs as [? _]; auto.
Qed.

(** The pool before any request has arrived. *)
Definition start s : pool S := MkPool [] s.

Lemma start_inv admits s : keys_bare (tree_of s) → pool_inv admits (start s).
Proof. intros Hs. split; [done|]. cbn. intros r q Hq. by apply elem_of_nil in Hq. Qed.

(** A program that runs without interruption has the effects of the work it may do. *)
Lemma abides_keeps (allowed : work → Prop) (P : relation (nodeState S)) `{!PreOrder P} {T : Type} (q : program S T) s :
  (∀ w ok s s', allowed w → effect (event_of w ok s) s s' → P s s') → abides allowed q → keys_bare (tree_of s) →
  P s (state_after (run_alone q) s) ∧ keys_bare (tree_of (state_after (run_alone q) s)).
Proof.
  intros HP. revert s. induction q as [r|w A m k IH]; intros s Hq Hs; [by split|]. destruct Hq as (Hm & Hw & Hk).
  specialize (Hm s). specialize (Hk s Hs). unfold state_after, result_in in *. cbn [run_alone]. destruct (m s) as [r s1]. cbn [fst snd] in *.
  destruct (IH r s1 Hk) as [Hp Hkeys]; [by eapply effect_keys|]. split; [|done]. etransitivity; [by eapply HP|exact Hp].
Qed.

(** ** What references are worth *)

(** A node on which the keys that pods refer to are mounted and have tokens. *)
Record node_inv s : Prop := {
  node_keys : keys_bare (tree_of s);
  node_promise key : bare key → promise key s;
}.

(** The keys whose global mount a publication has found unreadable and not restored, with no successful publication since. *)
Definition lose (lost : gset string) (e : event) : gset string :=
  match e with
  | Published key _ => lost ∖ {[key]}
  | Lost key _ => {[key]} ∪ lost
  | _ => lost
  end.
Definition losses (es : list event) : gset string := foldl lose ∅ es.

Lemma losses_snoc es e : losses (es ++ [e]) = lose (losses es) e.
Proof. apply foldl_snoc. Qed.

Lemma kept_imp (F F' : Prop) key s : (F' → F) → kept F key s → kept F' key s.
Proof. intros HF [Ht Hp]. split; auto. Qed.

Lemma effect_kept e s s' lost key :
  effect e s s' → bare key → kept (key ∉ lost) key s → kept (key ∉ lose lost e) key s'.
Proof.
  intros He Hk Hs.
  assert (∀ k u, key ≠ k → beside k u s s' → ∀ F, kept F key s → kept F key s') as Hother.
  { intros k u Hne Hb F. eapply kept_elsewhere; [done|exact Hne|]. by eapply beside_elsewhere. }
  destruct e as [|k u|k u|k u|k u]; cbn [effect lose] in *.
  - by eapply kept_outer.
  - destruct He as (_ & Hb & Hm & _). destruct (decide (key = k)) as [->|Hne]; [by apply served_kept|].
    eapply Hother; [done..|]. eapply kept_imp; [|exact Hs]. set_solver.
  - destruct He as (_ & Hb & Hm). destruct (decide (key = k)) as [->|Hne]; [by apply Hm|by eapply Hother].
  - destruct He as (_ & Hb & Hm). destruct (decide (key = k)) as [->|Hne].
    + split; [by apply Hm, Hs|set_solver].
    + eapply Hother; [done..|]. eapply kept_imp; [|exact Hs]. set_solver.
  - destruct He as (_ & He & Hm & _). destruct (decide (key = k)) as [->|Hne]; [by apply Hm|by eapply kept_elsewhere].
Qed.

Lemma run_kept admits es p p' key :
  (∀ r, admits r → proper r) → pool_run driver admits es p p' → pool_inv admits p → bare key →
  promise key (node p) → kept (key ∉ losses es) key (node p').
Proof.
  intros Hproper Hr Hp Hk Hpr. induction Hr as [p|es e p1 p2 p3 Hr IH Hs].
  - split; [|by intros _]. intros Href. by apply Hpr in Href as [_ ?].
  - rewrite losses_snoc. pose proof (run_inv _ _ _ _ Hproper Hr Hp) as Hp2.
    destruct (step_effect _ _ _ _ Hproper Hs Hp2) as (_ & He & _). eapply effect_kept; [exact He|done|]. by apply IH.
Qed.

(** Claim C6.  Whatever requests arrive, however the calls of their handlers interleave and whatever fails, in every state on
    the way a key that a pod refers to has its token file, and its filesystem mounted at the global path: no
    unpublication takes the mount from a pod that uses it, no publication records a pod before the mount is there.  The one
    exception is a key of which a publication found the global path unreadable, as at a corrupted mount, and failed,
    until the next one that succeeds. *)
Theorem references_keep_mounts s es p key uid :
  node_inv s → pool_run driver proper es (start s) p → bare key →
  is_Some (tree_of (node p) !! (mount_root ++ [key; "refs"; uid])) →
  (∃ token a, tree_of (node p) !! (mount_root ++ [key; "token"]) = Some (File token a)) ∧
  (key ∉ losses es → mounted (nodeHost (node p)) (globalMountPath key)).
Proof.
  intros Hs Hr Hk Hu.
  destruct (run_kept proper es (start s) p key (λ _ H, H) Hr) as [Ht Hm]; [by apply start_inv, Hs|done|by apply Hs|].
  split; [apply Ht|intros Hl; apply Hm]; [by exists uid|done|by exists uid].
Qed.
End invariant.

(** ** On the node in memory *)
Lemma fresh_inv : node_inv fresh_node.
Proof. split; [intros k [n Hk]; done|intros key _ [uid [n Hu]]; done]. Qed.

(** The conditions on a publication, by running the code. *)
Lemma publishable_check `{MapRange} req :
  below mount_root (resolve (PubTargetPath req)) = false →
  match normalizeVolumeContext (PubContext req) with
  | Ok vc => bool_decide (plain (get vc (normalize keyPodUID))) | Err _ => true end = true →
  proper (Publish req).
Proof. intros Ho Hu. split; [done|]. intros vc Hvc. rewrite Hvc in Hu. by apply bool_decide_eq_true in Hu. Qed.

Lemma pub1_proper : proper (Publish pub1).
Proof. apply publishable_check; vm_compute; reflexivity. Qed.
Lemma pub2_proper : proper (Publish pub2).
Proof. apply publishable_check; vm_compute; reflexivity. Qed.
Lemma target1_proper : proper (Unpublish (target_of "pod1" "v")).
Proof. split; [vm_compute; reflexivity|]. intros uid. vm_compute. intros [= <-]. decided. Qed.

(** One pod publishes; then the publication of a second pod and the unpublication of the first one take turns. *)
Definition pool1 : pool host_state := arrive node_driver [Publish pub1] (start fresh_node).
Definition after1 : list event * pool host_state := schedule (replicate 60 0%nat) pool1.
Definition pool2 : pool host_state := arrive node_driver [Publish pub2; Unpublish (target_of "pod1" "v")] after1.2.
Definition crossed : list event * pool host_state := schedule (concat (replicate 40 [1%nat; 2%nat])) pool2.

Definition events1 : list event := replicate 1 Rests ++ after1.1.
Definition events2 : list event := replicate 2 Rests ++ crossed.1.

Lemma run1 : pool_run node_driver proper events1 (start fresh_node) after1.2.
Proof.
  refine (pool_run_trans _ _ _ _ _ _ _ (arrive_run node_driver proper [Publish pub1] _ _) (schedule_run _ _ _ pool1)).
  apply Forall_singleton, pub1_proper.
Qed.

Lemma run2 (admits : request → Prop) :
  admits (Publish pub2) → admits (Unpublish (target_of "pod1" "v")) → pool_run node_driver admits events2 after1.2 crossed.2.
Proof.
  intros H2 H1. refine (pool_run_trans _ _ _ _ _ _ _ (arrive_run node_driver admits _ _ _) (schedule_run _ _ _ pool2)).
  apply Forall_cons_2; [exact H2|]. by apply Forall_singleton.
Qed.

Lemma references_keep_mounts_witness :
  is_Some (tree_of (node crossed.2) !! (mount_root ++ [pub_key; "refs"; "pod2"])) ∧
  (∃ token a, tree_of (node crossed.2) !! (mount_root ++ [pub_key; "token"]) = Some (File token a)) ∧
  mounted (nodeHost (node crossed.2)) (globalMountPath pub_key).
Proof.
  assert (is_Some (tree_of (node crossed.2) !! (mount_root ++ [pub_key; "refs"; "pod2"]))) as Hr by decided.
  split; [exact Hr|].
  destruct (references_keep_mounts node_driver fresh_node (events1 ++ events2) crossed.2 pub_key "pod2" fresh_inv) as [Ht Hm].
  - apply (pool_run_trans _ _ _ _ _ _ _ run1). apply run2; [exact pub2_proper|exact target1_proper].
  - decided.
  - exact Hr.
  - split; [exact Ht|]. apply Hm. decided.
Defined.

(** The exception is real: the filesystem of the first pod's volume no longer answers, the second pod's publication finds the global
    mount corrupted and unmounts it, and cannot mount it again. *)
Definition unanswering : nodeState host_state :=
  let h := nodeHost (node after1.2) in
  MkNodeState ∅ (MkOS (tree_of (node after1.2)) (replicate 5 None ++ [Some (MkFault ENOTCONN 0)]))
    (MkHost (mtab h) (stuck h) (hnet h) [globalMountPath pub_key]).
Definition corrupted : list event * pool host_state :=
  schedule (replicate 60 0%nat) (arrive node_driver [Publish pub2] (start unanswering)).

Example corrupted_mount_lost :
  losses corrupted.1 = {[pub_key]} ∧
  is_Some (tree_of (node corrupted.2) !! (mount_root ++ [pub_key; "refs"; "pod1"])) ∧
  globalMountPath pub_key ∉ mount_points (nodeHost (node corrupted.2)).
Proof. split_and!; [vm_compute; reflexivity|decided..]. Qed.
