(* ===== verification/NodeLocks.v ===== *)
(** * The locks of the node while its handlers interleave

    The pool of NodePool.v, and the locks of target paths: a handler works on its target only while the lock is
    its own, no other handler is at work on the same target then, and the locks that are taken are those
    of handlers that are still at work. *)
From S2P Require Import Prelude GoStr Regex GoErr Util Instance Params Csi Driver Network NetworkSpec Sha256 Json FS Node NodeHost NodeFrame NodeSpec NodeSteps NodePool.

Local Open Scope string_scope.
Local Open Scope list_scope.
Local Open Scope Z_scope.

Section locks.
Context {S : Type} `{Mounter S} `{Netlinker S} `{MapRange}.
Context (driver : LustreDriver).
Implicit Types s : nodeState S.

(** ** Calls that leave the locks as they are *)
Lemma locks_sys {A : Type} (m : M os goerr A) : keeps same_node_locks (sys m : M (nodeState S) goerr A).
Proof. intros s. unfold same_node_locks, state_after, sys. by destruct (m (nodeOS s)). Qed.
Lemma locks_host {A : Type} (m : M S goerr A) : keeps same_node_locks (host m).
Proof. intros s. unfold same_node_locks, state_after, host. by destruct (m (nodeHost s)). Qed.
Lemma locks_host_pair {A : Type} (m : S → A * S) : keeps same_node_locks (host_pair m).
Proof. intros s. unfold same_node_locks, state_after, host_pair. by destruct (m (nodeHost s)). Qed.

#[local] Hint Resolve locks_sys locks_host locks_host_pair : locks.

Lemma locks_publish v t b vc o cap : keeps same_node_locks (publishIAMVolume driver v t b vc o cap : M (nodeState S) goerr _).
Proof. apply keeps_publishIAMVolume; auto using locks_locked_on with locks typeclass_instances. Qed.
Lemma locks_cleanUp key p : keeps same_node_locks (cleanUpIAMReferenceForKey key p : M (nodeState S) goerr _).
Proof. apply keeps_cleanUpForKey; auto using locks_locked_on with locks typeclass_instances. Qed.
Lemma locks_routes ip : keeps same_node_locks (set_up_multi_nic driver ip : M (nodeState S) goerr _).
Proof. unfold set_up_multi_nic. repeat keeps_step; auto with locks. Qed.

#[local] Hint Resolve locks_publish locks_cleanUp locks_routes : locks.

(** ** Programs and the lock of their target *)

(** A program that takes and releases no lock between its calls. *)
Fixpoint neutral {T : Type} (p : program S T) : Prop :=
  match p with
  | Done _ => True
  | Do _ m k => keeps same_node_locks m ∧ ∀ r, neutral (k r)
  end.

(** A program that holds no lock: it is refused the one it asks for, or gives it back when its body has returned. *)
Fixpoint idle {T : Type} (p : program S T) : Prop :=
  match p with
  | Done _ => True
  | Do w m k =>
      (keeps same_node_locks m ∧ ∀ r, idle (k r)) ∨
      w = Quiet ∧ ∃ t,
        (∀ s, t ∈ nodeLocks s → nodeLocks (state_after m s) = nodeLocks s ∧ idle (k (result_in m s))) ∧
        (∀ s, t ∉ nodeLocks s → nodeLocks (state_after m s) = {[t]} ∪ nodeLocks s ∧
           ∃ q, neutral q ∧ k (result_in m s) = then_release t q)
  end.

Lemma neutral_idle {T : Type} (p : program S T) : neutral p → idle p.
Proof. induction p as [r|w A m k IH]; cbn; [done|]. intros [Hm Hk]. left. split; [done|]. intros r. apply IH, Hk. Qed.

Lemma neutral_bind {A B : Type} (p : program S A) (f : A → program S B) :
  neutral p → (∀ a, neutral (f a)) → neutral (p ≫= f).
Proof.
  intros Hp Hf. induction p as [[a|e]|w X m k IH]; cbn in *; [apply Hf|done|]. destruct Hp as [Hm Hk]. split; auto.
Qed.

Lemma idle_bind {A B : Type} (p : program S A) (f : A → program S B) : neutral p → (∀ a, idle (f a)) → idle (p ≫= f).
Proof.
  intros Hp Hf. induction p as [[a|e]|w X m k IH]; cbn in *; [apply Hf|done|]. destruct Hp as [Hm Hk]. left. split; auto.
Qed.

Lemma neutral_try {T : Type} (p : program S T) : neutral p → neutral (try p).
Proof. intros Hp. induction p as [r|w X m k IH]; cbn in *; [done|]. destruct Hp as [Hm Hk]. split; auto. Qed.

Lemma neutral_call {A : Type} w (m : M (nodeState S) goerr A) : keeps same_node_locks m → neutral (Do w m Done).
Proof. done. Qed.

Lemma neutral_or_fails {T : Type} c msg (r : result goerr T) : neutral (or_fails c msg r : program S T).
Proof. by destruct r. Qed.

Lemma idle_lock {T : Type} t busy (p : program S T) : neutral p → idle (with_lock_on t busy p).
Proof.
  intros Hp. right. split; [done|]. exists t.
  split; intros s Ht; unfold node_TryAcquire, VolumeLocks.TryAcquire, state_after, result_in; [rewrite decide_True by done; done|].
  rewrite decide_False by done. split; [done|]. by exists p.
Qed.

(** *** Walking the programs *)
#[local] Hint Resolve neutral_call neutral_or_fails neutral_idle : locks.

Ltac locks_step :=
  lazymatch goal with
  | |- neutral (mbind _ _) => apply neutral_bind; [|intros ?]
  | |- neutral (try _) => apply neutral_try
  | |- neutral (match ?x with _ => _ end) => destruct x
  | |- idle (with_lock_on _ _ _) => apply idle_lock
  | |- idle (mbind _ _) => apply idle_bind; [|intros ?]
  | |- idle (match ?x with _ => _ end) => destruct x
  | |- neutral (call _) => apply neutral_call
  | |- neutral (section _ _) => apply neutral_call
  end.
Ltac locks_tac := repeat first [locks_step | solve [eauto with locks] | done].

Lemma neutral_unmountPath t : neutral (unmountPath_code t : program S ()).
Proof. unfold unmountPath_code, removeDir_code. locks_tac. Qed.
Lemma neutral_makeDir t : neutral (makeDir_code t : program S ()).
Proof. unfold makeDir_code. locks_tac. Qed.
Lemma neutral_isMounted t : neutral (isMounted_code t : program S bool).
Proof. unfold isMounted_code, pathExists_code. locks_tac. Qed.
Lemma neutral_ownership t g ro : neutral (setVolumeOwnershipTopLevel_code t g ro : program S ()).
Proof. unfold setVolumeOwnershipTopLevel_code. locks_tac. Qed.
Lemma neutral_clean_up_refs uid matches : neutral (clean_up_refs_code uid matches : program S (list goerr)).
Proof. induction matches; cbn [clean_up_refs_code]; locks_tac. Qed.
#[local] Hint Resolve neutral_unmountPath neutral_makeDir neutral_isMounted neutral_ownership neutral_clean_up_refs : locks.

Lemma idle_request r : idle (code_of driver r : program S ()).
Proof.
  destruct r as [req|id t|req|t|id p]; cbn [code_of].
  - unfold NodeStageVolume_code, hasMountWithSameFSName_code. locks_tac.
  - unfold NodeUnstageVolume_code. locks_tac.
  - unfold NodePublishVolume_code. locks_tac.
  - unfold NodeUnpublishVolume_code, cleanUpIAMReference_code. locks_tac.
  - unfold NodeGetVolumeStats_code, getFSStat_code. locks_tac.
Qed.

(** *** What a program does to the locks when it runs on its own *)
Lemma released_gone {T : Type} t (q : program S T) s : t ∉ nodeLocks (state_after (run_alone (then_release t q)) s).
Proof.
  revert s. induction q as [r|w A m k IH]; intros s; cbn; [unfold VolumeLocks.Release; set_solver|].
  unfold state_after in *. destruct (m s) as [r s1]. apply IH.
Qed.

Lemma released_only {T : Type} t (q : program S T) s :
  neutral q → nodeLocks (state_after (run_alone (then_release t q)) s) = nodeLocks s ∖ {[t]}.
Proof.
  revert s. induction q as [r|w A m k IH]; intros s; cbn; [done|]. intros [Hm Hk]. specialize (Hm s).
  unfold state_after, same_node_locks in *. destruct (m s) as [r s1]. cbn in *. by rewrite IH, Hm.
Qed.

Lemma idle_balanced {T : Type} (p : program S T) s : idle p → nodeLocks (state_after (run_alone p) s) = nodeLocks s.
Proof.
  revert s. induction p as [r|w A m k IH]; intros s; cbn; [done|]. intros [[Hm Hk]|(_ & t & Hbusy & Hfree)].
  - specialize (Hm s). unfold state_after, same_node_locks in *. destruct (m s) as [r s1]. cbn in *. by rewrite IH.
  - destruct (decide (t ∈ nodeLocks s)) as [Ht|Ht].
    + destruct (Hbusy s Ht) as [Hm Hi]. unfold state_after, result_in in *. destruct (m s) as [r s1]. cbn in *. by rewrite IH.
    + destruct (Hfree s Ht) as (Hm & q & Hq & Hk). pose proof (λ s1, released_only t q s1 Hq) as Hr.
      unfold state_after, result_in in *. destruct (m s) as [r s1]. cbn in *. rewrite Hk, Hr, Hm. set_solver.
Qed.

(** ** The handlers of the pool *)

(** A handler holds the lock of [t] if the last thing it has to do is to give it back. *)
Definition holds (t : string) (q : program S ()) : Prop := ∃ q', q = then_release t q'.

(** A thread holds the lock of a target, or none. *)
Definition stands (l : option string) (q : program S ()) : Prop :=
  match l with
  | None => idle q
  | Some t => ∃ q', neutral q' ∧ q = then_release t q'
  end.

Lemma idle_holds_none t q s : idle q → ¬ holds t q.
Proof.
  intros Hi [q' ->]. apply (released_gone t q' (holding t s)). rewrite idle_balanced by done. cbn. set_solver.
Qed.

Lemma stands_holds t l q s : stands l q → holds t q ↔ l = Some t.
Proof.
  destruct l as [t'|]; cbn; intros Hq.
  - destruct Hq as (q' & Hq' & ->). split; [|intros [= ->]; by eexists]. intros [q'' E].
    pose proof (released_gone t q'' (holding t s)) as Hg. rewrite <-E, released_only in Hg by done. cbn in Hg.
    destruct (decide (t' = t)) as [->|Hne]; [done|]. exfalso. apply Hg. clear -Hne. set_solver.
  - split; [|done]. intros Hh. by apply idle_holds_none in Hh.
Qed.

(** Which lock each thread holds. *)
Record locks_held (ls : list (option string)) (p : pool S) : Prop := {
  held_stands : Forall2 (λ l rq, stands l rq.2) ls (threads p);
  held_once i j t : ls !! i = Some (Some t) → ls !! j = Some (Some t) → i = j;
  held_locks t : t ∈ nodeLocks (node p) ↔ ∃ i, ls !! i = Some (Some t);
}.

(** A step of a program: its next call, made or refused. *)
Definition makes (q : program S ()) s : option (program S () * nodeState S) :=
  match q with Done _ => None | Do _ m k => let '(x, s') := m s in Some (k x, s') end.
Definition is_refused (q : program S ()) s : option (program S ()) :=
  match q with
  | Do w m k => match work_key w with Some key => Some (k (result_in m (holding key s))) | None => None end
  | Done _ => None
  end.

(** The lock that a thread holds after its call. *)
Definition moves (l l' : option string) s s' : Prop :=
  match l, l' with
  | None, Some t => t ∉ nodeLocks s ∧ nodeLocks s' = {[t]} ∪ nodeLocks s
  | Some t, None => nodeLocks s' = nodeLocks s ∖ {[t]}
  | _, _ => l' = l ∧ nodeLocks s' = nodeLocks s
  end.

Lemma stands_makes l q s q' s' : stands l q → makes q s = Some (q', s') → ∃ l', stands l' q' ∧ moves l l' s s'.
Proof.
  destruct l as [t|]; cbn.
  - intros (q0 & Hq0 & ->). destruct q0 as [r|w A m k]; cbn; [intros [= <- <-]; by exists None|].
    destruct Hq0 as [Hm Hk]. specialize (Hm s). unfold same_node_locks, state_after in Hm. destruct (m s) as [x s1].
    intros [= <- <-]. exists (Some t). split; [by exists (k x)|done].
  - destruct q as [r|w A m k]; cbn; [done|]. intros [[Hm Hk]|(_ & t & Hbusy & Hfree)].
    + specialize (Hm s). unfold same_node_locks, state_after in Hm. destruct (m s) as [x s1].
      intros [= <- <-]. exists None. split; [apply Hk|done].
    + specialize (Hbusy s). specialize (Hfree s). unfold state_after, result_in in *. destruct (m s) as [x s1]. cbn in *.
      intros [= <- <-]. destruct (decide (t ∈ nodeLocks s)) as [Ht|Ht].
      * destruct (Hbusy Ht) as [Hm Hi]. exists None. by split.
      * destruct (Hfree Ht) as [Hm Hi]. exists (Some t). by split.
Qed.

Lemma stands_refused l q s q' : stands l q → is_refused q s = Some q' → stands l q'.
Proof.
  destruct l as [t|]; cbn.
  - intros (q0 & Hq0 & ->). destruct q0 as [r|w A m k]; cbn; [done|]. destruct Hq0 as [_ Hk]. destruct (work_key w); [|done].
    intros [= <-]. by eexists.
  - destruct q as [r|w A m k]; cbn; [done|]. intros [[_ Hk]|[-> _]]; [|done]. destruct (work_key w); [|done]. by intros [= <-].
Qed.

Lemma held_step (ls : list (option string)) (i : nat) l l' s s' :
  ls !! i = Some l → moves l l' s s' →
  (∀ (i j : nat) t, ls !! i = Some (Some t) → ls !! j = Some (Some t) → i = j) →
  (∀ t, t ∈ nodeLocks s ↔ ∃ i : nat, ls !! i = Some (Some t)) →
  (∀ (j k : nat) t, <[i := l']> ls !! j = Some (Some t) → <[i := l']> ls !! k = Some (Some t) → j = k) ∧
  (∀ t, t ∈ nodeLocks s' ↔ ∃ j : nat, <[i := l']> ls !! j = Some (Some t)).
Proof.
  intros Hi Hm Ho Hl.
  assert (∀ (j : nat) t, <[i := l']> ls !! j = Some (Some t) ↔ (j = i ∧ l' = Some t) ∨ (j ≠ i ∧ ls !! j = Some (Some t))) as Hj.
  { intros j t. rewrite list_lookup_insert_Some. apply lookup_lt_Some in Hi. naive_solver. }
  split.
  - intros j k t [[-> ->]|[Hji Hj']]%Hj [[-> Hk]|[Hki Hk']]%Hj; [done|..|by eapply Ho].
    + destruct l as [t'|]; cbn in Hm; [destruct Hm as [[= ->] _]; by eapply Ho|].
      destruct Hm as [Ht _]. exfalso. apply Ht, Hl. by exists k.
    + subst l'. destruct l as [t'|]; cbn in Hm; [destruct Hm as [[= ->] _]; by eapply Ho|].
      destruct Hm as [Ht _]. exfalso. apply Ht, Hl. by exists j.
  - intros t. setoid_rewrite Hj. destruct l as [t1|], l' as [t2|]; cbn in Hm.
    + destruct Hm as [[= ->] ->]. rewrite Hl. split; [|naive_solver]. intros [j Hjt]. exists j. destruct (decide (j = i)); naive_solver.
    + rewrite Hm, elem_of_difference, elem_of_singleton, Hl. split; [|naive_solver].
      intros [[j Hjt] Hne]. exists j. right. split; [|done]. intros ->. naive_solver.
    + destruct Hm as [_ ->]. rewrite elem_of_union, elem_of_singleton, Hl. split; [|naive_solver].
      intros [->|[j Hjt]]; [exists i; by left|]. exists j. right. split; [|done]. intros ->. naive_solver.
    + destruct Hm as [_ ->]. rewrite Hl. split; [|naive_solver]. intros [j Hjt]. exists j. right. split; [|done]. intros ->. naive_solver.
Qed.

Lemma step_locks admits e p p' ls : pool_step driver admits e p p' → locks_held ls p → ∃ ls', locks_held ls' p'.
Proof.
  intros Hs [Hf Ho Hl]. destruct Hs as [r ts s Hr|i r w A m k ts s x s' Hi Hm|i r w A m k ts s key Hi Hw]; cbn in *.
  - exists (ls ++ [None]). split; cbn; [apply Forall2_app; [done|]; constructor; [apply idle_request|constructor]|..].
    + intros i j t Hi Hj. apply lookup_snoc_Some in Hi as [[_ Hi]|[_ [=]]]. apply lookup_snoc_Some in Hj as [[_ Hj]|[_ [=]]]. eauto.
    + intros t. rewrite Hl. split; intros [i Hi]; exists i; [by apply lookup_app_l_Some|].
      by apply lookup_snoc_Some in Hi as [[_ ?]|[_ [=]]].
  - destruct (Forall2_lookup_r _ _ _ _ _ Hf Hi) as (l & Hli & Hst). cbn [snd] in Hst.
    destruct (stands_makes l _ s (k x) s' Hst) as (l' & Hl' & Hmv); [cbn; by rewrite Hm|].
    destruct (held_step ls i l l' s s' Hli Hmv Ho Hl) as [Ho' Hl'']. exists (<[i := l']> ls). split; cbn; [|done..].
    by apply Forall2_insert.
  - destruct (Forall2_lookup_r _ _ _ _ _ Hf Hi) as (l & Hli & Hst). cbn [snd] in Hst.
    exists ls. split; cbn; [|done..]. rewrite <-(list_insert_id ls i l Hli). apply Forall2_insert; [done|].
    apply (stands_refused l _ s _ Hst). cbn. by rewrite Hw.
Qed.

Lemma run_locks admits es p p' ls : pool_run driver admits es p p' → locks_held ls p → ∃ ls', locks_held ls' p'.
Proof.
  intros Hr Hls. induction Hr as [p|es e p1 p2 p3 Hr IH Hs]; [by exists ls|].
  destruct IH as [ls' Hls']; [done|]. by eapply step_locks.
Qed.

(** Claim C22.  However the handlers of a node interleave, whatever the requests and whatever fails: no two handlers hold the
    lock of a target path at a time, and the locks that are taken are those of handlers that still have to give them
    back, so that none is left when all handlers have returned. *)
Theorem targets_exclusive admits es s p :
  nodeLocks s = ∅ → pool_run driver admits es (start s) p →
  (∀ i j t ri rj qi qj, threads p !! i = Some (ri, qi) → threads p !! j = Some (rj, qj) → holds t qi → holds t qj → i = j) ∧
  (∀ t, t ∈ nodeLocks (node p) ↔ ∃ i r q, threads p !! i = Some (r, q) ∧ holds t q) ∧
  (Forall (λ rq, finished rq.2 = true) (threads p) → nodeLocks (node p) = ∅).
Proof.
  intros Hs Hr. destruct (run_locks admits es (start s) p [] Hr) as [ls [Hf Ho Hl]].
  { split; cbn; [constructor|done|]. intros t. rewrite Hs. split; [set_solver|]. by intros [i ?]. }
  assert (∀ i r q t, threads p !! i = Some (r, q) → holds t q ↔ ls !! i = Some (Some t)) as Hh.
  { intros i r q t Hi. destruct (Forall2_lookup_r _ _ _ _ _ Hf Hi) as (l & Hli & Hst). rewrite (stands_holds t l q s Hst), Hli. naive_solver. }
  assert (∀ t, t ∈ nodeLocks (node p) ↔ ∃ i r q, threads p !! i = Some (r, q) ∧ holds t q) as Hlocks.
  { intros t. rewrite Hl. split.
    - intros [i Hi]. destruct (Forall2_lookup_l _ _ _ _ _ Hf Hi) as ([r q] & Hq & _). exists i, r, q. split; [done|]. by eapply Hh.
    - intros (i & r & q & Hq & Ht). exists i. by eapply Hh. }
  split_and!; [|done|].
  - intros i j t ri rj qi qj Hi Hj Hti Htj. apply (Ho i j t); by eapply Hh.
  - intros Hdone. apply set_eq. intros t. rewrite Hlocks. split; [|set_solver]. intros (i & r & q & Hq & q' & ->).
    rewrite Forall_lookup in Hdone. specialize (Hdone _ _ Hq). by destruct q'.
Qed.
End locks.

(** Two publications at one target: the second one is refused while the first one is at work, and in the end all is given back. *)
Definition rivals : pool host_state := arrive node_driver [Publish pub1; Publish pub1] (start fresh_node).
Definition contended : list event * pool host_state := schedule [0; 0; 1]%nat rivals.
Definition settled_rivals : list event * pool host_state := schedule (replicate 60 0%nat) contended.2.

Example rival_refused :
  (λ rq : request * program host_state (), match rq.2 with Done r => Some r | _ => None end) <$> (threads contended.2 !! 1%nat) =
  Some (Some (Err (aborted (PubTargetPath pub1)))).
Proof. vm_compute. reflexivity. Qed.

Lemma rivals_run : pool_run node_driver (λ _, True) (replicate 2 Rests ++ contended.1) (start fresh_node) contended.2.
Proof.
  refine (pool_run_trans _ _ _ _ _ _ _ (arrive_run node_driver _ [Publish pub1; Publish pub1] _ _) (schedule_run _ _ _ rivals)).
  by repeat constructor.
Qed.

Lemma targets_exclusive_witness :
  PubTargetPath pub1 ∈ nodeLocks (node contended.2) ∧
  (∃ i r q, threads contended.2 !! i = Some (r, q) ∧ holds (PubTargetPath pub1) q) ∧
  nodeLocks (node settled_rivals.2) = ∅.
Proof.
  assert (PubTargetPath pub1 ∈ nodeLocks (node contended.2)) as Hin by decided.
  split; [exact Hin|]. split.
  - apply (proj1 (proj2 (targets_exclusive node_driver _ _ fresh_node contended.2 eq_refl rivals_run)) (PubTargetPath pub1)). exact Hin.
  - refine (proj2 (proj2 (targets_exclusive node_driver _ _ fresh_node settled_rivals.2 eq_refl
      (pool_run_trans _ _ _ _ _ _ _ rivals_run (schedule_run _ _ _ contended.2)))) _).
    decided.
Defined.
