(* ===== verification/NodeBook.v ===== *)
(** * What the node promises of the references of pods

    A specification of the bookkeeping of IAM volumes that knows no files and no calls: which pods have a reference
    to which key, and which keys have a token and a mount.  The node server implements it, whatever requests arrive, however
    their handlers interleave and whatever fails, so what holds of the specification holds of the node. *)
From stdpp Require Import relations.
From S2P Require Import Prelude GoStr Regex GoErr Util Instance Params Csi Driver Network NetworkSpec Sha256 Json FS Node NodeHost NodeFrame NodeSpec NodeSteps NodePool.

Local Open Scope string_scope.
Local Open Scope list_scope.
Local Open Scope Z_scope.

(** ** The specification *)
Record book : Type := MkBook {
  has_ref : string → string → Prop;   (* key, UID of a pod *)
  token_of : string → Prop;           (* the key has a token *)
  live : string → Prop;               (* and its filesystem is mounted *)
}.
Implicit Types b : book.

(** All references but one stay as they are, and the other keys keep what they have. *)
Definition others_kept (key uid : string) b b' : Prop :=
  (∀ k u, (k, u) ≠ (key, uid) → has_ref b' k u ↔ has_ref b k u) ∧
  (∀ k, k ≠ key → token_of b k → token_of b' k) ∧ (∀ k, k ≠ key → live b k → live b' k).

(** A key with references keeps [P]. *)
Definition keeps_while_referred (P : book → string → Prop) (key : string) b b' : Prop :=
  (∀ u, has_ref b key u → P b key) → ∀ u, has_ref b' key u → P b' key.

(** A publication may add or take back the reference of its pod.  If it succeeds the key is live, if it fails a key with
    references is as live as before, unless the publication has lost the mount.  A cleanup may take the reference of its pod, and
    what the key has only with the last reference. *)
Definition book_step (e : event) b b' : Prop :=
  match e with
  | Rests => (∀ k u, has_ref b' k u ↔ has_ref b k u) ∧ (∀ k, token_of b k → token_of b' k) ∧ ∀ k, live b k → live b' k
  | Published key uid => others_kept key uid b b' ∧ token_of b' key ∧ live b' key
  | Failed key uid =>
      others_kept key uid b b' ∧ keeps_while_referred token_of key b b' ∧
      ((∀ u, has_ref b key u → token_of b key) → keeps_while_referred live key b b')
  | Lost key uid => others_kept key uid b b' ∧ keeps_while_referred token_of key b b'
  | Cleaned key uid =>
      others_kept key uid b b' ∧ (has_ref b' key uid → has_ref b key uid) ∧
      keeps_while_referred token_of key b b' ∧
      ((∀ u, has_ref b key u → token_of b key) → keeps_while_referred live key b b')
  end.

(** Steps in the order of the events. *)
Inductive book_run : list event → relation book :=
| book_stays b : book_run [] b b
| book_goes es e b1 b2 b3 : book_run es b1 b2 → book_step e b2 b3 → book_run (es ++ [e]) b1 b3.

(** Who has a reference has a token, and a mount unless it has been lost. *)
Definition consistent (lost : gset string) b : Prop :=
  ∀ k u, has_ref b k u → token_of b k ∧ (k ∉ lost → live b k).

Lemma book_step_consistent e b b' lost : book_step e b b' → consistent lost b → consistent (lose lost e) b'.
Proof.
  intros Hs Hb k u Hu.
  assert (∀ key uid, k ≠ key → others_kept key uid b b' → has_ref b k u ∧ (token_of b k → token_of b' k) ∧ (live b k → live b' k)) as Hother.
  { intros key uid Hk (Hr & Ht & Hl). split_and!; [apply Hr; [congruence|done]|auto..]. }
  destruct e as [|key uid|key uid|key uid|key uid]; cbn in Hs |- *.
  - destruct Hs as (Hr & Ht & Hl). apply Hr in Hu. destruct (Hb k u Hu). auto.
  - destruct Hs as (Ho & Ht & Hl). destruct (decide (k = key)) as [->|Hk]; [by split|].
    destruct (Hother _ _ Hk Ho) as (Hu' & Ht' & Hl'). destruct (Hb k u Hu') as [? Hlive]. split; [auto|].
    intros Hlost. apply Hl', Hlive. set_solver.
  - destruct Hs as (Ho & Ht & Hl). destruct (decide (k = key)) as [->|Hk].
    + split; [apply (Ht (λ u Hu, proj1 (Hb key u Hu)) u Hu)|]. intros Hlost.
      apply (Hl (λ u Hu, proj1 (Hb key u Hu)) (λ u Hu, proj2 (Hb key u Hu) Hlost) u Hu).
    + destruct (Hother _ _ Hk Ho) as (Hu' & Ht' & Hl'). destruct (Hb k u Hu'). auto.
  - destruct Hs as (Ho & Ht). destruct (decide (k = key)) as [->|Hk].
    + split; [apply (Ht (λ u Hu, proj1 (Hb key u Hu)) u Hu)|set_solver].
    + destruct (Hother _ _ Hk Ho) as (Hu' & Ht' & Hl'). destruct (Hb k u Hu') as [? Hlive]. split; [auto|].
      intros Hlost. apply Hl', Hlive. set_solver.
  - destruct Hs as (Ho & _ & Ht & Hl). destruct (decide (k = key)) as [->|Hk].
    + split; [apply (Ht (λ u Hu, proj1 (Hb key u Hu)) u Hu)|]. intros Hlost.
      apply (Hl (λ u Hu, proj1 (Hb key u Hu)) (λ u Hu, proj2 (Hb key u Hu) Hlost) u Hu).
    + destruct (Hother _ _ Hk Ho) as (Hu' & Ht' & Hl'). destruct (Hb k u Hu'). auto.
Qed.

(** A pod's reference under a key is the pod's own business. *)
Lemma book_step_owner e b b' k u : book_step e b b' → ¬ concerns e k u → has_ref b k u → has_ref b' k u.
Proof.
  intros Hs Hc Hu. assert (∀ key uid, ¬ (key = k ∧ uid = u) → others_kept key uid b b' → has_ref b' k u) as Ho.
  { intros key uid Hne (Hr & _). apply Hr; [naive_solver|done]. }
  destruct e as [|key uid|key uid|key uid|key uid]; cbn in Hs, Hc; [by apply Hs|by eapply Ho, Hs..].
Qed.

Lemma book_run_owner es b b' k u lost :
  book_run es b b' → (∀ e, e ∈ es → ¬ concerns e k u) → consistent lost b → has_ref b k u →
  has_ref b' k u ∧ token_of b' k ∧ (k ∉ foldl lose lost es → live b' k).
Proof.
  intros Hr Hc Hb Hu. assert (consistent (foldl lose lost es) b' ∧ has_ref b' k u) as [Hb' Hu'].
  - induction Hr as [b|es e b1 b2 b3 Hr IH Hs]; [done|]. destruct IH as [Hb2 Hu2]; [set_solver|done..|].
    rewrite foldl_snoc. split; [by eapply book_step_consistent|]. eapply book_step_owner; [done|apply Hc; set_solver|done].
  - split; [done|]. by apply (Hb' k u).
Qed.

(** ** The node implements it *)
Section book.
Context {S : Type} `{GlobalMountLaws S} `{MapRange}.
Context (driver : LustreDriver).
Implicit Types s : nodeState S.

Definition book_of s : book := {|
  has_ref key uid := bare key ∧ has_reference key uid s;
  token_of key := bare key ∧ has_token key s;
  live key := bare key ∧ served key s;
|}.

(** Where a frame covers the references, they stay; likewise for tokens and mounts. *)
Lemma frame_has_ref (Q : path → Prop) K s s' k u :
  frame Q K s s' → Q (mount_root ++ [k; "refs"; u]) → has_ref (book_of s') k u ↔ has_ref (book_of s) k u.
Proof. intros [T _] Hq. cbn. unfold has_reference. by rewrite T. Qed.

Lemma frame_token_of (Q : path → Prop) K s s' k :
  frame Q K s s' → (bare k → Q (mount_root ++ [k; "token"]) ∧ K k) →
  (token_of (book_of s) k → token_of (book_of s') k) ∧ (live (book_of s) k → live (book_of s') k).
Proof.
  intros Hf Hq. split; intros [Hk Hs]; (split; [done|]); destruct (Hq Hk); [by eapply frame_token|by eapply frame_served].
Qed.

Lemma beside_others key uid s s' : beside key uid s s' → others_kept key uid (book_of s) (book_of s').
Proof.
  intros Hf. assert (∀ k, k ≠ key → bare k → theirs key uid (mount_root ++ [k; "token"]) ∧ bare k ∧ k ≠ key) as Hq.
  { intros k Hne Hb. split; [|done]. left. by exists k, ["token"]. }
  split_and!; [|intros k Hne; by eapply frame_token_of in Hf as [? _]; [|by apply Hq]|
    intros k Hne; by eapply frame_token_of in Hf as [_ ?]; [|by apply Hq]].
  intros k u Hne. eapply frame_has_ref; [exact Hf|]. destruct (decide (k = key)) as [->|Hkey].
  - right. exists u. split; [congruence|done].
  - left. by exists k, ["refs"; u].
Qed.

(** What is kept of the key. *)
Lemma kept_referred F key s s' :
  bare key → (kept F key s → kept F key s') → kept F key s →
  (∀ u, has_ref (book_of s') key u → token_of (book_of s') key) ∧ (F → ∀ u, has_ref (book_of s') key u → live (book_of s') key).
Proof.
  intros Hk Hkept Hs. destruct (Hkept Hs) as [Ht Hl].
  split; [intros u [_ Hu]|intros HF u [_ Hu]]; (split; [done|]); [apply Ht|apply Hl]; by try exists u.
Qed.

Lemma book_tokened key s : bare key → (∀ u, has_ref (book_of s) key u → token_of (book_of s) key) → tokened key s.
Proof. intros Hk Ht [u Hu]. by apply (Ht u). Qed.

Lemma book_promise key s : bare key → (∀ u, has_ref (book_of s) key u → live (book_of s) key) → promise key s.
Proof. intros Hk Ht [u Hu]. by apply (Ht u). Qed.

Lemma effect_book e s s' : effect e s s' → book_step e (book_of s) (book_of s').
Proof.
  intros He.
  assert (∀ key, bare key → (∀ F, kept F key s → kept F key s') →
    keeps_while_referred token_of key (book_of s) (book_of s') ∧
    ((∀ u, has_ref (book_of s) key u → token_of (book_of s) key) → keeps_while_referred live key (book_of s) (book_of s'))) as Hfail.
  { intros key Hk Hkept. split.
    - intros Ht. apply (kept_referred False key s s' Hk (Hkept False)). split; [by apply book_tokened|done].
    - intros Ht Hl. apply (kept_referred True key s s' Hk (Hkept True)); [|done]. split; [by apply book_tokened|].
      intros _. by apply book_promise. }
  destruct e as [|key uid|key uid|key uid|key uid]; cbn [effect book_step] in *.
  - assert (∀ k l, below mount_root (mount_root ++ k :: l) = true) as Hb by (intros; apply below_spec; eauto).
    split_and!; [intros k u; by eapply frame_has_ref|intros k..]; (eapply frame_token_of; [exact He|]; by split).
  - destruct He as (Hk & Hb & Hm & _). split_and!; [by apply beside_others|split; [done|apply Hm]|by split].
  - destruct He as (Hk & Hb & Hkept). split; [by apply beside_others|by apply Hfail].
  - destruct He as (Hk & Hb & Hkept). split; [by apply beside_others|].
    intros Ht u [_ Hu]. split; [done|]. apply Hkept; [by apply book_tokened|by exists u].
  - destruct He as (Hk & He & Hkept & Hd & Hothers).
    assert (∀ k u, has_ref (book_of s') k u → has_ref (book_of s) k u) as Hless.
    { intros k u [? [n Hr]]. split; [done|]. exists n. by eapply lookup_weaken. }
    assert (∀ k, k ≠ key → bare k → foreign key (mount_root ++ [k; "token"]) ∧ bare k ∧ k ≠ key) as Hq.
    { intros k Hne Hb. split; [by exists k, ["token"]|done]. }
    split_and!; [split_and!|apply Hless|by apply Hfail..].
    + intros k u Hne. split; [apply Hless|]. destruct (decide (k = key)) as [->|Hkey].
      * intros [_ Hu]. split; [done|]. apply Hothers; [congruence|done].
      * eapply frame_has_ref; [exact He|]. by exists k, ["refs"; u].
    + intros k Hne. eapply frame_token_of; [exact He|by apply Hq].
    + intros k Hne. eapply frame_token_of; [exact He|by apply Hq].
Qed.

Lemma pool_book admits es p p' :
  (∀ r, admits r → proper r) → pool_run driver admits es p p' → pool_inv admits p →
  book_run es (book_of (node p)) (book_of (node p')) ∧
  ∀ e key uid, e ∈ es → concerns e key uid → ∃ r, admits r ∧ works_on r key uid.
Proof.
  intros Hproper Hr Hp. induction Hr as [p|es e p1 p2 p3 Hr IH Hs]; [split; [constructor|intros ??? He; by apply elem_of_nil in He]|].
  destruct (IH Hp) as [Hb Hc]. pose proof (run_inv driver admits es p1 p2 Hproper Hr Hp) as Hp2.
  destruct (step_effect driver admits e p2 p3 Hproper Hs Hp2) as (_ & He & Hc').
  split; [econstructor; [exact Hb|by apply effect_book]|].
  intros e' key uid [He'|He']%elem_of_app; [by eapply Hc|]. apply list_elem_of_singleton in He' as ->. apply Hc'.
Qed.

(** Claim C7.  The node server implements the specification of the bookkeeping: whatever requests arrive, however the calls of
    their handlers interleave and whatever fails, the references, tokens and mounts of the node go through a run of
    the specification, and every event of it that concerns a pod's reference under a key is the work of a request that may work
    on it. *)
Theorem node_implements_book admits s es p :
  (∀ r, admits r → proper r) → keys_bare (tree_of s) → pool_run driver admits es (start s) p →
  book_run es (book_of s) (book_of (node p)) ∧
  ∀ e key uid, e ∈ es → concerns e key uid → ∃ r, admits r ∧ works_on r key uid.
Proof. intros Hproper Hs Hr. apply (pool_book admits es (start s) p Hproper Hr). by apply start_inv. Qed.

(** Claim C8.  A published volume stays.  Once a pod has its reference to a key, no request but the publications of this very volume
    for this very pod and the unpublications of this pod, of any volume, takes from it the reference, the token and
    the mount at the global path, whatever handlers run at the time, however they interleave and whatever fails; unless
    a publication under the key has found the global path unreadable and failed, with none successful since. *)
Theorem published_volume_stays key uid s es1 p1 es2 p2 :
  node_inv s → bare key → pool_run driver proper es1 (start s) p1 →
  is_Some (tree_of (node p1) !! (mount_root ++ [key; "refs"; uid])) →
  (∀ r q, (r, q) ∈ threads p1 → finished q = false → ¬ works_on r key uid) →
  pool_run driver (λ r, proper r ∧ ¬ works_on r key uid) es2 p1 p2 →
  is_Some (tree_of (node p2) !! (mount_root ++ [key; "refs"; uid])) ∧
  (∃ token a, tree_of (node p2) !! (mount_root ++ [key; "token"]) = Some (File token a)) ∧
  (key ∉ losses (es1 ++ es2) → mounted (nodeHost (node p2)) (globalMountPath key)).
Proof.
  intros Hs Hk Hr1 Hu Hthreads Hr2.
  pose proof (run_inv driver proper es1 _ _ (λ _ H, H) Hr1 (start_inv proper s (node_keys _ Hs))) as Hp1.
  assert (pool_inv (λ r, proper r ∧ ¬ works_on r key uid) p1) as Hp1'.
  { split; [exact (inv_keys _ _ Hp1)|]. intros r q Hq Hf. destruct (inv_threads _ _ Hp1 r q Hq Hf) as [Hpr Ha]. split; [|exact Ha]. split; [exact Hpr|]. by apply (Hthreads r q). }
  destruct (pool_book _ es2 p1 p2 (λ _ H, proj1 H) Hr2 Hp1') as [Hb Hc].
  assert (consistent (losses es1) (book_of (node p1))) as Hcons.
  { intros k u [Hbk Hku]. destruct (run_kept driver proper es1 (start s) p1 k (λ _ H, H) Hr1) as [Ht Hm];
      [by apply start_inv, Hs|done|by apply Hs|]. split; [|intros Hlost]; (split; [done|]); [apply Ht|apply (Hm Hlost)]; by exists u. }
  destruct (book_run_owner es2 _ _ key uid (losses es1) Hb) as ([_ Hu2] & [_ Ht2] & Hl2).
  - intros e He Hce. by destruct (Hc e key uid He Hce) as (r & [_ Hn] & Hw).
  - exact Hcons.
  - by split.
  - split_and!; [done|done|]. intros Hlost. apply Hl2. unfold losses in Hlost. by rewrite foldl_app in Hlost.
Qed.
End book.

(** ** On the node in memory *)
Lemma node_implements_book_witness :
  book_run events1 (book_of fresh_node) (book_of (node after1.2)) ∧ has_ref (book_of (node after1.2)) pub_key "pod1".
Proof.
  split; [|split; decided].
  exact (proj1 (node_implements_book node_driver proper fresh_node events1 after1.2 (λ _ H, H) (node_keys _ fresh_inv) run1)).
Defined.

(** A second pod publishes and goes again. *)
Definition pool3 : pool host_state := arrive node_driver [Publish pub2] after1.2.
Definition after3 : list event * pool host_state := schedule (replicate 60 1%nat) pool3.
Definition pool4 : pool host_state := arrive node_driver [Unpublish (target_of "pod2" "v")] after3.2.
Definition after4 : list event * pool host_state := schedule (replicate 60 2%nat) pool4.
Definition events4 : list event := (replicate 1 Rests ++ after3.1) ++ (replicate 1 Rests ++ after4.1).

Lemma run4 (admits : request → Prop) :
  admits (Publish pub2) → admits (Unpublish (target_of "pod2" "v")) → pool_run node_driver admits events4 after1.2 after4.2.
Proof.
  intros H1 H2. apply (pool_run_trans _ _ _ _ _ after3.2).
  - refine (pool_run_trans _ _ _ _ _ _ _ (arrive_run node_driver admits _ _ _) (schedule_run _ _ _ pool3)). by apply Forall_singleton.
  - refine (pool_run_trans _ _ _ _ _ _ _ (arrive_run node_driver admits _ _ _) (schedule_run _ _ _ pool4)). by apply Forall_singleton.
Qed.

Lemma published_volume_stays_witness :
  is_Some (tree_of (node after1.2) !! (mount_root ++ [pub_key; "refs"; "pod1"])) ∧
  is_Some (tree_of (node after4.2) !! (mount_root ++ [pub_key; "refs"; "pod1"])) ∧
  mounted (nodeHost (node after4.2)) (globalMountPath pub_key).
Proof.
  assert (is_Some (tree_of (node after1.2) !! (mount_root ++ [pub_key; "refs"; "pod1"]))) as Hr by decided.
  split; [exact Hr|].
  destruct (published_volume_stays node_driver pub_key "pod1" fresh_node events1 after1.2 events4 after4.2 fresh_inv) as (Hr' & _ & Hm).
  - decided.
  - exact run1.
  - exact Hr.
  - intros r q Hq Hf. assert (Forall (λ t, finished t.2 = true) (threads after1.2)) as Hall by decided.
    rewrite Forall_forall in Hall. apply Hall in Hq. cbn in Hq. congruence.
  - apply run4.
    + split; [exact pub2_proper|]. intros (vc & Hvc & Huid & _). revert Huid.
      assert (match normalizeVolumeContext (PubContext pub2) with
        | Ok vc => bool_decide (get vc (normalize keyPodUID) = "pod1") | Err _ => false end = false) as Hne by (vm_compute; reflexivity).
      rewrite Hvc in Hne. by apply bool_decide_eq_false in Hne.
    + split; [|vm_compute; congruence]. split; [vm_compute; reflexivity|]. intros uid. vm_compute. intros [= <-]. decided.
  - split; [exact Hr'|]. apply Hm. decided.
Defined.
