(* ===== verification/NodeRelease.v ===== *)
(** * What unpublishing gives back

    A successful unpublication on a node whose calls are served takes all references of the pod away, and
    what no other pod refers to is unmounted and removed. *)
From S2P Require Import Prelude GoStr Regex GoErr Util Instance Params Csi Driver Network NetworkSpec Sha256 Json FS Node NodeHost NodeFrame NodeSpec NodeTree NodeSteps.

Local Open Scope string_scope.
Local Open Scope list_scope.
Local Open Scope Z_scope.

(** ** The search for references finds them all *)

Lemma not_sep_chars s : has_char "/" s = false → all_chars not_sep s = true.
Proof.
  induction s as [|a s IH]; cbn; [done|]. rewrite orb_false_iff, bool_decide_eq_false. intros [Ha Hs].
  rewrite IH by done. unfold not_sep. by rewrite bool_decide_true.
Qed.

(** A star matches every name. *)
Lemma glob_match_star n : has_char "/" n = false → glob_match "*" n = true.
Proof.
  intros Hn. unfold glob_match. cbn [String.length glob_regex]. apply match_string_anchored.
  exists (MState (bool_decide (n = "")) "" ∅). split; [|done].
  apply rmatch_seq. eexists. split; [|constructor]. apply rmatch_class_star. exists n. split; [by apply not_sep_chars|].
  unfold eat. cbn. by rewrite app_nil_r_str.
Qed.

Lemma glob_dirs_complete t patterns ns dirs d :
  d ∈ dirs → Forall2 (λ pattern n, glob_match pattern n = true) patterns ns →
  (∀ l n r, ns = l ++ n :: r → is_dir (look t (d ++ l)) = true ∧ is_Some (t !! (d ++ l ++ [n]))) →
  d ++ ns ∈ glob_dirs t dirs patterns.
Proof.
  intros Hd Hf. revert dirs d Hd. induction Hf as [|pattern n patterns ns Hm Hf IH]; intros dirs d Hd Ht; cbn [glob_dirs].
  { by rewrite app_nil_r. }
  destruct (Ht [] n ns eq_refl) as [Hdir Hn]. rewrite app_nil_r in Hdir.
  rewrite cons_middle, app_assoc. apply IH.
  - apply list_elem_of_bind. exists d. split; [|done]. rewrite Hdir. apply list_elem_of_fmap. exists n. split; [done|].
    apply list_elem_of_filter. split; [done|]. by apply elem_of_children.
  - intros l n' r ->. destruct (Ht (n :: l) n' r eq_refl) as [H1 H2]. by rewrite <-!app_assoc.
Qed.

Lemma glob_complete uid t key :
  well_formed t → plain key → bare uid → is_Some (t !! (mount_root ++ [key; "refs"; uid])) →
  mount_root ++ [key; "refs"; uid] ∈ glob_tree (resolve (Join [GlobalMountRoot; "*"; "refs"; uid])) t.
Proof.
  intros Ht Hk [Hu Hm] Hs. rewrite (resolve_global ["*"; "refs"; uid]) by (repeat constructor; try done; apply Hu).
  unfold glob_tree. change (split_meta [] (mount_root ++ ["*"; "refs"; uid])) with (mount_root, ["*"; "refs"; uid]).
  cbn iota beta. apply glob_dirs_complete; [by apply list_elem_of_singleton| |].
  - repeat constructor; [apply glob_match_star, Hk|by apply glob_match_literal..].
  - intros l n r E. rewrite E in Hs. split.
    + apply (dir_above t (mount_root ++ l) (n :: r)); [done..|]. by rewrite <-app_assoc.
    + rewrite app_assoc. eapply some_above; [done|]. by rewrite <-app_assoc.
Qed.

Lemma ref_pattern_valid uid :
  bare uid → forallb valid_pattern (resolve (Join [GlobalMountRoot; "*"; "refs"; uid])) = true.
Proof.
  intros [Hu Hm]. rewrite (resolve_global ["*"; "refs"; uid]) by (repeat constructor; try done; apply Hu).
  cbn [forallb app mount_root]. assert (valid_pattern uid = true) as ->; [|by vm_compute].
  unfold valid_pattern. apply bool_decide_eq_true. by rewrite glob_regex_literal.
Qed.

(** The path of a reference gives its key away. *)
Lemma key_found key uid :
  bare key → bare uid → is_Some (find_submatch iamKeyExtractRegex (path_string (mount_root ++ [key; "refs"; uid]))).
Proof.
  intros [Hk Hkm] [Hu Hum].
  assert (∀ n, bare n → all_chars not_any_slash n = true) as Hc.
  { intros n [(_ & _ & _ & Hs) Hm]. assert (has_char "\" n = false) as Hb.
    { unfold has_meta in Hm. by apply orb_false_iff in Hm as [_ Hm]. }
    clear Hm. induction n as [|a n IH]; [done|]. cbn in *. rewrite orb_false_iff, bool_decide_eq_false in Hs, Hb.
    rewrite IH by tauto. unfold not_any_slash. by rewrite !bool_decide_true by tauto. }
  set (v := "/" +:+ key +:+ "/" +:+ "refs" +:+ "/" +:+ uid).
  assert (path_string (mount_root ++ [key; "refs"; uid]) = "/var/lib/lustre/mounts" +:+ v) as ->.
  { change (mount_root ++ [key; "refs"; uid]) with (((mount_root ++ [key]) ++ ["refs"]) ++ [uid]).
    rewrite !path_string_last by done. unfold v. by rewrite <-!app_assoc_str. }
  set (c := <[1%nat := key]> (∅ : gmap nat string)).
  unfold find_submatch. apply (search_complete _ _ _ _ (MState false "" c)). subst v.
  apply rmatch_seq. exists (MState false (key +:+ "/" +:+ "refs" +:+ "/" +:+ uid) ∅).
  split; [apply rmatch_class; by exists "/"%char|].
  apply rmatch_seq. exists (MState false ("/" +:+ "refs" +:+ "/" +:+ uid) c).
  split; [apply rmatch_group_plus; exists key; split_and!; [apply Hk|by apply Hc|done..]|].
  apply rmatch_seq. exists (MState false ("refs" +:+ "/" +:+ uid) c). split; [apply rmatch_class; by exists "/"%char|].
  apply rmatch_seq. exists (MState false ("/" +:+ uid) c). split; [by apply rmatch_lit|].
  apply rmatch_seq. exists (MState false uid c). split; [apply rmatch_class; by exists "/"%char|].
  apply rmatch_seq. exists (MState false "" c). split; [|by apply rmatch_eol].
  apply rmatch_class_plus. exists uid. split_and!; [apply Hu|by apply Hc|]. unfold eat. cbn. by rewrite app_nil_r_str.
Qed.

(** ** What the umount command documents *)

(** It mounts nothing, and when it reports success, or that there was no mount, the global path is not mounted. *)
Class UmountLaws (S : Type) `{MounterLaws S} : Prop := {
  umount_removes timeout args (h : S) p : mounted (umount timeout args h).2 p → mounted h p;
  umount_detaches timeout args key (h : S) :
    all_hex key = true → last args = Some (globalMountPath key) → unmounted (umount timeout args h).1 = true →
    ¬ mounted (umount timeout args h).2 (globalMountPath key);
}.

Section release.
Context {S : Type} `{GlobalMountLaws S} `{!UmountLaws S}.
Implicit Types s : nodeState S.

(** Files and mounts only go, and served calls stay served. *)
Definition fades : relation (nodeState S) := λ s s',
  shrinks s s' ∧ (∀ p, mounted (nodeHost s') p → mounted (nodeHost s) p) ∧
  (faults (nodeOS s) = [] → faults (nodeOS s') = []).

#[export] Instance fades_preorder : PreOrder fades.
Proof.
  split; [by intros s|]. intros s1 s2 s3 (A1 & B1 & C1) (A2 & B2 & C2). split_and!; [by etransitivity|auto..].
Qed.

Lemma fades_sys {A : Type} (m : M os goerr A) :
  (∀ o, (∀ p, is_Some (files (state_after m o) !! p) → is_Some (files o !! p)) ∧
        (faults o = [] → faults (state_after m o) = [])) → keeps fades (sys m).
Proof.
  intros Hm s. destruct (Hm (nodeOS s)) as [Hf Hl]. unfold state_after, sys in *.
  destruct (m (nodeOS s)) as [r o]. by split_and!.
Qed.

Lemma fades_Remove p : keeps fades (sys (Remove p)).
Proof.
  apply fades_sys. intros o. unfold state_after. destruct (Remove p o) as [r o'] eqn:E. cbn. split.
  - apply Remove_spec in E as [(_ & -> & _)|(? & _ & -> & _)]; [|done]. intros q [n Hn].
    apply lookup_delete_Some in Hn as [_ Hn]. eauto.
  - intros Ho. apply syscall_cases in E as [-> _]. by rewrite Ho.
Qed.

Lemma fades_RemoveAll p : keeps fades (sys (RemoveAll p)).
Proof.
  apply fades_sys. intros o. unfold state_after. destruct (RemoveAll p o) as [r o'] eqn:E. cbn.
  apply syscall_cases in E as [Hf Ho]. split; [|intros He; by rewrite Hf, He].
  intros q. destruct Ho as [(f & _ & _ & ->)|[_ ->]]; cbn [snd]; rewrite lookup_delete_all; case_decide; (done || by intros [? ?]).
Qed.

Lemma fades_Glob p : keeps fades (sys (Glob p)).
Proof.
  apply fades_sys. intros o. unfold state_after, Glob. destruct (forallb _ _); [|done].
  destruct (faults o) as [|[f|]]; cbn; (split; [done|]); by intros.
Qed.

Lemma fades_host_pair {A : Type} (m : S → A * S) :
  (∀ h p, mounted (m h).2 p → mounted h p) → keeps fades (host_pair m).
Proof.
  intros Hm s. specialize (Hm (nodeHost s)). unfold state_after, host_pair. destruct (m (nodeHost s)) as [r h].
  split; [by intros q|]. split; [exact Hm|done].
Qed.

Lemma fades_locked_on {A : Type} key busy (m : M (nodeState S) goerr A) : keeps fades m → keeps fades (locked_on key busy m).
Proof.
  intros Hm s. unfold state_after, locked_on, node_TryAcquire, VolumeLocks.TryAcquire.
  rewrite bind_unfold. case_decide; cbn; [split; [by intros p|by split]|]. unfold node_defer_Release.
  set (s1 := MkNodeState _ _ _). specialize (Hm s1). unfold state_after in Hm. by destruct (m s1).
Qed.

Lemma fades_unmountPath t : keeps fades (unmountPath t).
Proof.
  pose proof (fades_Remove t).
  assert (∀ p, keeps fades (host_pair (IsLikelyNotMountPoint p))) as Hl.
  { intros p. apply fades_host_pair. intros h q. by rewrite likely_reads. }
  assert (∀ l a, keeps fades (host_pair (umount l a))) as Hu by (intros l a; apply fades_host_pair; intros h; apply umount_removes).
  unfold unmountPath, removeDir, status. keeps_tac.
Qed.

Lemma fades_cleanUp key ref : keeps fades (cleanUpIAMReferenceForKey key ref).
Proof.
  pose proof fades_Remove. pose proof fades_RemoveAll. pose proof fades_unmountPath.
  unfold cleanUpIAMReferenceForKey. apply fades_locked_on. keeps_tac.
Qed.

Lemma fades_clean_up_refs matches : keeps fades (clean_up_refs matches).
Proof. pose proof fades_cleanUp. induction matches; cbn [clean_up_refs]; keeps_tac. Qed.

(** ** One key *)
Lemma removeDir_host t s r s' : removeDir t s = (r, s') → nodeHost s' = nodeHost s.
Proof. by intros [? _]%removeDir_result. Qed.

(** A global path that is reported unmounted is. *)
Lemma unmount_global_ok key s s' :
  all_hex key = true → bare key → unmountPath (globalMountPath key) s = (Ok (), s') →
  ¬ mounted (nodeHost s') (globalMountPath key).
Proof.
  intros Hx Hk. unfold unmountPath. rewrite bind_unfold. unfold host_pair at 1.
  pose proof (likely_reads (globalMountPath key) (nodeHost s)) as Hr.
  pose proof (λ Hm, global_looked_at key (nodeHost s) Hk Hm) as Hd. unfold unreadable in Hd.
  destruct (IsLikelyNotMountPoint (globalMountPath key) (nodeHost s)) as [[notMnt err] h]. cbn in Hr, Hd. subst h.
  set (skip := match err with Some e => if negb (is_not_exist e) then false else notMnt | None => notMnt end).
  destruct skip eqn:Es.
  { intros ->%removeDir_host. cbn. intros Hm. destruct (Hd Hm) as [[= -> ->]|Hu]; [done|]. destruct err as [e|]; [|done].
    unfold skip in Es. rewrite Hu in Es. done. }
  clear Hd. assert (∀ l a h, unmounted (umount l (a ++ [globalMountPath key]) h).1 = true →
    ¬ mounted (umount l (a ++ [globalMountPath key]) h).2 (globalMountPath key)) as Hu.
  { intros l a h. apply umount_detaches; [done|]. apply last_snoc. }
  pose proof (λ l, Hu l []) as U1. pose proof (λ l, Hu l ["-f"]) as U2. pose proof (λ l, Hu l ["-l"]) as U3. cbn [app] in *. clear Hu.
  cbn [nodeHost nodeOS nodeLocks].
  rewrite bind_unfold. unfold host_pair at 1. cbn [nodeHost nodeOS nodeLocks]. specialize (U1 DefaultUnmountTimeout (nodeHost s)).
  destruct (umount _ [_] _) as [r1 h1]. destruct (unmounted r1) eqn:E1; [intros ->%removeDir_host; by apply U1|].
  rewrite bind_unfold. unfold host_pair at 1. cbn [nodeHost nodeOS nodeLocks]. specialize (U2 DefaultForceUnmountTimeout h1).
  destruct (umount _ ["-f"; _] _) as [r2 h2]. destruct (unmounted r2) eqn:E2; [intros ->%removeDir_host; by apply U2|].
  rewrite bind_unfold. unfold host_pair at 1. cbn [nodeHost nodeOS nodeLocks]. specialize (U3 DefaultLazyUnmountTimeout h2).
  destruct (umount _ ["-l"; _] _) as [r3 h3]. destruct (unmounted r3) eqn:E3; [intros ->%removeDir_host; by apply U3|done].
Qed.

Definition ref_of (key uid : string) : path := mount_root ++ [key; "refs"; uid].

(** There is nothing but a pod's reference in the directory of references. *)
Definition alone (key uid : string) s : Prop :=
  ∀ q, below (mount_root ++ [key; "refs"]) q = true → is_Some (tree_of s !! q) → ref_of key uid `prefix_of` q.

(** Nothing of a key is left. *)
Definition released (key : string) s : Prop :=
  ¬ mounted (nodeHost s) (globalMountPath key) ∧ ∀ l, tree_of s !! (mount_root ++ key :: l) = None.

Lemma fades_released key s s' : fades s s' → released key s → released key s'.
Proof.
  intros (Hs & Hm & _) [Hu Ht]. split; [by intros ?%Hm|]. intros l. apply eq_None_not_Some. intros Hl%Hs. by rewrite Ht in Hl; destruct Hl.
Qed.

Lemma fades_gone s s' p : fades s s' → tree_of s !! p = None → tree_of s' !! p = None.
Proof. intros (Hs & _) Hp. apply eq_None_not_Some. intros Hl%Hs. rewrite Hp in Hl. by destruct Hl. Qed.

Lemma RemoveAll_ok p o u o' : RemoveAll p o = (Ok u, o') → ∀ q, resolve p `prefix_of` q → files o' !! q = None.
Proof.
  intros Hr q [l ->]. apply syscall_ok in Hr. injection Hr as _ <-. rewrite lookup_delete_all. case_decide as Hin; [done|].
  apply eq_None_not_Some. intros Hs. apply Hin. unfold subtree. rewrite merge_sort_Permutation, elem_of_cons, elem_of_descendants.
  destruct l as [|c l]; [left; by rewrite app_nil_r|]. right. split; [done|]. apply below_spec. eauto.
Qed.

(** A served removal fails only for a reason in the tree. *)
Lemma Remove_served p o r o' :
  faults o = [] → Remove p o = (r, o') → r = map_err (λ e, ErrPath "remove" p e) (remove_tree (resolve p) (files o)).1.
Proof.
  intros Ho E. apply syscall_cases in E as [_ [(f & Hf & _)|[-> _]]]; [|done]. rewrite Ho in Hf. by apply elem_of_nil in Hf.
Qed.

Lemma no_faults_io (o : os) : faults o = [] → io_faults o.
Proof. unfold io_faults. by intros ->. Qed.

Section key.
Context (key uid : string).
Hypothesis key_bare : bare key.
Hypothesis uid_bare : bare uid.

Lemma resolve_ref : resolve (path_string (ref_of key uid)) = ref_of key uid.
Proof.
  apply resolve_path_string, Forall_app. split; [apply mount_root_plain|].
  repeat constructor; try done; apply key_bare || apply uid_bare.
Qed.

(** The first half: the reference goes. *)
Lemma remove_ref_ok s r s' :
  faults (nodeOS s) = [] → sys (Remove (path_string (ref_of key uid))) s = (r, s') →
  match r with Ok _ => True | Err e => is_not_exist e = true end →
  fades s s' ∧ nodeHost s' = nodeHost s ∧ tree_of s' !! ref_of key uid = None ∧
  (∀ q, q ≠ ref_of key uid → tree_of s' !! q = tree_of s !! q).
Proof.
  intros Hf E Hr. pose proof (fades_Remove (path_string (ref_of key uid)) s) as Hfd. unfold state_after in Hfd.
  rewrite E in Hfd. split; [exact Hfd|]. apply sys_inv in E as (o & E & ->). cbn.
  apply Remove_spec in E as [(-> & Ho & _)|(e & -> & Ho & Hn)]; rewrite resolve_ref in *; rewrite Ho.
  - split_and!; [done|apply lookup_delete_eq|]. intros q Hq. by rewrite lookup_delete_ne.
  - split_and!; [done| |done]. rewrite <-look_nonroot by done. apply Hn; [by apply no_faults_io|done].
Qed.

Lemma removed_tree p s r s' : sys (Remove p) s = (r, s') → well_formed (tree_of s) → well_formed (tree_of s').
Proof. intros E Hwf. pose proof (tree_sys (Remove p) (call_Remove p) s Hwf) as Ht. unfold state_after in Ht. by rewrite E in Ht. Qed.

(** The second half: if nobody else has a reference, the directory of references goes. *)
Lemma remove_refs_ok s r s' :
  faults (nodeOS s) = [] → sys (Remove (refsDir key)) s = (r, s') →
  is_Some (tree_of s !! (mount_root ++ [key; "refs"])) → descendants (tree_of s) (mount_root ++ [key; "refs"]) = [] →
  r = Ok ().
Proof.
  intros Hf E Hs Hd. apply sys_inv in E as (o & E & ->). apply Remove_served in E as ->; [|done].
  rewrite resolve_refsDir by apply key_bare. unfold remove_tree. rewrite look_nonroot, Hd by done. by destruct Hs as [n ->].
Qed.

Lemma cleanUp_ok s s' :
  well_formed (tree_of s) → faults (nodeOS s) = [] →
  cleanUpIAMReferenceForKey key (path_string (ref_of key uid)) s = (Ok (), s') →
  tree_of s' !! ref_of key uid = None ∧
  (all_hex key = true → is_Some (tree_of s !! ref_of key uid) → alone key uid s → released key s').
Proof.
  intros Hwf Hf. unfold cleanUpIAMReferenceForKey. intros (_ & s3 & Hr & ->)%locked_on_inv.
  cbn [nodeHost nodeOS]. set (s0 := MkNodeState _ _ _) in Hr.
  assert (tree_of s0 = tree_of s) as Ht0 by done. assert (well_formed (tree_of s0)) as Hwf0 by done. assert (faults (nodeOS s0) = []) as Hf0 by done. clearbody s0.
  apply bind_inv in Hr as (r1 & s1 & Hrm%attempt_inv & Hr).
  destruct (match r1 with Ok _ => None | Err err => if is_not_exist err then None else Some err end) eqn:Er; [done|].
  assert (match r1 with Ok _ => True | Err e => is_not_exist e = true end) as Hr1.
  { destruct r1 as [|e]; [done|]. by destruct (is_not_exist e). }
  destruct (remove_ref_ok _ _ _ Hf0 Hrm Hr1) as (Hf1 & _ & Hg & Hother). clear Er.
  pose proof (proj2 (proj2 Hf1) Hf0) as Hfl1.
  apply bind_inv in Hr as (r2 & s2 & Hrd%attempt_inv & Hr).
  pose proof (fades_Remove (refsDir key) s1) as Hf2. unfold state_after in Hf2. rewrite Hrd in Hf2. cbn [snd] in Hf2.
  pose proof (fades_gone _ _ _ Hf2 Hg) as Hg2.
  destruct r2 as [u|err].
  - apply bind_inv in Hr as (r3 & s4 & Hun%attempt_inv & Hr). destruct r3 as [[]|]; [|done].
    apply bind_inv in Hr as (r4 & s5 & Hra%attempt_inv & Hr). destruct r4 as [[]|]; [|done]. injection Hr as <-.
    apply sys_inv in Hra as (o & Hra & ->). cbn [nodeHost nodeOS].
    pose proof (RemoveAll_ok _ _ _ _ Hra) as Hgone. rewrite resolve_keyDir in Hgone by apply key_bare.
    assert (∀ l, files o !! (mount_root ++ key :: l) = None) as Hl by (intros l; apply Hgone; by exists l).
    split; [apply Hl|]. intros Hx _ _. split; [|done]. by apply unmount_global_ok in Hun.
  - assert (s3 = s2) as -> by (unfold mret, M_ret, fail in Hr; by repeat case_match; simplify_eq).
    split; [exact Hg2|]. intros _ Hs Ha. exfalso. assert (Err err = Ok ()) as Hx; [|done].
    eapply remove_refs_ok; [exact Hfl1|exact Hrd| |].
    + rewrite Hother by done. rewrite Ht0. apply (some_above (tree_of s) (mount_root ++ [key]) "refs" [uid]); [done|].
      by rewrite <-app_assoc.
    + destruct (descendants _ _) as [|q l] eqn:Ed; [done|]. exfalso.
      assert (q ∈ descendants (tree_of s1) (mount_root ++ [key; "refs"])) as [Hq Hb]%elem_of_descendants by (rewrite Ed; set_solver).
      pose proof (proj1 Hf1 _ Hq) as Hq0. rewrite Ht0 in Hq0.
      assert (well_formed (tree_of s1)) as Hwf1 by exact (removed_tree _ _ _ _ Hrm Hwf0).
      destruct (Ha _ Hb Hq0) as [[|c rest] ->]; [rewrite app_nil_r, Hg in Hq; by destruct Hq|].
      apply dir_above in Hq; [|done..]. rewrite look_nonroot, Hg in Hq by done. done.
Qed.
End key.

(** ** All keys *)
Lemma ref_of_inj key key' uid :
  bare key → bare key' → bare uid → path_string (ref_of key uid) = path_string (ref_of key' uid) → key = key'.
Proof. intros Hk Hk' Hu E. apply (f_equal resolve) in E. rewrite !resolve_ref in E by done. by injection E. Qed.

Lemma tree_cleanUp key ref : keeps tree_kept (cleanUpIAMReferenceForKey key ref : M (nodeState S) goerr ()).
Proof.
  apply keeps_cleanUpForKey; [apply _|intros ??; apply tree_sys|intros ??; apply tree_host_pair|intros ???? ; apply tree_locked_on].
Qed.

Lemma tree_unmountPath t : keeps tree_kept (unmountPath t : M (nodeState S) goerr ()).
Proof. apply keeps_unmountPath; [apply _|intros ??; apply tree_sys|intros ??; apply tree_host_pair]. Qed.

Lemma clean_up_refs_ok uid matches s s' :
  bare uid → Forall (λ m, ∃ key, bare key ∧ m = path_string (ref_of key uid)) matches →
  well_formed (tree_of s) → faults (nodeOS s) = [] → clean_up_refs matches s = (Ok [], s') →
  ∀ key, bare key → path_string (ref_of key uid) ∈ matches →
  tree_of s' !! ref_of key uid = None ∧
  (all_hex key = true → is_Some (tree_of s !! ref_of key uid) → alone key uid s → released key s').
Proof.
  intros Hu Hm. revert s. induction Hm as [|m matches (key0 & Hk0 & ->) Hm IH]; intros s Hwf Hf Hr key Hk Hin.
  { by apply elem_of_nil in Hin. }
  cbn [clean_up_refs] in Hr. destruct (key_found key0 uid Hk0 Hu) as [c Hc]. change (mount_root ++ [key0; "refs"; uid]) with (ref_of key0 uid) in Hc.
  rewrite Hc, (iam_key_of_ref _ _ _ Hk0 Hu Hc) in Hr.
  apply bind_inv in Hr as (r & s1 & Hcl%attempt_inv & Hr). apply bind_inv in Hr as (errs & s2 & Hrest & Hr).
  injection Hr as Hr <-. destruct r as [[]|e]; [subst errs|done].
  pose proof (fades_cleanUp key0 (path_string (ref_of key0 uid)) s) as Hfd. unfold state_after in Hfd.
  pose proof (tree_cleanUp key0 (path_string (ref_of key0 uid)) s Hwf) as Hwf1. unfold state_after in Hwf1.
  pose proof (key_cleanUp key0 Hk0 uid ltac:(apply Hu) s) as [Hfr _]. unfold state_after in Hfr.
  change (mount_root ++ [key0; "refs"; uid]) with (ref_of key0 uid) in Hfr. rewrite Hcl in Hfd, Hwf1, Hfr. cbn [snd] in *.
  assert (fades s1 s2) as Hfd2.
  { pose proof (fades_clean_up_refs matches s1) as Hx. unfold state_after in Hx. by rewrite Hrest in Hx. }
  destruct (decide (key = key0)) as [->|Hne].
  - destruct (cleanUp_ok key0 uid Hk0 Hu _ _ Hwf Hf Hcl) as [Hg Hrel]. split; [by eapply fades_gone|].
    intros Hx Hs Ha. eapply fades_released; [exact Hfd2|by apply Hrel].
  - apply elem_of_cons in Hin as [E|Hin]; [by apply ref_of_inj in E|].
    destruct (IH s1 Hwf1 (proj2 (proj2 Hfd) Hf) Hrest key Hk Hin) as [Hg Hrel]. split; [done|].
    intros Hx Hs Ha. apply Hrel; [done| |].
    + rewrite Hfr; [done|]. by exists key, ["refs"; uid].
    + intros q Hq Hqs. apply Ha; [done|]. by apply (proj1 Hfd).
Qed.

Lemma unpublish_released target uid s s' :
  getPodUIDFromTargetPath target = Ok uid → bare uid → outside target →
  well_formed (tree_of s) → keys_bare (tree_of s) → faults (nodeOS s) = [] →
  NodeUnpublishVolume target s = (Ok (), s') →
  ∀ key, bare key →
  tree_of s' !! ref_of key uid = None ∧
  (all_hex key = true → is_Some (tree_of s !! ref_of key uid) → alone key uid s → released key s').
Proof.
  intros Hid Hu Ho Hwf Hkeys Hf. unfold NodeUnpublishVolume, alone. case_decide; [done|].
  intros (_ & s3 & Hr & ->)%locked_on_inv key Hk. cbn [nodeHost nodeOS].
  set (s0 := MkNodeState _ _ _) in Hr. change (tree_of s) with (tree_of s0) in *. change (faults (nodeOS s)) with (faults (nodeOS s0)) in Hf.
  clearbody s0. apply bind_inv in Hr as ([] & s1 & Hun & Hr).
  pose proof (fades_unmountPath target s0) as Hfd. unfold state_after in Hfd.
  pose proof (frame_unmountPath _ _ _ (outside_apart _ Ho) s0) as [Hout _]. unfold state_after in Hout.
  pose proof (tree_unmountPath target s0 Hwf) as Hwf1. unfold state_after in Hwf1. rewrite Hun in Hfd, Hout, Hwf1. cbn [snd] in *.
  apply bind_inv in Hr as (r & s2 & Hcl%attempt_inv & Hr). destruct r as [[]|]; [|done]. injection Hr as <-.
  unfold cleanUpIAMReference in Hcl. rewrite Hid in Hcl.
  apply bind_inv in Hcl as (found & s6 & Hgl%attempt_inv & Hcl). destruct found as [matches|]; [|done].
  apply bind_inv in Hcl as (errs & s4 & Hrefs & Hcl). case_decide as Hlen; [done|]. injection Hcl as <-.
  assert (errs = []) as -> by (destruct errs; [done|cbn in Hlen; lia]).
  pose proof (proj2 (proj2 Hfd) Hf) as Hf1.
  apply sys_inv in Hgl as (o & Hgl & ->). unfold Glob in Hgl. rewrite ref_pattern_valid, Hf1 in Hgl by done.
  injection Hgl as <- <-. cbn [tail] in Hrefs.
  assert (keys_bare (tree_of s1)) as Hkeys1 by (intros k Hs; by apply Hkeys, (proj1 Hfd)).
  assert (∀ l, tree_of s1 !! (mount_root ++ key :: l) = tree_of s0 !! (mount_root ++ key :: l)) as Hsame.
  { intros l. apply Hout, below_spec. eauto. }
  set (s5 := MkNodeState _ _ _) in Hrefs.
  assert (fades s5 s4) as Hfd4.
  { pose proof (fades_clean_up_refs (path_string <$> glob_tree (resolve (Join [GlobalMountRoot; "*"; "refs"; uid])) (tree_of s1)) s5) as Hx.
    unfold state_after in Hx. by rewrite Hrefs in Hx. }
  destruct (tree_of s1 !! (mount_root ++ [key; "refs"; uid])) as [n|] eqn:En.
  - eapply clean_up_refs_ok in Hrefs as [Hg Hrel]; [|exact Hu| |exact Hwf1|done|exact Hk|].
    + split; [exact Hg|]. intros Hx _ Ha. apply Hrel; [done|by eexists|]. intros q Hq Hqs.
      apply Ha; [done|]. by apply (proj1 Hfd).
    + apply Forall_forall. intros m (p & -> & Hp)%list_elem_of_fmap. by eapply refs_pattern in Hp as (k & ? & ->); eauto.
    + apply list_elem_of_fmap. eexists. split; [done|]. apply glob_complete; [done|apply Hk|done|by eexists].
  - split; [by apply (fades_gone s5)|]. intros _ Hs. unfold ref_of in Hs; rewrite <-Hsame, En in Hs. by destruct Hs.
Qed.

(** Claim C9.  Unpublishing gives back what it should: on a node whose system calls are served, after a successful
    [NodeUnpublishVolume] no reference of the pod is left under any key, and of every key that no other pod referred to the global
    path is unmounted and nothing is left on disk, token included. *)
Theorem unpublish_releases target uid s s' :
  getPodUIDFromTargetPath target = Ok uid → bare uid → outside target →
  well_formed (tree_of s) → keys_bare (tree_of s) → faults (nodeOS s) = [] →
  NodeUnpublishVolume target s = (Ok (), s') →
  ∀ key, bare key →
  tree_of s' !! (mount_root ++ [key; "refs"; uid]) = None ∧
  (all_hex key = true → is_Some (tree_of s !! (mount_root ++ [key; "refs"; uid])) →
   (∀ q, below (mount_root ++ [key; "refs"]) q = true → is_Some (tree_of s !! q) → q = mount_root ++ [key; "refs"; uid]) →
   ¬ mounted (nodeHost s') (globalMountPath key) ∧ ∀ l, tree_of s' !! (mount_root ++ key :: l) = None).
Proof.
  intros Hid Hu Ho Hwf Hkeys Hf Hr key Hk. destruct (unpublish_released _ _ _ _ Hid Hu Ho Hwf Hkeys Hf Hr key Hk) as [Hg Hrel].
  split; [exact Hg|]. intros Hx Hs Ha. apply Hrel; [done..|]. intros q Hq Hqs. by rewrite (Ha q Hq Hqs).
Qed.
End release.

(** ** On the node in memory *)
#[export] Instance host_umount : UmountLaws host_state.
Proof.
  split.
  - intros timeout args h p. unfold umount, host_mounter, run_umount. destruct (last args) as [t|]; [|done].
    repeat case_decide; cbn; try done. unfold mount_points, drop_mount. cbn.
    intros (m & -> & [_ Hm]%list_elem_of_filter)%list_elem_of_fmap. apply list_elem_of_fmap. eauto.
  - intros timeout args key h _ Hl. unfold umount, host_mounter, run_umount. rewrite Hl.
    case_decide; [by intros Hx; vm_compute in Hx|]. case_decide as Hin; cbn; intros _; [|done].
    unfold mount_points, drop_mount. cbn. intros (m & E & [Hne Hm]%list_elem_of_filter)%list_elem_of_fmap. by apply Hne.
Qed.

(** The second pod goes as well. *)
Definition without_pods : nodeState host_state := state_after (NodeUnpublishVolume (target_of "pod2" "v")) without_pod1.

Lemma unpublish_releases_witness :
  is_Some (tree_of without_pod1 !! (mount_root ++ [pub_key; "refs"; "pod2"])) ∧
  ¬ mounted (nodeHost without_pods) (globalMountPath pub_key) ∧
  ∀ l, tree_of without_pods !! (mount_root ++ pub_key :: l) = None.
Proof.
  assert (is_Some (tree_of without_pod1 !! (mount_root ++ [pub_key; "refs"; "pod2"]))) as Hs by decided.
  split; [exact Hs|].
  refine (proj2 (unpublish_releases (target_of "pod2" "v") "pod2" without_pod1 without_pods _ _ _ _ _ _ _ pub_key _) _ Hs _).
  - vm_compute; reflexivity.
  - decided.
  - vm_compute; reflexivity.
  - decided.
  - apply keys_bare_check. vm_compute; reflexivity.
  - vm_compute; reflexivity.
  - pose proof (run_state (NodeUnpublishVolume (target_of "pod2" "v")) without_pod1 (Ok ())) as Hr. apply Hr.
    vm_compute; reflexivity.
  - decided.
  - vm_compute; reflexivity.
  - intros q Hq [n Hn]. assert (map_Forall (λ q _, below (mount_root ++ [pub_key; "refs"]) q = true →
      q = mount_root ++ [pub_key; "refs"; "pod2"]) (tree_of without_pod1)) as Hall by decided.
    exact (Hall q n Hn Hq).
Defined.
