(* ===== verification/NodeCycle.v ===== *)
(** * Publishing and unpublishing again

    An unpublication takes back what the publication of an IAM volume has brought. *)
From stdpp Require Import relations.
From S2P Require Import Prelude GoStr Regex GoErr Util Instance Params Csi Driver Network NetworkSpec Sha256 Json FS Node NodeHost NodeFrame NodeSpec NodeTree NodeSteps NodePool NodeRelease.

Local Open Scope string_scope.
Local Open Scope list_scope.
Local Open Scope Z_scope.

Section cycle.
Context {S : Type} `{GlobalMountLaws S} `{!UmountLaws S} `{MapRange}.
Context (driver : LustreDriver).
Implicit Types s : nodeState S.

Lemma frame_mono (Q Q' : path → Prop) (K K' : string → Prop) s s' :
  (∀ p, Q' p → Q p) → (∀ k, K' k → K k) → frame Q K s s' → frame Q' K' s s'.
Proof. intros HQ HK [T M]. split; auto. Qed.

(** What a publication leaves alone: the references of the other pods, and the other keys. *)
Definition kept_by (key uid : string) : relation (nodeState S) :=
  frame (λ p, below mount_root p = true ∧ theirs key uid p) (λ k, bare k ∧ k ≠ key).

Lemma publication_keeps req vc s :
  proper (Publish req) → normalizeVolumeContext (PubContext req) = Ok vc → keys_bare (tree_of s) →
  kept_by (iam_key (PubVolumeId req) (get vc (normalize keyPodNamespace)) (get vc (normalize keyServiceAccount)))
    (get vc (normalize keyPodUID)) s (state_after (NodePublishVolume driver req) s) ∧
  keys_bare (tree_of (state_after (NodePublishVolume driver req) s)).
Proof.
  intros Hp Hvc Hs. unfold state_after. rewrite <-(runs_publish driver req s).
  apply (abides_keeps (does (Publish req))); [apply _| |by apply abides_publish|done]. clear s Hs.
  intros w ok s s' Hw He. destruct w as [|key uid|key uid]; [|destruct Hw as [_ (vc' & Hvc' & <- & ->)]|by destruct Hw as [[? ?] _]].
  - eapply frame_mono; [| |exact He]; [by intros p [? _]|by intros k [? _]].
  - rewrite Hvc in Hvc'. injection Hvc' as <-. eapply (frame_mono (theirs _ _)); [by intros p [_ ?]|by intros k Hk; exact Hk|].
    unfold event_of in He. repeat case_match; cbn in He; apply He.
Qed.

Lemma served_sys {A : Type} (m : M os goerr A) : os_call m → keeps (λ s s', faults (nodeOS s) = [] → faults (nodeOS s') = []) (sys m).
Proof.
  intros Hm s Hf. unfold state_after, sys.
  assert (faults (m (nodeOS s)).2 = []) as Hm'; [|by destruct (m (nodeOS s))].
  destruct Hm; unfold Stat, Lstat, MkdirAll, WriteFile, Rename, Remove, RemoveAll, Chmod, Lchown_group, Glob, syscall; rewrite Hf;
    repeat case_match; simplify_eq; done.
Qed.

Lemma served_publish req s : faults (nodeOS s) = [] → faults (nodeOS (state_after (NodePublishVolume driver req) s)) = [].
Proof.
  set (P := λ s s' : nodeState S, faults (nodeOS s) = [] → faults (nodeOS s') = []).
  assert (PreOrder P) as HP by (split; unfold P; [by intros ?|intros ???; tauto]).
  destruct (handlers_keep driver P) as (_ & _ & Hk & _); [..|exact (Hk req s)].
  - intros A m. apply served_sys.
  - intros A m s1. unfold state_after, P, host. by destruct (m (nodeHost s1)).
  - intros A m s1. unfold state_after, P, host_pair. by destruct (m (nodeHost s1)).
  - intros A key busy m Hm s1. unfold state_after, locked_on, node_TryAcquire, VolumeLocks.TryAcquire.
    rewrite bind_unfold. case_decide; [by intros Hs|]. cbn. unfold node_defer_Release.
    set (s2 := MkNodeState _ _ _). specialize (Hm s2). unfold state_after, P in *. by destruct (m s2).
Qed.

(** After the publication of an unused key its pod is alone. *)
Lemma published_alone key uid s s' :
  released key s → well_formed (tree_of s') → kept_by key uid s s' → alone key uid s'.
Proof.
  intros [_ Hnone] Hwf [Hkept _] q (c & r & ->)%below_spec Hs. rewrite <-app_assoc in Hs |- *.
  destruct (decide (c = uid)) as [->|Hc]; [by exists r; unfold ref_of; rewrite <-app_assoc|]. exfalso.
  assert (is_Some (tree_of s' !! (mount_root ++ [key; "refs"; c]))) as [n Hn].
  { rewrite (app_assoc mount_root [key; "refs"] [c] : mount_root ++ [key; "refs"; c] = _).
    apply (some_above _ _ _ r); [done|]. by rewrite <-app_assoc. }
  rewrite Hkept, Hnone in Hn; [done|]. split; [apply below_spec; eauto|]. right. eauto.
Qed.

Lemma iam_key_hex v ns sa : all_hex (iam_key v ns sa) = true.
Proof. unfold iam_key. by destruct (computeHash_form (v +:+ (ns +:+ "/" +:+ sa))). Qed.

(** A volume of an unused key is published, and the pod unpublishes something. *)
Lemma published_then_released req vc target s s1 s2 :
  let key := iam_key (PubVolumeId req) (get vc (normalize keyPodNamespace)) (get vc (normalize keyServiceAccount)) in
  let uid := get vc (normalize keyPodUID) in
  keys_bare (tree_of s) → well_formed (tree_of s) → faults (nodeOS s) = [] →
  outside (PubTargetPath req) → outside target → getPodUIDFromTargetPath target = Ok uid → bare uid →
  normalizeVolumeContext (PubContext req) = Ok vc → to_lower (get vc (normalize keyIAMAccessControlEnabled)) = "true" →
  released key s →
  NodePublishVolume driver req s = (Ok (), s1) → NodeUnpublishVolume target s1 = (Ok (), s2) →
  (is_Some (tree_of s1 !! (mount_root ++ [key; "refs"; uid])) ∧ mounted (nodeHost s1) (globalMountPath key) ∧
   mounted (nodeHost s1) (PubTargetPath req)) ∧ keys_bare (tree_of s1) ∧ released key s2.
Proof.
  intros key uid Hi Hwf Hf Ho Hot Hid Hu Hvc Hiam Hrel Hpub Hun.
  assert (bare key) as Hk by apply iam_key_bare.
  assert (proper (Publish req)) as Hp by (split; [done|]; intros vc' Hvc'; rewrite Hvc in Hvc'; injection Hvc' as <-; apply Hu).
  pose proof (NodePublishVolume_iam_ok driver routes_keep req s s1 vc Hpub Hvc Hiam (proj1 Hu)) as Hok. cbv zeta in Hok. fold key uid in Hok.
  destruct Hok as (Href & _ & Hm & Htgt); [intros E; by apply (outside_not_global key (PubTargetPath req))|].
  destruct (publication_keeps req vc s Hp Hvc Hi) as [Hst Hi1].
  pose proof (served_publish req s Hf) as Hf1.
  destruct (handlers_keep driver (tree_kept (S := S))) as (_ & _ & Htr & _);
    [intros A m; apply tree_sys|intros A m; apply tree_host|intros A m; apply tree_host_pair|intros A k busy m; apply tree_locked_on|].
  specialize (Htr req s Hwf). unfold state_after in Hst, Hi1, Hf1, Htr. rewrite Hpub in Hst, Hi1, Hf1, Htr. cbn [snd] in *.
  split; [by split_and!|]. split; [done|].
  apply (unpublish_released _ uid s1 s2 Hid Hu Hot Htr Hi1 Hf1 Hun key Hk); [apply iam_key_hex|exact Href|].
  by apply (published_alone key uid s s1 Hrel Htr).
Qed.

(** Claim C11.  Unpublishing undoes publishing.  On a node whose calls are served, where nothing is mounted or on disk for the key of an IAM
    volume and a principal, a successful publication makes the pod's reference and the global mount, and a successful unpublication
    then leaves nothing mounted and nothing on disk for the key again. *)
Theorem unpublish_undoes_publish req vc s s1 s2 :
  let key := iam_key (PubVolumeId req) (get vc (normalize keyPodNamespace)) (get vc (normalize keyServiceAccount)) in
  let uid := get vc (normalize keyPodUID) in
  keys_bare (tree_of s) → well_formed (tree_of s) → faults (nodeOS s) = [] →
  outside (PubTargetPath req) → getPodUIDFromTargetPath (PubTargetPath req) = Ok uid → bare uid →
  normalizeVolumeContext (PubContext req) = Ok vc → to_lower (get vc (normalize keyIAMAccessControlEnabled)) = "true" →
  released key s →
  NodePublishVolume driver req s = (Ok (), s1) → NodeUnpublishVolume (PubTargetPath req) s1 = (Ok (), s2) →
  (is_Some (tree_of s1 !! (mount_root ++ [key; "refs"; uid])) ∧ mounted (nodeHost s1) (globalMountPath key)) ∧
  released key s2.
Proof.
  intros key uid Hi Hwf Hf Ho Hid Hu Hvc Hiam Hrel Hpub Hun.
  destruct (published_then_released req vc (PubTargetPath req) s s1 s2) as ((Hr & Hm & _) & _ & Hrel2); [done..|]. by split.
Qed.
End cycle.

(** ** On the node in memory *)
Lemma unpublish_undoes_publish_witness :
  mounted (nodeHost one_pod) (globalMountPath pub_key) ∧
  released pub_key (state_after (NodeUnpublishVolume (target_of "pod1" "v")) one_pod).
Proof.
  assert (pub_uid = "pod1") as Huid by (vm_compute; reflexivity).
  destruct (unpublish_undoes_publish node_driver pub1 pub_context fresh_node one_pod
    (state_after (NodeUnpublishVolume (target_of "pod1" "v")) one_pod)) as [[_ Hm] Hr].
  - apply fresh_inv.
  - decided.
  - vm_compute; reflexivity.
  - vm_compute; reflexivity.
  - fold pub_uid. rewrite Huid. vm_compute; reflexivity.
  - fold pub_uid. rewrite Huid. decided.
  - assert (is_ok (normalizeVolumeContext (PubContext pub1)) = true) as Hok by (vm_compute; reflexivity).
    unfold pub_context. by destruct (normalizeVolumeContext (PubContext pub1)).
  - vm_compute; reflexivity.
  - split; [|done]. intros Hm. by apply elem_of_nil in Hm.
  - apply (run_state (publish pub1) fresh_node (Ok ())). vm_compute; reflexivity.
  - apply (run_state (NodeUnpublishVolume (target_of "pod1" "v")) one_pod (Ok ())). vm_compute; reflexivity.
  - split; [exact Hm|exact Hr].
Defined.
