(* ===== verification/NodeRepeat.v ===== *)
(** * Requests that are made again

    The kubelet repeats requests until it sees them succeed, and it publishes an IAM volume again and again to bring the pod's
    new tokens.  On a node whose system calls are served, repeating what is done succeeds and changes nothing,
    and publishing again changes the token only. *)
From S2P Require Import Prelude GoStr Regex GoErr Util Instance Params Csi Driver Network NetworkSpec Sha256 Json FS Node NodeHost NodeFrame NodeSpec NodeTree NodeSteps NodeRelease.

Local Open Scope string_scope.
Local Open Scope list_scope.
Local Open Scope Z_scope.

(** ** Calls that are served *)
Lemma dir_look t p q : well_formed t → is_dir (look t p) = true → q `prefix_of` p → is_dir (look t q) = true.
Proof.
  intros Ht Hp [[|c r] ->]; [by rewrite app_nil_r in Hp|]. apply (dir_above t q (c :: r)); [done..|].
  rewrite look_nonroot in Hp by (by destruct q). by destruct (t !! (q ++ c :: r)).
Qed.

Lemma mkdirs_there a t done_ todo :
  (∀ q, q `prefix_of` done_ ++ todo → is_dir (look t q) = true) → mkdirs a done_ todo t = (Ok (), t).
Proof.
  revert done_. induction todo as [|c todo IH]; intros done_ Hd; cbn; [done|].
  assert (done_ ++ [c] `prefix_of` done_ ++ c :: todo) as Hp by (exists todo; by rewrite <-app_assoc).
  pose proof (Hd _ Hp) as Hc. destruct (look t (done_ ++ [c])) as [[]|]; [|done..].
  apply IH. intros q. rewrite <-app_assoc. apply Hd.
Qed.

(** Nothing above what is there is a file. *)
Lemma no_file_above t p : well_formed t → is_Some (look t p) →
  existsb (λ k, is_file (look t (take k p))) (seq 0 (length p)) = false.
Proof.
  intros Ht Hs. apply not_true_iff_false. intros (k & Hk%in_seq & Hf)%existsb_exists.
  assert (is_dir (look t (take k p)) = true) as Hd.
  { apply (dir_above t (take k p) (drop k p)); [done| |].
    - intros E%(f_equal length). rewrite length_drop in E. cbn in E. lia.
    - rewrite take_drop. destruct p; [cbn in Hk; lia|]. done. }
  by destruct (look t (take k p)) as [[]|].
Qed.

Lemma stat_there t p n : well_formed t → look t p = Some n → stat_tree p t = Ok n.
Proof. intros Ht Hn. unfold stat_tree. by rewrite Hn, no_file_above by eauto. Qed.

Section repeat.
Context {S : Type} `{MounterLaws S} `{Netlinker S} `{MapRange}.
Context (driver : LustreDriver).
Implicit Types s : nodeState S.

(** Every call to the operating system is served. *)
Definition served_calls s : Prop := faults (nodeOS s) = [].

Definition with_tree t s : nodeState S := MkNodeState (nodeLocks s) (MkOS t []) (nodeHost s).

Lemma with_tree_same s : served_calls s → with_tree (tree_of s) s = s.
Proof. unfold served_calls, with_tree. destruct s as [l [t f] h]. cbn. by intros ->. Qed.

Lemma sys_served {A : Type} (op p : string) (partial : nat → tree → tree) (call : tree → result errno A * tree) s :
  served_calls s →
  sys (syscall op p partial call) s =
    (map_err (λ e, ErrPath op p e) (call (tree_of s)).1, with_tree (call (tree_of s)).2 s).
Proof. intros Hf. unfold sys, syscall. rewrite Hf. by destruct (call (tree_of s)). Qed.

(** Looking at what is there. *)
Lemma sys_looks {A : Type} (op p : string) (partial : nat → tree → tree) (call : tree → result errno A * tree) s :
  served_calls s → (call (tree_of s)).2 = tree_of s →
  sys (syscall op p partial call) s = (map_err (λ e, ErrPath op p e) (call (tree_of s)).1, s).
Proof. intros Hf Ht. by rewrite sys_served, Ht, with_tree_same. Qed.

Definition dir_at (p : string) s : Prop := is_dir (look (tree_of s) (resolve p)) = true.

(** The node reports a mount point, or none. *)
Definition reported (t : string) s : Prop := (IsLikelyNotMountPoint t (nodeHost s)).1 = (false, None).
Definition not_reported (t : string) s : Prop :=
  ∃ err, (IsLikelyNotMountPoint t (nodeHost s)).1 = (true, err) ∧
    match err with Some e => is_not_exist e = true | None => True end.

Lemma host_pair_likely t s :
  host_pair (IsLikelyNotMountPoint t) s = (Ok (IsLikelyNotMountPoint t (nodeHost s)).1, s).
Proof.
  unfold host_pair. pose proof (likely_reads t (nodeHost s)) as Hr.
  destruct (IsLikelyNotMountPoint t (nodeHost s)) as [r h]. cbn in *. subst h. by destruct s.
Qed.

Lemma makeDir_there p s : served_calls s → well_formed (tree_of s) → dir_at p s → makeDir p s = (Ok (), s).
Proof.
  intros Hf Ht Hd. unfold makeDir, MkdirAll. rewrite bind_unfold, attempt_unfold'.
  assert (mkdirs (MkAttr 493 0) [] (resolve p) (tree_of s) = (Ok (), tree_of s)) as Hm.
  { apply mkdirs_there. intros q. by apply dir_look. }
  by rewrite sys_looks, Hm by (done || by rewrite Hm).
Qed.

Lemma isMounted_reported t s : reported t s → isMounted t s = (Ok true, s).
Proof. intros Hr. unfold isMounted. by rewrite bind_unfold, host_pair_likely, Hr. Qed.

Lemma pathExists_there p s :
  served_calls s → well_formed (tree_of s) → is_Some (look (tree_of s) (resolve p)) → pathExists p s = (Ok true, s).
Proof.
  intros Hf Ht [n Hn]. unfold pathExists, Stat. rewrite bind_unfold, attempt_unfold', sys_looks by done.
  cbn [fst]. by rewrite (stat_there _ _ n).
Qed.

(** Nothing there, and no file in the way: there is nothing to remove or to unmount. *)
Definition nothing_at (p : string) s : Prop :=
  look (tree_of s) (resolve p) = None ∧ missing (tree_of s) (resolve p) = ENOENT.

Lemma removeDir_gone t s : served_calls s → nothing_at t s → removeDir t s = (Ok (), s).
Proof.
  intros Hf [Hn Hm]. unfold removeDir, Remove. rewrite bind_unfold, attempt_unfold'.
  assert (remove_tree (resolve t) (tree_of s) = (Err ENOENT, tree_of s)) as Hr by (unfold remove_tree; by rewrite Hn, Hm).
  by rewrite sys_looks, Hr by (done || by rewrite Hr).
Qed.

Lemma unmountPath_gone t s : served_calls s → not_reported t s → nothing_at t s → unmountPath t s = (Ok (), s).
Proof.
  intros Hf (err & Hr & He) Hn. unfold unmountPath. rewrite bind_unfold, host_pair_likely, Hr.
  destruct err as [e|]; [rewrite He|]; by apply removeDir_gone.
Qed.

(** The lock that was free is free again. *)
Lemma locked_on_idle {A : Type} key busy (m : M (nodeState S) goerr A) s r :
  key ∉ nodeLocks s →
  (let s1 := MkNodeState ({[key]} ∪ nodeLocks s) (nodeOS s) (nodeHost s) in m s1 = (r, s1)) →
  locked_on key busy m s = (r, s).
Proof.
  intros Hk Hm. unfold locked_on, node_TryAcquire, VolumeLocks.TryAcquire. rewrite bind_unfold, decide_False by done.
  cbn [negb]. unfold node_defer_Release. rewrite Hm. cbn [nodeLocks nodeOS nodeHost]. f_equal.
  unfold VolumeLocks.Release. destruct s as [l o h]. cbn in *. f_equal. set_solver.
Qed.

(** *** Writing what is there already *)
Lemma put_file_over p content mode t :
  is_dir (look t (parent p)) = true → is_dir (look t p) = false → p ≠ [] →
  ∃ a, put_file p content mode t = (Ok (), <[p := File content a]> t).
Proof.
  intros Hp Hd Hr. unfold put_file. destruct (look t (parent p)) as [[]|]; [|done..].
  destruct (look t p) as [[]|]; [done| |]; eauto.
Qed.

Lemma rename_over old new content a t :
  look t old = Some (File content a) → is_dir (look t (parent new)) = true → is_dir (look t new) = false →
  rename_tree old new t = (Ok (), <[new := File content a]> (delete old t)).
Proof.
  intros Ho Hp Hd. unfold rename_tree. rewrite Ho. destruct (look t (parent new)) as [[]|]; [|done..].
  by destruct (look t new) as [[]|].
Qed.

Lemma updateTokenFile_served key token s :
  served_calls s → plain key → dir_at (keyDir key) s →
  is_dir (look (tree_of s) (mount_root ++ [key; "token"])) = false →
  is_dir (look (tree_of s) (mount_root ++ [key; "token.tmp"])) = false →
  ∃ t, updateTokenFile key token s = (Ok (), with_tree t s).
Proof.
  intros Hf Hk Hd Htok Htmp. unfold dir_at in Hd. rewrite resolve_keyDir in Hd by done.
  assert (∀ c, parent (mount_root ++ [key; c]) = mount_root ++ [key]) as Hpar.
  { intros c. rewrite (app_assoc mount_root [key] [c] : mount_root ++ [key; c] = _). apply parent_snoc. }
  assert (∀ c, mount_root ++ [key; c] ≠ []) as Hne by (intros c; by destruct mount_root).
  unfold updateTokenFile, WriteFile, Rename. rewrite bind_unfold, sys_served by done.
  rewrite resolve_tmpPath, resolve_tokenPath by done.
  set (tmp := mount_root ++ [key; "token.tmp"]) in *. set (tok := mount_root ++ [key; "token"]) in *.
  destruct (put_file_over tmp token 384 (tree_of s)) as [a ->]; [by unfold tmp; rewrite Hpar|done|apply Hne|].
  cbn [fst snd map_err]. rewrite bind_unfold, attempt_unfold', sys_served by done. cbn [with_tree nodeOS files].
  assert (tok ≠ tmp) as Hnt by (intros E; apply app_inv_head in E; done).
  rewrite (rename_over tmp tok token a); cbn [fst snd map_err]; [by eexists|apply look_insert_same|..].
  - unfold tok. rewrite Hpar, look_insert_other; [done|]. intros E%(f_equal length). discriminate E.
  - by rewrite look_insert_other.
Qed.

Lemma addPodReference_there key uid volumeID s :
  served_calls s → well_formed (tree_of s) → plain key → plain uid →
  is_Some (tree_of s !! (mount_root ++ [key; "refs"; uid])) → addPodReference key uid volumeID s = (Ok (), s).
Proof.
  intros Hf Ht Hk Hu Hs. unfold addPodReference. rewrite bind_unfold, attempt_unfold', pathExists_there; [done..|].
  rewrite resolve_refPath by done. by rewrite look_nonroot by (by destruct mount_root).
Qed.

(** Changing the owner and the mode of what is there. *)
Lemma change_there p f t : is_Some (look t p) →
  ∃ t', change_attr p f t = (Ok (), t') ∧ is_Some (look t' p).
Proof.
  intros [n Hn]. unfold change_attr. rewrite Hn. eexists. split; [done|]. rewrite look_insert_same. by eexists.
Qed.

Lemma ownership_served dir fsGroup readOnly s :
  served_calls s → well_formed (tree_of s) → is_Some (look (tree_of s) (resolve dir)) →
  (fsGroup ≠ "" → is_Some (atoi fsGroup)) →
  ∃ t, setVolumeOwnershipTopLevel dir fsGroup readOnly s = (Ok (), with_tree t s).
Proof.
  intros Hf Ht [n Hn] Hg. unfold setVolumeOwnershipTopLevel. pose proof (with_tree_same s Hf) as Hsame.
  destruct readOnly; [by exists (tree_of s); rewrite Hsame|].
  case_decide as Hgr; [by exists (tree_of s); rewrite Hsame|]. destruct (Hg Hgr) as [gid ->].
  unfold Lstat, Lchown_group, Chmod. rewrite bind_unfold, sys_looks by done. cbn [fst].
  rewrite (stat_there _ _ n) by done. cbn [map_err]. rewrite bind_unfold, sys_served by done.
  edestruct (change_there (resolve dir) (λ a, MkAttr (perm a) gid) (tree_of s)) as (t1 & -> & Hn1); [by eexists|].
  cbn [fst snd map_err]. rewrite sys_served by done. cbn [with_tree nodeOS files].
  match goal with |- context [change_attr _ ?f _] => destruct (change_there (resolve dir) f t1 Hn1) as (t2 & -> & _) end.
  by exists t2.
Qed.

(** *** The search for references when there are none *)
Lemma glob_dirs_there t patterns dirs p :
  p ∈ glob_dirs t dirs patterns → p ∈ dirs ∨ is_Some (t !! p).
Proof.
  revert dirs. induction patterns as [|pattern patterns IH]; intros dirs; cbn [glob_dirs]; [by left|].
  intros [Hp|Hp]%IH; [right|by right]. apply list_elem_of_bind in Hp as (d & Hp & _).
  destruct (is_dir _); [|by apply elem_of_nil in Hp].
  apply list_elem_of_fmap in Hp as (n & -> & [_ Hn]%list_elem_of_filter). by apply elem_of_children.
Qed.

Lemma refs_there uid t p :
  bare uid → keys_bare t → p ∈ glob_tree (resolve (Join [GlobalMountRoot; "*"; "refs"; uid])) t →
  ∃ key, bare key ∧ is_Some (t !! (mount_root ++ [key; "refs"; uid])).
Proof.
  intros Hu Hk Hp. pose proof Hp as (key & Hkey & ->)%refs_pattern; [|done..]. exists key. split; [done|].
  rewrite (resolve_global ["*"; "refs"; uid]) in Hp by (repeat constructor; try done; apply Hu).
  unfold glob_tree in Hp. change (split_meta [] (mount_root ++ ["*"; "refs"; uid])) with (mount_root, ["*"; "refs"; uid]) in Hp.
  cbn iota beta in Hp. apply glob_dirs_there in Hp as [Hp|Hp]; [|done].
  by apply list_elem_of_singleton in Hp.
Qed.

Definition no_refs (uid : string) s : Prop := ∀ key, tree_of s !! (mount_root ++ [key; "refs"; uid]) = None.

Lemma cleanUp_without_refs target s :
  served_calls s → keys_bare (tree_of s) →
  (∀ uid, getPodUIDFromTargetPath target = Ok uid → bare uid ∧ no_refs uid s) →
  cleanUpIAMReference target s = (Ok (), s).
Proof.
  intros Hf Hk Hu. unfold cleanUpIAMReference. destruct (getPodUIDFromTargetPath target) as [uid|]; [|done].
  destruct (Hu uid eq_refl) as [Hb Hn]. rewrite bind_unfold, attempt_unfold'.
  assert (glob_tree (resolve (Join [GlobalMountRoot; "*"; "refs"; uid])) (tree_of s) = []) as Hg.
  { destruct (glob_tree _ _) as [|p l] eqn:E; [done|]. destruct (refs_there uid (tree_of s) p) as (key & _ & [n Hs]); [done..| |].
    - rewrite E. by left.
    - by rewrite Hn in Hs. }
  assert (sys (Glob (Join [GlobalMountRoot; "*"; "refs"; uid])) s = (Ok [], s)) as ->; [|done].
  unfold sys, Glob. rewrite ref_pattern_valid, Hf, Hg by done. f_equal. exact (with_tree_same s Hf).
Qed.

Lemma or_status_bind {A B : Type} c msg (a : A) (f : A → M (nodeState S) goerr B) s :
  (or_status c msg (Ok a) ≫= f) s = f a s.
Proof. done. Qed.

(** Claim C23.  Repeating what is done succeeds and changes nothing, neither files nor mounts nor locks: staging again a volume that
    the node reports as mounted; unstaging, and unpublishing from a pod that has no references, a target at which nothing is
    mounted and nothing is left. *)
Theorem repeating_changes_nothing s :
  (∀ req s0 s0', NodeStageVolume driver req s0 = (Ok (), s0') →
     StageTargetPath req ∉ nodeLocks s → reported (StageTargetPath req) s → NodeStageVolume driver req s = (Ok (), s)) ∧
  (∀ volumeID target, volumeID ≠ "" → target ≠ "" → target ∉ nodeLocks s →
     served_calls s → not_reported target s → nothing_at target s → NodeUnstageVolume volumeID target s = (Ok (), s)) ∧
  (∀ target, target ≠ "" → target ∉ nodeLocks s →
     served_calls s → not_reported target s → nothing_at target s → keys_bare (tree_of s) →
     (∀ uid, getPodUIDFromTargetPath target = Ok uid → bare uid ∧ no_refs uid s) →
     NodeUnpublishVolume target s = (Ok (), s)).
Proof.
  assert (∀ t, t ≠ "" → slen t ≠ 0) as Hlen by (intros [|a t] ?; [done|unfold slen; cbn [String.length]; lia]).
  split_and!.
  - intros req s0 s0' Hr Hl Hrep. unfold NodeStageVolume in *. case_decide; [done|].
    apply bind_inv in Hr as (vc & s1 & [Hvc ->]%or_status_inv & Hr). rewrite Hvc, or_status_bind.
    apply bind_inv in Hr as ([ip fsname] & s1 & [Hsrc ->]%or_status_inv & Hr). rewrite Hsrc, or_status_bind.
    case_decide; [done|]. case_decide; [done|]. destruct (StageCapability req) as [cap|]; [|done].
    apply bind_inv in Hr as ([] & s1 & [Hval _]%or_status_inv & _). rewrite Hval, or_status_bind.
    apply locked_on_idle; [done|]. intros s2. by rewrite bind_unfold, attempt_unfold', isMounted_reported.
  - intros volumeID target Hv%Hlen Ht%Hlen Hl Hf Hr Hn. unfold NodeUnstageVolume. rewrite !decide_False by done.
    apply locked_on_idle; [done|]. by apply unmountPath_gone.
  - intros target Ht%Hlen Hl Hf Hr Hn Hk Hu. unfold NodeUnpublishVolume. rewrite decide_False by done.
    apply locked_on_idle; [done|]. intros s1. rewrite bind_unfold, unmountPath_gone by done.
    by rewrite bind_unfold, attempt_unfold', cleanUp_without_refs.
Qed.

(** ** A new token

    A request to publish an IAM volume that passes the checks, with the token it brings, and a node on which the volume is
    published. *)
Record iam_request (req : NodePublishVolumeRequest) (vc : gmap string string) (cap : VolumeCapability) (token : string) : Prop := {
  req_ids : PubVolumeId req ≠ "" ∧ PubStagingPath req ≠ "" ∧ PubTargetPath req ≠ "";
  req_cap : PubCapability req = Some cap ∧ validateVolumeCapabilities driver [Some cap] = Ok ();
  req_context : normalizeVolumeContext (PubContext req) = Ok vc;
  req_iam : to_lower (get vc (normalize keyIAMAccessControlEnabled)) = "true";
  req_names : plain (get vc (normalize keyPodUID)) ∧ get vc (normalize keyPodNamespace) ≠ "" ∧
    get vc (normalize keyServiceAccount) ≠ "";
  req_token : ∃ json, vc !! normalize keyServiceToken = Some json ∧
    parseToken json (GetProject (Metadata (config driver)) +:+ ".svc.id.goog") = Ok token;
  req_group : match GetMount cap with Some m => VolumeMountGroup m = "" ∨ is_Some (atoi (VolumeMountGroup m)) | None => True end;
}.

Record published (key uid target : string) s : Prop := {
  pub_served : served_calls s;
  pub_tree : well_formed (tree_of s);
  pub_dirs : dir_at target s ∧ dir_at (globalMountPath key) s ∧ dir_at (refsDir key) s;
  pub_token : is_dir (look (tree_of s) (mount_root ++ [key; "token"])) = false ∧
    is_dir (look (tree_of s) (mount_root ++ [key; "token.tmp"])) = false;
  pub_ref : is_Some (tree_of s !! (mount_root ++ [key; "refs"; uid]));
  pub_mounts : reported target s ∧ reported (globalMountPath key) s;
}.

Definition set_locks locks s : nodeState S := MkNodeState locks (nodeOS s) (nodeHost s).

(** Under a lock that is free [m] does what it does. *)
Lemma locked_on_free {A : Type} key busy (m : M (nodeState S) goerr A) t s r :
  key ∉ nodeLocks s →
  m (set_locks ({[key]} ∪ nodeLocks s) s) = (r, with_tree t (set_locks ({[key]} ∪ nodeLocks s) s)) →
  locked_on key busy m s = (r, with_tree t s).
Proof.
  intros Hk Hm. unfold locked_on, node_TryAcquire, VolumeLocks.TryAcquire. rewrite bind_unfold, decide_False by done.
  cbn [negb]. unfold node_defer_Release, set_locks in *. rewrite Hm. cbn [nodeLocks nodeOS nodeHost with_tree]. f_equal.
  unfold VolumeLocks.Release, with_tree. f_equal. set_solver.
Qed.

Lemma updateTokenFile_tree key token : keeps tree_kept (updateTokenFile key token : M (nodeState S) goerr ()).
Proof.
  unfold updateTokenFile.
  assert (∀ p c m, keeps tree_kept (sys (WriteFile p c m) : M (nodeState S) goerr ())) by (intros; apply tree_sys; constructor).
  assert (∀ p q, keeps tree_kept (sys (Rename p q) : M (nodeState S) goerr ())) by (intros; apply tree_sys; constructor).
  assert (∀ p, keeps tree_kept (sys (Remove p) : M (nodeState S) goerr ())) by (intros; apply tree_sys; constructor).
  keeps_tac.
Qed.

Lemma published_locked key uid target locks s : published key uid target s → published key uid target (set_locks locks s).
Proof. by intros []. Qed.

(** What a token written over the old one leaves of the files. *)
Lemma token_over key token s :
  served_calls s → well_formed (tree_of s) → plain key → dir_at (keyDir key) s →
  is_dir (look (tree_of s) (mount_root ++ [key; "token"])) = false →
  is_dir (look (tree_of s) (mount_root ++ [key; "token.tmp"])) = false →
  ∃ t a, updateTokenFile key token s = (Ok (), with_tree t s) ∧ well_formed t ∧
    t !! (mount_root ++ [key; "token"]) = Some (File token a) ∧
    ∀ p, p ≠ mount_root ++ [key; "token"] → p ≠ mount_root ++ [key; "token.tmp"] → t !! p = tree_of s !! p.
Proof.
  intros Hf Ht Hk Hd H1t H2t. destruct (updateTokenFile_served key token s Hf Hk Hd H1t H2t) as [t Hu].
  pose proof (updateTokenFile_tree key token s Ht) as Hwf. unfold state_after in Hwf. rewrite Hu in Hwf.
  pose proof (updateTokenFile_spec _ _ _ _ _ Hk Hu) as [[a Ha] Hother]. by exists t, a.
Qed.

Lemma slen_nonempty c : c ≠ "" → slen c ≠ 0.
Proof. destruct c as [|ch c]; [done|]. intros _. unfold slen. cbn [String.length]. lia. Qed.

Lemma publishIAM_again req vc cap token opts s :
  let key := iam_key (PubVolumeId req) (get vc (normalize keyPodNamespace)) (get vc (normalize keyServiceAccount)) in
  let uid := get vc (normalize keyPodUID) in
  iam_request req vc cap token → published key uid (PubTargetPath req) s → key ∉ nodeLocks s →
  ∃ t a, publishIAMVolume driver (PubVolumeId req) (PubTargetPath req) true vc opts cap s = (Ok (), with_tree t s) ∧ well_formed t ∧
    t !! (mount_root ++ [key; "token"]) = Some (File token a) ∧
    ∀ p, p ≠ mount_root ++ [key; "token"] → p ≠ mount_root ++ [key; "token.tmp"] → t !! p = tree_of s !! p.
Proof.
  intros key uid Hreq [Hf Ht (Hdt & Hdg & Hdr) [Htok Htmp] Href [Hrt Hrg]] Hlk.
  destruct Hreq as [_ _ _ _ (Hu & Hns & Hsa) (json & Hj & Htoken) _].
  assert (plain key) as Hk by apply iam_key_plain. pose proof (proj1 Hu) as Hu0.
  unfold publishIAMVolume. do 3 (rewrite decide_False by (apply slen_nonempty; assumption)).
  fold key uid. fold uid in Hu. clearbody key uid.
  set (s1 := set_locks ({[key]} ∪ nodeLocks s) s).
  assert (dir_at (keyDir key) s) as Hdk.
  { eapply dir_look; [done|exact Hdr|]. rewrite resolve_keyDir, resolve_refsDir by done. exists ["refs"]. by rewrite <-app_assoc. }
  destruct (token_over key token s1 Hf Ht Hk Hdk Htok Htmp) as (t & a & Hup & Hwf & Ha & Hother).
  exists t, a. split; [|done]. apply locked_on_free; [done|]. fold s1.
  rewrite bind_unfold, attempt_unfold'. unfold makeGlobalDirs.
  rewrite bind_unfold, (makeDir_there _ s1 Hf Ht Hdg), (makeDir_there _ s1 Hf Ht Hdr).
  rewrite Hj, Htoken, or_status_bind, bind_unfold, attempt_unfold', Hup, bind_unfold, (isMounted_reported _ (with_tree t s1) Hrg).
  cbn [negb]. rewrite bind_unfold. cbn [mret M_ret].
  assert (is_Some (t !! (mount_root ++ [key; "refs"; uid]))) as Href2.
  { rewrite Hother; [done|..]; intros E; apply app_inv_head in E; discriminate E. }
  by rewrite bind_unfold, attempt_unfold', (addPodReference_there key uid _ (with_tree t s1) eq_refl Hwf Hk Hu Href2).
Qed.

(** Claim C10.  Publishing an IAM volume again brings the pod its new token and nothing else: where the volume is published, a request
    that passes the checks succeeds, mounts nothing, keeps the locks, puts its token in place of the old one, and
    changes no other file but the temporary one and the attributes of the target. *)
Theorem republish_refreshes_token req vc cap token s :
  let key := iam_key (PubVolumeId req) (get vc (normalize keyPodNamespace)) (get vc (normalize keyServiceAccount)) in
  iam_request req vc cap token → published key (get vc (normalize keyPodUID)) (PubTargetPath req) s →
  PubTargetPath req ∉ nodeLocks s → key ∉ nodeLocks s → key ≠ PubTargetPath req →
  ∃ s', NodePublishVolume driver req s = (Ok (), s') ∧ nodeHost s' = nodeHost s ∧ nodeLocks s' = nodeLocks s ∧
    (∃ a, tree_of s' !! (mount_root ++ [key; "token"]) = Some (File token a)) ∧
    ∀ p, p ∉ [mount_root ++ [key; "token"]; mount_root ++ [key; "token.tmp"]; resolve (PubTargetPath req)] →
      tree_of s' !! p = tree_of s !! p.
Proof.
  intros key Hreq Hp Hl Hlk Hne. set (target := PubTargetPath req) in *. set (s1 := set_locks ({[target]} ∪ nodeLocks s) s).
  pose proof (published_locked _ _ _ ({[target]} ∪ nodeLocks s) _ Hp) as Hp1. fold s1 in Hp1.
  set (opts := add_flags ("bind" :: (if PubReadonly req then ["ro"] else [])) (mount_flags cap)).
  destruct (publishIAM_again req vc cap token opts s1 Hreq Hp1) as (t1 & a & Hpub & Hwf & Ha & Hother); [set_solver|].
  destruct Hp1 as [Hf Ht (Hd & _) [Htok Htmp] _ [Hrep _]]. destruct Hreq as [(Hv & Hst & Htg) [Hcap Hval] Hvc Hiam _ _ Hgrp].
  fold target key in Hpub, Htg, Ha, Hother. clearbody key.
  set (group := match GetMount cap with Some m => VolumeMountGroup m | None => "" end).
  assert (is_Some (look t1 (resolve target))) as Htgt.
  { unfold dir_at in Hd. destruct (resolve target) as [|c p] eqn:E; [by eexists|]. rewrite look_nonroot, Hother by (done || congruence).
    rewrite look_nonroot in Hd by done. by destruct (tree_of s1 !! (c :: p)). }
  destruct (ownership_served target group (PubReadonly req) (with_tree t1 s1)) as [t2 Hown]; [done..| |].
  { intros Hg. unfold group in *. destruct (GetMount cap) as [m|]; [|done]. by destruct Hgrp. }
  exists (with_tree t2 s). split_and!; [|done|done|..].
  - unfold NodePublishVolume. do 3 (rewrite decide_False by (apply slen_nonempty; assumption)). rewrite Hcap, Hval, Hvc, !or_status_bind.
    assert (equal_fold (get vc (normalize keyIAMAccessControlEnabled)) "true" = true) as -> by (by apply bool_decide_eq_true).
    apply locked_on_free; [done|]. fold target s1 opts group.
    rewrite bind_unfold, attempt_unfold', (makeDir_there target s1 Hf Ht Hd).
    rewrite bind_unfold, (isMounted_reported target s1 Hrep). cbn [negb].
    by rewrite bind_unfold, Hpub, bind_unfold, attempt_unfold', Hown.
  - pose proof (attrs_only_ownership target group (PubReadonly req) (with_tree t1 s1)) as (_ & Hkept & _).
    unfold state_after in Hkept. rewrite Hown in Hkept.
    destruct (Hkept _ token a I Ha) as [a' Ha']. by exists a'.
  - intros p Hp1. rewrite !not_elem_of_cons in Hp1. destruct Hp1 as (Hp1 & Hp2 & Hp3 & _).
    pose proof (frame_ownership (λ q, q ≠ resolve target) (λ _, False) target group (PubReadonly req)) as Hfr.
    destruct (Hfr ltac:(by intros E) (with_tree t1 s1)) as [Hq _]. unfold state_after in Hq. rewrite Hown in Hq.
    specialize (Hq p Hp3). cbn in Hq |- *. by rewrite Hq, Hother.
Qed.
End repeat.

(** ** On the node in memory *)
Definition unstaged : nodeState host_state := state_after (NodeUnstageVolume "p/z/v" (StageTargetPath stage_req)) staged.

Lemma no_refs_pod2 : no_refs "pod2" without_pods.
Proof.
  assert (map_Forall (λ q _, take 2 (reverse q) ≠ ["pod2"; "refs"]) (tree_of without_pods)) as Hall by decided.
  intros key. apply eq_None_not_Some. intros [n Hn]. by apply (Hall _ n Hn).
Qed.

Lemma repeating_changes_nothing_witness :
  NodeStageVolume node_driver stage_req staged = (Ok (), staged) ∧
  NodeUnstageVolume "p/z/v" (StageTargetPath stage_req) unstaged = (Ok (), unstaged) ∧
  NodeUnpublishVolume (target_of "pod2" "v") without_pods = (Ok (), without_pods).
Proof.
  split; [|split].
  - apply (proj1 (repeating_changes_nothing node_driver staged) stage_req fresh_node staged).
    + pose proof (run_state (NodeStageVolume node_driver stage_req) fresh_node (Ok ())) as Hr. apply Hr.
      vm_compute; reflexivity.
    + decided.
    + vm_compute; reflexivity.
  - apply (proj1 (proj2 (repeating_changes_nothing node_driver unstaged))).
    + discriminate.
    + discriminate.
    + decided.
    + vm_compute; reflexivity.
    + exists None. split; [vm_compute; reflexivity|exact I].
    + split; vm_compute; reflexivity.
  - apply (proj2 (proj2 (repeating_changes_nothing node_driver without_pods))).
    + discriminate.
    + decided.
    + vm_compute; reflexivity.
    + exists None. split; [vm_compute; reflexivity|exact I].
    + split; vm_compute; reflexivity.
    + apply keys_bare_check. vm_compute; reflexivity.
    + assert (getPodUIDFromTargetPath (target_of "pod2" "v") = Ok "pod2") as -> by (vm_compute; reflexivity).
      intros uid [= <-]. split; [decided|exact no_refs_pod2].
Defined.

(** The pod's next token. *)
Definition pub1_again := publish_request "p/z/vol" "10.0.0.2@tcp:/lfs" "ns" "pod1" "v" "tok-2".
Definition pub1_context : gmap string string :=
  match normalizeVolumeContext (PubContext pub1_again) with Ok vc => vc | Err _ => ∅ end.

Lemma republish_refreshes_token_witness :
  ∃ s', NodePublishVolume node_driver pub1_again one_pod = (Ok (), s') ∧ nodeHost s' = nodeHost one_pod ∧
    ∃ a, tree_of s' !! (mount_root ++ [pub_key; "token"]) = Some (File "tok-2" a).
Proof.
  assert (∃ cap, node_capability = Some cap) as [cap Hcap] by by eexists.
  assert (iam_request node_driver pub1_again pub1_context cap "tok-2") as Hreq.
  { injection Hcap as <-. split.
    - split_and!; discriminate.
    - split; vm_compute; reflexivity.
    - assert (is_ok (normalizeVolumeContext (PubContext pub1_again)) = true) as Hok by (vm_compute; reflexivity).
      unfold pub1_context. by destruct (normalizeVolumeContext (PubContext pub1_again)).
    - vm_compute; reflexivity.
    - split; [decided|split; vm_compute; discriminate].
    - exists (token_document "test-project.svc.id.goog" "tok-2"). split; vm_compute; reflexivity.
    - left. reflexivity. }
  assert (published pub_key "pod1" (PubTargetPath pub1_again) one_pod) as Hp.
  { split.
    - vm_compute; reflexivity.
    - decided.
    - split_and!; vm_compute; reflexivity.
    - split; vm_compute; reflexivity.
    - decided.
    - split; vm_compute; reflexivity. }
  assert (iam_key (PubVolumeId pub1_again) (get pub1_context (normalize keyPodNamespace))
    (get pub1_context (normalize keyServiceAccount)) = pub_key) as Hkey by (vm_compute; reflexivity).
  assert (get pub1_context (normalize keyPodUID) = "pod1") as Huid by (vm_compute; reflexivity).
  pose proof (republish_refreshes_token node_driver pub1_again pub1_context cap "tok-2" one_pod) as Hre. cbv zeta in Hre.
  rewrite Hkey, Huid in Hre.
  destruct (Hre Hreq Hp) as (s' & Hr & Hh & _ & Ht & _); [decided|decided|decided|].
  exists s'. split_and!; [exact Hr|exact Hh|exact Ht].
Defined.
