(* ===== verification/NodeRuns.v ===== *)
(** * Where the bookkeeping of IAM volumes goes wrong

    Three ways, each as a theorem about every node and every request of the kind, and as a run of the node in memory
    of NodeHost.v: the references of a pod do not tell its volumes apart, two volumes can share a key, and an unpublication whose
    unmount failed cannot be repeated. *)
From S2P Require Import Prelude GoStr Regex GoErr Util Instance Params Csi Driver Network NetworkSpec Sha256 Json FS Node NodeHost NodeFrame NodeSpec NodeTree NodeSteps NodePool NodeRelease NodeCycle NodeRepeat.

Local Open Scope string_scope.
Local Open Scope list_scope.
Local Open Scope Z_scope.

(** ** What an unpublication keeps *)
Section runs.
Context {S : Type} `{GlobalMountLaws S} `{!UmountLaws S} `{MapRange}.
Context (driver : LustreDriver).
Implicit Types s : nodeState S.

(** What unmounting the target, the search and the cleanup of the keys that the pod refers to keep, an unpublication keeps. *)
Lemma unpublish_keeps (P : relation (nodeState S)) `{!PreOrder P} target uid s :
  getPodUIDFromTargetPath target = Ok uid → bare uid → outside target → keys_bare (tree_of s) →
  (∀ l s, P s (set_locks l s)) → keeps P (unmountPath target) → (∀ p, keeps P (sys (Glob p))) →
  (∀ key, bare key → has_reference key uid s → keeps P (cleanUpIAMReferenceForKey key (path_string (ref_of key uid)))) →
  P s (state_after (NodeUnpublishVolume target) s).
Proof.
  intros Hid Hu Ho Hkeys Hl Hun Hglob Hclean. unfold NodeUnpublishVolume. case_decide; [reflexivity|].
  unfold state_after, locked_on, node_TryAcquire, VolumeLocks.TryAcquire. rewrite bind_unfold. case_decide; [destruct s; reflexivity|].
  cbn [negb]. unfold node_defer_Release. set (s0 := MkNodeState _ _ _). rewrite bind_unfold.
  assert (P s s0) as Hs0 by apply (Hl _ s). pose proof (Hun s0) as Hs1. unfold state_after in Hs1.
  pose proof (frame_unmountPath _ _ _ (outside_apart _ Ho) s0) as [Hout _]. unfold state_after in Hout.
  destruct (unmountPath target s0) as [[[]|e] s1]; cbn [snd] in *; [|etransitivity; [exact Hs0|etransitivity; [exact Hs1|apply (Hl _ s1)]]].
  assert (P s1 (state_after (cleanUpIAMReference target) s1)) as Hs2.
  { unfold state_after, cleanUpIAMReference. rewrite Hid, bind_unfold, attempt_unfold'.
    pose proof (Hglob (Join [GlobalMountRoot; "*"; "refs"; uid]) s1) as Hg. unfold state_after in Hg.
    destruct (sys (Glob _) s1) as [r s2] eqn:E. cbn [snd] in Hg. destruct r as [matches|err]; [|exact Hg].
    assert (keeps P (errs ← clean_up_refs matches;
      if decide (0 < length errs)%nat then fail (join_errors errs) else mret ())) as Hk; [|etransitivity; [exact Hg|apply Hk]].
    eapply keeps_bind; [apply _| |intros errs; case_decide; [apply keeps_fail|apply keeps_ret]; apply _].
    assert (Forall (λ m, ∃ key, bare key ∧ has_reference key uid s ∧ m = path_string (ref_of key uid)) matches) as Hm.
    { apply sys_inv in E as (o & E & ->). apply Forall_forall. intros m Hm.
      apply (Glob_sound _ _ _ _ _ E) in Hm as (_ & p & -> & Hp). pose proof Hp as (key & Hkey & ->)%refs_pattern; [|done|].
      - exists key. split_and!; [done| |done]. change (files (nodeOS s1)) with (tree_of s1) in Hp.
        rewrite (resolve_global ["*"; "refs"; uid]) in Hp by (repeat constructor; try done; apply Hu).
        unfold glob_tree in Hp. change (split_meta [] (mount_root ++ ["*"; "refs"; uid])) with (mount_root, ["*"; "refs"; uid]) in Hp.
        cbn iota beta in Hp. apply glob_dirs_there in Hp as [Hp|Hp]; [by apply list_elem_of_singleton in Hp|].
        rewrite Hout in Hp; [done|]. apply below_spec; eauto.
      - intros k Hk'. apply Hkeys. rewrite Hout in Hk'; [done|]. apply below_spec. eauto. }
    clear E. induction Hm as [|m matches (key & Hkey & Href & ->) Hm IH]; cbn [clean_up_refs]; [apply keeps_ret; apply _|].
    destruct (find_submatch _ _) as [c|] eqn:E; [|done]. rewrite (iam_key_of_ref _ _ _ Hkey Hu E).
    pose proof (Hclean key Hkey Href). keeps_tac. }
  rewrite bind_unfold, attempt_unfold'. unfold state_after in Hs2. destruct (cleanUpIAMReference target s1) as [r s2]. cbn [snd] in Hs2.
  etransitivity; [exact Hs0|]. etransitivity; [exact Hs1|]. etransitivity; [exact Hs2|]. destruct r; apply (Hl _ s2).
Qed.

(** A mount at another target stays. *)
Lemma unpublish_keeps_mount target uid p s :
  getPodUIDFromTargetPath target = Ok uid → bare uid → outside target → keys_bare (tree_of s) → outside p → p ≠ target →
  mounted (nodeHost s) p → mounted (nodeHost (state_after (NodeUnpublishVolume target) s)) p.
Proof.
  intros Hid Hu Ho Hkeys Hp Hne. set (P := λ s s' : nodeState S, mounted (nodeHost s) p → mounted (nodeHost s') p).
  assert (PreOrder P) as HP by (split; unfold P; [by intros ?|intros ???; tauto]).
  assert (∀ (A : Type) (m : M os goerr A), keeps P (sys m)) as Hsys.
  { intros A m s1. unfold P. by rewrite host_of_sys. }
  assert (∀ t, t ≠ p → keeps P (unmountPath t)) as Hun.
  { intros t Ht. assert (∀ l a, keeps P (host_pair (umount l (a ++ [t])))) as Hu'.
    { intros l a s1. unfold P, state_after, host_pair.
      pose proof (umount_others l (a ++ [t]) p (nodeHost s1)) as Ho'. rewrite last_snoc in Ho'.
      destruct (umount _ _ _) as [r h]. apply Ho'. congruence. }
    pose proof (λ l, Hu' l []) as Hu1. pose proof (λ l, Hu' l ["-f"]) as Hu2. pose proof (λ l, Hu' l ["-l"]) as Hu3. cbn in *.
    assert (keeps P (host_pair (IsLikelyNotMountPoint t))) by (intros s1; unfold P, state_after; by rewrite host_pair_likely).
    pose proof (Hsys _ (Remove t)). unfold unmountPath, removeDir, status. keeps_tac. }
  apply (unpublish_keeps P target uid); [done..|by intros l s1 Hx|by apply Hun|intros q; apply Hsys|].
  intros key Hk _. assert (keeps P (unmountPath (globalMountPath key))) by (apply Hun; by apply outside_not_global).
  pose proof (λ q, Hsys _ (Remove q)). pose proof (λ q, Hsys _ (RemoveAll q)).
  unfold cleanUpIAMReferenceForKey. intros s1. unfold state_after, locked_on, node_TryAcquire, VolumeLocks.TryAcquire.
  rewrite bind_unfold. case_decide; [by unfold P|]. cbn [negb]. unfold node_defer_Release.
  match goal with |- context [?m (MkNodeState ?l _ _)] => set (body := m); set (s2 := MkNodeState l _ _) end.
  assert (keeps P body) as Hb by (subst body; keeps_tac). specialize (Hb s2). unfold state_after in Hb. destruct (body s2) as [r s3]. exact Hb.
Qed.

(** ** One pod with two volumes *)

(** Claim C28.  References are found by the pod alone.  On a node whose calls are served, where a pod publishes an IAM volume under an
    unused key, a successful unpublication of any other volume of the pod, at another target, takes the pod's reference to
    the first volume, unmounts its global path and deletes its token, while the first volume is still mounted at its
    target and has never been unpublished. *)
Theorem unpublish_drops_other_volume req vc target s s1 s2 :
  let key := iam_key (PubVolumeId req) (get vc (normalize keyPodNamespace)) (get vc (normalize keyServiceAccount)) in
  let uid := get vc (normalize keyPodUID) in
  keys_bare (tree_of s) → well_formed (tree_of s) → faults (nodeOS s) = [] →
  outside (PubTargetPath req) → outside target → PubTargetPath req ≠ target →
  getPodUIDFromTargetPath target = Ok uid → bare uid →
  normalizeVolumeContext (PubContext req) = Ok vc → to_lower (get vc (normalize keyIAMAccessControlEnabled)) = "true" →
  released key s →
  NodePublishVolume driver req s = (Ok (), s1) → NodeUnpublishVolume target s1 = (Ok (), s2) →
  is_Some (tree_of s1 !! (mount_root ++ [key; "refs"; uid])) ∧
  mounted (nodeHost s2) (PubTargetPath req) ∧
  ¬ mounted (nodeHost s2) (globalMountPath key) ∧ ∀ l, tree_of s2 !! (mount_root ++ key :: l) = None.
Proof.
  intros key uid Hi Hwf Hf Ho Hot Hne Hid Hu Hvc Hiam Hrel Hpub Hun.
  destruct (published_then_released driver req vc target s s1 s2) as ((Hr & _ & Hm) & Hi1 & Hrel2); [done..|].
  pose proof (unpublish_keeps_mount target uid (PubTargetPath req) s1 Hid Hu Hot Hi1 Ho Hne Hm) as Hm2.
  unfold state_after in Hm2. rewrite Hun in Hm2. split_and!; [exact Hr|exact Hm2|apply Hrel2..].
Qed.

(** ** Two volumes with one key *)

(** The volume ID and the namespace are hashed without anything between them. *)
Lemma iam_key_ambiguous volumeID1 namespace1 volumeID2 namespace2 saName :
  volumeID1 +:+ namespace1 = volumeID2 +:+ namespace2 → iam_key volumeID1 namespace1 saName = iam_key volumeID2 namespace2 saName.
Proof. intros E. unfold iam_key. by rewrite !app_assoc_str, E. Qed.

#[local] Existing Instance same_host_preorder.

Lemma same_host_after {A : Type} (m : M (nodeState S) goerr A) s r s' : keeps same_host m → m s = (r, s') → nodeHost s' = nodeHost s.
Proof. intros Hm E. specialize (Hm s). unfold state_after in Hm. by rewrite E in Hm. Qed.

(** Where the global path is reported as mounted, a publication does nothing to the rest of the node but bind it at the target. *)
Lemma publishIAM_binds v t vc opts cap s s' :
  let key := iam_key v (get vc (normalize keyPodNamespace)) (get vc (normalize keyServiceAccount)) in
  publishIAMVolume driver v t false vc opts cap s = (Ok (), s') → reported (globalMountPath key) s →
  nodeHost s' = state_after (MountSensitiveWithoutSystemd (globalMountPath key) t "lustre" opts) (nodeHost s).
Proof.
  intros key. unfold publishIAMVolume. fold key. generalize key. clear key. intros key.
  pose proof (@same_host_sys S) as Hsys. do 3 (case_decide; [done|]). intros (_ & s1 & Hr & ->)%locked_on_inv Hrep. cbn [nodeHost].
  set (s0 := MkNodeState _ _ _) in Hr. change (reported (globalMountPath key) s0) in Hrep. change (nodeHost s) with (nodeHost s0). clearbody s0.
  apply bind_inv in Hr as (d & s2 & Hd%attempt_inv & Hr). destruct d; [|done].
  apply same_host_after in Hd; [|unfold makeGlobalDirs, makeDir; keeps_tac].
  destruct (vc !! normalize keyServiceToken) as [json|]; [|done]. apply bind_inv in Hr as (token & s3 & [_ ->]%or_status_inv & Hr).
  apply bind_inv in Hr as (u & s4 & Hu%attempt_inv & Hr). destruct u; [|done].
  apply same_host_after in Hu; [|unfold updateTokenFile; keeps_tac].
  rewrite bind_unfold, isMounted_reported in Hr by (unfold reported in *; by rewrite Hu, Hd).
  apply bind_inv in Hr as ([] & s5 & [= <-] & Hr). apply bind_inv in Hr as (r & s6 & Ha%attempt_inv & Hr). destruct r; [|done].
  apply same_host_after in Ha; [|unfold addPodReference, pathExists; keeps_tac].
  apply bind_inv in Hr as (r & s7 & (h & Hm & ->)%attempt_inv%host_inv & Hr).
  destruct r as [[]|]; [|by apply bind_inv in Hr as (? & ? & _ & (? & ? & _ & ?)%bind_inv)].
  injection Hr as <-. cbn. unfold state_after. by rewrite <-Hd, <-Hu, <-Ha, Hm.
Qed.

(** Claim C29.  Volumes can share a key.  If the ID of a volume and the namespace of a pod read one after the other are those of another
    volume and pod, with the same service account, then after the publication of the first one a successful publication of
    the second one mounts nothing of its own volume, whatever address and filesystem its context has: all it does to the mounts
    is to bind the global path of the first one's filesystem at its target. *)
Theorem key_collision_mounts_other_volume req1 vc1 req2 vc2 s s1 s2 cap :
  let key := iam_key (PubVolumeId req1) (get vc1 (normalize keyPodNamespace)) (get vc1 (normalize keyServiceAccount)) in
  normalizeVolumeContext (PubContext req1) = Ok vc1 → to_lower (get vc1 (normalize keyIAMAccessControlEnabled)) = "true" →
  normalizeVolumeContext (PubContext req2) = Ok vc2 → to_lower (get vc2 (normalize keyIAMAccessControlEnabled)) = "true" →
  PubVolumeId req1 +:+ get vc1 (normalize keyPodNamespace) = PubVolumeId req2 +:+ get vc2 (normalize keyPodNamespace) →
  get vc1 (normalize keyServiceAccount) = get vc2 (normalize keyServiceAccount) →
  plain (get vc1 (normalize keyPodUID)) → PubTargetPath req1 ≠ globalMountPath key → PubCapability req2 = Some cap →
  NodePublishVolume driver req1 s = (Ok (), s1) → NodePublishVolume driver req2 s1 = (Ok (), s2) →
  reported (globalMountPath key) s1 → not_reported (PubTargetPath req2) s1 →
  mounted (nodeHost s1) (globalMountPath key) ∧
  nodeHost s2 = state_after (MountSensitiveWithoutSystemd (globalMountPath key) (PubTargetPath req2) "lustre"
    (add_flags ("bind" :: (if PubReadonly req2 then ["ro"] else [])) (mount_flags cap))) (nodeHost s1).
Proof.
  intros key Hvc1 Hiam1 Hvc2 Hiam2 Hcat Hsa Hu Hne Hcap Hp1 Hp2 Hrep (err & Hl & Herr).
  split; [by apply (NodePublishVolume_iam_ok driver routes_keep req1 s s1 vc1 Hp1 Hvc1 Hiam1 Hu Hne)|].
  assert (key = iam_key (PubVolumeId req2) (get vc2 (normalize keyPodNamespace)) (get vc2 (normalize keyServiceAccount))) as Hkey.
  { unfold key. rewrite Hsa. by apply iam_key_ambiguous. }
  clearbody key. pose proof (@same_host_sys S) as Hsys.
  revert Hp2. unfold NodePublishVolume. do 3 (case_decide; [done|]). rewrite Hcap. cbn zeta.
  intros ([] & sa & [_ ->]%or_status_inv & Hr)%bind_inv. rewrite Hvc2, or_status_bind in Hr.
  assert (equal_fold (get vc2 (normalize keyIAMAccessControlEnabled)) "true" = true) as Heq by (by apply bool_decide_eq_true).
  rewrite Heq in Hr. apply locked_on_inv in Hr as (_ & sb & Hr & ->). cbn [nodeHost].
  set (s0 := MkNodeState _ _ _) in Hr. change (reported (globalMountPath key) s0) in Hrep.
  change (nodeHost s1) with (nodeHost s0) in Hl |- *. clearbody s0.
  apply bind_inv in Hr as (d & s3 & Hd%attempt_inv & Hr). destruct d; [|done].
  apply same_host_after in Hd; [|unfold makeDir; keeps_tac].
  assert (isMounted (PubTargetPath req2) s3 = (Ok false, s3)) as Hm.
  { unfold isMounted. rewrite bind_unfold, host_pair_likely, Hd, Hl. destruct err as [e|]; [by rewrite Herr|done]. }
  rewrite bind_unfold, Hm in Hr. apply bind_inv in Hr as ([] & s4 & Hpub & Hr).
  apply publishIAM_binds in Hpub; rewrite <-Hkey in *; [|unfold reported in *; by rewrite Hd].
  rewrite Hd in Hpub. apply bind_inv in Hr as (r & s5 & Hown%attempt_inv & Hr).
  match type of Hown with setVolumeOwnershipTopLevel ?d ?g ?ro _ = _ => pose proof (attrs_only_ownership d g ro s4) as Hao end.
  unfold state_after in Hao. rewrite Hown in Hao. destruct Hao as (Hh & _).
  destruct r; [|by apply bind_inv in Hr as (? & ? & _ & ?)]. injection Hr as <-. cbn [snd] in Hh. by rewrite Hh.
Qed.

(** ** An unpublication that is repeated *)

(** As long as the global path is mounted it was before, and the token is not taken away. *)
Definition guards (key : string) : relation (nodeState S) := λ s s',
  mounted (nodeHost s') (globalMountPath key) →
  mounted (nodeHost s) (globalMountPath key) ∧ (has_token key s → has_token key s').

#[local] Instance guards_preorder key : PreOrder (guards key).
Proof.
  split; [by intros s|]. intros s1 s2 s3 H12 H23 Hm. destruct (H23 Hm) as [Hm2 Ht2]. destruct (H12 Hm2) as [Hm1 Ht1]. auto.
Qed.

Lemma guards_frame (Q : path → Prop) K key s s' :
  fades s s' → frame Q K s s' → Q (mount_root ++ [key; "token"]) → guards key s s'.
Proof. intros (_ & Hm & _) Hf Hq Hmt. split; [by apply Hm|by eapply frame_token]. Qed.

Lemma guards_cleanUp key key' uid :
  all_hex key = true → bare key → bare key' → bare uid →
  keeps (guards key) (cleanUpIAMReferenceForKey key' (path_string (ref_of key' uid))).
Proof.
  intros Hx Hk Hk' Hu. destruct (decide (key' = key)) as [->|Hne].
  2:{ intros s. eapply guards_frame; [apply fades_cleanUp|apply (key_cleanUp key' Hk' uid), Hu|]. by exists key, ["token"]. }
  assert (∀ p, resolve p ≠ mount_root ++ [key; "token"] → keeps (guards key) (sys (Remove p))) as Hrm.
  { intros p Hp s. eapply (guards_frame (λ q, q ≠ resolve p) (λ _, False)); [apply fades_Remove| |done].
    apply (frame_sys (λ q, q ≠ resolve p) _ (eq (resolve p))); [apply touches_Remove|congruence]. }
  assert (keeps (guards key) (sys (Remove (path_string (ref_of key uid))))).
  { apply Hrm. rewrite resolve_ref by done. intros E. apply app_inv_head in E. discriminate E. }
  assert (keeps (guards key) (sys (Remove (refsDir key)))).
  { apply Hrm. rewrite resolve_refsDir by apply Hk. intros E. apply app_inv_head in E. discriminate E. }
  assert (keeps (guards key)
    (unm ← attempt (unmountPath (globalMountPath key));
     match unm with
     | Err err => fail (ErrWrap ("failed to unmount global path " +:+ quote (globalMountPath key) +:+ ": " +:+ error_text err) err)
     | Ok _ =>
         rm ← attempt (sys (RemoveAll (keyDir key)));
         match rm with
         | Err err => fail (ErrText ("failed to clean up global directories for key " +:+ key +:+ ": " +:+ error_text err))
         | Ok _ => mret ()
         end
     end : M (nodeState S) goerr ())) as Hlast.
  { intros s. unfold state_after. rewrite bind_unfold, attempt_unfold'. pose proof (fades_unmountPath (globalMountPath key) s) as Hf.
    pose proof (frame_unmountPath (λ q, q = mount_root ++ [key; "token"]) (λ _, False) (globalMountPath key)) as Hfr.
    specialize (Hfr ltac:(split; [rewrite bare_path by done; intros E; apply app_inv_head in E; discriminate E|done]) s).
    pose proof (unmount_global_ok key s) as Hok. unfold state_after in Hf, Hfr.
    destruct (unmountPath (globalMountPath key) s) as [[[]|err] s1]; cbn [snd] in *.
    - specialize (Hok s1 Hx Hk eq_refl). rewrite bind_unfold, attempt_unfold'.
      destruct (sys (RemoveAll (keyDir key)) s1) as [r s2] eqn:E. apply sys_inv in E as (o & _ & ->).
      destruct r; intros Hm; by destruct Hok.
    - eapply guards_frame; [exact Hf|exact Hfr|done]. }
  unfold cleanUpIAMReferenceForKey. intros s. unfold state_after, locked_on, node_TryAcquire, VolumeLocks.TryAcquire.
  rewrite bind_unfold. case_decide; [by destruct s|]. cbn [negb]. unfold node_defer_Release.
  match goal with |- context [?m (MkNodeState ?l _ _)] => set (body := m); set (s2 := MkNodeState l _ _) end.
  assert (keeps (guards key) body) as Hb by (subst body; repeat first [assumption|keeps_step]). specialize (Hb s2). unfold state_after in Hb.
  destruct (body s2) as [r s3]. exact Hb.
Qed.

(** Claim C30.  An unpublication whose unmount failed cannot be repeated.  On a node whose calls are served, where a pod has its only
    reference under a key that no other pod refers to, an unpublication that removes the reference but leaves the global path
    mounted has failed, and the token is still on disk.  A retry with the files as they are now, when the target is gone, reports
    success and changes nothing, even if the global path could be unmounted by then: its mount and the token stay. *)
Theorem unpublish_retry_leaks_global_mount target uid key s r s1 :
  target ≠ "" → getPodUIDFromTargetPath target = Ok uid → bare uid → outside target → bare key → all_hex key = true →
  well_formed (tree_of s) → keys_bare (tree_of s) → faults (nodeOS s) = [] →
  (∀ k, is_Some (tree_of s !! (mount_root ++ [k; "refs"; uid])) ↔ k = key) → alone key uid s →
  NodeUnpublishVolume target s = (r, s1) →
  tree_of s1 !! (mount_root ++ [key; "refs"; uid]) = None → mounted (nodeHost s1) (globalMountPath key) →
  (∃ err, r = Err err) ∧ (has_token key s → has_token key s1) ∧
  ∀ s2, tree_of s2 = tree_of s1 → served_calls s2 → target ∉ nodeLocks s2 →
    not_reported target s2 → nothing_at target s2 → NodeUnpublishVolume target s2 = (Ok (), s2).
Proof.
  intros Hne Hid Hu Ho Hk Hx Hwf Hkeys Hf Honly Halone Hr Hgone Hm.
  assert (is_Some (tree_of s !! ref_of key uid)) as Href by by apply Honly.
  assert (fades s s1) as Hfd.
  { pose proof (unpublish_keeps fades target uid s Hid Hu Ho Hkeys) as Hkp. unfold state_after in Hkp. rewrite Hr in Hkp. apply Hkp.
    - intros l s0. split; [by intros p|by split].
    - apply fades_unmountPath.
    - intros p. apply fades_Glob.
    - intros k _ _. apply fades_cleanUp. }
  split; [|split].
  - destruct r as [[]|err]; [exfalso|by eexists].
    destruct (unpublish_released target uid s s1 Hid Hu Ho Hwf Hkeys Hf Hr key Hk) as [_ Hrel].
    by destruct (Hrel Hx Href Halone).
  - pose proof (unpublish_keeps (guards key) target uid s Hid Hu Ho Hkeys) as Hkp. unfold state_after in Hkp. rewrite Hr in Hkp.
    apply Hkp; [| | | |exact Hm].
    + by intros l s0.
    + intros s0. eapply guards_frame; [apply fades_unmountPath|apply (frame_unmountPath _ _ _ (outside_apart _ Ho))|].
      apply below_spec; eauto.
    + intros p s0. eapply (guards_frame (λ _, True) (λ _, False)); [apply fades_Glob| |done].
      eapply frame_sys; [apply touches_Glob|auto].
    + intros k Hk' _. by apply guards_cleanUp.
  - intros s2 Ht2 Hf2 Hl2 Hrep2 Hgone2. unfold NodeUnpublishVolume. rewrite decide_False by by apply slen_nonempty.
    apply locked_on_idle; [done|]. intros s3. rewrite bind_unfold, unmountPath_gone by done. rewrite bind_unfold, attempt_unfold'.
    rewrite cleanUp_without_refs; [done|done| |].
    + intros k Hs. change (tree_of s3) with (tree_of s2) in Hs. rewrite Ht2 in Hs. by apply Hkeys, (proj1 Hfd).
    + intros uid' Hid'. rewrite Hid in Hid'. injection Hid' as <-. split; [done|]. intros k.
      change (tree_of s3) with (tree_of s2). rewrite Ht2. destruct (decide (k = key)) as [->|Hkey]; [done|].
      eapply fades_gone; [exact Hfd|]. apply eq_None_not_Some. by intros ?%Honly.
Qed.
End runs.

(** ** Runs of the node in memory *)

(** What can be observed of a node: a path is mounted, the device it shows, a path exists. *)
Definition is_mounted (s : nodeState host_state) (p : string) : bool := bool_decide (p ∈ mount_points (nodeHost s)).
Definition devices_at (s : nodeState host_state) (p : string) : list string :=
  Device <$> filter (λ m, MountPath m = p) (mtab (nodeHost s)).
Definition exists_path (s : nodeState host_state) (p : string) : bool :=
  bool_decide (is_Some (look (tree_of s) (resolve p))).

(** Each request succeeds, and the state it leaves. *)
Definition succeeds (m : M (nodeState host_state) goerr ()) (s : nodeState host_state) : bool := is_ok (m s).1.

Definition context_of (req : NodePublishVolumeRequest) : gmap string string :=
  match normalizeVolumeContext (PubContext req) with Ok vc => vc | Err _ => ∅ end.

Lemma context_of_ok req : is_ok (normalizeVolumeContext (PubContext req)) = true → normalizeVolumeContext (PubContext req) = Ok (context_of req).
Proof. unfold context_of. by destruct (normalizeVolumeContext (PubContext req)). Qed.

Lemma succeeds_ok (m : M (nodeState host_state) goerr ()) s : succeeds m s = true → m s = (Ok (), state_after m s).
Proof. unfold succeeds, state_after. by destruct (m s) as [[[]|] s']. Qed.

(** *** One pod with two volumes *)
Definition req_a := publish_request "p/z/vola" "10.0.0.2@tcp:/fsa" "ns" "pod1" "va" "tok".
Definition req_b := publish_request "p/z/volb" "10.0.0.3@tcp:/fsb" "ns" "pod1" "vb" "tok".
Definition key_a : string := iam_key "p/z/vola" "ns" "sa".
Definition key_b : string := iam_key "p/z/volb" "ns" "sa".
Definition with_a : nodeState host_state := state_after (publish req_a) fresh_node.
Definition with_ab : nodeState host_state := state_after (publish req_b) with_a.
Definition without_a : nodeState host_state := state_after (NodeUnpublishVolume (target_of "pod1" "va")) with_ab.

Lemma key_b_is : iam_key (PubVolumeId req_b) (get (context_of req_b) (normalize keyPodNamespace))
  (get (context_of req_b) (normalize keyServiceAccount)) = key_b.
Proof. vm_compute. reflexivity. Qed.

Lemma unpublish_drops_other_volume_witness :
  is_Some (tree_of with_ab !! (mount_root ++ [key_b; "refs"; "pod1"])) ∧
  mounted (nodeHost without_a) (target_of "pod1" "vb") ∧ ¬ mounted (nodeHost without_a) (globalMountPath key_b).
Proof.
  assert (get (context_of req_b) (normalize keyPodUID) = "pod1") as Huid by (vm_compute; reflexivity).
  pose proof (unpublish_drops_other_volume node_driver req_b (context_of req_b) (target_of "pod1" "va") with_a with_ab without_a) as Hd.
  cbv zeta in Hd. rewrite key_b_is, Huid in Hd. destruct Hd as (Hr & Hm & Hn & _).
  - apply keys_bare_check. vm_compute; reflexivity.
  - decided.
  - vm_compute; reflexivity.
  - vm_compute; reflexivity.
  - vm_compute; reflexivity.
  - decided.
  - vm_compute; reflexivity.
  - decided.
  - apply context_of_ok. vm_compute; reflexivity.
  - vm_compute; reflexivity.
  - split.
    + change (globalMountPath key_b ∉ mount_points (nodeHost with_a)). decided.
    + intros l. apply eq_None_not_Some. intros [n Hl].
      assert (map_Forall (λ q _, q !! 4%nat ≠ Some key_b) (tree_of with_a)) as Hall by decided.
      refine (Hall _ n Hl _). reflexivity.
  - apply succeeds_ok. vm_compute; reflexivity.
  - apply succeeds_ok. vm_compute; reflexivity.
  - split_and!; [exact Hr|exact Hm|exact Hn].
Defined.

(** The second volume after the first one has been unpublished: at its target, and nowhere else. *)
Definition seen_of_b (s : nodeState host_state) : bool * bool * bool * bool :=
  (is_mounted s (target_of "pod1" "vb"), is_mounted s (globalMountPath key_b),
   exists_path s (refPath key_b "pod1"), exists_path s (tokenPath key_b)).

Example two_volumes_run : seen_of_b with_ab = (true, true, true, true) ∧ seen_of_b without_a = (true, false, false, false).
Proof. vm_compute. split; reflexivity. Qed.

(** *** Two volumes with one key *)
Definition req_1 := publish_request "p/z/vol" "10.0.0.2@tcp:/fsa" "1ns" "pod1" "v" "tok".
Definition req_2 := publish_request "p/z/vol1" "10.0.0.3@tcp:/fsb" "ns" "pod2" "v" "tok".
Definition with_1 : nodeState host_state := state_after (publish req_1) fresh_node.
Definition with_12 : nodeState host_state := state_after (publish req_2) with_1.
Definition key_12 : string := iam_key "p/z/vol" "1ns" "sa".

Lemma key_collision_mounts_other_volume_witness :
  nodeHost with_12 = state_after (MountSensitiveWithoutSystemd (globalMountPath key_12) (target_of "pod2" "v") "lustre"
    ["bind"; "flock"]) (nodeHost with_1).
Proof.
  assert (iam_key (PubVolumeId req_1) (get (context_of req_1) (normalize keyPodNamespace))
    (get (context_of req_1) (normalize keyServiceAccount)) = key_12) as Hkey by (vm_compute; reflexivity).
  assert (∃ cap, node_capability = Some cap ∧ add_flags ["bind"] (mount_flags cap) = ["bind"; "flock"]) as (cap & Hcap & Hopts)
    by (eexists; split; [reflexivity|vm_compute; reflexivity]).
  pose proof (key_collision_mounts_other_volume node_driver req_1 (context_of req_1) req_2 (context_of req_2) fresh_node with_1 with_12 cap) as Hd.
  cbv zeta in Hd. rewrite Hkey in Hd. rewrite <-Hopts. refine (proj2 (Hd _ _ _ _ _ _ _ _ Hcap _ _ _ _)).
  - apply context_of_ok. vm_compute; reflexivity.
  - vm_compute; reflexivity.
  - apply context_of_ok. vm_compute; reflexivity.
  - vm_compute; reflexivity.
  - vm_compute; reflexivity.
  - vm_compute; reflexivity.
  - decided.
  - vm_compute. discriminate.
  - apply succeeds_ok. vm_compute; reflexivity.
  - apply succeeds_ok. vm_compute; reflexivity.
  - vm_compute; reflexivity.
  - exists None. split; [vm_compute; reflexivity|exact I].
Defined.

(** The second pod asked for [fsb] and finds [fsa]. *)
Example collision_run : devices_at with_12 (target_of "pod2" "v") = ["10.0.0.2@tcp:/fsa"].
Proof. vm_compute. reflexivity. Qed.

(** *** A retry after a failed unmount *)
Definition busy (p : string) (s : nodeState host_state) : nodeState host_state :=
  MkNodeState (nodeLocks s) (nodeOS s) (MkHost (mtab (nodeHost s)) [p] (hnet (nodeHost s)) []).
Definition idle (s : nodeState host_state) : nodeState host_state :=
  MkNodeState (nodeLocks s) (nodeOS s) (MkHost (mtab (nodeHost s)) [] (hnet (nodeHost s)) []).
Lemma idle_tree s : tree_of (idle s) = tree_of s.
Proof. reflexivity. Qed.
Definition with_busy_a : nodeState host_state := busy (globalMountPath key_a) with_a.
Definition failed : result goerr () * nodeState host_state := NodeUnpublishVolume (target_of "pod1" "va") with_busy_a.

Lemma unpublish_retry_leaks_global_mount_witness :
  (∃ err, failed.1 = Err err) ∧ NodeUnpublishVolume (target_of "pod1" "va") (idle failed.2) = (Ok (), idle failed.2) ∧
  mounted (nodeHost (idle failed.2)) (globalMountPath key_a).
Proof.
  assert (getPodUIDFromTargetPath (target_of "pod1" "va") = Ok "pod1") as Hid by (vm_compute; reflexivity).
  destruct (unpublish_retry_leaks_global_mount (target_of "pod1" "va") "pod1" key_a with_busy_a failed.1 failed.2) as (He & _ & Hretry).
  - discriminate.
  - exact Hid.
  - decided.
  - vm_compute; reflexivity.
  - decided.
  - vm_compute; reflexivity.
  - decided.
  - apply keys_bare_check. vm_compute; reflexivity.
  - vm_compute; reflexivity.
  - intros k. split; [|intros ->; decided]. intros [n Hn].
    assert (map_Forall (λ q _, q !! 5%nat = Some "refs" → q !! 6%nat ≠ None → q !! 4%nat = Some key_a) (tree_of with_busy_a)) as Hall by decided.
    specialize (Hall _ n Hn eq_refl ltac:(discriminate)). by injection Hall.
  - intros q Hq [n Hn]. assert (map_Forall (λ q _, below (mount_root ++ [key_a; "refs"]) q = true →
      q = ref_of key_a "pod1") (tree_of with_busy_a)) as Hall by decided.
    by rewrite (Hall q n Hn Hq).
  - exact (surjective_pairing failed).
  - vm_compute; reflexivity.
  - change (globalMountPath key_a ∈ mount_points (nodeHost failed.2)). decided.
  - split; [exact He|]. split; [|change (globalMountPath key_a ∈ mount_points (nodeHost (idle failed.2))); decided]. apply Hretry.
    + apply idle_tree.
    + vm_compute; reflexivity.
    + decided.
    + exists None. split; [vm_compute; reflexivity|exact I].
    + split; vm_compute; reflexivity.
Defined.
