(* ===== verification/EndToEnd.v ===== *)
(** * From the controller to the pod

    The volume context is all that the controller server tells the node servers about a volume.  Kubernetes passes it on with
    keys of its own; what the node mounts is the instance that the controller created. *)
From S2P Require Import Prelude GoStr Regex GoErr Util Instance Params Csi Driver Service Controller ControllerSpec Network Sha256 Json FS Node NodeHost NodeFrame NodeSpec.

Local Open Scope string_scope.
Local Open Scope list_scope.
Local Open Scope Z_scope.

(** The keys that Kubernetes adds: prefixed ones, each in one spelling. *)
Definition k8s_keys (extra : gmap string string) : Prop :=
  (∀ k v, extra !! k = Some v → isK8sKey (normalize k) = true) ∧
  (∀ k1 k2 v1 v2, extra !! k1 = Some v1 → extra !! k2 = Some v2 → normalize k1 = normalize k2 → k1 = k2).

Lemma instance_context j k : VolumeContext (instanceToCSIVolume j) !! k =
  if decide (k = keyInstanceIP) then Some (Instance.IP j) else if decide (k = keyFilesystem) then Some (Filesystem j) else None.
Proof.
  cbn [instanceToCSIVolume VolumeContext].
  destruct (decide (k = keyInstanceIP)) as [->|Hip]; [apply lookup_insert_eq|]. rewrite lookup_insert_ne by done.
  destruct (decide (k = keyFilesystem)) as [->|Hfs]; [apply lookup_singleton_eq|by apply lookup_singleton_ne].
Qed.

Section context.
Context `{MapRange}.
Context (j : ServiceInstance) (extra : gmap string string) (Hextra : k8s_keys extra).

Abbreviation context := (VolumeContext (instanceToCSIVolume j) ∪ extra).

(** A context that the controller made is accepted, or Kubernetes' keys are to blame. *)
Lemma context_lookup vc key :
  normalizeVolumeContext context = Ok vc → normalize key = key → isK8sKey key = false →
  vc !! key = VolumeContext (instanceToCSIVolume j) !! key.
Proof.
  intros Hvc Hn Hk. destruct Hextra as [Hall _].
  assert (∀ v, vc !! key = Some v ↔ VolumeContext (instanceToCSIVolume j) !! key = Some v) as Hv.
  { intros v. rewrite <-Hn at 1. rewrite (normalizeVolumeContext_lookup _ _ _ _ Hvc), Hn. split.
    - intros (k & Hnk & [Hl|[_ Hl]]%lookup_union_Some_raw).
      + assert (normalize k = k) as Hid; [|congruence]. rewrite instance_context in Hl.
        case_decide as Hip; [by rewrite Hip|]. case_decide as Hfs; [by rewrite Hfs|done].
      + apply Hall in Hl. congruence.
    - intros Hl. exists key. split; [done|]. apply lookup_union_Some_raw. by left. }
  apply option_eq. exact Hv.
Qed.

Lemma context_source vc r : normalizeVolumeContext context = Ok vc → mount_source vc = Ok r → r = (Instance.IP j, Filesystem j).
Proof.
  intros Hvc. unfold mount_source, get.
  change (normalize keyMountPoint) with keyMountPoint. change (normalize keyInstanceIP) with keyInstanceIP.
  change (normalize keyFilesystem) with keyFilesystem.
  rewrite !(context_lookup vc) by done. rewrite !instance_context.
  rewrite !(decide_False (P := keyMountPoint = _)) by done.
  rewrite (decide_True (P := keyInstanceIP = _)), (decide_False (P := keyFilesystem = keyInstanceIP)), (decide_True (P := keyFilesystem = keyFilesystem)) by done.
  rewrite decide_False by (intros Hs; by apply Hs). cbn. case_decide; [done|]. case_decide; [done|]. by intros [= <-].
Qed.

Lemma context_not_iam vc : normalizeVolumeContext context = Ok vc → get vc (normalize keyIAMAccessControlEnabled) = "".
Proof. intros Hvc. unfold get. rewrite (context_lookup vc) by done. by rewrite instance_context. Qed.
End context.

(** ** Publishing a staged volume *)
Section publish.
Context {S : Type} `{MounterLaws S} `{Netlinker S} `{MapRange}.
Context (driver : LustreDriver).
Implicit Types s : nodeState S.

(** What a publication without IAM leaves: the target mounted, unless before by one bind mount of the staging path, read-only if asked
    for, with the volume's flags once each; every other mount stays. *)
Lemma NodePublishVolume_ok req s s' vc cap :
  NodePublishVolume driver req s = (Ok (), s') →
  normalizeVolumeContext (PubContext req) = Ok vc → PubCapability req = Some cap →
  equal_fold (get vc (normalize keyIAMAccessControlEnabled)) "true" = false →
  mounted (nodeHost s') (PubTargetPath req) ∧
  (∀ p, p ≠ PubTargetPath req → mounted (nodeHost s) p → mounted (nodeHost s') p) ∧
  ((∃ h, MountSensitiveWithoutSystemd (PubStagingPath req) (PubTargetPath req) "lustre"
      (add_flags ("bind" :: (if PubReadonly req then ["ro"] else [])) (mount_flags cap)) h = (Ok (), nodeHost s')) ∨
   ∃ s1 s2, isMounted (PubTargetPath req) s1 = (Ok true, s2) ∧ nodeHost s1 = nodeHost s ∧ nodeHost s' = nodeHost s2).
Proof.
  unfold NodePublishVolume. do 3 (case_decide; [done|]). intros Hr Hvc Hcap Hiam. rewrite Hcap, Hvc in Hr.
  apply bind_inv in Hr as ([] & s1 & [_ ->]%or_status_inv & Hr). cbn [or_status] in Hr.
  apply bind_inv in Hr as (vc' & s1 & Hx & Hr). injection Hx as <- <-. rewrite Hiam in Hr.
  apply locked_on_inv in Hr as (_ & s1 & Hr & ->). cbn [nodeHost nodeOS].
  apply bind_inv in Hr as (d & s2 & Hd%attempt_inv & Hr). destruct d as [[]|]; [|done].
  assert (nodeHost s2 = nodeHost s) as Hh2.
  { unfold makeDir in Hd. apply bind_inv in Hd as (r & s3 & (o & _ & ->)%attempt_inv%sys_inv & Hd).
    destruct r as [|e]; [by injection Hd as <-|]. destruct (negb (is_exist e)); [done|by injection Hd as <-]. }
  apply bind_inv in Hr as (tm & s3 & Hm & Hr). pose proof Hm as (_ & Hothers & Htm)%isMounted_inv. rewrite Hh2 in Hothers.
  apply bind_inv in Hr as ([] & s4 & Hmt & Hr).
  apply bind_inv in Hr as (r & s5 & Hown%attempt_inv & Hr).
  pose proof (attrs_only_ownership (PubTargetPath req)
    (match GetMount cap with Some m => VolumeMountGroup m | None => "" end) (PubReadonly req) s4) as Hao.
  unfold state_after in Hao. rewrite Hown in Hao. destruct Hao as (Hh & _).
  destruct r; [|by apply bind_inv in Hr as (? & ? & _ & ?)]. injection Hr as <-. cbn [snd] in *. rewrite Hh.
  destruct tm; cbn [negb] in Hmt.
  - injection Hmt as <-. split_and!; [by apply Htm|done|]. right. eauto.
  - apply bind_inv in Hmt as (r & s6 & (h & Hmt & ->)%attempt_inv%host_inv & Hx). destruct r as [[]|]; [|done].
    injection Hx as <-. cbn. split_and!; [by eapply mount_mounts| |by left; eexists].
    intros p Hp Hpm. apply Hothers in Hpm; [|done]. eapply mount_keeps in Hpm. unfold state_after in Hpm. by rewrite Hmt in Hpm.
Qed.
End publish.

(** ** The volume of an instance *)
Section volume.
Context {S : Type} `{MounterLaws S} `{Netlinker S} `{MapRange}.
Context (driver : LustreDriver) (j : ServiceInstance) (extra : gmap string string) (Hextra : k8s_keys extra).
Implicit Types s : nodeState S.

Abbreviation context := (VolumeContext (instanceToCSIVolume j) ∪ extra).

(** What is known when a request got past its context. *)
Lemma stage_context req s s' :
  NodeStageVolume driver req s = (Ok (), s') →
  ∃ vc r, normalizeVolumeContext (StageContext req) = Ok vc ∧ mount_source vc = Ok r.
Proof.
  unfold NodeStageVolume. case_decide; [done|].
  intros (vc & s1 & [Hvc ->]%or_status_inv & (r & s2 & [Hr ->]%or_status_inv & _)%bind_inv)%bind_inv. eauto.
Qed.

Lemma publish_context req s s' :
  NodePublishVolume driver req s = (Ok (), s') → ∃ vc, normalizeVolumeContext (PubContext req) = Ok vc.
Proof.
  unfold NodePublishVolume. do 3 (case_decide; [done|]). destruct (PubCapability req); [|done].
  intros ([] & s1 & [_ ->]%or_status_inv & (vc & s2 & [Hvc ->]%or_status_inv & _)%bind_inv)%bind_inv. eauto.
Qed.

Lemma stage_instance req cap s s' :
  StageContext req = context → StageCapability req = Some cap → NodeStageVolume driver req s = (Ok (), s') →
  mounted (nodeHost s') (StageTargetPath req) ∧
  (nodeHost s' = nodeHost s ∨
   ∃ h, MountSensitiveWithoutSystemd (lustre_source (Instance.IP j) (Filesystem j)) (StageTargetPath req) "lustre"
     (add_flags [] (mount_flags cap)) h = (Ok (), nodeHost s')).
Proof.
  intros Hc Hcap Hr. pose proof Hr as (vc & r & Hvc & Hsrc)%stage_context. rewrite Hc in Hvc.
  pose proof (context_source _ _ Hextra _ _ Hvc Hsrc) as ->. pose proof (context_not_iam _ _ Hextra _ Hvc) as Hi.
  rewrite <-Hc in Hvc. eapply NodeStageVolume_ok in Hr as [Hm Hh]; [|exact Hvc|exact Hsrc|by rewrite Hi|exact Hcap].
  split; [done|]. destruct Hh as [?|(_ & _ & h & _ & _ & ?)]; eauto.
Qed.

Lemma publish_instance req cap s s' :
  PubContext req = context → PubCapability req = Some cap → NodePublishVolume driver req s = (Ok (), s') →
  mounted (nodeHost s') (PubTargetPath req) ∧
  (∀ p, p ≠ PubTargetPath req → mounted (nodeHost s) p → mounted (nodeHost s') p) ∧
  ((∃ h, MountSensitiveWithoutSystemd (PubStagingPath req) (PubTargetPath req) "lustre"
      (add_flags ("bind" :: (if PubReadonly req then ["ro"] else [])) (mount_flags cap)) h = (Ok (), nodeHost s')) ∨
   ∃ s1 s2, isMounted (PubTargetPath req) s1 = (Ok true, s2) ∧ nodeHost s1 = nodeHost s ∧ nodeHost s' = nodeHost s2).
Proof.
  intros Hc Hcap Hr. pose proof Hr as [vc Hvc]%publish_context. rewrite Hc in Hvc.
  pose proof (context_not_iam _ _ Hextra _ Hvc) as Hi. rewrite <-Hc in Hvc.
  eapply NodePublishVolume_ok; [exact Hr|exact Hvc|exact Hcap|]. by rewrite Hi.
Qed.
End volume.

(** ** The whole way *)
Section end_to_end.
Context {C : Type} `{LustreServiceLaws C} {S : Type} `{MounterLaws S} `{Netlinker S} `{MapRange}.
Context (controller node : LustreDriver) (cloud : Cloud).

(** Claim C4.  From the controller to the pod: a volume that [CreateVolume] reports, whose context Kubernetes passes on with keys
    of its own, when staged and published with success is mounted at the staging and the target path; unless something
    was mounted there before, the mount at the staging path is that of the address and the filesystem of the instance that the cloud
    has under the requested name, and the one at the target binds the staging path. *)
Theorem created_volume_reaches_pod creq cs vol cs' name params inst sreq preq staged_with published_with scap pcap ns ns1 ns2 :
  CreateVolume controller cloud creq cs = (Ok (Some vol), cs') →
  create_args controller cloud creq = Ok (name, params, inst) → identified inst →
  StageContext sreq = VolumeContext vol ∪ staged_with → k8s_keys staged_with → StageCapability sreq = Some scap →
  PubContext preq = VolumeContext vol ∪ published_with → k8s_keys published_with → PubCapability preq = Some pcap →
  PubStagingPath preq = StageTargetPath sreq → PubTargetPath preq ≠ StageTargetPath sreq →
  NodeStageVolume node sreq ns = (Ok (), ns1) → NodePublishVolume node preq ns1 = (Ok (), ns2) →
  ∃ j, GetInstance inst (service cs') = (Ok j, service cs') ∧ Project j = Project inst ∧ Location j = Location inst ∧ Name j = Name inst ∧
    mounted (nodeHost ns2) (StageTargetPath sreq) ∧ mounted (nodeHost ns2) (PubTargetPath preq) ∧
    (nodeHost ns1 = nodeHost ns ∨
     ∃ h, MountSensitiveWithoutSystemd (lustre_source (Instance.IP j) (Filesystem j)) (StageTargetPath sreq) "lustre"
       (add_flags [] (mount_flags scap)) h = (Ok (), nodeHost ns1)) ∧
    ((∃ h, MountSensitiveWithoutSystemd (StageTargetPath sreq) (PubTargetPath preq) "lustre"
       (add_flags ("bind" :: (if PubReadonly preq then ["ro"] else [])) (mount_flags pcap)) h = (Ok (), nodeHost ns2)) ∨
     ∃ s1 s2, isMounted (PubTargetPath preq) s1 = (Ok true, s2) ∧ nodeHost s1 = nodeHost ns1 ∧ nodeHost ns2 = nodeHost s2).
Proof.
  intros Hc Ha Hid Hsc Hsk Hscap Hpc Hpk Hpcap Hst Hne Hstage Hpub.
  apply CreateVolume_ok in Hc as (name' & params' & inst' & s1 & Ha' & _ & Hcr & ->). rewrite Ha in Ha'. injection Ha' as <- <- <-.
  apply created_identity in Hcr as (j & -> & (Ep & El & En) & _ & _ & _ & Hget); [|done].
  destruct (stage_instance node j staged_with Hsk _ _ _ _ Hsc Hscap Hstage) as [Hms Hs].
  destruct (publish_instance node j published_with Hpk _ _ _ _ Hpc Hpcap Hpub) as (Hmp & Hkeep & Hp).
  rewrite Hst in Hp. exists j. split_and!; first [exact Hget|done|by apply Hkeep].
Qed.
End end_to_end.

(** ** On the fake cloud and the node in memory *)
#[local] Existing Instance Fake.service.
#[local] Existing Instance Fake.laws.
Definition e2e_pvc : gmap string string := {["storage.kubernetes.io/csiProvisionerIdentity" := "42-lustre.csi.storage.gke.io"]}.
Definition e2e_stage : NodeStageVolumeRequest :=
  {| StageVolumeId := VolumeId ex_volume; StageTargetPath := "/staging/v"; StageCapability := Some stage_cap;
     StageContext := VolumeContext ex_volume ∪ e2e_pvc |}.
Definition e2e_publish : NodePublishVolumeRequest :=
  {| PubVolumeId := VolumeId ex_volume; PubStagingPath := "/staging/v"; PubTargetPath := target_of "pod1" "v";
     PubCapability := Some stage_cap; PubReadonly := true; PubContext := VolumeContext ex_volume ∪ e2e_pvc |}.
Definition e2e_staged : nodeState host_state := state_after (NodeStageVolume node_driver e2e_stage) fresh_node.
Definition e2e_published : nodeState host_state := state_after (NodePublishVolume node_driver e2e_publish) e2e_staged.

Lemma e2e_pvc_keys : k8s_keys e2e_pvc.
Proof.
  unfold e2e_pvc. split.
  - intros k v [<- _]%lookup_singleton_Some. vm_compute; reflexivity.
  - intros k1 k2 v1 v2 [<- _]%lookup_singleton_Some [<- _]%lookup_singleton_Some _. done.
Qed.

Lemma created_volume_reaches_pod_witness :
  ∃ j, GetInstance ex_inst (service ex_after) = (Ok j, service ex_after) ∧ Project j = Project ex_inst ∧
    Location j = Location ex_inst ∧ Name j = Name ex_inst ∧
    mounted (nodeHost e2e_published) "/staging/v" ∧ mounted (nodeHost e2e_published) (target_of "pod1" "v") ∧
    (nodeHost e2e_staged = nodeHost fresh_node ∨
     ∃ h, MountSensitiveWithoutSystemd (lustre_source (Instance.IP j) (Filesystem j)) "/staging/v" "lustre"
       (add_flags [] (mount_flags stage_cap)) h = (Ok (), nodeHost e2e_staged)) ∧
    ((∃ h, MountSensitiveWithoutSystemd "/staging/v" (target_of "pod1" "v") "lustre"
       (add_flags ["bind"; "ro"] (mount_flags stage_cap)) h = (Ok (), nodeHost e2e_published)) ∨
     ∃ s1 s2, isMounted (target_of "pod1" "v") s1 = (Ok true, s2) ∧ nodeHost s1 = nodeHost e2e_staged ∧
       nodeHost e2e_published = nodeHost s2).
Proof.
  refine (created_volume_reaches_pod ex_driver node_driver ex_cloud (ex_request "New-Vol") ex_state ex_volume ex_after
    "new-vol" ex_params ex_inst e2e_stage e2e_publish e2e_pvc e2e_pvc stage_cap stage_cap fresh_node e2e_staged e2e_published
    _ _ _ eq_refl e2e_pvc_keys eq_refl eq_refl e2e_pvc_keys eq_refl eq_refl _ _ _).
  - runs (CreateVolume ex_driver ex_cloud (ex_request "New-Vol")) ex_state (@Ok goerr _ (Some ex_volume)).
  - vm_compute; reflexivity.
  - decided.
  - decided.
  - runs (NodeStageVolume node_driver e2e_stage) fresh_node (@Ok goerr _ ()).
  - runs (NodePublishVolume node_driver e2e_publish) e2e_staged (@Ok goerr _ ()).
Defined.
