(* ===== verification/Concurrency.v ===== *)
(** * Requests that run at the same time

    The handlers of a server run in goroutines of their own and exclude each other with the volume locks
    (Util.v, pkg/util/volume_lock.go), whose operations a mutex makes atomic.  A handler is here what it does
    with them: it asks for a key, is refused or goes on with the key, and releases its keys in reverse
    order, as its deferred calls do; the steps of all handlers interleave in any way. *)
From S2P Require Import Prelude GoStr GoErr Util.
From stdpp Require Import functions relations.

Local Open Scope string_scope.
Local Open Scope list_scope.

(** The locks, and the keys every handler holds, the last acquired first. *)
Record server : Type := MkServer {
  locks : gset string;
  held : nat → list string;
}.

Definition idle : server := MkServer VolumeLocks.NewVolumeLocks (λ _, []).

Inductive lock_step : server → server → Prop :=
| step_acquire s (h : nat) key l :
    VolumeLocks.TryAcquire key (locks s) = (true, l) →
    lock_step s (MkServer l (<[h := key :: held s h]> (held s)))
| step_refuse s (h : nat) key l :
    VolumeLocks.TryAcquire key (locks s) = (false, l) →
    lock_step s (MkServer l (held s))
| step_release s (h : nat) key keys :
    held s h = key :: keys →
    lock_step s (MkServer (VolumeLocks.Release key (locks s)) (<[h := keys]> (held s))).

(** The locks are the keys that are held, each by one handler and once. *)
Record lock_invariant (s : server) : Prop := {
  locks_held key : key ∈ locks s ↔ ∃ h, key ∈ held s h;
  held_once h : NoDup (held s h);
  held_apart h h' key : key ∈ held s h → key ∈ held s h' → h = h';
}.

Lemma idle_invariant : lock_invariant idle.
Proof. split; cbn; [set_solver|constructor|set_solver]. Qed.

Section invariant.
Context (s : server) (Hs : lock_invariant s).

Lemma acquire_invariant h key l :
  VolumeLocks.TryAcquire key (locks s) = (true, l) → lock_invariant (MkServer l (<[h := key :: held s h]> (held s))).
Proof.
  destruct Hs as [Hl Hn Ha]. unfold VolumeLocks.TryAcquire. case_decide as Hin; [done|]. intros [= <-].
  assert (∀ h', key ∉ held s h') as Hfree by (intros h' ?; apply Hin, Hl; eauto).
  assert (∀ h' k, k ∈ <[h := key :: held s h]> (held s) h' ↔ k ∈ held s h' ∨ h' = h ∧ k = key) as Hh.
  { intros h' k. destruct (decide (h' = h)) as [->|]; [rewrite fn_lookup_insert; set_solver|].
    rewrite fn_lookup_insert_ne by done. naive_solver. }
  split; cbn.
  - intros k. setoid_rewrite Hh. rewrite elem_of_union, elem_of_singleton, Hl. naive_solver.
  - intros h'. destruct (decide (h' = h)) as [->|]; [rewrite fn_lookup_insert; by constructor|].
    rewrite fn_lookup_insert_ne by done. apply Hn.
  - intros h1 h2 k. rewrite !Hh. naive_solver.
Qed.

Lemma release_invariant h key keys :
  held s h = key :: keys →
  lock_invariant (MkServer (VolumeLocks.Release key (locks s)) (<[h := keys]> (held s))).
Proof.
  destruct Hs as [Hl Hn Ha]. intros Hk. unfold VolumeLocks.Release.
  pose proof (Hn h) as Hnh. rewrite Hk in Hnh. apply NoDup_cons in Hnh as [Hnk Hnh].
  assert (key ∈ held s h) as Hkey by (rewrite Hk; set_solver).
  assert (∀ h' k, k ∈ <[h := keys]> (held s) h' ↔ k ∈ held s h' ∧ k ≠ key) as Hh.
  { intros h' k. destruct (decide (h' = h)) as [->|Hne]; [rewrite fn_lookup_insert, Hk; set_solver|].
    rewrite fn_lookup_insert_ne by done. split; [|tauto]. intros Hin. split; [done|]. intros ->. by apply Hne, (Ha _ _ key). }
  split; cbn.
  - intros k. setoid_rewrite Hh. rewrite elem_of_difference, elem_of_singleton, Hl. naive_solver.
  - intros h'. destruct (decide (h' = h)) as [->|]; [by rewrite fn_lookup_insert|]. rewrite fn_lookup_insert_ne by done. apply Hn.
  - intros h1 h2 k. rewrite !Hh. naive_solver.
Qed.
End invariant.

Lemma step_invariant s s' : lock_invariant s → lock_step s s' → lock_invariant s'.
Proof.
  intros Hs Hst. destruct Hst as [s h key l Ht|s h key l Ht|s h key keys Hk].
  - by apply acquire_invariant.
  - unfold VolumeLocks.TryAcquire in Ht. case_decide; [|done]. injection Ht as <-. by destruct s.
  - by apply release_invariant.
Qed.

Lemma reachable_invariant s : rtc lock_step idle s → lock_invariant s.
Proof.
  intros Hr. cut (lock_invariant idle); [|apply idle_invariant]. induction Hr; [done|]. eauto using step_invariant.
Qed.

(** Claim C21. However the steps of the handlers interleave, no two of them hold the same key at a time, and a
    key can be had exactly when no handler holds it: it is neither taken twice nor lost. *)
Theorem locks_exclude s :
  rtc lock_step idle s →
  (∀ h h' key, key ∈ held s h → key ∈ held s h' → h = h') ∧
  (∀ key, (VolumeLocks.TryAcquire key (locks s)).1 = true ↔ ∀ h, key ∉ held s h).
Proof.
  intros [Hl _ Ha]%reachable_invariant. split; [done|]. intros key. unfold VolumeLocks.TryAcquire.
  case_decide as Hin; cbn; rewrite Hl in Hin; naive_solver.
Qed.

(** Two handlers, of which the first has the key of the second's volume. *)
Lemma locks_exclude_witness :
  let s := MkServer {["vol"]} (<[1%nat := ["vol"]]> (λ _, [])) in
  rtc lock_step idle s ∧
  (∀ h h' key, key ∈ held s h → key ∈ held s h' → h = h') ∧
  (∀ key, (VolumeLocks.TryAcquire key (locks s)).1 = true ↔ ∀ h, key ∉ held s h).
Proof.
  cbn zeta.
  assert (rtc lock_step idle (MkServer {["vol"]} (<[1%nat := ["vol"]]> (λ _, [])))) as Hr.
  { apply rtc_once. by apply (step_acquire idle 1 "vol"). }
  split; [exact Hr|]. exact (locks_exclude _ Hr).
Defined.
